(* ===== verification/_CoqProject ===== *)
-Q . S2P
Prelude.v
Huffman.v
HeaderTable.v
HpackEncode.v
HpackDecode.v
HpackChunks.v
HpackSync.v
Types.v
Settings.v
StreamState.v
FlowControl.v
StreamWrite.v
WriteQueue.v
HttpHeader.v
FrameWriter.v
FrameReader.v
FrameRoundtrip.v
HeaderBlock.v
HeaderRoundtrip.v
WireSession.v
ReaderAdvance.v
Conn.v
ConnIO.v
ConnInv.v
ConnSafety.v
ConnOps.v
ConnRun.v
Upgrade.v
Handshake.v
ConnSystem.v
ConnLoop.v
ConnTheorems.v
ConnSettings.v
HandshakeTheorems.v
HandshakePair.v
BodyRead.v
Text.v
Dial.v
