(* ===== verification/Prelude.v ===== *)
(** * Verification of an HTTP/2 library written in Go

    The library under [src/] implements HTTP/2 connections (RFC 7540) with header
    compression (RFC 7541).  Bytes from the network reach [frameReader] ([read.go]),
    which splits them into frames and feeds header blocks to the HPACK [Decoder]
    ([hpack/hpack.go], with the tables of [hpack/table.go] and the Huffman code of
    [hpack/huffman.go]); the decoder calls [Header.add] ([util.go]) for each field.  [Conn]
    ([conn.go]) dispatches the frames to its streams ([stream.go]), which keep a state word
    and two flow controllers ([flow_control.go]).  Frames to be sent go through the write
    queue ([conn.go]) to the write loop and [frameWriter] ([write.go]) with the HPACK
    [Encoder].  Before the first frame [Handshake] runs the preface exchange of
    [server.go] and [client.go], over TLS or after an upgrade from HTTP/1.1.

    ** Files

    - [Prelude]: bytes, Go strings, integer widths, outcomes (value, error, panic), bit
      strings, reachability, tactics and shared lemmas.
    - [Huffman]: [hpack/huffman.go], the code table, encoder, tree and decoder.
    - [HeaderTable]: [hpack/table.go], the static table and the dynamic [headerTable].
    - [HpackEncode], [HpackDecode]: the two halves of [hpack/hpack.go].
    - [HpackChunks]: [Decoder.Decode] on a block that arrives in pieces.
    - [HpackSync]: encoder and decoder together over the life of a connection.
    - [Types], [Settings]: [http2.go] and the settings of [util.go].
    - [StreamState]: the state machine of [stream.go] and its compare-and-swap loops.
    - [FlowControl]: [flow_control.go], both controllers and [allocateBytes].
    - [StreamWrite]: [stream.write], its chunks by credit, and one call of
      [allocateBytes] as a run of the concurrent model.
    - [WriteQueue]: [writeQueue] of [conn.go] with the receives of the write loop.
    - [HttpHeader]: [Header] of [util.go] and the canonical form of keys.
    - [FrameWriter], [FrameReader]: [write.go] and [read.go].
    - [FrameRoundtrip]: writing against reading, and the frames that are refused.
    - [HeaderBlock], [HeaderRoundtrip]: the fragments of a header block and the CONTINUATION
      frames that carry them, from [HeadersFrame.writeTo] to [ReadFrame].
    - [WireSession]: sequences of frames of all kinds, with the HPACK tables in step.
    - [ReaderAdvance]: every call of [ReadFrame] moves forward on the input.
    - [Conn]: the state of [Conn] and its streams, [compareAndSwapState] with its effects,
      [idleStream], [NextStreamID], [applySettings] and the initial windows
      ([conn.go], [stream.go], [flow_control.go]).
    - [ConnIO]: [writeFrame], [readFrame], [handleErr], [writeLoop] with [stream.writeTo],
      the body reader [data], [close] and [CloseTimeout] ([conn.go], [stream.go]).
    - [ConnInv]: the invariant [conn_ok], [goaway_ok], how a connection [evolves], and that
      a compare-and-swap preserves them.
    - [ConnSafety], [ConnOps], [ConnRun]: the same for every operation, with what each needs
      in order not to panic ([fine]).
    - [Upgrade]: headers of [net/http] ([addHeader], [requestToHeader], [splitHeader],
      [containsValue] of [util.go]), the HTTP2-Settings field, and the TLS configurations:
      [cloneTLSConfig], [cloneTLSClientConfig], [initTLSConfig].
    - [Handshake]: [serverHandshake], [serverUpgrade], [clientHandshake], [clientUpgrade],
      [Handshake] with its timeout, and the public [WriteFrame] and [ReadFrame].
    - [ConnSystem]: all operations of a connection as one step relation, and reachability.
    - [ConnLoop]: only its own rounds move the write loop.
    - [ConnTheorems], [ConnSettings], [HandshakeTheorems]: what the connection, its settings
      and the handshake guarantee.
    - [HandshakePair]: a client's and a server's handshake against each other.
    - [BodyRead]: the application's reads of a body, from the wire to the windows.
    - [Text]: the [String] and [Error] methods of [util.go] and [conn.go].
    - [Dial]: [Dialer.Dial], [ClientConn], [ServerConn], [Serve], [ListenAndServe] and
      [ListenAndServeTLS] ([client.go], [server.go]).

    ** How the code is modelled

    Functions keep the names of the source where the names are free; a method [m] of a
    type [T] is [T_m] or carries a short prefix ([fc_] for [flowController], [rf_] for
    [remoteFlowController], [wq_] for [writeQueue], [fw_] and [fr_] for the frame writer
    and reader).  Structs are records, state is passed explicitly or, where many calls
    thread it, in a state, error and panic monad.  Unsigned integers are [Z] with their
    wrap-around written out ([u8], [u16], [u32], [u64]); Go's [int] has 64 bits, its values
    here stay far below that.  A run-time panic is the value [None] or [Panic], never left
    out.  Loops that are not structural have a fuel argument, the bound is stated where the
    loop is called and is proved sufficient: an encoded 64-bit integer has ten bytes, a
    Huffman code word loses at least a bit per round, a decoding step takes at least a byte
    ([decode_terminates]), a DATA frame and a chunk carry at least a byte of data or padding, a
    header fragment shrinks its buffer, a frame has nine bytes, and a round of [readFrame]
    takes at least a byte off the input, so that the length of the input and one is enough
    ([readFrame_terminates]).  [handleErr] and [writeFrame] call each other to depth two: the
    error of a refused RST_STREAM is not a stream error.

    Concurrency is modelled where the code is concurrent: the accesses to a stream's state
    word, the allocations from the shared send windows, and the write queue are step
    relations whose steps are the code's atomic actions (an atomic access, a critical
    section, a channel operation), and the theorems quantify over all interleavings.  The
    connection is a coarser step relation, [conn_step]: an operation runs until it returns or
    waits, in any order with the others; [stream.write] is cut where it waits for credit and
    for the answer of the write loop, and the write loop has a state of its own, so that it
    can block.  [NextStreamID] is cut into the cases of its select, the timer among them.
    Streams are objects in a store, because handlers and the body reader keep pointers to
    streams that have left the map.

    Three conditions limit the runs of a connection: the frames that are written do not name
    one of the two largest 32-bit identifiers, which the code does not check and after which
    its counter wraps around ([wide_id_wraps]); a body is read only when one was given out;
    and a server takes an upgrade request before it has sent a GOAWAY.  A peer's frames need
    no condition: what is read has 31-bit identifiers.

    Interfaces: [CreditPool] is what [allocateBytes] relies on from a send window,
    [Allocator] what [stream.write] relies on from [allocateBytes], and [Sink] what the
    frame writer relies on from the [io.Writer] below it; the theorems of
    the clients are proved against them, and the code's types are instances.  [ConnEnv] is
    what a connection takes from outside: the sink and its flush, the order of map iteration
    (any permutation), the text of errors, which errors are network errors, the growth of
    slices.  [HttpEnv] is what the handshake takes from [net/http] and [crypto/tls]: the
    requests and responses that are read, with the rest of the input a suffix of it.
    [NetEnv] is what dialling and listening take from [net] and [crypto/tls]: a dialled
    transport, a listener's connections, the state a TLS handshake leaves, the check of a
    host name, a key pair.  [list_env], [no_http] and [sample_net] are instances for
    examples.  The Unicode part of [strings.ToLower], [strings.EqualFold] and
    [strings.TrimSpace] are parameters.

    ** What is proved

    - Header compression: Huffman coding, integers and strings round-trip; the decoder is
      total; the dynamic table respects its bound and evicts the oldest entries first;
      lookups are exact ([find_exact]); a block decodes alike in any chunks; over any sequence of resizes
      and blocks the decoder reproduces the encoder's fields and both agree on sizes.
    - Streams: a transition is accepted where the RFC allows the frame, two exceptions named,
      and then takes the frame's path in the RFC's diagram ([transition_refines_rfc]); no interleaving reopens a
      stream or closes its channel twice; the stream counter is exact; no call spins.
    - Flow control: the receive window refines a ledger and keeps the peer sending; no
      interleaving sends more than the peer granted; credit of a stream is never stranded.
      [stream.write], if its waits are answered, sends its data in order in chunks whose data
      and padding use exactly the credit taken, and sends nothing after END_STREAM.
    - The write queue is two queues without loss or starvation at the end, and the loop does
      not wait in its receive while a frame is queued.
    - Frames: what is written is read back, DATA also when it is cut into frames, header
      blocks whatever the order of map iteration and however they are cut into CONTINUATION
      frames ([header_frame_roundtrip]), and so is any session of such frames, with the HPACK
      tables in step from frame to frame ([wire_session_roundtrip]); malformed frame headers
      are refused with the error the RFC asks for, a GOAWAY that is too short apart
      ([frame_header_refused]).
    - Settings: [SetValue] accepts exactly the RFC's values ([settings_laws]).
    - The connection, in every reachable state and for every order of its operations: the
      map, the states, the flow controllers, the identifiers and the counters agree
      ([reachable_invariant]); streams, identifiers and GOAWAYs only move forward
      ([run_evolves]), and no identifier is used twice ([stream_ids_fresh], [nextID_usable]);
      reading and writing frames panics only in the cases that are named
      ([dispatch_no_panic], [write_no_panic]); GOAWAY closes exactly the streams it has to
      and stops new ones; [close] takes effect once; settings take effect on their side and
      move exactly the windows they concern, by the difference to the old value
      ([initial_window_moves]); [readFrame] returns ([readFrame_terminates]); the bytes of DATA reach the
      application and return to the windows ([data_delivered]).
    - The handshake: what a server demands before it succeeds, a bad preface is answered
      with GOAWAY and stays an error, the upgrade request that a client makes is taken by a
      server, with the client's settings ([upgrade_agrees]), what either end writes makes the other's handshake succeed ([handshakes_meet]), and a
      timeout is final ([handshake_timeout_final]).
    - Dialling and listening: a connection that [Dial] returns from its own TLS dialling speaks
      HTTP/2 with a peer whose name was checked ([dial_tls_secure]), and if it fails nothing
      is left open ([dial_failure_closes]; a [DialTLS] callback is on its own), the address splits into the host and port that were meant
      ([joinHostPort_splits]), a TLS listener offers what HTTP/2 needs
      ([listen_tls_configured]).
    - Text: codes, settings, frame types and errors have different texts.
    - Where the code departs from its comments or from the RFC the theorem states what it
      does: [write_loop_blocks] (a reset while a frame is queued stops the write loop for
      ever), [window_update_panics], [upgrade_zero_streams_panics], [conn_credit_stall],
      [pad_length_uncounted], [empty_field_name_panics], [truncated_frame_panics],
      [pseudo_only_header_not_written], [te_check_misses], [empty_values_extra_frame],
      [wide_id_wraps], [settings_not_first] (frames that are dropped may precede SETTINGS).

    ** What is not modelled, and the plan

    Not modelled: the durations of timers (a timer may fire at any moment); the getters of
    addresses; TCP no-delay and the closing of the listener, which only reach the operating
    system; [net/http], [net] and [crypto/tls] themselves, of which the classes above say what
    the code relies on.  Priorities are parsed and dropped by the code ([setPriority]).

    Planned: the invariant of the HPACK tables as part of the connection's, so that resizing
    them never panics in a reachable state ([dispatch_no_panic] names it as an exception). *)

From Stdlib Require Import ZArith Lia.
From Stdlib Require Strings.Byte.
From stdpp Require Export prelude gmap list strings.

#[global] Open Scope Z_scope.

(** ** Bytes, Go strings and machine-width integers *)

Abbreviation byte := Corelib.Init.Byte.byte.

(** The unsigned value of a byte. *)
Definition bz (b : byte) : Z := Z.of_N (Byte.to_N b).

(** Go's conversion [byte(x)]: the low eight bits. *)
Definition zb (z : Z) : byte :=
  default Byte.x00 (Byte.of_N (Z.to_N (z mod 256))).

(** A Go [string] or [[]byte]: an immutable or exclusively owned byte sequence. *)
Abbreviation gostring := (list byte).

Definition str (s : string) : gostring := String.list_byte_of_string s.

(** Go's conversions to the unsigned types. *)
Definition u8 (x : Z) : Z := x mod 2 ^ 8.
Definition u16 (x : Z) : Z := x mod 2 ^ 16.
Definition u32 (x : Z) : Z := x mod 2 ^ 32.
Definition u64 (x : Z) : Z := x mod 2 ^ 64.

Definition zlen {A} (l : list A) : Z := Z.of_nat (length l).

#[global] Instance byte_eq_decision : EqDecision byte := Byte.byte_eq_dec.
#[global] Instance byte_countable : Countable byte :=
  inj_countable Byte.to_N Byte.of_N Byte.of_to_N.

(** ** Bit strings, most significant bit first *)

Fixpoint zbits (n : nat) (z : Z) : list bool :=
  match n with
  | O => []
  | S m => Z.testbit z (Z.of_nat m) :: zbits m z
  end.

Fixpoint bits_z_acc (acc : Z) (l : list bool) : Z :=
  match l with
  | [] => acc
  | b :: l => bits_z_acc (2 * acc + Z.b2z b) l
  end.

Definition bits_z (l : list bool) : Z := bits_z_acc 0 l.

Definition byte_bits (b : byte) : list bool := zbits 8 (bz b).

Definition bytes_bits (l : list byte) : list bool := l ≫= byte_bits.

(** ** Outcomes of Go code that may return an error or panic *)

Inductive outcome (E A : Type) : Type :=
| Ok (a : A)
| Err (e : E)
| Panic.
Arguments Ok {E A} a.
Arguments Err {E A} e.
Arguments Panic {E A}.

(** ** Automation *)

Create Rewrite HintDb h2.
Create HintDb h2arith.

Ltac unwrap := unfold u8, u16, u32, u64, zlen in *.

(** Case analysis on every boolean comparison on [Z] in sight. *)
Ltac zcases :=
  repeat match goal with
  | H : context [Z.ltb ?a ?b] |- _ => destruct (Z.ltb_spec a b)
  | H : context [Z.leb ?a ?b] |- _ => destruct (Z.leb_spec a b)
  | H : context [Z.eqb ?a ?b] |- _ => destruct (Z.eqb_spec a b)
  | |- context [Z.ltb ?a ?b] => destruct (Z.ltb_spec a b)
  | |- context [Z.leb ?a ?b] => destruct (Z.leb_spec a b)
  | |- context [Z.eqb ?a ?b] => destruct (Z.eqb_spec a b)
  end.

(** ** Reachability *)

(** A property every step preserves holds in every state reached from one that has it. *)
Lemma rtc_preserves {A} (R : relation A) (P : A -> Prop) x y :
  (forall a b, R a b -> P a -> P b) -> rtc R x y -> P x -> P y.
Proof. intros Hstep. induction 1; eauto. Qed.

(** ** Lemmas on bytes and widths *)

Lemma bz_range b : 0 <= bz b < 256.
Proof. unfold bz. pose proof (Byte.to_N_bounded b). lia. Qed.

Lemma bz_zb z : bz (zb z) = z mod 256.
Proof.
  unfold bz, zb. pose proof (Z.mod_pos_bound z 256 ltac:(lia)).
  destruct (Byte.of_N (Z.to_N (z mod 256))) as [b|] eqn:E; simpl.
  - apply Byte.to_of_N in E. rewrite E. lia.
  - apply Byte.of_N_None_iff in E. lia.
Qed.

Lemma zb_bz b : zb (bz b) = b.
Proof.
  unfold zb. rewrite Z.mod_small by apply bz_range.
  unfold bz. by rewrite N2Z.id, Byte.of_to_N.
Qed.

Lemma bz_inj a b : bz a = bz b -> a = b.
Proof. intros H. rewrite <- (zb_bz a), <- (zb_bz b). by f_equal. Qed.

Lemma bz_zb_small z : 0 <= z < 256 -> bz (zb z) = z.
Proof. intros. rewrite bz_zb. by apply Z.mod_small. Qed.

Lemma zb_mod z : zb (z mod 256) = zb z.
Proof. apply bz_inj. rewrite !bz_zb. by rewrite Z.mod_mod. Qed.

Lemma zlen_nonneg {A} (l : list A) : 0 <= zlen l.
Proof. unfold zlen. lia. Qed.

Lemma zlen_app {A} (l k : list A) : zlen (l ++ k) = zlen l + zlen k.
Proof. unfold zlen. rewrite length_app. lia. Qed.

Lemma zlen_cons {A} (x : A) l : zlen (x :: l) = 1 + zlen l.
Proof. unfold zlen. simpl. lia. Qed.

Lemma zlen_nil {A} : zlen (@nil A) = 0.
Proof. reflexivity. Qed.

#[export] Hint Rewrite @zlen_app @zlen_cons @zlen_nil : h2.

Lemma u32_small x : 0 <= x < 2 ^ 32 -> u32 x = x.
Proof. apply Z.mod_small. Qed.

Lemma u64_small x : 0 <= x < 2 ^ 64 -> u64 x = x.
Proof. apply Z.mod_small. Qed.

Lemma u8_small x : 0 <= x < 2 ^ 8 -> u8 x = x.
Proof. apply Z.mod_small. Qed.

Lemma u32_range x : 0 <= u32 x < 2 ^ 32.
Proof. apply Z.mod_pos_bound. lia. Qed.

(** ** Lemmas on bit strings *)

Lemma zbits_length n z : length (zbits n z) = n.
Proof. induction n; simpl; lia. Qed.

Lemma zbits_ext n a b :
  (forall i, 0 <= i < Z.of_nat n -> Z.testbit a i = Z.testbit b i) -> zbits n a = zbits n b.
Proof.
  induction n as [|n IH]; intros H; simpl; [done|].
  rewrite H by lia. rewrite IH; [done|]. intros i Hi. apply H. lia.
Qed.

Lemma zbits_app m n z :
  zbits (m + n) z = zbits m (Z.shiftr z (Z.of_nat n)) ++ zbits n z.
Proof.
  induction m as [|m IH]; simpl; [done|].
  rewrite IH, Z.shiftr_spec by lia. repeat f_equal. lia.
Qed.

Lemma zbits_mod n m z : (n <= m)%nat -> zbits n (z mod 2 ^ Z.of_nat m) = zbits n z.
Proof.
  intros H. apply zbits_ext. intros i Hi.
  rewrite Z.mod_pow2_bits_low; [done|lia].
Qed.

Lemma zbits_shiftl n k z :
  zbits (n + k) (Z.shiftl z (Z.of_nat k)) = zbits n z ++ replicate k false.
Proof.
  rewrite zbits_app, Z.shiftr_shiftl_l, Z.sub_diag, Z.shiftl_0_r by lia. f_equal.
  assert (forall j, (j <= k)%nat -> zbits j (Z.shiftl z (Z.of_nat k)) = replicate j false) as H.
  { induction j as [|j IH]; intros Hj; simpl; [done|].
    rewrite Z.shiftl_spec_low by lia. f_equal. apply IH. lia. }
  by apply H.
Qed.

Lemma zbits_zero n : zbits n 0 = replicate n false.
Proof. induction n; simpl; [done|]. rewrite Z.testbit_0_l. by f_equal. Qed.

Lemma zbits_small_app m n z :
  0 <= z < 2 ^ Z.of_nat n -> zbits (m + n) z = replicate m false ++ zbits n z.
Proof.
  intros H. rewrite zbits_app, Z.shiftr_div_pow2, Z.div_small, zbits_zero by lia. done.
Qed.

Lemma bits_z_acc_app acc l k : bits_z_acc acc (l ++ k) = bits_z_acc (bits_z_acc acc l) k.
Proof. revert acc. induction l; intros; simpl; [done|]. apply IHl. Qed.

Lemma bits_z_acc_zbits acc n z :
  bits_z_acc acc (zbits n z) = acc * 2 ^ Z.of_nat n + z mod 2 ^ Z.of_nat n.
Proof.
  revert acc. induction n as [|n IH]; intros acc.
  - simpl. rewrite Z.mod_1_r. lia.
  - cbn [zbits bits_z_acc]. rewrite IH, Nat2Z.inj_succ, Z.pow_succ_r by lia.
    rewrite (Z.mul_comm 2 (2 ^ _)), (Z.rem_mul_r z (2 ^ Z.of_nat n) 2) by lia.
    rewrite Z.testbit_spec' by lia. ring.
Qed.

Lemma bits_z_zbits n z : bits_z (zbits n z) = z mod 2 ^ Z.of_nat n.
Proof. unfold bits_z. by rewrite bits_z_acc_zbits, Z.mul_0_l, Z.add_0_l. Qed.

Lemma zbits_inj n a b :
  0 <= a < 2 ^ Z.of_nat n -> 0 <= b < 2 ^ Z.of_nat n -> zbits n a = zbits n b -> a = b.
Proof.
  intros Ha Hb H. apply (f_equal bits_z) in H. rewrite !bits_z_zbits in H.
  rewrite !Z.mod_small in H; lia.
Qed.

Lemma byte_bits_inj a b : byte_bits a = byte_bits b -> a = b.
Proof. intros H. apply bz_inj, (zbits_inj 8); [apply bz_range..|done]. Qed.

Lemma byte_bits_length b : length (byte_bits b) = 8%nat.
Proof. apply zbits_length. Qed.

Lemma bytes_bits_app a b : bytes_bits (a ++ b) = bytes_bits a ++ bytes_bits b.
Proof. apply bind_app. Qed.

Lemma bytes_bits_cons a l : bytes_bits (a :: l) = byte_bits a ++ bytes_bits l.
Proof. done. Qed.

Lemma bytes_bits_length l : length (bytes_bits l) = (8 * length l)%nat.
Proof.
  induction l; [done|]. rewrite bytes_bits_cons, length_app, byte_bits_length, IHl. simpl. lia.
Qed.

Lemma bytes_bits_inj a b : bytes_bits a = bytes_bits b -> a = b.
Proof.
  revert b. induction a as [|x a IH]; intros [|y b] H; [done| | |].
  - apply (f_equal length) in H. rewrite !bytes_bits_length in H. simpl in H. lia.
  - apply (f_equal length) in H. rewrite !bytes_bits_length in H. simpl in H. lia.
  - rewrite !bytes_bits_cons in H.
    apply app_inj_1 in H as [H1 H2]; [|by rewrite !byte_bits_length].
    f_equal; [by apply byte_bits_inj | by apply IH].
Qed.

(** Facts about one byte, checked on all 256 values. *)
Lemma byte_forall (P : Z -> bool) :
  forallb P (map Z.of_nat (seq 0 256)) = true -> forall b, P (bz b) = true.
Proof.
  rewrite forallb_forall. intros H b. apply H, in_map_iff. pose proof (bz_range b).
  exists (Z.to_nat (bz b)). rewrite in_seq. lia.
Qed.

Lemma land_127_mod b : Z.land b 127 = b mod 128.
Proof. exact (Z.land_ones b 7 ltac:(lia)). Qed.

Lemma byte_top_bit b : (Z.land (bz b) 128 =? 0) = (bz b <? 128).
Proof.
  apply Bool.eqb_prop.
  exact (byte_forall (fun z => Bool.eqb (Z.land z 128 =? 0) (z <? 128)) ltac:(vm_compute; reflexivity) b).
Qed.

(** [mask | y] when the low [n] bits of [mask] are zero. *)
Lemma lor_disjoint mask y n :
  0 <= n -> 0 <= y < 2 ^ n -> mask mod 2 ^ n = 0 -> Z.lor mask y = mask + y.
Proof.
  intros Hn Hy Hm. assert (Hl : Z.land mask y = 0).
  2: { by rewrite <- Z.lxor_lor, Z.add_nocarry_lxor by done. }
  apply Z.bits_inj_0. intros i. rewrite Z.land_spec.
  destruct (decide (i < 0)); [by rewrite Z.testbit_neg_r by lia|].
  destruct (decide (i < n)).
  - rewrite <- (Z.mod_pow2_bits_low mask n i), Hm by lia. by rewrite Z.testbit_0_l.
  - rewrite <- (Z.mod_small y (2 ^ n)) by lia.
    by rewrite (Z.mod_pow2_bits_high y n i) by lia; rewrite andb_false_r.
Qed.
