(* ===== verification/Huffman.v ===== *)
(** * Huffman coding of header strings ([src/hpack/huffman.go])

    The code table, the encoder [HuffmanEncode], the length predictor
    [HuffmanEncodedLen], the 256-ary decoding tree [newHuffmanTree] and the
    decoder [HuffmanDecode].  The bit-level specification is [code_bits] (the
    code word of a byte) and [dec_run] (a run of the tree over a bit string);
    the theorems show that the encoder emits exactly the code words followed by
    fewer than eight one bits, that the decoder refines [dec_run], never panics,
    and inverts the encoder. *)

From S2P Require Import Prelude.

(** ** The code table *)

Record huffmanCode := HC { hcode : Z; hbits : Z }.

Definition huffmanCodes : list huffmanCode := [
  HC 0x1ff8 13; HC 0x7fffd8 23; HC 0xfffffe2 28; HC 0xfffffe3 28; HC 0xfffffe4 28; HC 0xfffffe5 28;
  HC 0xfffffe6 28; HC 0xfffffe7 28; HC 0xfffffe8 28; HC 0xffffea 24; HC 0x3ffffffc 30; HC 0xfffffe9 28;
  HC 0xfffffea 28; HC 0x3ffffffd 30; HC 0xfffffeb 28; HC 0xfffffec 28; HC 0xfffffed 28; HC 0xfffffee 28;
  HC 0xfffffef 28; HC 0xffffff0 28; HC 0xffffff1 28; HC 0xffffff2 28; HC 0x3ffffffe 30; HC 0xffffff3 28;
  HC 0xffffff4 28; HC 0xffffff5 28; HC 0xffffff6 28; HC 0xffffff7 28; HC 0xffffff8 28; HC 0xffffff9 28;
  HC 0xffffffa 28; HC 0xffffffb 28; HC 0x14 6; HC 0x3f8 10; HC 0x3f9 10; HC 0xffa 12;
  HC 0x1ff9 13; HC 0x15 6; HC 0xf8 8; HC 0x7fa 11; HC 0x3fa 10; HC 0x3fb 10;
  HC 0xf9 8; HC 0x7fb 11; HC 0xfa 8; HC 0x16 6; HC 0x17 6; HC 0x18 6;
  HC 0x0 5; HC 0x1 5; HC 0x2 5; HC 0x19 6; HC 0x1a 6; HC 0x1b 6;
  HC 0x1c 6; HC 0x1d 6; HC 0x1e 6; HC 0x1f 6; HC 0x5c 7; HC 0xfb 8;
  HC 0x7ffc 15; HC 0x20 6; HC 0xffb 12; HC 0x3fc 10; HC 0x1ffa 13; HC 0x21 6;
  HC 0x5d 7; HC 0x5e 7; HC 0x5f 7; HC 0x60 7; HC 0x61 7; HC 0x62 7;
  HC 0x63 7; HC 0x64 7; HC 0x65 7; HC 0x66 7; HC 0x67 7; HC 0x68 7;
  HC 0x69 7; HC 0x6a 7; HC 0x6b 7; HC 0x6c 7; HC 0x6d 7; HC 0x6e 7;
  HC 0x6f 7; HC 0x70 7; HC 0x71 7; HC 0x72 7; HC 0xfc 8; HC 0x73 7;
  HC 0xfd 8; HC 0x1ffb 13; HC 0x7fff0 19; HC 0x1ffc 13; HC 0x3ffc 14; HC 0x22 6;
  HC 0x7ffd 15; HC 0x3 5; HC 0x23 6; HC 0x4 5; HC 0x24 6; HC 0x5 5;
  HC 0x25 6; HC 0x26 6; HC 0x27 6; HC 0x6 5; HC 0x74 7; HC 0x75 7;
  HC 0x28 6; HC 0x29 6; HC 0x2a 6; HC 0x7 5; HC 0x2b 6; HC 0x76 7;
  HC 0x2c 6; HC 0x8 5; HC 0x9 5; HC 0x2d 6; HC 0x77 7; HC 0x78 7;
  HC 0x79 7; HC 0x7a 7; HC 0x7b 7; HC 0x7ffe 15; HC 0x7fc 11; HC 0x3ffd 14;
  HC 0x1ffd 13; HC 0xffffffc 28; HC 0xfffe6 20; HC 0x3fffd2 22; HC 0xfffe7 20; HC 0xfffe8 20;
  HC 0x3fffd3 22; HC 0x3fffd4 22; HC 0x3fffd5 22; HC 0x7fffd9 23; HC 0x3fffd6 22; HC 0x7fffda 23;
  HC 0x7fffdb 23; HC 0x7fffdc 23; HC 0x7fffdd 23; HC 0x7fffde 23; HC 0xffffeb 24; HC 0x7fffdf 23;
  HC 0xffffec 24; HC 0xffffed 24; HC 0x3fffd7 22; HC 0x7fffe0 23; HC 0xffffee 24; HC 0x7fffe1 23;
  HC 0x7fffe2 23; HC 0x7fffe3 23; HC 0x7fffe4 23; HC 0x1fffdc 21; HC 0x3fffd8 22; HC 0x7fffe5 23;
  HC 0x3fffd9 22; HC 0x7fffe6 23; HC 0x7fffe7 23; HC 0xffffef 24; HC 0x3fffda 22; HC 0x1fffdd 21;
  HC 0xfffe9 20; HC 0x3fffdb 22; HC 0x3fffdc 22; HC 0x7fffe8 23; HC 0x7fffe9 23; HC 0x1fffde 21;
  HC 0x7fffea 23; HC 0x3fffdd 22; HC 0x3fffde 22; HC 0xfffff0 24; HC 0x1fffdf 21; HC 0x3fffdf 22;
  HC 0x7fffeb 23; HC 0x7fffec 23; HC 0x1fffe0 21; HC 0x1fffe1 21; HC 0x3fffe0 22; HC 0x1fffe2 21;
  HC 0x7fffed 23; HC 0x3fffe1 22; HC 0x7fffee 23; HC 0x7fffef 23; HC 0xfffea 20; HC 0x3fffe2 22;
  HC 0x3fffe3 22; HC 0x3fffe4 22; HC 0x7ffff0 23; HC 0x3fffe5 22; HC 0x3fffe6 22; HC 0x7ffff1 23;
  HC 0x3ffffe0 26; HC 0x3ffffe1 26; HC 0xfffeb 20; HC 0x7fff1 19; HC 0x3fffe7 22; HC 0x7ffff2 23;
  HC 0x3fffe8 22; HC 0x1ffffec 25; HC 0x3ffffe2 26; HC 0x3ffffe3 26; HC 0x3ffffe4 26; HC 0x7ffffde 27;
  HC 0x7ffffdf 27; HC 0x3ffffe5 26; HC 0xfffff1 24; HC 0x1ffffed 25; HC 0x7fff2 19; HC 0x1fffe3 21;
  HC 0x3ffffe6 26; HC 0x7ffffe0 27; HC 0x7ffffe1 27; HC 0x3ffffe7 26; HC 0x7ffffe2 27; HC 0xfffff2 24;
  HC 0x1fffe4 21; HC 0x1fffe5 21; HC 0x3ffffe8 26; HC 0x3ffffe9 26; HC 0xffffffd 28; HC 0x7ffffe3 27;
  HC 0x7ffffe4 27; HC 0x7ffffe5 27; HC 0xfffec 20; HC 0xfffff3 24; HC 0xfffed 20; HC 0x1fffe6 21;
  HC 0x3fffe9 22; HC 0x1fffe7 21; HC 0x1fffe8 21; HC 0x7ffff3 23; HC 0x3fffea 22; HC 0x3fffeb 22;
  HC 0x1ffffee 25; HC 0x1ffffef 25; HC 0xfffff4 24; HC 0xfffff5 24; HC 0x3ffffea 26; HC 0x7ffff4 23;
  HC 0x3ffffeb 26; HC 0x7ffffe6 27; HC 0x3ffffec 26; HC 0x3ffffed 26; HC 0x7ffffe7 27; HC 0x7ffffe8 27;
  HC 0x7ffffe9 27; HC 0x7ffffea 27; HC 0x7ffffeb 27; HC 0xffffffe 28; HC 0x7ffffec 27; HC 0x7ffffed 27;
  HC 0x7ffffee 27; HC 0x7ffffef 27; HC 0x7fffff0 27; HC 0x3ffffee 26; HC 0x3fffffff 30 ].

(** [huffmanCodes[i]]; the indices used are bytes or 256, all in range. *)
Definition huffmanCodes_at (i : Z) : huffmanCode :=
  nth (Z.to_nat i) huffmanCodes (HC 0 0).

(** ** Encoding *)

(** [dst[len(dst)-1] |= t] *)
Definition or_last (dst : list byte) (t : Z) : list byte :=
  alter (fun b => zb (Z.lor (bz b) t)) (length dst - 1)%nat dst.

(** The inner loop of [HuffmanEncode] for one code word; [fuel] bounds the number
    of iterations, and [nbits] decreases in each of them. *)
Fixpoint HuffmanEncode_word (fuel : nat) (dst : list byte) (code nbits space : Z)
  : list byte * Z :=
  match fuel with
  | O => (dst, space)
  | S fuel =>
    if nbits <? space then
      (or_last dst (u8 (u32 (Z.shiftl code (space - nbits)))), space - nbits)
    else
      let dst := or_last dst (u8 (Z.shiftr code (nbits - space))) in
      let nbits := nbits - space in
      if nbits =? 0 then (dst, 8)
      else HuffmanEncode_word fuel (dst ++ [Byte.x00]) code nbits 8
  end.

Fixpoint HuffmanEncode_loop (dst : list byte) (space : Z) (s : gostring) : list byte * Z :=
  match s with
  | [] => (dst, space)
  | c :: s =>
    let dst := if space =? 8 then dst ++ [Byte.x00] else dst in
    let huff := huffmanCodes_at (bz c) in
    let '(dst, space) :=
      HuffmanEncode_word (S (Z.to_nat (hbits huff))) dst (hcode huff) (hbits huff) space in
    HuffmanEncode_loop dst space s
  end.

Definition HuffmanEncode (dst : list byte) (s : gostring) : list byte :=
  let '(dst, space) := HuffmanEncode_loop dst 8 s in
  if space <? 8 then
    let huffEOS := huffmanCodes_at 256 in
    or_last dst (u8 (Z.shiftr (hcode huffEOS) (hbits huffEOS - space)))
  else dst.

Fixpoint HuffmanEncodedLen_loop (x : Z) (s : gostring) : Z :=
  match s with
  | [] => x
  | c :: s => HuffmanEncodedLen_loop (u64 (x + hbits (huffmanCodes_at (bz c)))) s
  end.

Definition HuffmanEncodedLen (s : gostring) : Z :=
  Z.shiftr (u64 (HuffmanEncodedLen_loop 0 s + 7)) 3.

(** ** The decoding tree *)

(** [HNil] is the nil pointer; [children = []] is the nil slice of a leaf. *)
#[warnings="-register-all"]
Inductive huffmanNode :=
| HNil
| HNode (sym bits : Z) (children : list huffmanNode).

Definition newInternalNode : huffmanNode := HNode 0 0 (replicate 256 HNil).

(** [for j := start; j < start+end; j++ { cur.children[j] = leaf }] *)
Definition fillChildren (leaf : huffmanNode) (start cnt : nat) (ch : list huffmanNode)
  : list huffmanNode :=
  foldl (fun ch j => <[j := leaf]> ch) ch (seq start cnt).

(** The body of the loop of [newHuffmanTree]: descend (creating the missing inner
    nodes) by the leading bytes of the code word, then fill the slots of its tail. *)
Fixpoint huffmanInsert (fuel : nat) (cur : huffmanNode) (sym code bits : Z) : huffmanNode :=
  match fuel, cur with
  | S fuel, HNode s b ch =>
    if 8 <? bits then
      let bits := bits - 8 in
      let j := Z.to_nat (u8 (Z.shiftr code bits)) in
      let child := match ch !! j with
                   | Some HNil | None => newInternalNode
                   | Some c => c
                   end in
      HNode s b (<[j := huffmanInsert fuel child sym code bits]> ch)
    else
      let shift := 8 - bits in
      let start := u8 (u32 (Z.shiftl code shift)) in
      HNode s b (fillChildren (HNode sym bits []) (Z.to_nat start)
                              (Z.to_nat (Z.shiftl 1 shift)) ch)
  | _, _ => cur
  end.

Definition newHuffmanTree : huffmanNode :=
  foldl (fun root (ix : nat * huffmanCode) =>
           huffmanInsert 4 root (u8 (Z.of_nat ix.1)) (hcode ix.2) (hbits ix.2))
        newInternalNode (imap pair huffmanCodes).

Definition rootHufmanNode : huffmanNode := Eval vm_compute in newHuffmanTree.

(** ** Decoding *)

(** [n.children[i]]: [None] is the panic of a nil pointer or of an index out of range. *)
Definition child (n : huffmanNode) (i : Z) : option huffmanNode :=
  match n with
  | HNil => None
  | HNode _ _ ch => ch !! Z.to_nat i
  end.

(** The loop [for nbits >= 8].  [None] is a panic (or exhausted fuel). *)
Fixpoint HuffmanDecode_bytes (fuel : nat) (n : huffmanNode) (cur nbits : Z) (dst : list byte)
  : option (huffmanNode * Z * list byte) :=
  match fuel with
  | O => None
  | S fuel =>
    if 8 <=? nbits then
      match child n (u8 (Z.shiftr cur (nbits - 8))) with
      | None | Some HNil => None
      | Some (HNode sym bits []) =>
        HuffmanDecode_bytes fuel rootHufmanNode cur (u8 (nbits - bits)) (dst ++ [zb sym])
      | Some m => HuffmanDecode_bytes fuel m cur (u8 (nbits - 8)) dst
      end
    else Some (n, nbits, dst)
  end.

Fixpoint HuffmanDecode_loop (n : huffmanNode) (cur nbits : Z) (src dst : list byte)
  : option (huffmanNode * Z * Z * list byte) :=
  match src with
  | [] => Some (n, cur, nbits, dst)
  | b :: src =>
    let cur := Z.lor (u64 (Z.shiftl cur 8)) (bz b) in
    let nbits := u8 (nbits + 8) in
    match HuffmanDecode_bytes (S (Z.to_nat nbits)) n cur nbits dst with
    | None => None
    | Some (n, nbits, dst) => HuffmanDecode_loop n cur nbits src dst
    end
  end.

(** The loop [for nbits > 0] over the bits left at the end. *)
Fixpoint HuffmanDecode_tail (fuel : nat) (n : huffmanNode) (cur nbits : Z) (dst : list byte)
  : option (list byte) :=
  match fuel with
  | O => None
  | S fuel =>
    if 0 <? nbits then
      match child n (u8 (u64 (Z.shiftl cur (8 - nbits)))) with
      | None | Some HNil => None
      | Some (HNode sym bits []) =>
        if nbits <? bits then Some dst
        else HuffmanDecode_tail fuel rootHufmanNode cur (u8 (nbits - bits)) (dst ++ [zb sym])
      | Some _ => Some dst
      end
    else Some dst
  end.

Definition HuffmanDecode (dst src : list byte) : option (list byte) :=
  match HuffmanDecode_loop rootHufmanNode 0 0 src dst with
  | None => None
  | Some (n, cur, nbits, dst) => HuffmanDecode_tail (S (Z.to_nat nbits)) n cur nbits dst
  end.

(** ** Bit-level specification *)

Definition code_bits (c : byte) : list bool :=
  let h := huffmanCodes_at (bz c) in zbits (Z.to_nat (hbits h)) (hcode h).

(** The next eight bits, completed with zeros at the end of the string. *)
Definition win8 (l : list bool) : Z := bits_z (take 8 (l ++ replicate 8 false)).

(** A run of the decoding tree from node [n] over the bits [l] that emits [out]. *)
Inductive dec_run : huffmanNode -> list bool -> list byte -> Prop :=
| run_nil n : dec_run n [] []
| run_leaf n l s b out :
    l <> [] -> child n (win8 l) = Some (HNode s b []) ->
    1 <= b <= 8 -> b <= zlen l ->
    dec_run rootHufmanNode (drop (Z.to_nat b) l) out -> dec_run n l (zb s :: out)
| run_inner n l s b c ch out :
    8 <= zlen l -> child n (win8 l) = Some (HNode s b (c :: ch)) ->
    dec_run (HNode s b (c :: ch)) (drop 8 l) out -> dec_run n l out
| run_stop_inner n l s b c ch :
    0 < zlen l < 8 -> child n (win8 l) = Some (HNode s b (c :: ch)) -> dec_run n l []
| run_stop_leaf n l s b :
    0 < zlen l < 8 -> child n (win8 l) = Some (HNode s b []) -> zlen l < b -> dec_run n l [].

(** Executable checks on the tree, evaluated once on [rootHufmanNode]. *)
Fixpoint node_complete (fuel : nat) (n : huffmanNode) : bool :=
  match fuel, n with
  | S fuel, HNode _ _ ch =>
    (length ch =? 256)%nat &&
    forallb (fun m => match m with
                      | HNil => false
                      | HNode _ b [] => (1 <=? b) && (b <=? 8)
                      | _ => node_complete fuel m
                      end) ch
  | _, _ => false
  end.

Fixpoint bool_lists (n : nat) : list (list bool) :=
  match n with
  | O => [[]]
  | S n => map (cons true) (bool_lists n) ++ map (cons false) (bool_lists n)
  end.

Definition is_leaf (m : option huffmanNode) (sym : Z) (b : nat) : bool :=
  match m with
  | Some (HNode s b' []) => (s =? sym) && (b' =? Z.of_nat b)
  | _ => false
  end.

(** From [n], the bits [l] lead to the leaf of [sym] whatever follows them. *)
Fixpoint path_ok (fuel : nat) (n : huffmanNode) (l : list bool) (sym : Z) : bool :=
  match fuel with
  | O => false
  | S fuel =>
    if (8 <? length l)%nat then
      match child n (win8 l) with
      | Some (HNode s b (c :: ch)) => path_ok fuel (HNode s b (c :: ch)) (drop 8 l) sym
      | _ => false
      end
    else
      (1 <=? length l)%nat &&
      forallb (fun f => is_leaf (child n (bits_z (l ++ f))) sym (length l))
              (bool_lists (8 - length l))
  end.

(** ** The encoder *)

Lemma or_last_app d b t : or_last (d ++ [b]) t = d ++ [zb (Z.lor (bz b) t)].
Proof.
  unfold or_last. rewrite length_app. simpl.
  replace (length d + 1 - 1)%nat with (length d + 0)%nat by lia.
  by rewrite alter_app_r.
Qed.

Lemma zbits_zero_inv n z i :
  zbits n z = replicate n false -> 0 <= i < Z.of_nat n -> Z.testbit z i = false.
Proof.
  induction n as [|n IH]; intros H Hi; simpl in *; [lia|].
  injection H as H1 H2. destruct (decide (i = Z.of_nat n)); [by subst|].
  apply IH; [done|lia].
Qed.

Lemma lor_byte_range a t : 0 <= a < 256 -> 0 <= t < 256 -> 0 <= Z.lor a t < 256.
Proof.
  intros Ha Ht. split; [apply Z.lor_nonneg; lia|].
  destruct (decide (Z.lor a t = 0)) as [->|]; [lia|].
  assert (0 <= Z.lor a t) by (apply Z.lor_nonneg; lia).
  apply (Z.log2_lt_pow2 _ 8); [lia|]. rewrite Z.log2_lor by lia.
  apply Z.max_lub_lt.
  - destruct (decide (a = 0)) as [->|]; [done|]. apply Z.log2_lt_pow2; lia.
  - destruct (decide (t = 0)) as [->|]; [done|]. apply Z.log2_lt_pow2; lia.
Qed.

(** Or-ing [t] into the zeroed low [space] bits of the last byte writes them. *)
Lemma or_last_bits dst B space t :
  (1 <= space <= 8)%nat -> bytes_bits dst = B ++ replicate space false ->
  0 <= t < 2 ^ Z.of_nat space ->
  bytes_bits (or_last dst t) = B ++ zbits space t.
Proof.
  intros Hs Hd Ht. assert (Ht8 : 2 ^ Z.of_nat space <= 2 ^ 8) by (apply Z.pow_le_mono_r; lia).
  destruct dst as [|b d _] using rev_ind.
  { apply (f_equal length) in Hd. rewrite length_app, length_replicate in Hd. simpl in Hd. lia. }
  rewrite or_last_app, bytes_bits_app, !bytes_bits_cons, !app_nil_r.
  rewrite bytes_bits_app, bytes_bits_cons, app_nil_r in Hd.
  pose proof (bz_range b) as Hb. pose proof (lor_byte_range (bz b) t Hb ltac:(lia)) as Hr.
  unfold byte_bits in *. rewrite bz_zb_small by done.
  replace 8%nat with (8 - space + space)%nat in Hd |- * by lia.
  rewrite zbits_app, app_assoc in Hd |- *.
  apply app_inj_2 in Hd as [<- Hz]; [|by rewrite zbits_length, length_replicate].
  f_equal; [f_equal|].
  - apply zbits_ext. intros i Hi. rewrite !Z.shiftr_spec, Z.lor_spec by lia.
    rewrite (Z.bits_above_log2 t); [by rewrite orb_false_r|lia|].
    destruct (decide (t = 0)) as [->|]; [change (Z.log2 0) with 0; lia|].
    assert (Z.log2 t < Z.of_nat space) by (apply Z.log2_lt_pow2; lia). lia.
  - apply zbits_ext. intros i Hi. rewrite Z.lor_spec.
    by rewrite (zbits_zero_inv _ _ _ Hz Hi).
Qed.

Lemma zbits_u8 n z : (n <= 8)%nat -> zbits n (u8 z) = zbits n z.
Proof. intros. by apply (zbits_mod n 8). Qed.

Lemma zbits_u32 n z : (n <= 32)%nat -> zbits n (u32 z) = zbits n z.
Proof. intros. by apply (zbits_mod n 32). Qed.

Lemma zbits_u64 n z : (n <= 64)%nat -> zbits n (u64 z) = zbits n z.
Proof. intros. by apply (zbits_mod n 64). Qed.

Lemma u8_bound z n : n = 8%nat \/ 0 <= z < 2 ^ Z.of_nat n -> 0 <= u8 z < 2 ^ Z.of_nat n.
Proof.
  intros [->|H]; [apply Z.mod_pos_bound; lia|].
  unfold u8. pose proof (Z.mod_pos_bound z (2 ^ 8)). pose proof (Z.mod_le z (2 ^ 8)). lia.
Qed.

Lemma u32_u8 z : u8 (u32 z) = u8 z.
Proof.
  unfold u8, u32. apply Z.bits_inj. intros i.
  destruct (decide (0 <= i)); [|by rewrite !Z.testbit_neg_r by lia].
  destruct (decide (i < 8)).
  - by rewrite !Z.mod_pow2_bits_low by lia.
  - by rewrite !Z.mod_pow2_bits_high by lia.
Qed.

(** One code word: its bits are appended, and the free space is updated. *)
Lemma HuffmanEncode_word_bits fuel dst B code (nbits space : nat) :
  (1 <= space <= 8)%nat -> (1 <= nbits)%nat -> (nbits < fuel)%nat -> 0 <= code ->
  space = 8%nat \/ code < 2 ^ Z.of_nat nbits ->
  bytes_bits dst = B ++ replicate space false ->
  exists dst' (space' : nat),
    HuffmanEncode_word fuel dst code (Z.of_nat nbits) (Z.of_nat space) = (dst', Z.of_nat space') /\
    (1 <= space' <= 8)%nat /\
    bytes_bits dst' = (B ++ zbits nbits code) ++ replicate (space' mod 8) false.
Proof.
  revert dst B nbits space.
  induction fuel as [|fuel IH]; intros dst B nbits space Hs Hn Hf Hc Hsmall Hd; [lia|].
  cbn [HuffmanEncode_word]. destruct (Z.ltb_spec (Z.of_nat nbits) (Z.of_nat space)) as [Hlt|Hge].
  - exists (or_last dst (u8 (u32 (Z.shiftl code (Z.of_nat space - Z.of_nat nbits))))), (space - nbits)%nat.
    split; [f_equal; lia|]. split; [lia|].
    rewrite (Nat.mod_small (space - nbits) 8) by lia. rewrite <- Nat2Z.inj_sub by lia.
    rewrite (or_last_bits _ _ _ _ Hs Hd).
    + rewrite <- app_assoc. f_equal. rewrite zbits_u8, zbits_u32 by lia.
      replace space with (nbits + (space - nbits))%nat at 1 by lia. by rewrite zbits_shiftl.
    + rewrite u32_u8. apply u8_bound. destruct Hsmall as [|Hsmall]; [by left|right].
      rewrite Z.shiftl_mul_pow2 by lia.
      replace (Z.of_nat space) with (Z.of_nat nbits + Z.of_nat (space - nbits)) by lia.
      rewrite Z.pow_add_r by lia. split; [lia|]. apply Z.mul_lt_mono_pos_r; lia.
  - set (t := u8 _). assert (Hw : bytes_bits (or_last dst t) = B ++ zbits space (Z.shiftr code (Z.of_nat (nbits - space)))).
    { rewrite (or_last_bits _ _ _ t Hs Hd); subst t; rewrite <- Nat2Z.inj_sub by lia.
      - by rewrite zbits_u8 by lia.
      - apply u8_bound. destruct Hsmall as [|Hsmall]; [by left|right].
        rewrite Z.shiftr_div_pow2 by lia. split; [apply Z.div_pos; lia|].
        apply Z.div_lt_upper_bound; [lia|]. rewrite <- Z.pow_add_r by lia.
        replace (Z.of_nat (nbits - space) + Z.of_nat space) with (Z.of_nat nbits) by lia. lia. }
    assert (Hsplit : zbits nbits code =
      zbits space (Z.shiftr code (Z.of_nat (nbits - space))) ++ zbits (nbits - space) code).
    { rewrite <- zbits_app. f_equal. lia. }
    destruct (Z.eqb_spec (Z.of_nat nbits - Z.of_nat space) 0) as [H0|H0].
    + exists (or_last dst t), 8%nat. split; [done|]. split; [lia|].
      rewrite Hw, Hsplit. replace (nbits - space)%nat with 0%nat by lia. simpl. by rewrite !app_nil_r.
    + rewrite <- Nat2Z.inj_sub by lia.
      destruct (IH (or_last dst t ++ [Byte.x00]) (B ++ zbits space (Z.shiftr code (Z.of_nat (nbits - space))))
                   (nbits - space)%nat 8%nat) as (dst' & space' & He & Hs' & Hb); [lia..|by left| |].
      { rewrite bytes_bits_app, Hw. done. }
      exists dst', space'. split; [done|]. split; [done|]. rewrite Hb, Hsplit. by rewrite !app_assoc.
Qed.

(** Every code word of the table is well formed. *)
Lemma huffmanCodes_wf c :
  let h := huffmanCodes_at (bz c) in 1 <= hbits h <= 30 /\ 0 <= hcode h < 2 ^ hbits h.
Proof.
  assert (H : forallb (fun i => let h := huffmanCodes_at (Z.of_nat i) in
    (1 <=? hbits h) && (hbits h <=? 30) && (0 <=? hcode h) && (hcode h <? 2 ^ hbits h)) (seq 0 256) = true)
    by (vm_compute; reflexivity).
  rewrite forallb_forall in H. pose proof (bz_range c).
  specialize (H (Z.to_nat (bz c))). rewrite in_seq, Z2Nat.id in H by lia.
  specialize (H ltac:(lia)). cbv zeta in *. lia.
Qed.

Lemma HuffmanEncode_loop_bits s dst B (space : nat) :
  (1 <= space <= 8)%nat -> bytes_bits dst = B ++ replicate (space mod 8) false ->
  exists dst' (space' : nat),
    HuffmanEncode_loop dst (Z.of_nat space) s = (dst', Z.of_nat space') /\
    (1 <= space' <= 8)%nat /\
    bytes_bits dst' = (B ++ (s ≫= code_bits)) ++ replicate (space' mod 8) false.
Proof.
  revert dst B space. induction s as [|c s IH]; intros dst B space Hs Hd.
  { exists dst, space. simpl. by rewrite app_nil_r. }
  cbn [HuffmanEncode_loop]. pose proof (huffmanCodes_wf c) as Hwf. cbv zeta in Hwf.
  set (h := huffmanCodes_at (bz c)) in *.
  set (dst0 := if Z.of_nat space =? 8 then _ else dst).
  assert (Hd0 : bytes_bits dst0 = B ++ replicate space false).
  { subst dst0. destruct (Z.eqb_spec (Z.of_nat space) 8) as [H8|H8].
    - replace space with 8%nat in * by lia. simpl in Hd. rewrite app_nil_r in Hd.
      by rewrite bytes_bits_app, Hd.
    - rewrite Nat.mod_small in Hd by lia. done. }
  destruct (HuffmanEncode_word_bits (S (Z.to_nat (hbits h))) dst0 B (hcode h) (Z.to_nat (hbits h)) space)
    as (dst1 & sp1 & He & Hs1 & Hb1); [lia..|right; rewrite Z2Nat.id by lia; lia|done|].
  rewrite Z2Nat.id in He by lia. rewrite He.
  destruct (IH dst1 _ sp1 Hs1 Hb1) as (dst2 & sp2 & He2 & Hs2 & Hb2).
  exists dst2, sp2. split; [done|]. split; [done|]. rewrite Hb2.
  rewrite bind_cons. unfold code_bits. fold h. by rewrite <- !app_assoc.
Qed.

(** The encoder appends the code words of the string and fewer than eight one bits. *)
Lemma HuffmanEncode_bits dst s :
  exists k, (k < 8)%nat /\
    bytes_bits (HuffmanEncode dst s) = bytes_bits dst ++ (s ≫= code_bits) ++ replicate k true.
Proof.
  destruct (HuffmanEncode_loop_bits s dst (bytes_bits dst) 8%nat) as (d & sp & He & Hs & Hb);
    [lia|by rewrite app_nil_r|].
  unfold HuffmanEncode. change 8 with (Z.of_nat 8) at 1. rewrite He.
  destruct (Z.ltb_spec (Z.of_nat sp) 8) as [Hlt|Hge].
  - exists sp. split; [lia|]. rewrite Nat.mod_small in Hb by lia.
    rewrite app_assoc. change (huffmanCodes_at 256) with (HC 0x3fffffff 30). cbn [hcode hbits].
    destruct sp as [|[|[|[|[|[|[|[|sp]]]]]]]]; try lia;
      (erewrite or_last_bits; cycle 2; [exact Hb|vm_compute; intuition congruence|reflexivity|lia]).
  - exists 0%nat. split; [lia|]. replace sp with 8%nat in * by lia. simpl in Hb.
    rewrite app_nil_r in Hb. simpl. by rewrite app_nil_r.
Qed.

(** ** The decoder refines [dec_run] *)

Lemma take_app_zbits8 nbits cur (l : list bool) :
  (8 <= nbits)%nat ->
  win8 (zbits nbits cur ++ l) = u8 (Z.shiftr cur (Z.of_nat nbits - 8)).
Proof.
  intros H. unfold win8. replace nbits with (8 + (nbits - 8))%nat at 1 by lia.
  rewrite zbits_app, <- !app_assoc, take_app_length' by (by rewrite zbits_length).
  rewrite bits_z_zbits. unfold u8. do 3 f_equal. lia.
Qed.

Lemma drop_app_zbits (b nbits : nat) cur (l : list bool) :
  (b <= nbits)%nat -> drop b (zbits nbits cur ++ l) = zbits (nbits - b) cur ++ l.
Proof.
  intros H. replace nbits with (b + (nbits - b))%nat at 1 by lia.
  rewrite zbits_app, <- !app_assoc. by rewrite drop_app_length' by (by rewrite zbits_length).
Qed.

Lemma win8_short nbits cur :
  (nbits < 8)%nat -> win8 (zbits nbits cur) = u8 (u64 (Z.shiftl cur (8 - Z.of_nat nbits))).
Proof.
  intros H. unfold win8.
  replace (replicate 8 false) with (replicate (8 - nbits) false ++ replicate nbits false)
    by (rewrite <- replicate_add; f_equal; lia).
  rewrite app_assoc, <- zbits_shiftl, take_app_length' by (rewrite zbits_length; lia).
  rewrite bits_z_zbits. replace (nbits + (8 - nbits))%nat with 8%nat by lia.
  replace (Z.of_nat (8 - nbits)) with (8 - Z.of_nat nbits) by lia.
  unfold u8, u64. change (2 ^ Z.of_nat 8) with (2 ^ 8).
  rewrite <- (Z.mod_mod_divide _ (2 ^ 64) (2 ^ 8)); [done|]. by exists (2 ^ 56).
Qed.

Lemma HuffmanDecode_bytes_run fuel n cur (nbits : nat) dst l out :
  (nbits < fuel)%nat -> (nbits < 64)%nat -> dec_run n (zbits nbits cur ++ l) out ->
  exists n' (nbits' : nat) out1 out2,
    HuffmanDecode_bytes fuel n cur (Z.of_nat nbits) dst = Some (n', Z.of_nat nbits', dst ++ out1) /\
    (nbits' < 8)%nat /\ dec_run n' (zbits nbits' cur ++ l) out2 /\ out = out1 ++ out2.
Proof.
  revert n nbits dst out. induction fuel as [|fuel IH]; intros n nbits dst out Hf Hn Hrun; [lia|].
  cbn [HuffmanDecode_bytes]. destruct (Z.leb_spec 8 (Z.of_nat nbits)) as [Hge|Hlt].
  2: { exists n, nbits, [], out. rewrite app_nil_r. repeat split; [lia|done]. }
  assert (Hl : zlen (zbits nbits cur ++ l) = Z.of_nat nbits + zlen l).
  { rewrite zlen_app. unfold zlen at 1. rewrite zbits_length. done. }
  pose proof (zlen_nonneg l).
  assert (Hwin := take_app_zbits8 nbits cur l ltac:(lia)).
  inversion Hrun as [? Hn0 E Ho|? ? s b out' ? Hch Hb ? Hr|? ? s b c ch ? ? Hch Hr| |]; subst;
    [rewrite <- E, zlen_nil in Hl; lia|rewrite <- Hwin, Hch..|lia|lia].
  - rewrite drop_app_zbits in Hr by lia.
    destruct (IH _ (nbits - Z.to_nat b)%nat (dst ++ [zb s]) out' ltac:(lia) ltac:(lia) Hr)
      as (n' & nb & o1 & o2 & He & Hlt & Hr' & ->).
    exists n', nb, (zb s :: o1), o2. rewrite u8_small by lia.
    replace (Z.of_nat nbits - b) with (Z.of_nat (nbits - Z.to_nat b)) by lia.
    by rewrite He, <- app_assoc.
  - rewrite drop_app_zbits in Hr by lia.
    destruct (IH _ (nbits - 8)%nat dst out ltac:(lia) ltac:(lia) Hr)
      as (n' & nb & o1 & o2 & He & Hlt & Hr' & ->).
    exists n', nb, o1, o2. rewrite u8_small by lia.
    replace (Z.of_nat nbits - 8) with (Z.of_nat (nbits - 8)) by lia. by rewrite He.
Qed.

Lemma zbits_push_byte (nbits : nat) cur b :
  (nbits < 8)%nat ->
  zbits (nbits + 8) (Z.lor (u64 (Z.shiftl cur 8)) (bz b)) = zbits nbits cur ++ byte_bits b.
Proof.
  intros H. pose proof (bz_range b). rewrite zbits_app. f_equal; apply zbits_ext; intros i Hi.
  - rewrite Z.shiftr_spec, Z.lor_spec by lia. change (Z.of_nat 8) with 8.
    rewrite (Z.bits_above_log2 (bz b)), orb_false_r; [|lia|].
    + unfold u64. rewrite Z.mod_pow2_bits_low, Z.shiftl_spec by lia. f_equal. lia.
    + destruct (decide (bz b = 0)) as [->|]; [change (Z.log2 0) with 0; lia|].
      assert (Z.log2 (bz b) < 8) by (apply Z.log2_lt_pow2; lia). lia.
  - rewrite Z.lor_spec. unfold u64.
    by rewrite Z.mod_pow2_bits_low, Z.shiftl_spec_low by lia.
Qed.

Lemma HuffmanDecode_loop_run src n cur (nbits : nat) dst out :
  (nbits < 8)%nat -> dec_run n (zbits nbits cur ++ bytes_bits src) out ->
  exists n' cur' (nbits' : nat) out1 out2,
    HuffmanDecode_loop n cur (Z.of_nat nbits) src dst = Some (n', cur', Z.of_nat nbits', dst ++ out1) /\
    (nbits' < 8)%nat /\ dec_run n' (zbits nbits' cur') out2 /\ out = out1 ++ out2.
Proof.
  revert n cur nbits dst out. induction src as [|b src IH]; intros n cur nbits dst out Hn Hr.
  { exists n, cur, nbits, [], out. cbn in *. by rewrite app_nil_r in *. }
  cbn [HuffmanDecode_loop]. set (cur' := Z.lor _ _).
  rewrite bytes_bits_cons, app_assoc, <- zbits_push_byte in Hr by done. fold cur' in Hr.
  rewrite u8_small by lia. replace (Z.of_nat nbits + 8) with (Z.of_nat (nbits + 8)) by lia.
  destruct (HuffmanDecode_bytes_run (S (Z.to_nat (Z.of_nat (nbits + 8)))) n cur' (nbits + 8)%nat dst _ out
    ltac:(lia) ltac:(lia) Hr) as (n1 & nb1 & o1 & o2 & -> & Hlt & Hr1 & ->).
  destruct (IH _ _ _ (dst ++ o1) _ Hlt Hr1) as (n2 & c2 & nb2 & o3 & o4 & -> & Hlt2 & Hr2 & ->).
  exists n2, c2, nb2, (o1 ++ o3), o4. by rewrite !app_assoc.
Qed.

Lemma HuffmanDecode_tail_run fuel n cur (nbits : nat) dst out :
  (nbits < fuel)%nat -> (nbits < 8)%nat -> dec_run n (zbits nbits cur) out ->
  HuffmanDecode_tail fuel n cur (Z.of_nat nbits) dst = Some (dst ++ out).
Proof.
  revert n nbits dst out. induction fuel as [|fuel IH]; intros n nbits dst out Hf Hn Hr; [lia|].
  assert (Hl : zlen (zbits nbits cur) = Z.of_nat nbits) by (unfold zlen; by rewrite zbits_length).
  pose proof (win8_short nbits cur Hn) as Hw.
  cbn [HuffmanDecode_tail]. destruct (Z.ltb_spec 0 (Z.of_nat nbits)) as [Hpos|Hz].
  - inversion Hr as [? Hn0 E Ho|? ? s b out' ? Hch Hb ? Hr'|? ? s b c ch ? ? Hch ?|? ? s b c ch ? Hch|? ? s b ? Hch ?];
      subst; [rewrite <- E, zlen_nil in Hl; lia|rewrite <- Hw, Hch..]; try lia; [| |].
    + destruct (Z.ltb_spec (Z.of_nat nbits) b); [lia|].
      pose proof (drop_app_zbits (Z.to_nat b) nbits cur [] ltac:(lia)) as Hd.
      rewrite !app_nil_r in Hd. rewrite Hd in Hr'. rewrite u8_small by lia.
      replace (Z.of_nat nbits - b) with (Z.of_nat (nbits - Z.to_nat b)) by lia.
      rewrite (IH _ (nbits - Z.to_nat b)%nat (dst ++ [zb s]) out') by (done || lia). by rewrite <- app_assoc.
    + by rewrite app_nil_r.
    + destruct (Z.ltb_spec (Z.of_nat nbits) b); [by rewrite app_nil_r|lia].
  - replace nbits with 0%nat in * by lia. simpl in Hr. inversion Hr; subst; rewrite ?zlen_nil in *; (lia || done || by rewrite app_nil_r).
Qed.

(** The implementation computes the run of the tree over the input's bits. *)
Lemma HuffmanDecode_run dst src out :
  dec_run rootHufmanNode (bytes_bits src) out -> HuffmanDecode dst src = Some (dst ++ out).
Proof.
  intros Hr. unfold HuffmanDecode.
  destruct (HuffmanDecode_loop_run src rootHufmanNode 0 0 dst out ltac:(lia) Hr)
    as (n & c & nb & o1 & o2 & He & Hlt & Hr2 & ->).
  change (Z.of_nat 0) with 0 in He. rewrite He. rewrite (HuffmanDecode_tail_run _ _ _ _ _ o2) by (done || lia). by rewrite app_assoc.
Qed.

(** ** The tree is complete: decoding never panics *)

Lemma node_complete_child fuel n i :
  node_complete fuel n = true -> 0 <= i < 256 ->
  (exists s b, child n i = Some (HNode s b []) /\ 1 <= b <= 8) \/
  (exists s b c ch fuel', child n i = Some (HNode s b (c :: ch)) /\
     node_complete fuel' (HNode s b (c :: ch)) = true).
Proof.
  destruct fuel as [|fuel], n as [|s b ch]; cbn [node_complete child]; try done.
  intros [Hl Hall]%andb_true_iff Hi. apply Nat.eqb_eq in Hl.
  destruct (lookup_lt_is_Some_2 ch (Z.to_nat i) ltac:(lia)) as [m Hm]. rewrite Hm.
  rewrite forallb_forall in Hall. specialize (Hall m).
  rewrite <- list_elem_of_In in Hall. specialize (Hall (list_elem_of_lookup_2 _ _ _ Hm)).
  destruct m as [|s' b' [|c ch']]; [done| |].
  - left. exists s', b'. split; [done|]. lia.
  - right. by exists s', b', c, ch', fuel.
Qed.

Lemma win8_range l : 0 <= win8 l < 256.
Proof.
  unfold win8. assert (H : forall k acc, 0 <= acc -> 0 <= bits_z_acc acc k < (acc + 1) * 2 ^ zlen k).
  { induction k as [|b k IH]; intros acc Ha; [unfold zlen; simpl; lia|].
    cbn [bits_z_acc]. rewrite zlen_cons. pose proof (zlen_nonneg k).
    specialize (IH (2 * acc + Z.b2z b)). destruct b; cbn [Z.b2z] in *;
      rewrite Z.pow_add_r by lia; specialize (IH ltac:(lia)); nia. }
  specialize (H (take 8 (l ++ replicate 8 false)) 0 ltac:(lia)).
  unfold zlen in H. rewrite length_take, length_app, length_replicate in H.
  replace (8 `min` (length l + 8))%nat with 8%nat in H by lia. unfold bits_z. lia.
Qed.

Lemma dec_run_total fuel n l : node_complete fuel n = true -> exists out, dec_run n l out.
Proof.
  revert fuel n. induction l as [l IH] using (well_founded_induction (well_founded_ltof _ length)).
  unfold ltof in IH. intros fuel n Hn.
  assert (Hroot : node_complete 5 rootHufmanNode = true) by (vm_compute; reflexivity).
  destruct l as [|x l']; [exists []; constructor|]. set (l := x :: l') in *.
  assert (Hlen : 0 < zlen l) by (unfold l; rewrite zlen_cons; pose proof (zlen_nonneg l'); lia).
  destruct (node_complete_child _ _ _ Hn (win8_range l))
    as [(s & b & Hc & Hb)|(s & b & c & ch & f' & Hc & Hn')].
  - destruct (decide (b <= zlen l)) as [Hle|Hgt].
    + destruct (IH (drop (Z.to_nat b) l)) with (fuel := 5%nat) (n := rootHufmanNode) as [out Ho]; [|done|].
      { rewrite length_drop. unfold zlen in *. lia. }
      exists (zb s :: out). by apply (run_leaf _ _ s b).
    + exists []. apply (run_stop_leaf _ _ s b); [lia|done|lia].
  - destruct (decide (8 <= zlen l)) as [Hle|Hgt].
    + destruct (IH (drop 8 l)) with (fuel := f') (n := HNode s b (c :: ch)) as [out Ho]; [|done|].
      { rewrite length_drop. unfold zlen in *. lia. }
      exists out. by apply (run_inner _ _ s b c ch).
    + exists []. apply (run_stop_inner _ _ s b c ch); [lia|done].
Qed.

(** ** Decoding a code word *)

Lemma bool_lists_complete f : f ∈ bool_lists (length f).
Proof.
  induction f as [|b f IH]; simpl; [by left|]. rewrite elem_of_app, !list_elem_of_In, !in_map_iff.
  apply list_elem_of_In in IH. destruct b; eauto.
Qed.

Lemma path_ok_run fuel n l sym rest out :
  path_ok fuel n l sym = true -> dec_run rootHufmanNode rest out ->
  dec_run n (l ++ rest) (zb sym :: out).
Proof.
  revert n l. induction fuel as [|fuel IH]; intros n l Hp Hr; [done|]. cbn [path_ok] in Hp.
  destruct (Nat.ltb_spec 8 (length l)) as [Hlt|Hle].
  - assert (Hw : win8 (l ++ rest) = win8 l).
    { unfold win8. by rewrite <- !app_assoc, !take_app_le by lia. }
    destruct (child n (win8 l)) as [[|s b [|c ch]]|] eqn:Hc; [done|done| |done].
    apply (run_inner _ _ s b c ch); [unfold zlen; rewrite length_app; lia|by rewrite Hw|].
    rewrite drop_app_le by lia. by apply IH.
  - apply andb_true_iff in Hp as [H1 Hall]. apply Nat.leb_le in H1.
    set (f := take (8 - length l) (rest ++ replicate 8 false)).
    assert (Hf : length f = (8 - length l)%nat).
    { unfold f. rewrite length_take, length_app, length_replicate. lia. }
    assert (Hw : win8 (l ++ rest) = bits_z (l ++ f)).
    { unfold win8, f. by rewrite <- app_assoc, take_app_ge by lia. }
    rewrite forallb_forall in Hall. specialize (Hall f).
    rewrite <- list_elem_of_In, <- Hf in Hall. specialize (Hall (bool_lists_complete f)).
    destruct (child n (bits_z (l ++ f))) as [[|s b [|]]|] eqn:Hc; [done| |done|done].
    cbn [is_leaf] in Hall. assert (s = sym /\ b = Z.of_nat (length l)) as [-> ->] by lia.
    apply (run_leaf _ _ _ (Z.of_nat (length l))); [destruct l; simpl in *; [lia|done]|by rewrite Hw|lia| |].
    + unfold zlen. rewrite length_app. lia.
    + by rewrite Nat2Z.id, drop_app_length.
Qed.

Lemma code_bits_path c : path_ok 5 rootHufmanNode (code_bits c) (bz c) = true.
Proof.
  assert (H : forallb (fun i => path_ok 5 rootHufmanNode (code_bits (zb (Z.of_nat i))) (Z.of_nat i))
    (seq 0 256) = true) by (vm_compute; reflexivity).
  rewrite forallb_forall in H. pose proof (bz_range c).
  specialize (H (Z.to_nat (bz c))). rewrite in_seq, Z2Nat.id, zb_bz in H by lia. apply H. lia.
Qed.

(** Fewer than eight one bits (a prefix of EOS) decode to nothing. *)
Lemma dec_run_padding k : (k < 8)%nat -> dec_run rootHufmanNode (replicate k true) [].
Proof.
  intros Hk. destruct k as [|[|[|[|[|[|[|[|k]]]]]]]]; [constructor|..|lia];
    first [eapply run_stop_leaf; [unfold zlen; simpl; lia|vm_compute; reflexivity|unfold zlen; simpl; lia]
          |eapply run_stop_inner; [unfold zlen; simpl; lia|vm_compute; reflexivity]].
Qed.

Lemma dec_run_codes s rest out :
  dec_run rootHufmanNode rest out ->
  dec_run rootHufmanNode ((s ≫= code_bits) ++ rest) (s ++ out).
Proof.
  intros Hr. induction s as [|c s IH]; [done|].
  rewrite bind_cons, <- app_assoc. simpl. rewrite <- (zb_bz c) at 2.
  apply path_ok_run with (fuel := 5%nat); [apply code_bits_path|done].
Qed.

(** ** Properties *)

(** Appending to a buffer is the same as encoding into an empty one. *)
Lemma HuffmanEncode_app dst s : HuffmanEncode dst s = dst ++ HuffmanEncode [] s.
Proof.
  destruct (HuffmanEncode_bits dst s) as (k1 & Hk1 & H1), (HuffmanEncode_bits [] s) as (k2 & Hk2 & H2).
  apply bytes_bits_inj. rewrite bytes_bits_app, H1, H2. cbn [bytes_bits].
  assert (k1 = k2) as ->; [|done].
  apply (f_equal length) in H1, H2. rewrite bytes_bits_length in H1, H2.
  rewrite !length_app, !length_replicate in H1, H2. rewrite bytes_bits_length in H1.
  simpl in H2. lia.
Qed.

Lemma HuffmanDecode_Encode dst s : HuffmanDecode dst (HuffmanEncode [] s) = Some (dst ++ s).
Proof.
  apply HuffmanDecode_run. destruct (HuffmanEncode_bits [] s) as (k & Hk & ->).
  rewrite <- (app_nil_r s) at 2. apply dec_run_codes, dec_run_padding, Hk.
Qed.

Lemma HuffmanDecode_no_panic dst src : exists out, HuffmanDecode dst src = Some (dst ++ out).
Proof.
  destruct (dec_run_total 5 rootHufmanNode (bytes_bits src)) as [out Ho]; [vm_compute; reflexivity|].
  exists out. by apply HuffmanDecode_run.
Qed.

Lemma HuffmanEncodedLen_loop_sum s x :
  0 <= x -> x + 30 * zlen s < 2 ^ 64 ->
  HuffmanEncodedLen_loop x s = x + zlen (s ≫= code_bits).
Proof.
  revert x. induction s as [|c s IH]; intros x Hx Hb; cbn [HuffmanEncodedLen_loop].
  { unfold zlen. simpl. lia. }
  pose proof (huffmanCodes_wf c) as Hwf. cbv zeta in Hwf. rewrite zlen_cons in Hb.
  pose proof (zlen_nonneg s). rewrite u64_small by lia. rewrite IH by lia.
  rewrite bind_cons, zlen_app. unfold code_bits at 2. unfold zlen at 2. rewrite zbits_length. lia.
Qed.

Lemma code_bits_len s : zlen (s ≫= code_bits) <= 30 * zlen s.
Proof.
  induction s as [|c s IH]; [done|]. rewrite bind_cons, zlen_app, zlen_cons.
  pose proof (huffmanCodes_wf c) as Hwf. cbv zeta in Hwf.
  unfold code_bits at 1. unfold zlen at 1. rewrite zbits_length. lia.
Qed.

Lemma HuffmanEncodedLen_exact s :
  30 * zlen s + 8 < 2 ^ 64 -> HuffmanEncodedLen s = zlen (HuffmanEncode [] s).
Proof.
  intros H. unfold HuffmanEncodedLen. pose proof (zlen_nonneg s).
  rewrite HuffmanEncodedLen_loop_sum by lia.
  destruct (HuffmanEncode_bits [] s) as (k & Hk & Hb). apply (f_equal length) in Hb.
  rewrite bytes_bits_length, !length_app, length_replicate in Hb. cbn in Hb.
  pose proof (code_bits_len s).
  pose proof (zlen_nonneg (s ≫= code_bits)). rewrite u64_small by lia.
  rewrite Z.shiftr_div_pow2 by lia. unfold zlen in *. change (2 ^ 3) with 8.
  symmetry. apply (Z.div_unique _ 8 _ (7 - Z.of_nat k)); lia.
Qed.

(** ** Properties *)

(** C22: Huffman coding round-trips.  Encoding appends to the buffer and decoding what was
    appended gives back the string, for every string and whatever the buffers held. *)
Theorem huffman_roundtrip dst dst' s :
  exists e, HuffmanEncode dst s = dst ++ e /\ HuffmanDecode dst' e = Some (dst' ++ s).
Proof. exists (HuffmanEncode [] s). split; [apply HuffmanEncode_app|apply HuffmanDecode_Encode]. Qed.

(** The decoder is total.  On any input at all, hence on anything a peer sends, the walk
    through the tree never leaves it, so decoding returns and does not panic. *)
Theorem huffman_decode_total dst src : exists out, HuffmanDecode dst src = Some (dst ++ out).
Proof. apply HuffmanDecode_no_panic. Qed.

(** The predicted length is the length of the encoding, so the length written before a
    Huffman-coded string is right. *)
Theorem huffman_length_exact s :
  30 * zlen s + 8 < 2 ^ 64 -> HuffmanEncodedLen s = zlen (HuffmanEncode [] s).
Proof. apply HuffmanEncodedLen_exact. Qed.

Lemma huffman_length_exact_witness :
  HuffmanEncodedLen (str "www.example.com") = zlen (HuffmanEncode [] (str "www.example.com")).
Proof. apply huffman_length_exact. vm_compute. reflexivity. Defined.

(** The decoder takes the EOS code for a NUL character: thirty one-bits, which RFC 7541
    section 5.2 makes a decoding error, decode to a zero byte. *)
Theorem huffman_eos_accepted : HuffmanDecode [] [zb 255; zb 255; zb 255; zb 255] = Some [zb 0].
Proof. vm_compute. reflexivity. Qed.
