(* ===== verification/HeaderTable.v ===== *)
(** * The HPACK header tables ([src/hpack/table.go])

    The static table and its name index, the dynamic table [headerTable] with its
    insertion, eviction and resizing, the lookups [entry], [find], [index], and the
    branch-free comparison [strcmp].  A slice update of the table is a list update:
    the backing array is never shared.  [None] is a run-time panic.

    The invariant [table_wf] says that [size] is the exact sum of the entry sizes and
    is at most [maxSize]; every operation preserves it, and under it none panics.
    [evict_spec] is the reference definition of eviction: the longest suffix that fits. *)

From S2P Require Import Prelude.

(** ** Header fields *)

Definition headerEntryOverhead : Z := 32.

Record headerField := HF { hf_name : gostring; hf_value : gostring }.

#[global] Instance headerField_eq_decision : EqDecision headerField.
Proof. solve_decision. Defined.

(** [uint32(len(name) + len(value) + headerEntryOverhead)] *)
Definition HeaderFieldSize (name value : gostring) : Z :=
  u32 (zlen name + zlen value + headerEntryOverhead).

Definition hf_size (x : headerField) : Z := HeaderFieldSize (hf_name x) (hf_value x).

(** [a[i] ^ b[i]] accumulated with [|]; the caller has checked the lengths. *)
Fixpoint strcmp_loop (c : Z) (a b : gostring) : Z :=
  match a, b with
  | x :: a, y :: b => strcmp_loop (Z.lor c (Z.lxor (bz x) (bz y))) a b
  | _, _ => c
  end.

Definition strcmp (a b : gostring) : bool :=
  if zlen a =? zlen b then strcmp_loop 0 a b =? 0 else false.

(** ** The static table *)

Definition staticTable : list headerField :=
  map (fun nv => HF (str nv.1) (str nv.2)) [
    (":authority", EmptyString);
    (":method", "GET");
    (":method", "POST");
    (":path", "/");
    (":path", "/index.html");
    (":scheme", "http");
    (":scheme", "https");
    (":status", "200");
    (":status", "204");
    (":status", "206");
    (":status", "304");
    (":status", "400");
    (":status", "404");
    (":status", "500");
    ("accept-charset", EmptyString);
    ("accept-encoding", "gzip, deflate");
    ("accept-language", EmptyString);
    ("accept-ranges", EmptyString);
    ("accept", EmptyString);
    ("access-control-allow-origin", EmptyString);
    ("age", EmptyString);
    ("allow", EmptyString);
    ("authorization", EmptyString);
    ("cache-control", EmptyString);
    ("content-disposition", EmptyString);
    ("content-encoding", EmptyString);
    ("content-language", EmptyString);
    ("content-length", EmptyString);
    ("content-location", EmptyString);
    ("content-range", EmptyString);
    ("content-type", EmptyString);
    ("cookie", EmptyString);
    ("date", EmptyString);
    ("etag", EmptyString);
    ("expect", EmptyString);
    ("expires", EmptyString);
    ("from", EmptyString);
    ("host", EmptyString);
    ("if-match", EmptyString);
    ("if-modified-since", EmptyString);
    ("if-none-match", EmptyString);
    ("if-range", EmptyString);
    ("if-unmodified-since", EmptyString);
    ("last-modified", EmptyString);
    ("link", EmptyString);
    ("location", EmptyString);
    ("max-forwards", EmptyString);
    ("proxy-authenticate", EmptyString);
    ("proxy-authorization", EmptyString);
    ("range", EmptyString);
    ("referer", EmptyString);
    ("refresh", EmptyString);
    ("retry-after", EmptyString);
    ("server", EmptyString);
    ("set-cookie", EmptyString);
    ("strict-transport-security", EmptyString);
    ("transfer-encoding", EmptyString);
    ("user-agent", EmptyString);
    ("vary", EmptyString);
    ("via", EmptyString);
    ("www-authenticate", EmptyString) ]%string.

(** [init]: filled from the last entry down, so the first entry of a name wins. *)
Definition staticMap : gmap gostring Z :=
  foldl (fun m i => match staticTable !! (i - 1)%nat with
                    | Some x => <[hf_name x := Z.of_nat i]> m
                    | None => m
                    end) ∅ (reverse (seq 1 (length staticTable))).

(** The loop of [index] from position [i]; [l] is [staticTable[i-1:]]. *)
Fixpoint index_loop (l : list headerField) (i idx : Z) (name value : gostring) : Z * bool :=
  match l with
  | [] => (idx, false)
  | x :: l =>
    if strcmp name (hf_name x) then
      if strcmp value (hf_value x) then (i, true)
      else index_loop l (i + 1) idx name value
    else (idx, false)
  end.

Definition index (name value : gostring) : Z * bool :=
  match staticMap !! name with
  | Some i => index_loop (drop (Z.to_nat (i - 1)) staticTable) i i name value
  | None => (0, false)
  end.

(** ** The dynamic table *)

(** [data] is in insertion order: the newest entry is the last one. *)
Record headerTable := HT { ht_data : list headerField; ht_size : Z; ht_maxSize : Z }.

(** [for t.size > t.maxSize { x := t.data[0]; t.size -= ...; t.data = t.data[1:] }] *)
Fixpoint evict (data : list headerField) (size maxSize : Z) : option (list headerField * Z) :=
  if maxSize <? size then
    match data with
    | [] => None
    | x :: data => evict data (u32 (size - hf_size x)) maxSize
    end
  else Some (data, size).

Definition setMaxSize (t : headerTable) (max : Z) : option (headerTable * bool) :=
  if max =? ht_maxSize t then Some (t, false)
  else if max =? 0 then Some (HT [] 0 max, true)
  else '(data, size) ← evict (ht_data t) (ht_size t) max; Some (HT data size max, true).

Definition add (t : headerTable) (name value : gostring) : option (headerTable * bool) :=
  let hsize := HeaderFieldSize name value in
  if ht_maxSize t <? hsize then Some (HT [] 0 (ht_maxSize t), false)
  else
    '(data, size) ← evict (ht_data t ++ [HF name value]) (u32 (ht_size t + hsize)) (ht_maxSize t);
    Some (HT data size (ht_maxSize t), true).

(** The outer [option] is the panic of an index out of range, the inner one [ok]. *)
Definition entry (t : headerTable) (i : Z) : option (option headerField) :=
  if (0 <? i) && (i <=? zlen staticTable + zlen (ht_data t)) then
    if i <=? zlen staticTable then
      x ← staticTable !! Z.to_nat (i - 1); Some (Some x)
    else
      x ← ht_data t !! Z.to_nat (zlen (ht_data t) - (i - zlen staticTable)); Some (Some x)
  else Some None.

(** [t.index]: the loop from the newest entry; [l] is the reversed data and [pos] is [l - i]. *)
Fixpoint table_index_loop (l : list headerField) (pos idx : Z) (name value : gostring) : Z * bool :=
  match l with
  | [] => (idx, false)
  | x :: l =>
    if strcmp name (hf_name x) then
      let idx := if idx =? 0 then pos else idx in
      if strcmp value (hf_value x) then (pos, true)
      else table_index_loop l (pos + 1) idx name value
    else table_index_loop l (pos + 1) idx name value
  end.

Definition table_index (t : headerTable) (name value : gostring) : Z * bool :=
  table_index_loop (reverse (ht_data t)) 1 0 name value.

Definition find (t : headerTable) (name value : gostring) : Z * bool :=
  let '(idx, matched) := index name value in
  if matched then (idx, true)
  else
    let '(i, matched) := table_index t name value in
    if matched || ((idx =? 0) && negb (i =? 0)) then (i + zlen staticTable, matched)
    else (idx, matched).

(** ** Specification *)

Definition total_size (l : list headerField) : Z := foldr (fun x s => hf_size x + s) 0 l.

(** The longest suffix whose total size is at most [max]. *)
Fixpoint evict_spec (max : Z) (data : list headerField) : list headerField :=
  match data with
  | [] => []
  | x :: l => if total_size data <=? max then data else evict_spec max l
  end.

(** The size of the field does not wrap around in [HeaderFieldSize]. *)
Definition field_ok (name value : gostring) : Prop := zlen name + zlen value + 32 < 2 ^ 32.

Definition hf_ok (x : headerField) : Prop := field_ok (hf_name x) (hf_value x).

Definition table_wf (t : headerTable) : Prop :=
  ht_size t = total_size (ht_data t) /\ 0 <= ht_size t <= ht_maxSize t /\
  ht_maxSize t < 2 ^ 31 /\ Forall hf_ok (ht_data t).

(** All entries a position can denote: the static ones, then the dynamic ones, newest first. *)
Definition all_entries (t : headerTable) : list headerField := staticTable ++ reverse (ht_data t).

(** ** [strcmp] is equality *)

Lemma strcmp_loop_zero c a b :
  length a = length b -> 0 <= c -> (strcmp_loop c a b = 0 <-> c = 0 /\ a = b).
Proof.
  revert c b. induction a as [|x a IH]; intros c [|y b] Hl Hc; simpl in *; try lia.
  { naive_solver. }
  pose proof (bz_range x). pose proof (bz_range y).
  rewrite IH; [|lia|apply Z.lor_nonneg; rewrite Z.lxor_nonneg; lia].
  rewrite Z.lor_eq_0_iff, Z.lxor_eq_0_iff. split; [|naive_solver].
  intros [[-> ?] ->]. split; [done|]. f_equal. by apply bz_inj.
Qed.

Lemma strcmp_eq a b : strcmp a b = bool_decide (a = b).
Proof.
  unfold strcmp. destruct (Z.eqb_spec (zlen a) (zlen b)) as [Hl|Hl].
  - unfold zlen in Hl. pose proof (strcmp_loop_zero 0 a b ltac:(lia) ltac:(lia)) as H.
    destruct (Z.eqb_spec (strcmp_loop 0 a b) 0); case_bool_decide; naive_solver.
  - case_bool_decide; [congruence|done].
Qed.

Lemma headerField_eta x : HF (hf_name x) (hf_value x) = x.
Proof. by destruct x. Qed.

(** ** The static table *)

Lemma static_checks :
  forallb (fun '(n, i) => (1 <=? i) && (i <=? 61) &&
    bool_decide (hf_name <$> staticTable !! Z.to_nat (i - 1) = Some n)) (map_to_list staticMap) &&
  forallb (fun '(k, x) => bool_decide (index (hf_name x) (hf_value x) = (Z.of_nat k + 1, true)) &&
    bool_decide (is_Some (staticMap !! hf_name x))) (imap pair staticTable) = true.
Proof. vm_compute. reflexivity. Qed.

Lemma staticMap_lookup n i :
  staticMap !! n = Some i ->
  1 <= i <= 61 /\ exists x, staticTable !! Z.to_nat (i - 1) = Some x /\ hf_name x = n.
Proof.
  intros H%elem_of_map_to_list. pose proof static_checks as [Hc _]%andb_true_iff.
  rewrite forallb_forall in Hc. specialize (Hc (n, i)). rewrite <- list_elem_of_In in Hc.
  specialize (Hc H). rewrite !andb_true_iff, bool_decide_eq_true in Hc.
  destruct Hc as [? Hn]. apply fmap_Some in Hn as (x & ? & ?). split; [lia|]. eauto.
Qed.

Lemma static_index_entry k x :
  staticTable !! k = Some x ->
  index (hf_name x) (hf_value x) = (Z.of_nat k + 1, true) /\ is_Some (staticMap !! hf_name x).
Proof.
  intros H. pose proof static_checks as [_ Hc]%andb_true_iff.
  rewrite forallb_forall in Hc. specialize (Hc (k, x)). rewrite <- list_elem_of_In in Hc.
  assert (Hin : (k, x) ∈ imap pair staticTable).
  { apply list_elem_of_lookup. exists k. by rewrite list_lookup_imap, H. }
  specialize (Hc Hin). by rewrite andb_true_iff, !bool_decide_eq_true in Hc.
Qed.

Lemma index_loop_matched l i idx n v j :
  index_loop l i idx n v = (j, true) -> exists k, l !! k = Some (HF n v) /\ j = i + Z.of_nat k.
Proof.
  revert i. induction l as [|x l IH]; intros i H; simpl in H; [done|].
  rewrite !strcmp_eq in H. case_bool_decide as Hn; [|done]. case_bool_decide as Hv.
  - injection H as <-. exists 0%nat. split; [|lia]. simpl. by rewrite Hn, Hv, headerField_eta.
  - destruct (IH _ H) as (k & Hk & ->). exists (S k). split; [done|lia].
Qed.

Lemma index_loop_unmatched l i idx n v j :
  index_loop l i idx n v = (j, false) -> j = idx.
Proof.
  revert i. induction l as [|x l IH]; intros i H; simpl in H; [by injection H|].
  destruct (strcmp n _); [|by injection H]. destruct (strcmp v _); [done|]. by apply IH in H.
Qed.

(** [index] is exact: it reports a match exactly for the entries of the static table, and
    otherwise the position of a field with the same name, or 0 when there is none. *)
Lemma index_true n v i :
  index n v = (i, true) -> 1 <= i <= 61 /\ staticTable !! Z.to_nat (i - 1) = Some (HF n v).
Proof.
  unfold index. destruct (staticMap !! n) as [j|] eqn:Hm; [|done].
  intros (k & Hk & ->)%index_loop_matched. apply staticMap_lookup in Hm as [Hj _].
  rewrite lookup_drop in Hk. pose proof (lookup_lt_Some _ _ _ Hk) as Hlt.
  change (length staticTable) with 61%nat in Hlt. split; [lia|]. rewrite <- Hk. f_equal. lia.
Qed.

Lemma index_false n v i :
  index n v = (i, false) ->
  ~ (HF n v) ∈ staticTable /\
  ((i = 0 /\ (forall x, x ∈ staticTable -> hf_name x <> n)) \/
   (1 <= i <= 61 /\ exists x, staticTable !! Z.to_nat (i - 1) = Some x /\ hf_name x = n)).
Proof.
  intros H. split.
  { intros [k Hk]%list_elem_of_lookup. apply static_index_entry in Hk as [Hk _].
    simpl in Hk. congruence. }
  unfold index in H. destruct (staticMap !! n) as [j|] eqn:Hm.
  - apply index_loop_unmatched in H as ->. right. by apply staticMap_lookup.
  - left. injection H as <-. split; [done|].
    intros x [k Hk]%list_elem_of_lookup <-. apply static_index_entry in Hk as [_ [? Hk]]. congruence.
Qed.

(** ** Positions *)

Lemma entry_all t i :
  entry t i = Some (if 0 <? i then all_entries t !! Z.to_nat (i - 1) else None).
Proof.
  unfold entry, all_entries. pose proof (zlen_nonneg (ht_data t)).
  assert (Hs : zlen staticTable = 61) by reflexivity. rewrite Hs.
  destruct (Z.ltb_spec 0 i) as [Hi|Hi]; [|done]. cbn [andb].
  destruct (Z.leb_spec i (61 + zlen (ht_data t))) as [Hle|Hgt].
  - destruct (Z.leb_spec i 61).
    + rewrite lookup_app_l by (change (length staticTable) with 61%nat; lia).
      destruct (lookup_lt_is_Some_2 staticTable (Z.to_nat (i - 1))) as [x ->]; [|done].
      change (length staticTable) with 61%nat. lia.
    + rewrite lookup_app_r by (change (length staticTable) with 61%nat; lia).
      change (length staticTable) with 61%nat. unfold zlen in *.
      rewrite reverse_lookup by lia.
      replace (length (ht_data t) - S (Z.to_nat (i - 1) - 61))%nat
        with (Z.to_nat (Z.of_nat (length (ht_data t)) - (i - 61))) by lia.
      destruct (lookup_lt_is_Some_2 (ht_data t)
        (Z.to_nat (Z.of_nat (length (ht_data t)) - (i - 61)))) as [x ->]; [lia|done].
  - rewrite (proj2 (lookup_ge_None _ _)); [done|].
    rewrite length_app, length_reverse. change (length staticTable) with 61%nat.
    unfold zlen in *. lia.
Qed.

Lemma table_index_loop_matched l pos idx n v j :
  table_index_loop l pos idx n v = (j, true) ->
  exists k, l !! k = Some (HF n v) /\ j = pos + Z.of_nat k.
Proof.
  revert pos idx. induction l as [|x l IH]; intros pos idx H; simpl in H; [done|].
  rewrite !strcmp_eq in H. case_bool_decide as Hn; [case_bool_decide as Hv|].
  - injection H as <-. exists 0%nat. split; [|lia]. simpl. by rewrite Hn, Hv, headerField_eta.
  - destruct (IH _ _ H) as (k & Hk & ->). exists (S k). split; [done|lia].
  - destruct (IH _ _ H) as (k & Hk & ->). exists (S k). split; [done|lia].
Qed.

Lemma table_index_loop_unmatched l pos idx n v j :
  0 < pos -> table_index_loop l pos idx n v = (j, false) ->
  ~ (HF n v) ∈ l /\
  ((j = idx /\ (idx = 0 -> forall x, x ∈ l -> hf_name x <> n)) \/
   (idx = 0 /\ exists k x, l !! k = Some x /\ hf_name x = n /\ j = pos + Z.of_nat k)).
Proof.
  revert pos idx. induction l as [|x l IH]; intros pos idx Hp H; simpl in H.
  { injection H as <-. split; [apply not_elem_of_nil|]. left. split; [done|].
    intros _ x []%not_elem_of_nil. }
  rewrite !strcmp_eq in H. case_bool_decide as Hn; [case_bool_decide as Hv; [done|]|];
    apply IH in H as [Hni Hor]; try lia; (split; [rewrite not_elem_of_cons; split; [|done];
      intros Heq; apply (f_equal hf_name) in Heq as ?; apply (f_equal hf_value) in Heq; simpl in *; congruence|]).
  - destruct (Z.eqb_spec idx 0) as [->|].
    + right. split; [done|]. destruct Hor as [[-> _]|[? _]]; [|lia].
      exists 0%nat, x. split; [done|]. split; [done|lia].
    + destruct Hor as [[-> _]|[? _]]; [|done]. left. split; [done|]. intros; lia.
  - destruct Hor as [[-> Hno]|(-> & k & y & Hk & ? & ->)].
    + left. split; [done|]. intros Hz y [->|Hy]%elem_of_cons; [congruence|]. by apply Hno.
    + right. split; [done|]. exists (S k), y. split; [done|]. split; [done|lia].
Qed.

Lemma entry_static t i x :
  1 <= i <= 61 -> staticTable !! Z.to_nat (i - 1) = Some x -> entry t i = Some (Some x).
Proof.
  intros Hi Hx. rewrite entry_all. unfold all_entries. destruct (Z.ltb_spec 0 i); [|lia].
  rewrite lookup_app_l; [by rewrite Hx|]. change (length staticTable) with 61%nat. lia.
Qed.

Lemma entry_dynamic t k x :
  reverse (ht_data t) !! k = Some x -> entry t (1 + Z.of_nat k + 61) = Some (Some x).
Proof.
  intros Hk. rewrite entry_all. unfold all_entries.
  destruct (Z.ltb_spec 0 (1 + Z.of_nat k + 61)); [|lia].
  rewrite lookup_app_r; change (length staticTable) with 61%nat; [|lia].
  replace (Z.to_nat (1 + Z.of_nat k + 61 - 1) - 61)%nat with k by lia. by rewrite Hk.
Qed.

(** [find]: a match denotes the very field, a partial match a field with the same name. *)
Lemma find_matched t n v i :
  find t n v = (i, true) -> 0 < i /\ entry t i = Some (Some (HF n v)).
Proof.
  unfold find. destruct (index n v) as [idx [|]] eqn:Hi.
  - intros [= <-]. apply index_true in Hi as [? Hi]. split; [lia|]. by apply entry_static.
  - destruct (table_index t n v) as [j m] eqn:Ht. destruct m; simpl; [|by destruct (_ && _)].
    intros [= <-]. apply table_index_loop_matched in Ht as (k & Hk & ->).
    change (zlen staticTable) with 61. split; [lia|]. by apply entry_dynamic.
Qed.

Lemma find_unmatched t n v i :
  find t n v = (i, false) ->
  ~ (HF n v) ∈ all_entries t /\
  ((i = 0 /\ forall x, x ∈ all_entries t -> hf_name x <> n) \/
   (0 < i /\ exists x, entry t i = Some (Some x) /\ hf_name x = n)).
Proof.
  unfold find. destruct (index n v) as [idx [|]] eqn:Hi; [done|].
  apply index_false in Hi as [Hns Hi]. destruct (table_index t n v) as [j m] eqn:Ht.
  destruct m; [done|]. cbn [orb]. apply table_index_loop_unmatched in Ht as [Hnd Ht]; [|lia].
  intros H. split; [unfold all_entries; rewrite elem_of_app; tauto|].
  destruct Hi as [[-> Hno]|(Hidx & x & Hx & Hn)].
  - destruct Ht as [[-> Hno']|(_ & k & x & Hk & Hn & ->)].
    + simpl in H. injection H as <-. left. split; [done|]. unfold all_entries.
      intros x [?|?]%elem_of_app; [by apply Hno|by apply Hno'].
    + destruct (Z.eqb_spec (1 + Z.of_nat k) 0); [lia|]. simpl in H. injection H as <-. right.
      change (zlen staticTable) with 61. split; [lia|]. exists x. split; [|done].
      by apply entry_dynamic.
  - destruct (Z.eqb_spec idx 0); [lia|]. simpl in H. injection H as <-. right. split; [lia|].
    exists x. split; [|done]. by apply entry_static.
Qed.

(** ** Eviction *)

Lemma HeaderFieldSize_range n v : 0 <= HeaderFieldSize n v < 2 ^ 32.
Proof. apply u32_range. Qed.

Lemma total_size_nonneg l : 0 <= total_size l.
Proof.
  induction l as [|x l IH]; simpl; [done|].
  pose proof (HeaderFieldSize_range (hf_name x) (hf_value x)). unfold hf_size. lia.
Qed.

Lemma total_size_app l k : total_size (l ++ k) = total_size l + total_size k.
Proof. induction l as [|x l IH]; simpl; [done|]. lia. Qed.

Lemma total_size_cons x l : total_size (x :: l) = hf_size x + total_size l.
Proof. done. Qed.

Lemma hf_size_range x : 0 <= hf_size x < 2 ^ 32.
Proof. apply HeaderFieldSize_range. Qed.

Lemma evict_spec_size max l : 0 <= max -> total_size (evict_spec max l) <= max.
Proof.
  intros H. induction l as [|x l IH]; [done|]. cbn [evict_spec].
  destruct (Z.leb_spec (total_size (x :: l)) max); lia.
Qed.

Lemma evict_spec_id max l : total_size l <= max -> evict_spec max l = l.
Proof. destruct l as [|x l]; [done|]. cbn [evict_spec]. destruct (Z.leb_spec (total_size (x :: l)) max); [done|lia]. Qed.

Lemma evict_spec_suffix max l : evict_spec max l `suffix_of` l.
Proof.
  induction l as [|x l IH]; [done|]. cbn [evict_spec]. destruct (_ <=? _); [done|].
  by apply suffix_cons_r.
Qed.

(** Eviction to two bounds in turn is eviction to the smaller one. *)
Lemma evict_spec_evict_spec a b l :
  evict_spec a (evict_spec b l) = evict_spec (a `min` b) l.
Proof.
  induction l as [|x l IH]; [done|]. cbn [evict_spec].
  destruct (Z.leb_spec (total_size (x :: l)) b) as [Hb|Hb];
    destruct (Z.leb_spec (total_size (x :: l)) (a `min` b)) as [Hm|Hm]; try lia.
  - by rewrite evict_spec_id by lia.
  - cbn [evict_spec]. destruct (Z.leb_spec (total_size (x :: l)) a); [lia|].
    rewrite <- IH. f_equal. symmetry. apply evict_spec_id.
    rewrite total_size_cons in Hb. pose proof (hf_size_range x). lia.
  - done.
Qed.

Lemma evict_spec_zero l : (forall x, x ∈ l -> 0 < hf_size x) -> evict_spec 0 l = [].
Proof.
  induction l as [|x l IH]; intros H; [done|]. cbn [evict_spec]. rewrite total_size_cons.
  pose proof (H x ltac:(left)). pose proof (total_size_nonneg l).
  destruct (Z.leb_spec (hf_size x + total_size l) 0); [lia|].
  apply IH. intros y Hy. apply H. by right.
Qed.

(** The eviction loop computes the reference and never runs off the table. *)
Lemma evict_correct data max :
  0 <= max -> total_size data < 2 ^ 32 ->
  evict data (total_size data) max = Some (evict_spec max data, total_size (evict_spec max data)).
Proof.
  intros Hm. induction data as [|x l IH]; intros Hs.
  - simpl. destruct (Z.ltb_spec max 0); [lia|done].
  - cbn [evict evict_spec]. destruct (Z.ltb_spec max (total_size (x :: l)));
      destruct (Z.leb_spec (total_size (x :: l)) max); try lia; [|done].
    rewrite total_size_cons in *. pose proof (hf_size_range x). pose proof (total_size_nonneg l).
    replace (u32 (hf_size x + total_size l - hf_size x)) with (total_size l)
      by (rewrite u32_small; lia).
    apply IH. lia.
Qed.

Lemma HeaderFieldSize_exact n v : field_ok n v -> HeaderFieldSize n v = zlen n + zlen v + 32.
Proof.
  unfold field_ok, HeaderFieldSize, headerEntryOverhead. intros.
  pose proof (zlen_nonneg n). pose proof (zlen_nonneg v). by rewrite u32_small by lia.
Qed.

Lemma hf_ok_pos x : hf_ok x -> 32 <= hf_size x.
Proof.
  intros H. unfold hf_size. rewrite HeaderFieldSize_exact by done.
  pose proof (zlen_nonneg (hf_name x)). pose proof (zlen_nonneg (hf_value x)). lia.
Qed.

Lemma evict_spec_Forall (P : headerField -> Prop) max l : Forall P l -> Forall P (evict_spec max l).
Proof. intros H. destruct (evict_spec_suffix max l) as [k Hk]. rewrite Hk in H. by apply Forall_app in H as [_ ?]. Qed.

Lemma evict_wf data max :
  0 <= max < 2 ^ 31 -> Forall hf_ok data ->
  table_wf (HT (evict_spec max data) (total_size (evict_spec max data)) max).
Proof.
  intros H Hall. split; [done|]. cbn. split; [|split; [lia|by apply evict_spec_Forall]].
  split; [apply total_size_nonneg|]. apply evict_spec_size. lia.
Qed.

Lemma setMaxSize_spec t max :
  table_wf t -> 0 <= max < 2 ^ 31 ->
  exists b, setMaxSize t max =
    Some (HT (evict_spec max (ht_data t)) (total_size (evict_spec max (ht_data t))) max, b).
Proof.
  intros (Hs & Hr & Hmax & Hall) Hm. unfold setMaxSize.
  destruct (Z.eqb_spec max (ht_maxSize t)) as [->|Hne].
  - exists false. rewrite evict_spec_id by lia. rewrite <- Hs. by destruct t.
  - exists true. destruct (Z.eqb_spec max 0) as [->|H0].
    + rewrite evict_spec_zero; [done|]. intros x Hx. rewrite Forall_forall in Hall.
      pose proof (hf_ok_pos x (Hall x Hx)). lia.
    + rewrite Hs, evict_correct by lia. done.
Qed.

Lemma add_spec t n v :
  table_wf t ->
  exists b, add t n v =
    Some (if ht_maxSize t <? HeaderFieldSize n v then HT [] 0 (ht_maxSize t)
          else HT (evict_spec (ht_maxSize t) (ht_data t ++ [HF n v]))
                  (total_size (evict_spec (ht_maxSize t) (ht_data t ++ [HF n v]))) (ht_maxSize t), b).
Proof.
  intros (Hs & Hr & Hmax & Hall). unfold add. destruct (Z.ltb_spec (ht_maxSize t) (HeaderFieldSize n v)).
  - by exists false.
  - exists true. pose proof (HeaderFieldSize_range n v).
    assert (Ht : total_size (ht_data t ++ [HF n v]) = ht_size t + HeaderFieldSize n v).
    { rewrite total_size_app, Hs. cbn. unfold hf_size. cbn. lia. }
    rewrite u32_small by lia. rewrite <- Ht, evict_correct by lia. done.
Qed.

Lemma add_wf t n v :
  table_wf t -> field_ok n v -> exists t' b, add t n v = Some (t', b) /\ table_wf t' /\
    ht_maxSize t' = ht_maxSize t.
Proof.
  intros Hwf Hok. destruct (add_spec t n v Hwf) as [b Hb]. destruct Hwf as (Hs & Hr & Hmax & Hall).
  eexists _, b. split; [exact Hb|]. destruct (_ <? _).
  - split; [|done]. repeat split; cbn; [lia..|constructor].
  - split; [|done]. apply evict_wf; [lia|]. apply Forall_app. split; [done|]. by repeat constructor.
Qed.

Lemma setMaxSize_wf t max :
  table_wf t -> 0 <= max < 2 ^ 31 -> exists t' b, setMaxSize t max = Some (t', b) /\ table_wf t' /\
    ht_maxSize t' = max.
Proof.
  intros Hwf Hm. destruct (setMaxSize_spec t max Hwf Hm) as [b Hb].
  eexists _, b. split; [exact Hb|]. split; [|done]. apply evict_wf; [lia|]. apply Hwf.
Qed.

#[export] Hint Resolve add_wf setMaxSize_wf : h2arith.

Lemma total_size_len l : Forall hf_ok l -> 32 * zlen l <= total_size l.
Proof.
  induction 1 as [|x l Hx Hl IH]; [done|]. rewrite zlen_cons, total_size_cons.
  pose proof (hf_ok_pos x Hx). lia.
Qed.

(** Positions of a well-formed table are small. *)
Lemma entry_bound t i x :
  table_wf t -> entry t i = Some (Some x) -> 0 < i < 2 ^ 60.
Proof.
  intros (Hs & Hr & Hmax & Hall) He. rewrite entry_all in He.
  destruct (Z.ltb_spec 0 i); [|done]. injection He as He. apply lookup_lt_Some in He.
  unfold all_entries in He. rewrite length_app, length_reverse in He.
  change (length staticTable) with 61%nat in He.
  pose proof (total_size_len _ Hall). unfold zlen in *. lia.
Qed.

(** Tables with the same entries and bound are equal. *)
Lemma table_wf_eq t1 t2 :
  table_wf t1 -> table_wf t2 -> ht_data t1 = ht_data t2 -> ht_maxSize t1 = ht_maxSize t2 -> t1 = t2.
Proof. intros (H1 & _) (H2 & _) Hd Hm. destruct t1, t2. cbn in *. congruence. Qed.

(** ** Properties *)

(** C24: [find] is exact.  On a match the position it returns denotes precisely the field
    searched for; without a match the field is in neither table, and the position denotes
    an entry of the same name, or is zero if there is none. *)
Theorem find_exact t n v :
  match find t n v with
  | (i, true) => 0 < i /\ entry t i = Some (Some (HF n v))
  | (i, false) =>
    ~ HF n v ∈ all_entries t /\
    ((i = 0 /\ forall x, x ∈ all_entries t -> hf_name x <> n) \/
     (0 < i /\ exists x, entry t i = Some (Some x) /\ hf_name x = n))
  end.
Proof.
  destruct (find t n v) as [i [|]] eqn:Hf; [by apply find_matched|by apply find_unmatched].
Qed.

(** C27: the dynamic table keeps its size within its bound.  Adding a field and changing the
    bound never panic on a well-formed table, leave it well-formed (the recorded size is
    the sum of the entry sizes and at most the bound), and keep exactly the newest
    entries that fit: eviction is from the oldest end and stops as soon as the rest fits. *)
Theorem table_operations t n v max :
  table_wf t -> field_ok n v -> 0 <= max < 2 ^ 31 ->
  (exists t' b, add t n v = Some (t', b) /\ table_wf t' /\ ht_maxSize t' = ht_maxSize t /\
     ht_data t' = if ht_maxSize t <? HeaderFieldSize n v then []
                  else evict_spec (ht_maxSize t) (ht_data t ++ [HF n v])) /\
  (exists t' b, setMaxSize t max = Some (t', b) /\ table_wf t' /\ ht_maxSize t' = max /\
     ht_data t' = evict_spec max (ht_data t)).
Proof.
  intros Hwf Hok Hm. split.
  - destruct (add_wf t n v Hwf Hok) as (t' & b & Ha & Hwf' & Hmx).
    exists t', b. split_and!; [done..|]. destruct (add_spec t n v Hwf) as [b' Hb].
    rewrite Ha in Hb. injection Hb as -> ->. by destruct (_ <? _).
  - destruct (setMaxSize_wf t max Hwf Hm) as (t' & b & Ha & Hwf' & Hmx).
    exists t', b. split_and!; [done..|]. destruct (setMaxSize_spec t max Hwf Hm) as [b' Hb].
    rewrite Ha in Hb. by injection Hb as -> ->.
Qed.

Lemma table_operations_witness :
  exists t' b, add (HT [] 0 100) (str "name") (str "value") = Some (t', b) /\ table_wf t' /\
    ht_maxSize t' = 100 /\ ht_data t' = [HF (str "name") (str "value")].
Proof.
  refine (proj1 (table_operations (HT [] 0 100) (str "name") (str "value") 0 _ _ _)).
  - repeat constructor; vm_compute; congruence.
  - vm_compute. reflexivity.
  - lia.
Defined.
