(* ===== verification/HpackEncode.v ===== *)
(** * The HPACK encoder ([src/hpack/hpack.go], encoding half)

    [encInteger], [encStringLiteral], [encIndexed], [encLiteral],
    [encDynamicTableSizeUpdate] and the [Encoder] with [NewEncoder],
    [SetMaxHeaderTableSize] and [EncodeHeaderField].  Every function appends to the
    slice [dst] it is given and returns the new slice.  [None] is a run-time panic
    (of the header table). *)

From S2P Require Import Prelude Huffman HeaderTable.

Definition maxUint32 : Z := 2 ^ 32 - 1.

Inductive indexType := indexedTrue | indexedFalse | indexedNever.

Inductive huffman := huffForceTrue | huffTrue | huffFalse.

(** ** Primitive representations *)

(** [for i >= 128 { ...; i >>= 7 }]; ten iterations exhaust a 64-bit integer. *)
Fixpoint encInteger_loop (fuel : nat) (dst : list byte) (i : Z) : list byte :=
  match fuel with
  | O => dst ++ [zb i]
  | S fuel =>
    if 128 <=? i then
      encInteger_loop fuel (dst ++ [zb (Z.lor (Z.land i 0x7f) 0x80)]) (Z.shiftr i 7)
    else dst ++ [zb i]
  end.

Definition encInteger (dst : list byte) (mask n i : Z) : list byte :=
  let bound := u64 (Z.shiftl 1 n - 1) in
  if i <? bound then dst ++ [zb (Z.lor mask (u8 i))]
  else encInteger_loop 10 (dst ++ [zb (Z.lor mask (u8 bound))]) (i - bound).

Definition encStringLiteral (dst : list byte) (s : gostring) (h : huffman) : list byte :=
  let slen := zlen s in
  match h with
  | huffForceTrue => HuffmanEncode (encInteger dst 0x80 7 (HuffmanEncodedLen s)) s
  | huffTrue =>
    let hlen := HuffmanEncodedLen s in
    if hlen <? slen then HuffmanEncode (encInteger dst 0x80 7 hlen) s
    else encInteger dst 0x00 7 slen ++ s
  | huffFalse => encInteger dst 0x00 7 slen ++ s
  end.

Definition encIndexed (dst : list byte) (idx : Z) : list byte := encInteger dst 0x80 7 idx.

Definition literalPrefix (t : indexType) : Z * Z :=
  match t with
  | indexedTrue => (0x40, 6)
  | indexedFalse => (0x00, 4)
  | indexedNever => (0x10, 4)
  end.

Definition encLiteral (dst : list byte) (name value : gostring) (idxType : indexType) (idx : Z)
  (h : huffman) : Z * list byte :=
  let '(mask, n) := literalPrefix idxType in
  let dst := encInteger dst mask n idx in
  let '(hsize, dst) :=
    if idx =? 0 then (u32 (zlen name), encStringLiteral dst name h) else (0, dst) in
  (u32 (hsize + u32 (zlen value + headerEntryOverhead)), encStringLiteral dst value h).

Definition encDynamicTableSizeUpdate (dst : list byte) (size : Z) : list byte :=
  encInteger dst 0x20 5 size.

(** ** The encoder *)

Record Encoder := MkEncoder {
  e_table : headerTable;
  e_minSize : Z;
  e_sizeChanged : bool;
  e_i : bool;
  e_h : huffman;
}.

Definition NewEncoder (maxHeaderTableSize : Z) : Encoder :=
  MkEncoder (HT [] 0 maxHeaderTableSize) maxUint32 false true huffTrue.

Definition enc_SetMaxHeaderTableSize (enc : Encoder) (max : Z) : option Encoder :=
  let minSize := if max <? e_minSize enc then max else e_minSize enc in
  '(t, _) ← setMaxSize (e_table enc) max;
  Some (MkEncoder t minSize true (e_i enc) (e_h enc)).

(** The pending size updates at the head of [EncodeHeaderField]. *)
Definition encSizeUpdates (enc : Encoder) (dst : list byte) : Encoder * list byte :=
  if e_sizeChanged enc then
    let dst := if e_minSize enc <? ht_maxSize (e_table enc)
               then encDynamicTableSizeUpdate dst (e_minSize enc) else dst in
    (MkEncoder (e_table enc) maxUint32 false (e_i enc) (e_h enc),
     encDynamicTableSizeUpdate dst (ht_maxSize (e_table enc)))
  else (enc, dst).

Definition EncodeHeaderField (enc : Encoder) (dst : list byte) (name value : gostring)
  (sensitive : bool) : option (Z * list byte * Encoder) :=
  let '(enc, dst) := encSizeUpdates enc dst in
  let hsize := HeaderFieldSize name value in
  if sensitive then
    let '(hsize, dst) := encLiteral dst name value indexedNever 0 (e_h enc) in
    Some (hsize, dst, enc)
  else if ht_maxSize (e_table enc) =? 0 then
    let '(idx, matched) := index name value in
    if matched then Some (0, encIndexed dst idx, enc)
    else
      let '(hsize, dst) := encLiteral dst name value indexedFalse idx (e_h enc) in
      Some (hsize, dst, enc)
  else if ht_maxSize (e_table enc) <? hsize then
    let '(hsize, dst) := encLiteral dst name value indexedFalse 0 (e_h enc) in
    Some (hsize, dst, enc)
  else
    let '(idx, matched) := find (e_table enc) name value in
    if matched then Some (0, encIndexed dst idx, enc)
    else if e_i enc then
      let '(hsize, dst) := encLiteral dst name value indexedTrue idx (e_h enc) in
      '(t, _) ← add (e_table enc) name value;
      Some (hsize, dst, MkEncoder t (e_minSize enc) (e_sizeChanged enc) (e_i enc) (e_h enc))
    else
      let '(hsize, dst) := encLiteral dst name value indexedFalse idx (e_h enc) in
      Some (hsize, dst, enc).

(** ** Encoding appends to the buffer *)

Lemma encInteger_loop_app fuel dst i :
  encInteger_loop fuel dst i = dst ++ encInteger_loop fuel [] i.
Proof.
  revert dst i. induction fuel as [|fuel IH]; intros dst i; simpl; [done|].
  destruct (128 <=? i); [|done]. rewrite IH, (IH [_]). by rewrite <- app_assoc.
Qed.

Lemma encInteger_app dst mask n i : encInteger dst mask n i = dst ++ encInteger [] mask n i.
Proof.
  unfold encInteger. destruct (_ <? _); [done|].
  rewrite encInteger_loop_app, (encInteger_loop_app _ ([] ++ _)). by rewrite <- app_assoc.
Qed.

Lemma encStringLiteral_app dst s h :
  encStringLiteral dst s h = dst ++ encStringLiteral [] s h.
Proof.
  unfold encStringLiteral. destruct h; [|destruct (_ <? _)|];
    rewrite ?(HuffmanEncode_app (encInteger _ _ _ _)), encInteger_app; by rewrite <- app_assoc.
Qed.

Lemma encLiteral_app dst name value t idx h :
  encLiteral dst name value t idx h =
  ((encLiteral [] name value t idx h).1, dst ++ (encLiteral [] name value t idx h).2).
Proof.
  unfold encLiteral. destruct (literalPrefix t) as [mask n]. destruct (idx =? 0); cbn [fst snd].
  - rewrite (encStringLiteral_app (encStringLiteral _ _ _)), (encStringLiteral_app (encInteger _ _ _ _)).
    rewrite (encStringLiteral_app (encStringLiteral _ _ _) value), (encStringLiteral_app (encInteger [] _ _ _)).
    rewrite encInteger_app. by rewrite <- !app_assoc.
  - rewrite encStringLiteral_app, (encStringLiteral_app (encInteger [] _ _ _)), encInteger_app.
    by rewrite <- app_assoc.
Qed.

Lemma encInteger_nonempty mask n i : encInteger [] mask n i <> [].
Proof.
  unfold encInteger. destruct (_ <? _); [done|]. by rewrite encInteger_loop_app.
Qed.
