(* ===== verification/HpackDecode.v ===== *)
(** * The HPACK decoder ([src/hpack/hpack.go], decoding half)

    [Decoder] with its embedded [decoderState], the step [decode] with its five field
    representations, and the driver [Decode] that accepts a header block in arbitrary
    chunks.  The handler passed to [Decode] is an argument with a state of its own; it
    may fail or panic.  The scratch slice [hbuf] is not part of the state: its contents
    are copied into a string before the next use. *)

From S2P Require Import Prelude Huffman HeaderTable HpackEncode.

Inductive decodingError :=
| errHeaderTableSizeUpdateRequired
| errHeaderTableSizeUpdate
| errTruncated
| errBadHeaderBlock
| errBadHeaderTableSize
| errBadIndexValue
| errIntegerOverflow.

(** Errors of the package, and those of the handler. *)
Inductive hpackError (E : Type) :=
| ErrHeaderFieldsTooLarge
| errNeedsMore
| DecodingError (d : decodingError)
| HandlerError (e : E).
Arguments ErrHeaderFieldsTooLarge {E}.
Arguments errNeedsMore {E}.
Arguments DecodingError {E} d.
Arguments HandlerError {E} e.

(** ** Primitive representations: functions from the input to a result and the rest *)

Fixpoint decInteger_loop {E} (data : list byte) (i m : Z) : outcome (hpackError E) Z * list byte :=
  match data with
  | [] => (Err errNeedsMore, [])
  | b :: data =>
    let i := u64 (i + u64 (Z.shiftl (Z.land (bz b) 127) m)) in
    let m := m + 7 in
    if Z.land (bz b) 128 =? 0 then (Ok i, data)
    else if 63 <=? m then (Err (DecodingError errIntegerOverflow), data)
    else decInteger_loop data i m
  end.

Definition decInteger {E} (n : Z) (data : list byte) : outcome (hpackError E) Z * list byte :=
  match data with
  | [] => (Err errNeedsMore, [])
  | b :: data =>
    let bound := u64 (Z.shiftl 1 n - 1) in
    let i := Z.land (bz b) bound in
    if i <? bound then (Ok i, data) else decInteger_loop data i 0
  end.

Definition decStringLiteral {E} (data : list byte) : outcome (hpackError E) gostring * list byte :=
  match data with
  | [] => (Err errNeedsMore, [])
  | b :: _ =>
    let h := negb (Z.land (bz b) 128 =? 0) in
    match decInteger 7 data with
    | (Ok l, data) =>
      if zlen data <? l then (Err errNeedsMore, data)
      else
        let s := take (Z.to_nat l) data in
        let rest := drop (Z.to_nat l) data in
        if h then
          match HuffmanDecode [] s with
          | Some s => (Ok s, rest)
          | None => (Panic, data)
          end
        else (Ok s, rest)
    | (Err e, data) => (Err e, data)
    | (Panic, data) => (Panic, data)
    end
  end.

(** ** The decoder *)

Section Decoder.
Context {H E : Type}.

Record Decoder := MkDecoder {
  d_table : headerTable;
  d_maxSize : Z;
  d_maxSizeLimit : Z;
  d_sizeChanged : bool;
  d_n : Z;
  d_err : option (hpackError E);
  d_data : list byte;
  d_b : list byte;
  d_st : bool;
  d_hs : H;
}.

Definition NewDecoder (maxHeaderTableSize : Z) (hs : H) : Decoder :=
  MkDecoder (HT [] 0 maxHeaderTableSize) maxHeaderTableSize maxHeaderTableSize false 0 None [] [] false hs.

Definition set_table (t : headerTable) (d : Decoder) : Decoder :=
  MkDecoder t (d_maxSize d) (d_maxSizeLimit d) (d_sizeChanged d) (d_n d) (d_err d)
            (d_data d) (d_b d) (d_st d) (d_hs d).
Definition set_data (x : list byte) (d : Decoder) : Decoder :=
  MkDecoder (d_table d) (d_maxSize d) (d_maxSizeLimit d) (d_sizeChanged d) (d_n d) (d_err d)
            x (d_b d) (d_st d) (d_hs d).
Definition set_b (x : list byte) (d : Decoder) : Decoder :=
  MkDecoder (d_table d) (d_maxSize d) (d_maxSizeLimit d) (d_sizeChanged d) (d_n d) (d_err d)
            (d_data d) x (d_st d) (d_hs d).
Definition set_st (x : bool) (d : Decoder) : Decoder :=
  MkDecoder (d_table d) (d_maxSize d) (d_maxSizeLimit d) (d_sizeChanged d) (d_n d) (d_err d)
            (d_data d) (d_b d) x (d_hs d).
Definition set_n (x : Z) (d : Decoder) : Decoder :=
  MkDecoder (d_table d) (d_maxSize d) (d_maxSizeLimit d) (d_sizeChanged d) x (d_err d)
            (d_data d) (d_b d) (d_st d) (d_hs d).
Definition set_err (x : option (hpackError E)) (d : Decoder) : Decoder :=
  MkDecoder (d_table d) (d_maxSize d) (d_maxSizeLimit d) (d_sizeChanged d) (d_n d) x
            (d_data d) (d_b d) (d_st d) (d_hs d).
Definition set_hs (x : H) (d : Decoder) : Decoder :=
  MkDecoder (d_table d) (d_maxSize d) (d_maxSizeLimit d) (d_sizeChanged d) (d_n d) (d_err d)
            (d_data d) (d_b d) (d_st d) x.
Definition set_sizes (t : headerTable) (maxSize maxSizeLimit : Z) (changed : bool) (d : Decoder) : Decoder :=
  MkDecoder t maxSize maxSizeLimit changed (d_n d) (d_err d) (d_data d) (d_b d) (d_st d) (d_hs d).

Definition dec_SetMaxHeaderTableSize (d : Decoder) (max : Z) : option Decoder :=
  if max <? d_maxSizeLimit d then
    '(t, _) ← setMaxSize (d_table d) max;
    Some (set_sizes t max (d_maxSizeLimit d) true d)
  else Some (set_sizes (d_table d) max (d_maxSizeLimit d) (d_sizeChanged d) d).

(** *** A state, error and panic monad over the decoder *)

Definition M (A : Type) : Type := Decoder -> outcome (hpackError E) A * Decoder.

Definition ret {A} (a : A) : M A := fun d => (Ok a, d).
Definition throw {A} (e : hpackError E) : M A := fun d => (Err e, d).
Definition bind {A B} (m : M A) (k : A -> M B) : M B := fun d =>
  match m d with
  | (Ok a, d) => k a d
  | (Err e, d) => (Err e, d)
  | (Panic, d) => (Panic, d)
  end.

Local Notation "x <- m ;; k" := (bind m (fun x => k))
  (at level 100, m at next level, right associativity).
Local Notation "m ;; k" := (bind m (fun _ => k)) (at level 100, right associativity).

Definition consume {A} (f : list byte -> outcome (hpackError E) A * list byte) : M A := fun d =>
  let '(r, rest) := f (d_data d) in (r, set_data rest d).

(** [state.handle] is nil or a function of its own state. *)
Variable handle : option (H -> gostring -> gostring -> bool -> outcome E unit * H).

Definition callHandle (name value : gostring) (sensitive : bool) : M unit := fun d =>
  match handle with
  | None => (Ok tt, d)
  | Some f =>
    match f (d_hs d) name value sensitive with
    | (Ok _, h) => (Ok tt, set_hs h d)
    | (Err e, h) => (Err (HandlerError e), set_hs h d)
    | (Panic, h) => (Panic, set_hs h d)
    end
  end.

Definition tableEntry (idx : Z) : M headerField := fun d =>
  match entry (d_table d) idx with
  | Some (Some hf) => (Ok hf, d)
  | Some None => (Err (DecodingError errBadIndexValue), d)
  | None => (Panic, d)
  end.

Definition tableAdd (name value : gostring) : M unit := fun d =>
  match add (d_table d) name value with
  | Some (t, _) => (Ok tt, set_table t d)
  | None => (Panic, d)
  end.

Definition markStarted : M unit := fun d => (Ok tt, set_st true d).

(** *** The field representations *)

Definition decIndexed : M unit :=
  markStarted ;;
  idx <- consume (decInteger 7) ;;
  hf <- tableEntry idx ;;
  callHandle (hf_name hf) (hf_value hf) false.

Definition decLiteral (idxType : indexType) : M Z :=
  markStarted ;;
  idx <- consume (decInteger (literalPrefix idxType).2) ;;
  nh <- (if 0 <? idx then hf <- tableEntry idx ;; ret (hf_name hf, 0)
         else name <- consume decStringLiteral ;; ret (name, u32 (zlen name))) ;;
  value <- consume decStringLiteral ;;
  (if idxType is indexedTrue then tableAdd nh.1 value else ret tt) ;;
  callHandle nh.1 value (if idxType is indexedNever then true else false) ;;
  ret (u32 (nh.2 + u32 (zlen value + headerEntryOverhead))).

Definition decDynamicTableSizeUpdate : M unit := fun d =>
  if d_st d then (Err (DecodingError errHeaderTableSizeUpdate), d)
  else
    (i <- consume (decInteger 5) ;;
     fun d =>
       let size := u32 i in
       if d_maxSize d <? size then (Err (DecodingError errBadHeaderTableSize), d)
       else
         match setMaxSize (d_table d) size with
         | Some (t, _) => (Ok tt, set_sizes t (d_maxSize d) size false d)
         | None => (Panic, d)
         end) d.

(** [decode]: dispatch on the first byte; the input is restored when it was too short. *)
Definition decode_dispatch (b : Z) : M Z :=
  if negb (Z.land b 128 =? 0) then decIndexed ;; ret 0
  else if Z.land b 192 =? 64 then decLiteral indexedTrue
  else if Z.land b 240 =? 0 then decLiteral indexedFalse
  else if Z.land b 240 =? 16 then decLiteral indexedNever
  else if Z.land b 224 =? 32 then decDynamicTableSizeUpdate ;; ret 0
  else throw (DecodingError errBadHeaderBlock).

Definition decode : M Z := fun d =>
  match d_data d with
  | [] => (Panic, d)
  | b :: _ =>
    match decode_dispatch (bz b) d with
    | (Err errNeedsMore, d') => (Err errNeedsMore, set_data (d_data d) d')
    | r => r
    end
  end.

(** *** The driver *)

(** [for dec.more() { ... }] with the assignment of [dec.err] that follows it.  Every
    successful step consumes at least one byte, so [fuel] above the length of the data
    is never exhausted ([Decode_loop_fuel]). *)
Fixpoint Decode_loop (fuel : nat) (limit : Z) (d : Decoder) : outcome (hpackError E) unit * Decoder :=
  match fuel with
  | O => (Panic, d)
  | S fuel =>
    match d_data d with
    | [] => (Ok tt, d)
    | _ =>
      match decode d with
      | (Err errNeedsMore, d) => (Ok tt, set_b (d_b d ++ d_data d) d)
      | (Err e, d) => (Err e, set_err (Some e) d)
      | (Panic, d) => (Panic, d)
      | (Ok n, d) =>
        if limit =? 0 then Decode_loop fuel limit d
        else if limit <? u32 (d_n d + n) then
          (Err ErrHeaderFieldsTooLarge, set_err (Some ErrHeaderFieldsTooLarge) d)
        else Decode_loop fuel limit (set_n (u32 (d_n d + n)) d)
      end
    end
  end.

Definition Decode (d : Decoder) (headerBlock : list byte) (headerBlockSizeLimit : Z)
  : outcome (hpackError E) unit * Decoder :=
  match d_err d with
  | Some e => (Err e, d)
  | None =>
    if decide (headerBlock = []) then (Ok tt, d)
    else
      let data := d_b d ++ headerBlock in
      let d := set_b [] (set_data data d) in
      match data with
      | b :: _ =>
        if d_sizeChanged d && negb (Z.land (bz b) 224 =? 32) then
          (Err (DecodingError errHeaderTableSizeUpdateRequired),
           set_err (Some (DecodingError errHeaderTableSizeUpdateRequired)) d)
        else Decode_loop (S (length data)) headerBlockSizeLimit d
      | [] => (Panic, d)
      end
  end.

Definition Reset (d : Decoder) : option (hpackError E) * Decoder :=
  let d' := set_n 0 (set_st false (set_err None d)) in
  if decide (d_b d = []) then (None, d')
  else (Some (DecodingError errTruncated), set_b [] d').

End Decoder.
Arguments Decoder H E : clear implicits.
Arguments M H E A : clear implicits.

(** ** Integers: the decoder inverts the encoder up to 63 bits *)

Lemma cont_byte x :
  0 <= x -> bz (zb (Z.lor (Z.land x 0x7f) 0x80)) = x mod 128 + 128.
Proof.
  intros Hx. rewrite land_127_mod. pose proof (Z.mod_pos_bound x 128 ltac:(lia)).
  rewrite Z.lor_comm, (lor_disjoint 128 _ 7) by (done || lia).
  rewrite bz_zb_small by lia. lia.
Qed.

Lemma decInteger_loop_last {E} x rest i m :
  0 <= m -> 0 <= i -> 0 <= x < 128 -> i + x * 2 ^ m < 2 ^ 64 ->
  decInteger_loop (E := E) (([] ++ [zb x]) ++ rest) i m = (Ok (i + x * 2 ^ m), rest).
Proof.
  intros Hm Hi Hx Hb. cbn [app decInteger_loop]. rewrite byte_top_bit, bz_zb_small by lia.
  destruct (Z.ltb_spec x 128); [|lia].
  rewrite land_127_mod, (Z.mod_small x) by lia. rewrite Z.shiftl_mul_pow2 by lia.
  rewrite (u64_small (x * 2 ^ m)) by nia. by rewrite u64_small by nia.
Qed.

Lemma decInteger_loop_enc {E} fuel x rest i m :
  0 <= m -> 0 <= i -> 0 <= x < 2 ^ (63 - m) -> m < 63 -> x < 2 ^ (7 * (Z.of_nat fuel + 1)) ->
  i + x * 2 ^ m < 2 ^ 64 ->
  decInteger_loop (E := E) (encInteger_loop fuel [] x ++ rest) i m = (Ok (i + x * 2 ^ m), rest).
Proof.
  revert x i m. induction fuel as [|fuel IH]; intros x i m Hm Hi Hx Hm63 Hf Hb; cbn [encInteger_loop].
  - change (7 * (Z.of_nat 0 + 1)) with 7 in Hf. apply decInteger_loop_last; lia.
  - destruct (Z.leb_spec 128 x) as [Hge|Hlt].
    + rewrite encInteger_loop_app, <- app_assoc. cbn [app decInteger_loop].
      rewrite byte_top_bit, cont_byte by lia. pose proof (Z.mod_pos_bound x 128 ltac:(lia)).
      destruct (Z.ltb_spec (x mod 128 + 128) 128); [lia|].
      assert (m < 56) as Hm56.
      { destruct (decide (m < 56)); [done|]. assert (2 ^ (63 - m) <= 2 ^ 7) by (apply Z.pow_le_mono_r; lia). lia. }
      destruct (Z.leb_spec 63 (m + 7)); [lia|].
      assert (Hl : Z.land (x mod 128 + 128) 127 = x mod 128).
      { rewrite land_127_mod. rewrite <- (Z.mul_1_l 128) at 2. rewrite Z.mod_add, Z.mod_mod by lia. done. }
      rewrite Hl, !Z.shiftl_mul_pow2, Z.shiftr_div_pow2 by lia. change (2 ^ 7) with 128.
      assert (Hsplit : x = 128 * (x / 128) + x mod 128) by (apply Z.div_mod; lia).
      assert (Hpow : 2 ^ (m + 7) = 2 ^ m * 128) by (rewrite Z.pow_add_r by lia; done).
      assert (0 < 2 ^ m) by lia. assert (0 <= x / 128) by (apply Z.div_pos; lia).
      assert (Hsum : i + x * 2 ^ m = i + (x mod 128) * 2 ^ m + (x / 128) * 2 ^ (m + 7)).
      { rewrite Hpow, Hsplit at 1. ring. }
      rewrite (u64_small (x mod 128 * 2 ^ m)) by nia. rewrite u64_small by nia.
      rewrite IH; [by rewrite Hsum|lia|nia| |lia| |lia].
      * split; [done|]. apply Z.div_lt_upper_bound; [lia|].
        replace (63 - m) with (7 + (63 - (m + 7))) in Hx by lia. rewrite Z.pow_add_r in Hx by lia. lia.
      * apply Z.div_lt_upper_bound; [lia|].
        replace (7 * (Z.of_nat (S fuel) + 1)) with (7 + 7 * (Z.of_nat fuel + 1)) in Hf by lia.
        rewrite Z.pow_add_r in Hf by lia. lia.
    + apply decInteger_loop_last; lia.
Qed.

(** The masks and prefix lengths of the field representations. *)
Definition prefix_ok (mask n : Z) : Prop := 1 <= n <= 7 /\ 0 <= mask <= 256 - 2 ^ n /\ mask mod 2 ^ n = 0.

Lemma prefix_raw : prefix_ok 0 7.
Proof. vm_compute; intuition congruence. Qed.

Lemma prefix_indexed : prefix_ok 0x80 7.
Proof. vm_compute; intuition congruence. Qed.

Lemma prefix_update : prefix_ok 0x20 5.
Proof. vm_compute; intuition congruence. Qed.

Lemma prefix_literal t : prefix_ok (literalPrefix t).1 (literalPrefix t).2.
Proof. destruct t; vm_compute; intuition congruence. Qed.

#[export] Hint Resolve prefix_raw prefix_indexed prefix_update prefix_literal : h2arith.

Lemma prefix_first_byte mask n y :
  prefix_ok mask n -> 0 <= y < 2 ^ n ->
  bz (zb (Z.lor mask (u8 y))) = mask + y /\ Z.land (mask + y) (2 ^ n - 1) = y.
Proof.
  intros (Hn & Hm & Hmod) Hy. assert (2 ^ n <= 2 ^ 7) by (apply Z.pow_le_mono_r; lia).
  rewrite u8_small by lia. rewrite (lor_disjoint _ _ n) by lia. rewrite bz_zb_small by lia.
  split; [done|]. replace (2 ^ n - 1) with (Z.ones n) by (rewrite Z.ones_equiv; lia). rewrite Z.land_ones by lia.
  rewrite Z.add_mod, Hmod, Z.add_0_l, Z.mod_mod by lia. by apply Z.mod_small.
Qed.

Lemma bound_eq n : 1 <= n <= 7 -> u64 (Z.shiftl 1 n - 1) = 2 ^ n - 1.
Proof.
  intros Hn. rewrite Z.shiftl_mul_pow2, Z.mul_1_l by lia.
  assert (2 ^ n <= 2 ^ 7) by (apply Z.pow_le_mono_r; lia). apply u64_small. lia.
Qed.

Lemma encInteger_shape mask n i :
  prefix_ok mask n -> 0 <= i ->
  exists b tl, encInteger [] mask n i = b :: tl /\
    if i <? 2 ^ n - 1 then bz b = mask + i /\ tl = []
    else bz b = mask + (2 ^ n - 1) /\ tl = encInteger_loop 10 [] (i - (2 ^ n - 1)).
Proof.
  intros Hp Hi. pose proof Hp as (Hn & Hm & _). assert (2 ^ n <= 2 ^ 7) by (apply Z.pow_le_mono_r; lia).
  unfold encInteger. rewrite bound_eq by lia. destruct (Z.ltb_spec i (2 ^ n - 1)).
  - eexists _, []. split; [done|]. split; [|done]. apply (prefix_first_byte _ n); [done|lia].
  - rewrite encInteger_loop_app. eexists _, _. split; [done|]. split; [|done].
    apply (prefix_first_byte _ n); [done|lia].
Qed.

Lemma decInteger_enc {E} mask n i rest :
  prefix_ok mask n -> 0 <= i -> i - (2 ^ n - 1) < 2 ^ 63 ->
  decInteger (E := E) n (encInteger [] mask n i ++ rest) = (Ok i, rest).
Proof.
  intros Hp Hi Hb. pose proof Hp as (Hn & Hm & _).
  assert (2 ^ n <= 2 ^ 7) by (apply Z.pow_le_mono_r; lia).
  destruct (encInteger_shape mask n i Hp Hi) as (b & tl & -> & Hs).
  cbn [app decInteger]. rewrite bound_eq by lia.
  destruct (Z.ltb_spec i (2 ^ n - 1)); destruct Hs as [-> ->].
  - rewrite (proj2 (prefix_first_byte mask n i Hp ltac:(lia))).
    destruct (Z.ltb_spec i (2 ^ n - 1)); [done|lia].
  - rewrite (proj2 (prefix_first_byte mask n (2 ^ n - 1) Hp ltac:(lia))), Z.ltb_irrefl.
    rewrite decInteger_loop_enc by lia. do 2 f_equal. lia.
Qed.

Lemma decInteger_loop_overflow {E} (k fuel : nat) x rest i :
  (k <= 8)%nat -> (9 <= k + fuel)%nat -> 2 ^ (63 - 7 * Z.of_nat k) <= x ->
  exists rest', decInteger_loop (E := E) (encInteger_loop fuel [] x ++ rest) i (7 * Z.of_nat k) =
    (Err (DecodingError errIntegerOverflow), rest').
Proof.
  revert k x i. induction fuel as [|fuel IH]; intros k x i Hk Hf Hx; [lia|].
  assert (2 ^ 7 <= 2 ^ (63 - 7 * Z.of_nat k)) by (apply Z.pow_le_mono_r; lia).
  cbn [encInteger_loop]. destruct (Z.leb_spec 128 x); [|lia].
  rewrite encInteger_loop_app, <- app_assoc. cbn [app decInteger_loop].
  rewrite byte_top_bit, cont_byte by lia. pose proof (Z.mod_pos_bound x 128 ltac:(lia)).
  destruct (Z.ltb_spec (x mod 128 + 128) 128); [lia|].
  destruct (Z.leb_spec 63 (7 * Z.of_nat k + 7)); [by eexists|].
  replace (7 * Z.of_nat k + 7) with (7 * Z.of_nat (S k)) by lia. apply IH; [lia..|].
  rewrite Z.shiftr_div_pow2 by lia. apply Z.div_le_lower_bound; [lia|].
  replace (63 - 7 * Z.of_nat k) with (7 + (63 - 7 * Z.of_nat (S k))) in Hx by lia.
  rewrite Z.pow_add_r in Hx by lia. lia.
Qed.

Lemma decInteger_enc_overflow {E} mask n i rest :
  prefix_ok mask n -> 2 ^ 63 <= i - (2 ^ n - 1) ->
  exists rest', decInteger (E := E) n (encInteger [] mask n i ++ rest) =
    (Err (DecodingError errIntegerOverflow), rest').
Proof.
  intros Hp Hb. pose proof Hp as (Hn & Hm & _).
  assert (1 < 2 ^ n) by (apply Z.pow_gt_1; lia).
  destruct (encInteger_shape mask n i Hp ltac:(lia)) as (b & tl & -> & Hs).
  cbn [app decInteger]. rewrite bound_eq by lia.
  destruct (Z.ltb_spec i (2 ^ n - 1)); destruct Hs as [-> ->]; [lia|].
  rewrite (proj2 (prefix_first_byte mask n (2 ^ n - 1) Hp ltac:(lia))), Z.ltb_irrefl.
  apply (decInteger_loop_overflow 0 10); [lia..|]. change (63 - 7 * Z.of_nat 0) with 63. lia.
Qed.

(** ** Strings *)

Lemma decString_enc_raw {E} l s rest :
  l = zlen s -> zlen s < 2 ^ 62 ->
  decStringLiteral (E := E) ((encInteger [] 0x00 7 l ++ s) ++ rest) = (Ok s, rest).
Proof.
  intros -> Hl. pose proof (zlen_nonneg s). assert (Hp := prefix_raw).
  rewrite <- app_assoc. unfold decStringLiteral.
  pose proof (decInteger_enc (E := E) 0 7 (zlen s) (s ++ rest) Hp ltac:(lia) ltac:(lia)) as Hd.
  destruct (encInteger_shape 0 7 (zlen s) Hp ltac:(lia)) as (b & tl & Ht & Hs). rewrite Ht in *.
  cbn [app] in *. rewrite Hd, byte_top_bit.
  assert (bz b < 128) as Hb by (destruct (Z.ltb_spec (zlen s) (2 ^ 7 - 1)); lia).
  destruct (Z.ltb_spec (bz b) 128); [|lia]. rewrite zlen_app. pose proof (zlen_nonneg rest).
  destruct (Z.ltb_spec (zlen s + zlen rest) (zlen s)); [lia|]. cbn [negb]. unfold zlen.
  by rewrite Nat2Z.id, take_app_length, drop_app_length.
Qed.

Lemma decString_enc_huff {E} l s rest :
  l = zlen (HuffmanEncode [] s) -> l < 2 ^ 62 ->
  decStringLiteral (E := E) ((encInteger [] 0x80 7 l ++ HuffmanEncode [] s) ++ rest) = (Ok s, rest).
Proof.
  intros -> Hl. set (e := HuffmanEncode [] s) in *. pose proof (zlen_nonneg e).
  assert (Hp := prefix_indexed).
  rewrite <- app_assoc. unfold decStringLiteral.
  pose proof (decInteger_enc (E := E) 0x80 7 (zlen e) (e ++ rest) Hp ltac:(lia) ltac:(lia)) as Hd.
  destruct (encInteger_shape 0x80 7 (zlen e) Hp ltac:(lia)) as (b & tl & Ht & Hs). rewrite Ht in *.
  cbn [app] in *. rewrite Hd, byte_top_bit.
  assert (128 <= bz b) as Hb by (destruct (Z.ltb_spec (zlen e) (2 ^ 7 - 1)); lia).
  destruct (Z.ltb_spec (bz b) 128); [lia|]. rewrite zlen_app. pose proof (zlen_nonneg rest).
  destruct (Z.ltb_spec (zlen e + zlen rest) (zlen e)); [lia|]. cbn [negb]. unfold zlen.
  rewrite Nat2Z.id, take_app_length, drop_app_length. unfold e. by rewrite HuffmanDecode_Encode.
Qed.

Lemma zlen_HuffmanEncode s : zlen (HuffmanEncode [] s) <= 4 * zlen s + 1.
Proof.
  destruct (HuffmanEncode_bits [] s) as (k & Hk & Hb). apply (f_equal length) in Hb.
  rewrite bytes_bits_length, !length_app, length_replicate in Hb. cbn in Hb.
  assert (zlen (s ≫= code_bits) <= 30 * zlen s) by apply code_bits_len.
  unfold zlen in *. lia.
Qed.

Lemma decString_enc {E} s h rest :
  zlen s < 2 ^ 58 -> decStringLiteral (E := E) (encStringLiteral [] s h ++ rest) = (Ok s, rest).
Proof.
  intros Hl. pose proof (zlen_HuffmanEncode s).
  unfold encStringLiteral. destruct h; [|destruct (_ <? _)|];
    try (rewrite HuffmanEncode_app; apply decString_enc_huff; [by apply HuffmanEncodedLen_exact; lia|];
         rewrite HuffmanEncodedLen_exact by lia; lia);
    apply decString_enc_raw; lia.
Qed.

(** ** Properties *)

(** Integers round-trip up to the decoder's 63 bits.  For each prefix length and mask
    the format uses, the decoder reads back the integer the encoder wrote and leaves the
    input behind it, and reports an overflow, not a wrong value, for the integers that do
    not fit. *)
Theorem integer_roundtrip {E} mask n i rest :
  prefix_ok mask n -> 0 <= i ->
  if i - (2 ^ n - 1) <? 2 ^ 63
  then decInteger (E := E) n (encInteger [] mask n i ++ rest) = (Ok i, rest)
  else exists rest', decInteger (E := E) n (encInteger [] mask n i ++ rest) =
         (Err (DecodingError errIntegerOverflow), rest').
Proof.
  intros Hp Hi. destruct (Z.ltb_spec (i - (2 ^ n - 1)) (2 ^ 63)).
  - by apply decInteger_enc.
  - by apply decInteger_enc_overflow.
Qed.

Lemma integer_roundtrip_witness :
  decInteger (E := Empty_set) 5 (encInteger [] 0x20 5 1337 ++ [zb 7]) = (Ok 1337, [zb 7]).
Proof. exact (integer_roundtrip 0x20 5 1337 [zb 7] prefix_update ltac:(lia)). Defined.

(** String literals round-trip, with and without Huffman coding, whatever follows. *)
Theorem string_roundtrip {E} s h rest :
  zlen s < 2 ^ 58 -> decStringLiteral (E := E) (encStringLiteral [] s h ++ rest) = (Ok s, rest).
Proof. apply decString_enc. Qed.

Lemma string_roundtrip_witness :
  decStringLiteral (E := Empty_set) (encStringLiteral [] (str "www.example.com") huffTrue ++ [zb 1])
    = (Ok (str "www.example.com"), [zb 1]).
Proof. apply string_roundtrip. vm_compute. reflexivity. Defined.

(** A table size update is truncated to 32 bits before it is checked: the update to
    2^32 is taken for one to zero and accepted by a decoder whose limit is 4096. *)
Theorem size_update_truncated :
  exists d, decode None (set_data (encDynamicTableSizeUpdate [] (2 ^ 32)) (NewDecoder (E := Empty_set) 4096 tt))
    = (Ok 0, d) /\ ht_maxSize (d_table d) = 0.
Proof. eexists. split; vm_compute; reflexivity. Qed.
