(* ===== verification/HpackChunks.v ===== *)
(** * Decoding a header block in chunks

    [Decode] may be called with any division of a header block into chunks (the frame
    reader passes buffer-sized pieces and CONTINUATION payloads).  The theorems show
    that its loop terminates (every step consumes input) and that the division does
    not matter: the handler calls, the dynamic table, the accounted size, the error and
    the buffered remainder after two calls are those of one call on the concatenation. *)

From S2P Require Import Prelude Huffman HeaderTable HpackEncode HpackDecode.

Section Chunks.
Context {H E : Type}.
Variable handle : option (H -> gostring -> gostring -> bool -> outcome E unit * H).

Abbreviation dec := (Decoder H E).

(** The decoder with more input behind the current one. *)
Definition extend (more : list byte) (d : dec) : dec := set_data (d_data d ++ more) d.

(** What a caller can observe: everything but the slice being decoded. *)
Definition observe (d : dec) : dec := set_data [] d.

(** Two calls in a row; a panic of the first one ends the program. *)
Definition Decode2 (d : dec) (c1 c2 : list byte) (limit : Z) :=
  match Decode handle d c1 limit with
  | (Panic, d) => (Panic, d)
  | (_, d) => Decode handle d c2 limit
  end.

(** Any number of calls in a row, with the result of the last one. *)
Fixpoint DecodeChunks (d : dec) (c : list byte) (cs : list (list byte)) (limit : Z) :=
  match cs with
  | [] => Decode handle d c limit
  | c2 :: cs =>
    match Decode handle d c limit with
    | (Panic, d) => (Panic, d)
    | (_, d) => DecodeChunks d c2 cs limit
    end
  end.

(** The loop of [Decode] without a bound on its steps.  What follows one step: the loop is
    left with a result, or goes on. *)
Definition after_step (limit : Z) (x : outcome (hpackError E) Z * dec)
    : (outcome (hpackError E) unit * dec) + dec :=
  match x with
  | (Err errNeedsMore, d) => inl (Ok tt, set_b (d_b d ++ d_data d) d)
  | (Err e, d) => inl (Err e, set_err (Some e) d)
  | (Panic, d) => inl (Panic, d)
  | (Ok n, d) =>
    if limit =? 0 then inr d
    else if limit <? u32 (d_n d + n) then
      inl (Err ErrHeaderFieldsTooLarge, set_err (Some ErrHeaderFieldsTooLarge) d)
    else inr (set_n (u32 (d_n d + n)) d)
  end.

(** The loop is left with a result after so many steps. *)
Inductive loop_runs (limit : Z) : nat -> dec -> outcome (hpackError E) unit * dec -> Prop :=
| runs_empty d : d_data d = [] -> loop_runs limit 0 d (Ok tt, d)
| runs_exit d r :
    d_data d <> [] -> after_step limit (decode handle d) = inl r -> loop_runs limit 1 d r
| runs_more d d' n r :
    d_data d <> [] -> after_step limit (decode handle d) = inr d' -> loop_runs limit n d' r ->
    loop_runs limit (S n) d r.

(** ** Classes of computations *)

(** The result does not depend on input behind what was needed. *)
Definition monoF {A} (f : list byte -> outcome (hpackError E) A * list byte) : Prop :=
  forall data more r rest, f data = (r, rest) -> r <> Err errNeedsMore ->
    f (data ++ more) = (r, rest ++ more).

Definition monoM {A} (m : M H E A) : Prop :=
  forall d more r d', m d = (r, d') -> r <> Err errNeedsMore ->
    m (extend more d) = (r, extend more d').

(** Only the input changes. *)
Definition reader {A} (m : M H E A) : Prop :=
  forall d r d', m d = (r, d') -> d' = set_data (d_data d') d.

(** When the input is too short, only the input has changed. *)
Definition clean {A} (m : M H E A) : Prop :=
  forall d d', m d = (Err errNeedsMore, d') -> d' = set_data (d_data d') d.

Definition neverShort {A} (m : M H E A) : Prop :=
  forall d d', m d <> (Err errNeedsMore, d').

(** A successful run takes at least [k] bytes. *)
Definition takes {A} (k : nat) (m : M H E A) : Prop :=
  forall d a d', m d = (Ok a, d') -> (length (d_data d') + k <= length (d_data d))%nat.

(** What no step touches, and the flag that a step can only clear. *)
Definition framed (d d' : dec) : Prop :=
  d_b d' = d_b d /\ d_n d' = d_n d /\ d_err d' = d_err d /\ d_maxSize d' = d_maxSize d /\
  (d_sizeChanged d = false -> d_sizeChanged d' = false).

Definition frameM {A} (m : M H E A) : Prop := forall d r d', m d = (r, d') -> framed d d'.

(** ** Closure under the monad *)

Ltac run_bind Hm :=
  unfold bind in Hm;
  match type of Hm with
  | (match ?m ?d with _ => _ end) = _ =>
    let r := fresh "r" in let d1 := fresh "d1" in let Hr := fresh "Hr" in
    destruct (m d) as [[r|r|] d1] eqn:Hr
  end.

Lemma mono_ret {A} (a : A) : monoM (ret a).
Proof. intros d more r d' [= <- <-] _. done. Qed.

Lemma mono_throw {A} e : monoM (A := A) (throw e).
Proof. intros d more r d' [= <- <-] _. done. Qed.

Lemma mono_bind {A B} (m : M H E A) (k : A -> M H E B) :
  monoM m -> (forall a, monoM (k a)) -> monoM (bind m k).
Proof.
  intros Hm Hk d more r d' Hr Hne. run_bind Hr; unfold bind.
  - rewrite (Hm _ more _ _ Hr0) by done. by apply Hk.
  - injection Hr as <- <-. by rewrite (Hm _ more _ _ Hr0) by congruence.
  - injection Hr as <- <-. by rewrite (Hm _ more _ _ Hr0) by congruence.
Qed.

Lemma mono_consume {A} (f : list byte -> outcome (hpackError E) A * list byte) :
  monoF f -> monoM (consume f).
Proof.
  intros Hf d more r d' Hr Hne. unfold consume in *. destruct (f (d_data d)) as [r0 rest] eqn:Hfd.
  injection Hr as <- <-. cbn. by rewrite (Hf _ more _ _ Hfd).
Qed.

Lemma reader_ret {A} (a : A) : reader (ret a).
Proof. intros d r d' [= <- <-]. by destruct d. Qed.

Lemma reader_consume {A} (f : list byte -> outcome (hpackError E) A * list byte) : reader (consume f).
Proof. intros d r d' Hr. unfold consume in Hr. destruct (f (d_data d)). by injection Hr as <- <-. Qed.

Lemma reader_bind {A B} (m : M H E A) (k : A -> M H E B) :
  reader m -> (forall a, reader (k a)) -> reader (bind m k).
Proof.
  intros Hm Hk d r d' Hr. run_bind Hr.
  - apply Hm in Hr0. apply Hk in Hr. rewrite Hr, Hr0. by destruct d.
  - injection Hr as <- <-. by apply Hm in Hr0.
  - injection Hr as <- <-. by apply Hm in Hr0.
Qed.

Lemma clean_reader {A} (m : M H E A) : reader m -> clean m.
Proof. intros Hm d d'. apply Hm. Qed.

Lemma clean_never {A} (m : M H E A) : neverShort m -> clean m.
Proof. intros Hm d d' Hr. by apply Hm in Hr. Qed.

Lemma clean_bind {A B} (m : M H E A) (k : A -> M H E B) :
  reader m -> (forall a, clean (k a)) -> clean (bind m k).
Proof.
  intros Hm Hk d d' Hr. run_bind Hr.
  - apply Hm in Hr0. apply Hk in Hr. rewrite Hr, Hr0. by destruct d.
  - injection Hr as -> <-. by apply Hm in Hr0.
  - done.
Qed.

Lemma never_bind {A B} (m : M H E A) (k : A -> M H E B) :
  neverShort m -> (forall a, neverShort (k a)) -> neverShort (bind m k).
Proof.
  intros Hm Hk d d' Hr. run_bind Hr; [by apply Hk in Hr| |done]. injection Hr as -> <-. by apply Hm in Hr0.
Qed.

Lemma never_ret {A} (a : A) : neverShort (ret a).
Proof. intros d d' [=]. Qed.

Lemma takes_bind {A B} i j (m : M H E A) (k : A -> M H E B) :
  takes i m -> (forall a, takes j (k a)) -> takes (i + j) (bind m k).
Proof.
  intros Hm Hk d a d' Hr. run_bind Hr; [|done|done]. apply Hm in Hr0. apply Hk in Hr. lia.
Qed.

Lemma takes_ret {A} (a : A) : takes 0 (ret a).
Proof. intros d x d' [= <- <-]. lia. Qed.

Lemma framed_refl d : framed d d.
Proof. by repeat split. Qed.

Lemma framed_trans d1 d2 d3 : framed d1 d2 -> framed d2 d3 -> framed d1 d3.
Proof. unfold framed. intuition congruence. Qed.

Lemma frame_bind {A B} (m : M H E A) (k : A -> M H E B) :
  frameM m -> (forall a, frameM (k a)) -> frameM (bind m k).
Proof.
  intros Hm Hk d r d' Hr. run_bind Hr.
  - eapply framed_trans; [by eapply Hm|by eapply Hk].
  - injection Hr as <- <-. by eapply Hm.
  - injection Hr as <- <-. by eapply Hm.
Qed.

Lemma frame_reader {A} (m : M H E A) : reader m -> frameM m.
Proof. intros Hm d r d' Hr%Hm. rewrite Hr. by repeat split. Qed.

Create HintDb hpk.
#[local] Hint Resolve mono_ret mono_throw mono_bind mono_consume reader_ret reader_consume reader_bind
  clean_reader clean_never clean_bind never_bind never_ret takes_ret frame_bind frame_reader : hpk.

(** ** The primitives *)

Lemma mono_decInteger_loop data i m more r rest :
  decInteger_loop (E := E) data i m = (r, rest) -> r <> Err errNeedsMore ->
  decInteger_loop (data ++ more) i m = (r, rest ++ more).
Proof.
  revert i m. induction data as [|b data IH]; intros i m Hr Hne; simpl in *; [congruence|].
  destruct (_ =? 0); [by injection Hr as <- <-|]. destruct (63 <=? _); [by injection Hr as <- <-|].
  by apply IH.
Qed.

Lemma mono_decInteger n : monoF (decInteger n).
Proof.
  intros [|b data] more r rest Hr Hne; simpl in *; [congruence|].
  destruct (_ <? _); [by injection Hr as <- <-|]. by apply mono_decInteger_loop.
Qed.

Lemma mono_decString : monoF decStringLiteral.
Proof.
  intros [|b data] more r rest Hr Hne; [simpl in Hr; congruence|].
  unfold decStringLiteral in *. rewrite <- app_comm_cons.
  destruct (decInteger 7 (b :: data)) as [[l|e|] rest0] eqn:Hd.
  - pose proof (mono_decInteger 7 _ more _ _ Hd ltac:(done)) as Hd'. cbn [app] in Hd'. rewrite Hd'.
    destruct (Z.ltb_spec (zlen rest0) l); [congruence|].
    rewrite zlen_app. pose proof (zlen_nonneg more).
    destruct (Z.ltb_spec (zlen rest0 + zlen more) l); [lia|].
    rewrite take_app_le, drop_app_le by (unfold zlen in *; lia).
    destruct (negb _); [destruct (HuffmanDecode _ _)|]; by injection Hr as <- <-.
  - injection Hr as <- <-. pose proof (mono_decInteger 7 _ more _ _ Hd ltac:(congruence)) as Hd'.
    cbn [app] in Hd'. by rewrite Hd'.
  - injection Hr as <- <-. pose proof (mono_decInteger 7 _ more _ _ Hd ltac:(congruence)) as Hd'.
    cbn [app] in Hd'. by rewrite Hd'.
Qed.

Lemma takes_decInteger_loop data i m a rest :
  decInteger_loop (E := E) data i m = (Ok a, rest) -> (length rest + 1 <= length data)%nat.
Proof.
  revert i m. induction data as [|b data IH]; intros i m Hr; simpl in *; [done|].
  destruct (_ =? 0); [injection Hr as <- <-; lia|]. destruct (63 <=? _); [done|]. apply IH in Hr. lia.
Qed.

Lemma decInteger_shorter n data a rest :
  decInteger (E := E) n data = (Ok a, rest) -> (length rest + 1 <= length data)%nat.
Proof.
  destruct data as [|b data]; simpl; [done|]. destruct (_ <? _).
  - intros [= <- <-]. lia.
  - intros Hr%takes_decInteger_loop. lia.
Qed.

Lemma takes_decInteger n : takes 1 (consume (decInteger n)).
Proof.
  intros d a d' Hr. unfold consume in Hr. destruct (decInteger n (d_data d)) as [r rest] eqn:Hd.
  injection Hr as -> <-. by apply decInteger_shorter in Hd.
Qed.

Lemma takes_decString : takes 0 (consume decStringLiteral).
Proof.
  intros d a d' Hr. unfold consume in Hr. destruct (decStringLiteral (d_data d)) as [r rest] eqn:Hd.
  injection Hr as -> <-. cbn. unfold decStringLiteral in Hd. destruct (d_data d) as [|b data]; [done|].
  destruct (decInteger 7 (b :: data)) as [[l|e|] rest0] eqn:Hi; [|done|done].
  apply decInteger_shorter in Hi. destruct (_ <? _); [done|].
  destruct (negb _); [destruct (HuffmanDecode _ _); [|done]|]; injection Hd as _ <-; rewrite length_drop; lia.
Qed.

Lemma reader_tableEntry idx : reader (tableEntry idx).
Proof. intros d r d' Hr. unfold tableEntry in Hr. destruct (entry _ _) as [[|]|]; injection Hr as <- <-; by destruct d. Qed.

Lemma mono_tableEntry idx : monoM (tableEntry idx).
Proof. intros d more r d' Hr _. unfold tableEntry in *. cbn. destruct (entry _ _) as [[|]|]; by injection Hr as <- <-. Qed.

Lemma takes_tableEntry idx : takes 0 (tableEntry idx).
Proof. intros d a d' Hr. apply reader_tableEntry in Hr as Hd. unfold tableEntry in Hr. destruct (entry _ _) as [[|]|]; simplify_eq; lia. Qed.

Lemma callHandle_props n v s :
  monoM (callHandle handle n v s) /\ neverShort (callHandle handle n v s) /\
  takes 0 (callHandle handle n v s) /\ frameM (callHandle handle n v s).
Proof.
  unfold callHandle. split_and!;
    repeat match goal with
    | |- monoM _ => intros d more r d' Hr _
    | |- neverShort _ => intros d d' Hr
    | |- takes _ _ => intros d r d' Hr
    | |- frameM _ => intros d r d' Hr
    end; cbn in *; (destruct handle as [f|]; [destruct (f (d_hs d) n v s) as [[]]|]);
    simplify_eq; cbn; (done || lia || by repeat split).
Qed.

Lemma tableAdd_props n v :
  monoM (tableAdd n v) /\ neverShort (tableAdd n v) /\ takes 0 (tableAdd n v) /\ frameM (tableAdd n v).
Proof.
  unfold tableAdd. split_and!;
    repeat match goal with
    | |- monoM _ => intros d more r d' Hr _
    | |- neverShort _ => intros d d' Hr
    | |- takes _ _ => intros d r d' Hr
    | |- frameM _ => intros d r d' Hr
    end; cbn in *; destruct (add (d_table d) n v) as [[]|]; simplify_eq; cbn;
    (done || lia || by repeat split).
Qed.

Lemma markStarted_props : monoM markStarted /\ takes 0 markStarted /\ frameM markStarted.
Proof.
  unfold markStarted. split_and!.
  - intros d more r d' [= <- <-] _. done.
  - intros d a d' [= <- <-]. cbn. lia.
  - intros d r d' [= <- <-]. by repeat split.
Qed.

(** ** The field representations *)

Lemma mono_name idx :
  monoM (if 0 <? idx then bind (tableEntry idx) (fun hf => ret (hf_name hf, 0))
         else bind (consume decStringLiteral) (fun name => ret (name, u32 (zlen name)))).
Proof. destruct (0 <? idx); auto 6 using mono_tableEntry, mono_decString with hpk. Qed.

Lemma reader_name idx :
  reader (if 0 <? idx then bind (tableEntry idx) (fun hf => ret (hf_name hf, 0))
         else bind (consume decStringLiteral) (fun name => ret (name, u32 (zlen name)))).
Proof. destruct (0 <? idx); auto using reader_tableEntry with hpk. Qed.

Lemma takes_name idx :
  takes 0 (if 0 <? idx then bind (tableEntry idx) (fun hf => ret (hf_name hf, 0))
         else bind (consume decStringLiteral) (fun name => ret (name, u32 (zlen name)))).
Proof.
  destruct (0 <? idx); apply (takes_bind 0 0);
    auto using takes_tableEntry, takes_decString, takes_ret.
Qed.

Lemma decIndexed_props :
  monoM (decIndexed handle) /\ takes 1 (decIndexed handle) /\ frameM (decIndexed handle).
Proof.
  unfold decIndexed. destruct markStarted_props as (Hm & Ht & Hf). split_and!.
  - apply mono_bind; [done|]. intros _. apply mono_bind; [auto using mono_decInteger with hpk|].
    intros idx. apply mono_bind; [apply mono_tableEntry|]. intros hf. apply callHandle_props.
  - apply (takes_bind 0 1); [done|]. intros _. apply (takes_bind 1 0); [apply takes_decInteger|].
    intros idx. apply (takes_bind 0 0); [apply takes_tableEntry|]. intros hf. apply callHandle_props.
  - apply frame_bind; [done|]. intros _. apply frame_bind; [auto with hpk|].
    intros idx. apply frame_bind; [auto using reader_tableEntry with hpk|]. intros hf. apply callHandle_props.
Qed.

Lemma add_or_ret_props (t : indexType) n v :
  let m := if t is indexedTrue then tableAdd n v else ret tt in
  monoM m /\ neverShort m /\ takes 0 m /\ frameM m.
Proof.
  destruct t; cbn zeta; [apply tableAdd_props|..];
    split_and!; auto using reader_ret with hpk.
Qed.

Lemma decLiteral_props t :
  monoM (decLiteral handle t) /\ takes 1 (decLiteral handle t) /\ frameM (decLiteral handle t).
Proof.
  unfold decLiteral. destruct markStarted_props as (Hm & Ht & Hf). split_and!.
  - apply mono_bind; [done|]. intros _. apply mono_bind; [auto using mono_decInteger with hpk|].
    intros idx. apply mono_bind; [apply mono_name|]. intros nh.
    apply mono_bind; [auto using mono_decString with hpk|]. intros v.
    apply mono_bind; [apply add_or_ret_props|]. intros _.
    apply mono_bind; [apply callHandle_props|auto with hpk].
  - apply (takes_bind 0 1); [done|]. intros _. apply (takes_bind 1 0); [apply takes_decInteger|].
    intros idx. apply (takes_bind 0 0); [apply takes_name|]. intros nh.
    apply (takes_bind 0 0); [apply takes_decString|]. intros v.
    apply (takes_bind 0 0); [apply add_or_ret_props|]. intros _.
    apply (takes_bind 0 0); [apply callHandle_props|auto with hpk].
  - apply frame_bind; [done|]. intros _. apply frame_bind; [auto with hpk|].
    intros idx. apply frame_bind; [apply frame_reader, reader_name|]. intros nh.
    apply frame_bind; [auto with hpk|]. intros v.
    apply frame_bind; [apply add_or_ret_props|]. intros _.
    apply frame_bind; [apply callHandle_props|auto with hpk].
Qed.

(** After [markStarted], a representation that runs out of input has changed nothing else. *)
Lemma decIndexed_short d d' :
  decIndexed handle d = (Err errNeedsMore, d') -> d' = set_data (d_data d') (set_st true d).
Proof.
  unfold decIndexed. unfold bind at 1. cbn [markStarted].
  apply clean_bind; [auto with hpk|]. intros idx. apply clean_bind; [apply reader_tableEntry|].
  intros hf. apply clean_never, callHandle_props.
Qed.

Lemma decLiteral_short t d d' :
  decLiteral handle t d = (Err errNeedsMore, d') -> d' = set_data (d_data d') (set_st true d).
Proof.
  unfold decLiteral. unfold bind at 1. cbn [markStarted].
  apply clean_bind; [auto with hpk|]. intros idx. apply clean_bind; [apply reader_name|].
  intros nh. apply clean_bind; [auto with hpk|]. intros v. apply clean_never.
  apply never_bind; [apply add_or_ret_props|]. intros _. apply never_bind; [apply callHandle_props|auto with hpk].
Qed.

Definition update_body (i : Z) : M H E unit := fun d =>
  let size := u32 i in
  if d_maxSize d <? size then (Err (DecodingError errBadHeaderTableSize), d)
  else match setMaxSize (d_table d) size with
       | Some (t, _) => (Ok tt, set_sizes t (d_maxSize d) size false d)
       | None => (Panic, d)
       end.

Lemma update_body_props i :
  monoM (update_body i) /\ neverShort (update_body i) /\ takes 0 (update_body i) /\ frameM (update_body i).
Proof.
  unfold update_body. split_and!;
    [intros d more r d' Hr _|intros d d' Hr|intros d r d' Hr|intros d r d' Hr]; cbn in *;
    (destruct (_ <? _); [|destruct (setMaxSize _ _) as [[]|]]); simplify_eq; cbn;
    (done || lia || by repeat split).
Qed.

Lemma decUpdate_props :
  monoM decDynamicTableSizeUpdate /\ takes 1 decDynamicTableSizeUpdate /\
  frameM (decDynamicTableSizeUpdate (H := H) (E := E)) /\ clean (decDynamicTableSizeUpdate (H := H) (E := E)).
Proof.
  assert (Heq : forall d, decDynamicTableSizeUpdate (H := H) (E := E) d =
    if d_st d then (Err (DecodingError errHeaderTableSizeUpdate), d)
    else bind (consume (decInteger 5)) update_body d) by done.
  split_and!.
  - intros d more r d' Hr Hne. rewrite Heq in *. cbn [d_st extend set_data].
    destruct (d_st d); [by simplify_eq|]. revert Hr Hne. apply mono_bind; [auto using mono_decInteger with hpk|].
    intros i. apply update_body_props.
  - intros d a d' Hr. rewrite Heq in Hr. destruct (d_st d); [done|]. revert Hr.
    apply (takes_bind 1 0); [apply takes_decInteger|]. intros i. apply update_body_props.
  - intros d r d' Hr. rewrite Heq in Hr. destruct (d_st d); [simplify_eq; apply framed_refl|]. revert Hr.
    apply frame_bind; [auto with hpk|]. intros i. apply update_body_props.
  - intros d d' Hr. rewrite Heq in Hr. destruct (d_st d); [done|]. revert Hr.
    apply clean_bind; [auto with hpk|]. intros i. apply clean_never, update_body_props.
Qed.

Lemma dispatch_props b :
  monoM (decode_dispatch handle b) /\ takes 1 (decode_dispatch handle b) /\ frameM (decode_dispatch handle b).
Proof.
  destruct decIndexed_props as (? & ? & ?), decUpdate_props as (? & ? & ? & ?).
  unfold decode_dispatch.
  repeat (case_match; [try apply decLiteral_props; split_and!; auto with hpk; apply (takes_bind 1 0); auto with hpk|]).
  split_and!; [auto with hpk|intros d a d' [=]|intros d r d' [= <- <-]; apply framed_refl].
Qed.

(** ** One step *)

Lemma decode_dispatch_eq d b data r d' :
  d_data d = b :: data -> r <> Err errNeedsMore ->
  decode handle d = (r, d') <-> decode_dispatch handle (bz b) d = (r, d').
Proof.
  intros Hd Hne. unfold decode. rewrite Hd.
  destruct (decode_dispatch handle (bz b) d) as [[| [] |] d1]; naive_solver.
Qed.

Lemma decode_mono d more r d' :
  d_data d <> [] -> decode handle d = (r, d') -> r <> Err errNeedsMore ->
  decode handle (extend more d) = (r, extend more d').
Proof.
  intros Hd Hr Hne. destruct (d_data d) as [|b data] eqn:Hdata; [done|].
  apply (decode_dispatch_eq _ _ _ _ _ Hdata Hne) in Hr.
  apply (decode_dispatch_eq _ b (data ++ more)); [by cbn; rewrite Hdata|done|].
  by apply (proj1 (dispatch_props (bz b))).
Qed.

Lemma decode_takes d n d' :
  decode handle d = (Ok n, d') -> (length (d_data d') + 1 <= length (d_data d))%nat.
Proof.
  intros Hr. destruct (d_data d) as [|b data] eqn:Hd; [unfold decode in Hr; by rewrite Hd in Hr|].
  apply (decode_dispatch_eq _ _ _ _ _ Hd) in Hr; [|done]. rewrite <- Hd.
  by apply (proj1 (proj2 (dispatch_props (bz b)))) in Hr.
Qed.

Lemma decode_framed d r d' : decode handle d = (r, d') -> framed d d'.
Proof.
  unfold decode. destruct (d_data d) as [|b data] eqn:Hd; [intros [= <- <-]; apply framed_refl|].
  destruct (decode_dispatch handle (bz b) d) as [r0 d0] eqn:H0. apply (proj2 (proj2 (dispatch_props (bz b)))) in H0.
  assert (framed d0 (set_data (b :: data) d0)) by by repeat split.
  destruct r0 as [| [] |]; intros Hr; injection Hr as <- <-; try done; by eapply framed_trans.
Qed.

Lemma dispatch_short b d d' :
  decode_dispatch handle b d = (Err errNeedsMore, d') ->
  d' = set_data (d_data d') d \/
  (d' = set_data (d_data d') (set_st true d) /\
   forall x, decode_dispatch handle b (set_st true x) = decode_dispatch handle b x).
Proof.
  unfold decode_dispatch. repeat (case_match; [intros Hr|]); [..|done].
  - right. run_bind Hr; [done| |done]. injection Hr as -> <-. by apply decIndexed_short in Hr0.
  - right. by apply decLiteral_short in Hr.
  - right. by apply decLiteral_short in Hr.
  - right. by apply decLiteral_short in Hr.
  - left. run_bind Hr; [done| |done]. injection Hr as -> <-. by apply (proj2 (proj2 (proj2 decUpdate_props))) in Hr0.
Qed.

(** Too little input: the step can be repeated when more arrives. *)
Lemma decode_short d d' more :
  d_data d <> [] -> decode handle d = (Err errNeedsMore, d') ->
  (d' = d \/ d' = set_st true d) /\ decode handle (extend more d') = decode handle (extend more d).
Proof.
  intros Hne Hr. unfold decode in Hr. destruct (d_data d) as [|b data] eqn:Hd; [done|].
  destruct (decode_dispatch handle (bz b) d) as [r0 d0] eqn:H0.
  assert (r0 = Err errNeedsMore /\ d' = set_data (b :: data) d0) as [-> ->]
    by (destruct r0 as [| [] |]; naive_solver).
  apply dispatch_short in H0 as [->|[-> Hst]]; rewrite <- Hd.
  - assert (set_data (d_data d) (set_data (d_data d0) d) = d) as -> by by destruct d. split; [by left|done].
  - assert (set_data (d_data d) (set_data (d_data d0) (set_st true d)) = set_st true d) as -> by by destruct d.
    split; [by right|]. unfold decode. cbn [d_data extend set_data set_st]. rewrite Hd. cbn [app].
    change (extend more (set_st true d)) with (set_st true (extend more d)). by rewrite Hst.
Qed.

(** ** The loop *)

Lemma Decode_loop_fuel f1 f2 limit d :
  (length (d_data d) < f1)%nat -> (length (d_data d) < f2)%nat ->
  Decode_loop handle f1 limit d = Decode_loop handle f2 limit d.
Proof.
  revert f2 d. induction f1 as [|f1 IH]; intros [|f2] d H1 H2; [lia..|]. cbn [Decode_loop].
  destruct (d_data d) as [|b data] eqn:Hd; [done|]. rewrite <- Hd in *.
  destruct (decode handle d) as [[n|e|] d1] eqn:Hr; [|by destruct e|done].
  apply decode_takes in Hr. destruct (_ =? 0); [apply IH; lia|]. destruct (_ <? _); [done|].
  apply IH; cbn; lia.
Qed.

Lemma Decode_loop_runs fuel limit d :
  (length (d_data d) < fuel)%nat ->
  exists n, (n <= length (d_data d))%nat /\ loop_runs limit n d (Decode_loop handle fuel limit d).
Proof.
  revert d. induction fuel as [|fuel IH]; intros d Hf; [lia|]. cbn [Decode_loop].
  destruct (d_data d) as [|b data] eqn:Hd; [exists 0%nat; split; [lia|by constructor]|].
  assert (Hne : d_data d <> []) by (by rewrite Hd). rewrite <- Hd in *.
  assert (Hlen : (1 <= length (d_data d))%nat) by (rewrite Hd; cbn; lia).
  destruct (decode handle d) as [[n|e|] d1] eqn:Hr.
  - pose proof (decode_takes _ _ _ Hr) as Ht.
    assert (Hgo : forall d2, after_step limit (decode handle d) = inr d2 -> d_data d2 = d_data d1 ->
      exists k, (k <= length (d_data d))%nat /\ loop_runs limit k d (Decode_loop handle fuel limit d2)).
    { intros d2 Ha Hd2. destruct (IH d2) as (k & Hk & Hl); [rewrite Hd2; lia|].
      exists (S k). rewrite Hd2 in Hk. split; [lia|]. by eapply runs_more. }
    destruct (limit =? 0) eqn:El; [|destruct (limit <? u32 (d_n d1 + n)) eqn:Ex].
    + apply Hgo; [|done]. rewrite Hr. cbn [after_step]. by rewrite El.
    + exists 1%nat. split; [done|]. apply runs_exit; [done|]. rewrite Hr. cbn [after_step]. by rewrite El, Ex.
    + apply Hgo; [|done]. rewrite Hr. cbn [after_step]. by rewrite El, Ex.
  - exists 1%nat. split; [done|]. apply runs_exit; [done|]. rewrite Hr. by destruct e.
  - exists 1%nat. split; [done|]. apply runs_exit; [done|]. by rewrite Hr.
Qed.

Definition loop (limit : Z) (d : dec) := Decode_loop handle (S (length (d_data d))) limit d.

(** The loop unfolds along the steps. *)
Lemma loop_step limit d :
  d_data d <> [] ->
  loop limit d =
  match decode handle d with
  | (Err errNeedsMore, d) => (Ok tt, set_b (d_b d ++ d_data d) d)
  | (Err e, d) => (Err e, set_err (Some e) d)
  | (Panic, d) => (Panic, d)
  | (Ok n, d) =>
    if limit =? 0 then loop limit d
    else if limit <? u32 (d_n d + n) then
      (Err ErrHeaderFieldsTooLarge, set_err (Some ErrHeaderFieldsTooLarge) d)
    else loop limit (set_n (u32 (d_n d + n)) d)
  end.
Proof.
  intros Hne. unfold loop at 1. cbn [Decode_loop]. destruct (d_data d) as [|b data] eqn:Hd; [done|].
  rewrite <- Hd. destruct (decode handle d) as [[n|e|] d1] eqn:Hr; [|done|done].
  apply decode_takes in Hr. unfold loop. repeat case_match; try done;
    apply Decode_loop_fuel; cbn; lia.
Qed.

(** The guard at the head of [Decode] holds. *)
Definition guard_ok (d : dec) : Prop :=
  match d_data d with
  | [] => d_sizeChanged d = false
  | b :: _ => d_sizeChanged d && negb (Z.land (bz b) 224 =? 32) = false
  end.

(** The state in which the next call resumes with [more]. *)
Definition resume (more : list byte) (d : dec) : dec := set_b [] (set_data (d_b d ++ more) d).

Lemma update_byte b : Z.land (bz b) 224 = 32 ->
  decode_dispatch handle (bz b) = bind decDynamicTableSizeUpdate (fun _ => ret 0).
Proof.
  intros Hb. pose proof (byte_forall (fun z => implb (Z.land z 224 =? 32)
    ((Z.land z 128 =? 0) && negb (Z.land z 192 =? 64) && negb (Z.land z 240 =? 0) && negb (Z.land z 240 =? 16)))
    ltac:(vm_compute; reflexivity) b) as Hc. cbn beta in Hc. rewrite Hb in Hc. cbn [Z.eqb Pos.eqb implb] in Hc.
  unfold decode_dispatch. rewrite Hb.
  destruct (Z.land (bz b) 128 =? 0), (Z.land (bz b) 192 =? 64), (Z.land (bz b) 240 =? 0), (Z.land (bz b) 240 =? 16);
    try discriminate. done.
Qed.

Lemma decode_guard d n d' :
  guard_ok d -> decode handle d = (Ok n, d') -> d_sizeChanged d' = false.
Proof.
  intros Hg Hr. pose proof (decode_framed _ _ _ Hr) as (_ & _ & _ & _ & Hc).
  destruct (d_sizeChanged d) eqn:Hs; [|by apply Hc]. unfold guard_ok in Hg.
  destruct (d_data d) as [|b data] eqn:Hd; [congruence|]. rewrite Hs in Hg. cbn in Hg.
  apply (decode_dispatch_eq _ _ _ _ _ Hd) in Hr; [|done].
  rewrite update_byte in Hr by (destruct (Z.eqb_spec (Z.land (bz b) 224) 32); done).
  run_bind Hr; [|done|done]. injection Hr as <- <-.
  unfold decDynamicTableSizeUpdate in Hr0. destruct (d_st d); [done|]. run_bind Hr0; [|done|done].
  destruct (_ <? _); [done|]. destruct (setMaxSize _ _) as [[]|]; by simplify_eq.
Qed.

(** A run over a prefix, then over the rest, is a run over the whole. *)
Lemma loop_extend fuel limit d more :
  (length (d_data d) < fuel)%nat -> d_b d = [] -> guard_ok d ->
  match Decode_loop handle fuel limit d with
  | (Ok _, d1) => loop limit (extend more d) = loop limit (resume more d1) /\
                  (more <> [] -> guard_ok (resume more d1)) /\ d_err d1 = d_err d
  | (r, d1) => loop limit (extend more d) = (r, extend more d1) /\
               (forall e, r = Err e -> d_err d1 = Some e)
  end.
Proof.
  revert d. induction fuel as [|fuel IH]; intros d Hf Hb Hg; [lia|]. cbn [Decode_loop].
  destruct (d_data d) as [|b data] eqn:Hd.
  { assert (resume more d = extend more d) as -> by (unfold resume, extend; destruct d; simpl in *; by subst).
    split_and!; [done| |done]. intros Hm. unfold guard_ok, extend in *. cbn. rewrite Hd in *. cbn.
    destruct more; [done|]. by rewrite Hg. }
  assert (Hne : d_data d <> []) by by rewrite Hd. rewrite <- Hd in *.
  assert (Hstep : forall r d', decode handle d = (r, d') -> r <> Err errNeedsMore ->
    decode handle (extend more d) = (r, extend more d')) by eauto using decode_mono.
  assert (Hcons : d_data (extend more d) <> []) by (cbn; by rewrite Hd).
  destruct (decode handle d) as [[n|e|] d1] eqn:Hr.
  - pose proof (decode_guard _ _ _ Hg Hr) as Hsc. pose proof (decode_takes _ _ _ Hr) as Ht.
    pose proof (decode_framed _ _ _ Hr) as (Hb1 & Hn1 & He1 & _ & _).
    specialize (Hstep _ _ eq_refl ltac:(done)).
    assert (Hg1 : forall x, guard_ok (set_n x d1) /\ guard_ok d1).
    { intros x. unfold guard_ok. cbn. rewrite Hsc. by destruct (d_data d1). }
    rewrite (loop_step limit (extend more d)), Hstep by done. cbn [d_n extend set_data].
    destruct (limit =? 0).
    + rewrite <- He1. apply IH; [lia|congruence|apply (Hg1 0)].
    + destruct (limit <? u32 (d_n d1 + n)).
      * split; [done|]. by intros ? [= <-].
      * rewrite <- He1. apply (IH (set_n (u32 (d_n d1 + n)) d1)); cbn; [lia|congruence|apply (Hg1 (u32 (d_n d1 + n)))].
  - assert (e = errNeedsMore \/ e <> errNeedsMore) as [->|Hnm] by (destruct e; auto).
    + destruct (decode_short _ _ more Hne Hr) as [Hd1 Heq]. cbn [d_err set_b].
      assert (Hres : resume more (set_b (d_b d1 ++ d_data d1) d1) = extend more d1).
      { destruct Hd1 as [->| ->]; unfold resume, extend; destruct d; simpl in *; by subst. }
      rewrite Hres. split_and!.
      * rewrite !loop_step, Heq; [done|by destruct Hd1 as [->| ->]|done].
      * intros _. unfold guard_ok in *. destruct Hd1 as [->| ->]; cbn; rewrite Hd in *; cbn in *; done.
      * by destruct Hd1 as [->| ->].
    + specialize (Hstep _ _ eq_refl ltac:(congruence)).
      assert (Hx : (match e with errNeedsMore => (Ok tt, set_b (d_b d1 ++ d_data d1) d1)
                   | _ => (Err e, set_err (Some e) d1) end : outcome (hpackError E) unit * dec) =
                   (Err e, set_err (Some e) d1)) by by destruct e.
      rewrite Hx. split; [|by intros ? [= <-]].
      rewrite (loop_step limit (extend more d)), Hstep by done. by destruct e.
  - specialize (Hstep _ _ eq_refl ltac:(done)). split; [|done].
    by rewrite (loop_step limit (extend more d)), Hstep by done.
Qed.

Lemma Decode_err d c limit e : d_err d = Some e -> Decode handle d c limit = (Err e, d).
Proof. intros He. unfold Decode. by rewrite He. Qed.

Lemma Decode_nil d limit : d_err d = None -> Decode handle d [] limit = (Ok tt, d).
Proof. intros He. unfold Decode. by rewrite He. Qed.

Lemma Decode_cons d c limit :
  d_err d = None -> c <> [] ->
  (guard_ok (resume c d) /\ Decode handle d c limit = loop limit (resume c d)) \/
  (~ guard_ok (resume c d) /\ Decode handle d c limit =
     (Err (DecodingError errHeaderTableSizeUpdateRequired),
      set_err (Some (DecodingError errHeaderTableSizeUpdateRequired)) (resume c d))).
Proof.
  intros He Hc. unfold Decode, guard_ok, loop, resume. rewrite He.
  rewrite decide_False by done. cbn [d_data set_b set_data d_sizeChanged].
  destruct (d_b d ++ c) as [|b l] eqn:Hl; [by apply app_nil in Hl as [_ ?]|].
  destruct (d_sizeChanged d && _); [right|left]; split; congruence.
Qed.

(** Splitting a header block between two calls does not change what is observed. *)
Lemma Decode_split d c1 c2 limit :
  (Decode2 d c1 c2 limit).1 = (Decode handle d (c1 ++ c2) limit).1 /\
  observe (Decode2 d c1 c2 limit).2 = observe (Decode handle d (c1 ++ c2) limit).2.
Proof.
  unfold Decode2. destruct (d_err d) as [e|] eqn:He.
  { by rewrite !(Decode_err d _ _ e He). }
  destruct (decide (c1 = [])) as [->|Hc1]; [by rewrite Decode_nil by done|].
  assert (Hres : resume (c1 ++ c2) d = extend c2 (resume c1 d)).
  { unfold resume, extend. cbn. by rewrite app_assoc. }
  assert (Hgd : guard_ok (resume (c1 ++ c2) d) <-> guard_ok (resume c1 d)).
  { unfold guard_ok, resume. cbn. rewrite app_assoc.
    destruct (d_b d ++ c1) as [|b l] eqn:Hl; [by apply app_nil in Hl as [_ ?]|]. done. }
  destruct (Decode_cons d c1 limit He Hc1) as [[Hg H1]|[Hg H1]];
    destruct (Decode_cons d (c1 ++ c2) limit He) as [[Hg' H2]|[Hg' H2]];
    try tauto; try (by intros [? ?]%app_nil); rewrite H1, H2.
  - pose proof (loop_extend (S (length (d_data (resume c1 d)))) limit (resume c1 d) c2
      ltac:(lia) eq_refl Hg) as Hx.
    change (Decode_loop handle (S (length (d_data (resume c1 d)))) limit (resume c1 d))
      with (loop limit (resume c1 d)) in Hx.
    destruct (loop limit (resume c1 d)) as [[[]|e|] d1] eqn:Hloop; rewrite Hres.
    + destruct Hx as (Hx & Hgx & He1). change (d_err (resume c1 d)) with (d_err d) in He1.
      destruct (decide (c2 = [])) as [->|Hc2].
      * rewrite Decode_nil by congruence. cbn [fst snd].
        assert (extend [] (resume c1 d) = resume c1 d) as -> by
          (unfold extend, resume; cbn; by rewrite app_nil_r).
        by rewrite Hloop.
      * rewrite Hx. destruct (Decode_cons d1 c2 limit) as [[_ ->]|[Hn _]]; [congruence|done|done|].
        by destruct Hn; apply Hgx.
    + destruct Hx as [-> Hex]. rewrite (Decode_err d1 _ _ e) by by apply Hex. done.
    + by destruct Hx as [-> _].
  - rewrite (Decode_err _ _ _ (DecodingError errHeaderTableSizeUpdateRequired)) by done. done.
Qed.

Lemma Decode_chunks_concat cs d c limit :
  (DecodeChunks d c cs limit).1 = (Decode handle d (c ++ concat cs) limit).1 /\
  observe (DecodeChunks d c cs limit).2 = observe (Decode handle d (c ++ concat cs) limit).2.
Proof.
  revert d c. induction cs as [|c2 cs IH]; intros d c; cbn [DecodeChunks concat]; [by rewrite app_nil_r|].
  destruct (Decode_split d c (c2 ++ concat cs) limit) as [<- <-]. unfold Decode2.
  by destruct (Decode handle d c limit) as [[?|?|] d1].
Qed.
End Chunks.

(** ** Properties *)

(** C13: a header block may arrive in any chunks.  Splitting a block over any number of
    [Decode] calls, at any byte, gives the result, the handler calls, the dynamic table,
    the size count, the sticky error and the unread bytes of a single call. *)
Theorem decode_chunks {H E} (handle : option (H -> gostring -> gostring -> bool -> outcome E unit * H))
    (d : Decoder H E) c cs limit :
  (DecodeChunks handle d c cs limit).1 = (Decode handle d (c ++ concat cs) limit).1 /\
  observe (DecodeChunks handle d c cs limit).2 = observe (Decode handle d (c ++ concat cs) limit).2.
Proof. apply Decode_chunks_concat. Qed.

(** Decoding terminates.  The loop of [Decode] is left after at most as many steps as
    the block has bytes, with the result that [Decode] computes. *)
Theorem decode_terminates {H E} (handle : option (H -> gostring -> gostring -> bool -> outcome E unit * H))
    (d : Decoder H E) limit :
  exists n, (n <= length (d_data d))%nat /\
    loop_runs handle limit n d (Decode_loop handle (S (length (d_data d))) limit d).
Proof. apply Decode_loop_runs. lia. Qed.
