(* ===== verification/HpackSync.v ===== *)
(** * The HPACK encoder and decoder stay synchronised

    [sync] relates an encoder to the decoder of its peer: the dynamic tables agree up to
    the table size updates that the encoder still has to send.  Every operation of a
    connection preserves it: an acknowledged SETTINGS_HEADER_TABLE_SIZE on both sides,
    and a header block that one side encodes and the other decodes.  The consequence is
    the contract of the package: whatever the sequence of resizes and header blocks, the
    decoder's handler receives exactly the encoded fields, in order, with their
    sensitivity flags, and the decoder accounts the sizes that the encoder reported. *)

From S2P Require Import Prelude Huffman HeaderTable HpackEncode HpackDecode HpackChunks.

Abbreviation field := (gostring * gostring * bool)%type.

(** A header block: fields encoded one after the other into a buffer, as the frame
    writer does, with the sum of the reported sizes. *)
Fixpoint EncodeFields (enc : Encoder) (dst : list byte) (fs : list field)
  : option (Z * list byte * Encoder) :=
  match fs with
  | [] => Some (0, dst, enc)
  | (n, v, s) :: fs =>
    '(k, dst, enc) ← EncodeHeaderField enc dst n v s;
    '(k', dst, enc) ← EncodeFields enc dst fs;
    Some (k + k', dst, enc)
  end.

Definition fields_ok (fs : list field) : Prop := Forall (fun f => field_ok f.1.1 f.1.2) fs.

Lemma encLiteral_nonempty n v t idx hm : (encLiteral [] n v t idx hm).2 <> [].
Proof.
  unfold encLiteral. destruct (literalPrefix t) as [mask len]. destruct (idx =? 0); cbn [snd];
    rewrite ?(encStringLiteral_app (encStringLiteral _ _ _)), ?(encStringLiteral_app (encInteger _ _ _ _));
    intros Hx; repeat apply app_nil in Hx as [Hx _]; by apply encInteger_nonempty in Hx.
Qed.

Lemma EncodeHeaderField_wf enc dst n v s k dst' enc' :
  table_wf (e_table enc) -> field_ok n v ->
  EncodeHeaderField enc dst n v s = Some (k, dst', enc') ->
  table_wf (e_table enc') /\ ht_maxSize (e_table enc') = ht_maxSize (e_table enc).
Proof.
  intros Hwf Hok. unfold EncodeHeaderField. destruct (encSizeUpdates enc dst) as [e1 d1] eqn:Hu.
  assert (Ht : e_table e1 = e_table enc).
  { unfold encSizeUpdates in Hu. destruct (e_sizeChanged enc); by injection Hu as <- <-. }
  rewrite <- Ht in *. destruct (add_wf (e_table e1) n v Hwf Hok) as (t' & b & Hadd & Hwf' & Hmx).
  destruct s; [rewrite encLiteral_app; by intros [= <- <- <-]|]. destruct (_ =? 0).
  { destruct (index n v) as [i []]; rewrite ?(encLiteral_app d1); by intros [= <- <- <-]. }
  destruct (_ <? _); [rewrite encLiteral_app; by intros [= <- <- <-]|].
  destruct (find (e_table e1) n v) as [i []]; [by intros [= <- <- <-]|].
  destruct (e_i e1); rewrite encLiteral_app; [rewrite Hadd; cbn|]; by intros [= <- <- <-].
Qed.

Section Sync.
Context {H E : Type}.
Variable handle : H -> gostring -> gostring -> bool -> outcome E unit * H.

Abbreviation dec := (Decoder H E).
Abbreviation hd := (Some handle).

(** The handler accepts the fields and ends in the given state. *)
Inductive accepts : H -> list field -> H -> Prop :=
| accepts_nil h : accepts h [] h
| accepts_cons h n v s h1 fs h2 :
    handle h n v s = (Ok tt, h1) -> accepts h1 fs h2 -> accepts h ((n, v, s) :: fs) h2.

Definition sync (enc : Encoder) (d : dec) : Prop :=
  table_wf (e_table enc) /\ table_wf (d_table d) /\
  ht_maxSize (e_table enc) <= d_maxSize d /\
  (d_sizeChanged d = true -> e_sizeChanged enc = true) /\
  if e_sizeChanged enc then
    ht_data (e_table enc) = evict_spec (e_minSize enc) (ht_data (d_table d)) /\
    0 <= e_minSize enc <= ht_maxSize (e_table enc)
  else e_table enc = d_table d /\ e_minSize enc = maxUint32.

Lemma accepts_app h fs gs h2 :
  accepts h (fs ++ gs) h2 -> exists h1, accepts h fs h1 /\ accepts h1 gs h2.
Proof.
  revert h. induction fs as [|[[n v] s] fs IH]; intros h Ha; cbn in Ha.
  { exists h. split; [constructor|done]. }
  inversion Ha as [|? ? ? ? h0 ? ? Hh Ha']; subst. destruct (IH h0 Ha') as (h1 & H1 & H2).
  exists h1. split; [by econstructor|done].
Qed.

(** ** Dispatch *)

Ltac dispatch b P :=
  let Hc := fresh "Hc" in
  pose proof (byte_forall P ltac:(vm_compute; reflexivity) b) as Hc; cbn beta in Hc;
  unfold decode_dispatch;
  destruct (Z.land (bz b) 128 =? 0), (Z.land (bz b) 192 =? 64), (Z.land (bz b) 240 =? 0),
    (Z.land (bz b) 240 =? 16); cbn in *; try done; lia.

Lemma dispatch_literal t b :
  (literalPrefix t).1 <= bz b < (literalPrefix t).1 + 2 ^ (literalPrefix t).2 ->
  decode_dispatch hd (bz b) = decLiteral (E := E) hd t.
Proof.
  intros Hb. destruct t; cbn in Hb.
  - dispatch b (fun z => implb ((64 <=? z) && (z <? 128)) ((Z.land z 128 =? 0) && (Z.land z 192 =? 64))).
  - dispatch b (fun z => implb (z <? 16) ((Z.land z 128 =? 0) && negb (Z.land z 192 =? 64) && (Z.land z 240 =? 0))).
  - dispatch b (fun z => implb ((16 <=? z) && (z <? 32))
      ((Z.land z 128 =? 0) && negb (Z.land z 192 =? 64) && negb (Z.land z 240 =? 0) && (Z.land z 240 =? 16))).
Qed.

Lemma dispatch_indexed b :
  128 <= bz b -> decode_dispatch hd (bz b) = bind (decIndexed (E := E) hd) (fun _ => ret 0).
Proof. intros Hb. dispatch b (fun z => implb (128 <=? z) (negb (Z.land z 128 =? 0))). Qed.

(** The first byte of an integer carries the mask of its representation. *)
Lemma encInteger_first mask n i :
  prefix_ok mask n -> 0 <= i ->
  exists b tl, encInteger [] mask n i = b :: tl /\ mask <= bz b < mask + 2 ^ n.
Proof.
  intros Hp Hi. destruct (encInteger_shape mask n i Hp Hi) as (b & tl & -> & Hs).
  exists b, tl. split; [done|]. pose proof Hp as (Hn & _). assert (0 < 2 ^ n) by lia.
  destruct (Z.ltb_spec i (2 ^ n - 1)); lia.
Qed.

(** ** One representation *)

Lemma decode_via b tl (d d' : dec) n m :
  d_data d = b :: tl -> decode_dispatch hd (bz b) = m -> m d = (Ok n, d') ->
  decode hd d = (Ok n, d').
Proof. intros Hd <- Hm. apply (decode_dispatch_eq _ _ b tl); [done|done|done]. Qed.

Lemma decode_indexed_enc (d : dec) idx rest n v h' :
  0 < idx < 2 ^ 60 -> d_data d = encIndexed [] idx ++ rest ->
  entry (d_table d) idx = Some (Some (HF n v)) -> handle (d_hs d) n v false = (Ok tt, h') ->
  decode hd d = (Ok 0, set_hs h' (set_data rest (set_st true d))).
Proof.
  intros Hi Hd He Hh. unfold encIndexed in Hd.
  destruct (encInteger_first 0x80 7 idx prefix_indexed ltac:(lia)) as (b & tl & Hb & Hr).
  eapply decode_via; [by rewrite Hd, Hb|apply dispatch_indexed; lia|].
  unfold bind, decIndexed, markStarted, consume, bind. cbn [d_data set_st]. rewrite Hd.
  rewrite decInteger_enc by (apply prefix_indexed || lia).
  unfold tableEntry. cbn [d_table set_data set_st]. rewrite He.
  unfold callHandle. cbn [d_hs set_data set_st hf_name hf_value]. rewrite Hh. done.
Qed.

Lemma decode_literal_enc (d : dec) t idx rest n v hm h' table' :
  0 <= idx < 2 ^ 60 -> field_ok n v ->
  d_data d = (encLiteral [] n v t idx hm).2 ++ rest ->
  (0 < idx -> exists x, entry (d_table d) idx = Some (Some x) /\ hf_name x = n) ->
  (match t with
   | indexedTrue => exists b, add (d_table d) n v = Some (table', b)
   | _ => table' = d_table d
   end) ->
  handle (d_hs d) n v (if t is indexedNever then true else false) = (Ok tt, h') ->
  decode hd d = (Ok (encLiteral [] n v t idx hm).1,
                 set_hs h' (set_table table' (set_data rest (set_st true d)))).
Proof.
  intros Hi Hok Hd He Hadd Hh. unfold field_ok in Hok.
  pose proof (zlen_nonneg n). pose proof (zlen_nonneg v).
  assert (Hp := prefix_literal t). destruct (literalPrefix t) as [mask len] eqn:Hl. cbn [fst snd] in Hp.
  destruct (encInteger_first mask len idx Hp ltac:(lia)) as (b & tl & Hb & Hr).
  assert (Hfirst : exists tl', d_data d = b :: tl').
  { rewrite Hd. unfold encLiteral. rewrite Hl. destruct (idx =? 0); cbn [snd];
      rewrite ?(encStringLiteral_app (encStringLiteral _ _ _)), ?(encStringLiteral_app (encInteger _ _ _ _)), Hb;
      by eexists. }
  destruct Hfirst as [tl' Hfirst].
  eapply decode_via; [exact Hfirst|apply (dispatch_literal t); by rewrite Hl|].
  unfold decLiteral, bind, markStarted, consume. cbn [d_data set_st]. rewrite Hd, Hl. cbn [snd].
  unfold encLiteral. rewrite Hl. pose proof Hp as (Hlen & _).
  assert (1 < 2 ^ len) by (apply Z.pow_gt_1; lia).
  destruct (Z.eqb_spec idx 0) as [->|Hne]; cbn [fst snd].
  - rewrite (encStringLiteral_app (encStringLiteral _ _ _)), (encStringLiteral_app (encInteger _ _ _ _)).
    rewrite <- !app_assoc, decInteger_enc by (done || lia). cbn [d_data set_data set_st Z.ltb Z.compare].
    rewrite decString_enc by lia. cbn [d_data set_data set_st ret fst snd].
    rewrite decString_enc by lia. cbn [fst snd].
    destruct t; cbn [ret]; unfold tableAdd, callHandle; cbn [d_table d_hs set_data set_st set_table] in *;
      [destruct Hadd as [bb ->]|subst table'..]; cbn; rewrite Hh; done.
  - rewrite (encStringLiteral_app (encInteger _ _ _ _)).
    rewrite <- !app_assoc, decInteger_enc by (done || lia). destruct (Z.ltb_spec 0 idx); [|lia].
    destruct (He ltac:(lia)) as (x & Hx & <-). unfold tableEntry. cbn [d_table set_data set_st]. rewrite Hx.
    cbn [d_data set_data set_st ret fst snd]. rewrite decString_enc by lia. cbn [fst snd].
    destruct t; cbn [ret]; unfold tableAdd, callHandle; cbn [d_table d_hs set_data set_st set_table] in *;
      [destruct Hadd as [bb ->]|subst table'..]; cbn; rewrite Hh; done.
Qed.

Lemma decode_update_enc (d : dec) size rest :
  d_st d = false -> table_wf (d_table d) -> 0 <= size <= d_maxSize d -> size < 2 ^ 31 ->
  d_data d = encDynamicTableSizeUpdate [] size ++ rest ->
  decode hd d = (Ok 0, set_sizes (HT (evict_spec size (ht_data (d_table d)))
    (total_size (evict_spec size (ht_data (d_table d)))) size) (d_maxSize d) size false (set_data rest d)).
Proof.
  intros Hst Hwf Hsz Hlt Hd. unfold encDynamicTableSizeUpdate in Hd.
  destruct (encInteger_first 0x20 5 size prefix_update ltac:(lia)) as (b & tl & Hb & Hr).
  eapply decode_via; [by rewrite Hd, Hb| |].
  { apply update_byte. pose proof (byte_forall (fun z => implb ((32 <=? z) && (z <? 64)) (Z.land z 224 =? 32))
      ltac:(vm_compute; reflexivity) b) as Hc. cbn beta in Hc. lia. }
  unfold bind, decDynamicTableSizeUpdate, bind, consume. rewrite Hst, Hd.
  rewrite decInteger_enc by (apply prefix_update || lia). cbn [d_maxSize d_table set_data].
  rewrite u32_small by lia. destruct (Z.ltb_spec (d_maxSize d) size); [lia|].
  destruct (setMaxSize_spec (d_table d) size Hwf ltac:(lia)) as [bb ->]. done.
Qed.

(** ** Steps of the decoding loop *)

(** [d] runs to [d1] in the loop, accounting [k]. *)
Definition runs (limit k : Z) (d d1 : dec) : Prop :=
  loop hd limit d = loop hd limit d1 /\ d_b d1 = d_b d /\ d_err d1 = d_err d /\
  d_n d1 = (if limit =? 0 then d_n d else d_n d + k).

Lemma runs_trans limit k1 k2 d1 d2 d3 :
  runs limit k1 d1 d2 -> runs limit k2 d2 d3 -> runs limit (k1 + k2) d1 d3.
Proof.
  intros (L1 & B1 & E1 & N1) (L2 & B2 & E2 & N2). unfold runs. split_and!; try congruence.
  destruct (limit =? 0); lia.
Qed.

Lemma runs_step limit k d d1 :
  d_data d <> [] -> decode hd d = (Ok k, d1) -> 0 <= k -> 0 <= d_n d ->
  limit = 0 \/ d_n d + k <= limit < 2 ^ 32 ->
  exists d2, runs limit k d d2 /\ observe (set_n 0 d2) = observe (set_n 0 d1) /\ d_data d2 = d_data d1.
Proof.
  intros Hne Hr Hk Hn Hl. pose proof (decode_framed _ _ _ _ Hr) as (Hb & Hn1 & He & _).
  unfold runs. rewrite (loop_step _ limit d Hne), Hr.
  destruct (Z.eqb_spec limit 0) as [->|Hl0].
  - exists d1. by split_and!.
  - exists (set_n (d_n d + k) d1). rewrite Hn1, u32_small by lia.
    destruct (Z.ltb_spec limit (d_n d + k)); [lia|]. by split_and!.
Qed.

(** [sync] looks at the table and the size fields of the decoder only. *)
Lemma sync_ext enc (d d' : dec) :
  observe (set_n 0 d) = observe (set_n 0 d') -> sync enc d -> sync enc d'.
Proof. destruct d, d'. cbn. intros [= -> -> -> -> -> -> -> ->]. done. Qed.

Lemma observe_fields (d d' : dec) :
  observe (set_n 0 d) = observe (set_n 0 d') ->
  d_hs d = d_hs d' /\ d_st d = d_st d' /\ d_table d = d_table d' /\ d_maxSize d = d_maxSize d' /\
  d_sizeChanged d = d_sizeChanged d'.
Proof. destruct d, d'. cbn. by intros [= -> -> -> -> -> -> -> ->]. Qed.

(** ** Table size updates *)

Lemma sync_update_one enc (d : dec) size rest limit :
  sync enc d -> d_st d = false -> 0 <= size <= ht_maxSize (e_table enc) -> 0 <= d_n d ->
  limit = 0 \/ d_n d <= limit < 2 ^ 32 ->
  d_data d = encDynamicTableSizeUpdate [] size ++ rest ->
  exists d1, runs limit 0 d d1 /\ d_data d1 = rest /\ d_hs d1 = d_hs d /\ d_st d1 = false /\
    d_table d1 = HT (evict_spec size (ht_data (d_table d)))
                    (total_size (evict_spec size (ht_data (d_table d)))) size /\
    d_sizeChanged d1 = false /\ d_maxSize d1 = d_maxSize d.
Proof.
  intros (Hwe & Hwd & Hmax & _) Hst Hsz Hn Hl Hd. destruct Hwe as (_ & _ & Hlt & _).
  assert (Hne : d_data d <> []).
  { rewrite Hd. intros [Hx _]%app_nil. by apply encInteger_nonempty in Hx. }
  pose proof (decode_update_enc d size rest Hst Hwd ltac:(lia) ltac:(lia) Hd) as Hr.
  destruct (runs_step limit 0 d _ Hne Hr ltac:(lia) Hn ltac:(lia)) as (d2 & Hrun & Hobs & Hdata).
  exists d2. apply observe_fields in Hobs as (-> & -> & -> & -> & ->). cbn in *. by split_and!.
Qed.

Lemma encSizeUpdates_app enc dst :
  encSizeUpdates enc dst = ((encSizeUpdates enc []).1, dst ++ (encSizeUpdates enc []).2).
Proof.
  unfold encSizeUpdates, encDynamicTableSizeUpdate. destruct (e_sizeChanged enc); cbn [fst snd].
  - destruct (_ <? _); rewrite ?(encInteger_app (encInteger _ _ _ _)), ?(encInteger_app dst);
      by rewrite <- ?app_assoc.
  - by rewrite app_nil_r.
Qed.

(** The pending updates bring the decoder's table to the encoder's. *)
Lemma sync_updates enc (d : dec) rest limit :
  sync enc d -> (e_sizeChanged enc = true -> d_st d = false) -> 0 <= d_n d ->
  limit = 0 \/ d_n d <= limit < 2 ^ 32 ->
  d_data d = (encSizeUpdates enc []).2 ++ rest ->
  exists d1, runs limit 0 d d1 /\ d_data d1 = rest /\ d_hs d1 = d_hs d /\
    sync (encSizeUpdates enc []).1 d1.
Proof.
  intros Hsync Hst Hn Hl Hd. pose proof Hsync as (Hwe & Hwd & Hmax & Hch & Hrest).
  unfold encSizeUpdates in *. destruct (e_sizeChanged enc) eqn:Hsc; cbn [fst snd] in *.
  2: { exists d. split_and!; try done. unfold runs. split_and!; try done. destruct (limit =? 0); lia. }
  destruct Hrest as [Hdata Hmin]. specialize (Hst eq_refl).
  assert (Hfin : forall d1 : dec,
    d_data d1 = encDynamicTableSizeUpdate [] (ht_maxSize (e_table enc)) ++ rest ->
    sync enc d1 -> d_st d1 = false -> d_hs d1 = d_hs d -> runs limit 0 d d1 ->
    d_maxSize d1 = d_maxSize d ->
    evict_spec (ht_maxSize (e_table enc)) (ht_data (d_table d1)) = ht_data (e_table enc) ->
    exists d2, runs limit 0 d d2 /\ d_data d2 = rest /\ d_hs d2 = d_hs d /\
      sync (MkEncoder (e_table enc) maxUint32 false (e_i enc) (e_h enc)) d2).
  { intros d1 Hd1 Hs1 Hst1 Hh1 Hr1 Hm1 Hev. pose proof Hr1 as (_ & _ & _ & Hn1).
    assert (Hn1' : 0 <= d_n d1 /\ (limit = 0 \/ d_n d1 <= limit < 2 ^ 32)).
    { rewrite Hn1. destruct (Z.eqb_spec limit 0); lia. }
    destruct (sync_update_one enc d1 (ht_maxSize (e_table enc)) rest limit Hs1 Hst1) as
      (d2 & Hr2 & Hd2 & Hh2 & Hst2 & Ht2 & Hsc2 & Hm2); [lia|tauto|tauto|done|].
    exists d2. split_and!; [by apply (runs_trans limit 0 0 d d1 d2)|done|congruence|].
    rewrite Hev in Ht2. assert (Hte : d_table d2 = e_table enc).
    { rewrite Ht2. destruct Hwe as (Hsz & _). rewrite <- Hsz. by destruct (e_table enc). }
    unfold sync. cbn. rewrite Hte. split_and!; [done|done|lia|congruence|done|done]. }
  assert (Hself : runs limit 0 d d).
  { unfold runs. split_and!; try done. destruct (limit =? 0); lia. }
  destruct (Z.ltb_spec (e_minSize enc) (ht_maxSize (e_table enc))) as [Hlt|Hge].
  - unfold encDynamicTableSizeUpdate in Hd. rewrite encInteger_app, <- app_assoc in Hd.
    destruct (sync_update_one enc d (e_minSize enc) _ limit Hsync Hst ltac:(lia) Hn Hl Hd) as
      (d1 & Hr1 & Hd1 & Hh1 & Hst1 & Ht1 & Hsc1 & Hm1).
    assert (Hwf1 : table_wf (d_table d1)).
    { rewrite Ht1. apply evict_wf; [destruct Hwe as (_ & _ & ? & _); lia|apply Hwd]. }
    apply (Hfin d1); try done.
    + unfold sync. rewrite Hsc, Ht1, Hm1, Hsc1 in *. cbn. split_and!; try done; [|lia..].
      by rewrite evict_spec_evict_spec, Z.min_id.
    + rewrite Ht1. cbn. rewrite evict_spec_evict_spec, Z.min_r by lia. done.
  - apply (Hfin d); try done. rewrite Hdata. f_equal. lia.
Qed.

(** ** Fields *)

Lemma EncodeHeaderField_updates enc dst n v s :
  EncodeHeaderField enc dst n v s =
  EncodeHeaderField (encSizeUpdates enc dst).1 (encSizeUpdates enc dst).2 n v s.
Proof. unfold EncodeHeaderField, encSizeUpdates. by destruct (e_sizeChanged enc) eqn:Hs; cbn; rewrite ?Hs. Qed.

Lemma encLiteral_size_nonneg n v t idx hm : 0 <= (encLiteral [] n v t idx hm).1.
Proof.
  unfold encLiteral. destruct (literalPrefix t). destruct (idx =? 0); cbn; apply u32_range.
Qed.

(** A literal that is not added to the table. *)
Lemma sync_literal enc dst n v s t idx :
  e_sizeChanged enc = false -> field_ok n v -> 0 <= idx < 2 ^ 60 -> t <> indexedTrue ->
  (if t is indexedNever then true else false) = s ->
  (0 < idx -> exists x, entry (e_table enc) idx = Some (Some x) /\ hf_name x = n) ->
  exists k out, encLiteral dst n v t idx (e_h enc) = (k, dst ++ out) /\ 0 <= k /\ out <> [] /\
  forall (d : dec) rest h', sync enc d -> d_data d = out ++ rest -> handle (d_hs d) n v s = (Ok tt, h') ->
  exists d1, decode hd d = (Ok k, d1) /\ d_data d1 = rest /\ d_hs d1 = h' /\ sync enc d1.
Proof.
  intros Hsc Hok Hi Ht Hs Hent. rewrite encLiteral_app. eexists _, _. split; [done|].
  split; [apply encLiteral_size_nonneg|]. split; [apply encLiteral_nonempty|].
  intros d rest h' Hsync Hd Hh. pose proof Hsync as (_ & _ & _ & _ & Hrest). rewrite Hsc in Hrest.
  destruct Hrest as [Hte _]. rewrite Hte in Hent.
  eexists. split; [apply (decode_literal_enc d t idx rest n v (e_h enc) h' (d_table d)); try done|done].
  - by destruct t.
  - by rewrite Hs.
Qed.

(** A field that is in one of the tables. *)
Lemma sync_indexed enc dst n v idx :
  e_sizeChanged enc = false -> table_wf (e_table enc) -> entry (e_table enc) idx = Some (Some (HF n v)) ->
  encIndexed dst idx = dst ++ encIndexed [] idx /\ encIndexed [] idx <> [] /\
  forall (d : dec) rest h', sync enc d -> d_data d = encIndexed [] idx ++ rest ->
  handle (d_hs d) n v false = (Ok tt, h') ->
  exists d1, decode hd d = (Ok 0, d1) /\ d_data d1 = rest /\ d_hs d1 = h' /\ sync enc d1.
Proof.
  intros Hsc Hwf Hent. split; [apply encInteger_app|]. split; [apply encInteger_nonempty|].
  intros d rest h' Hsync Hd Hh. pose proof Hsync as (_ & _ & _ & _ & Hrest). rewrite Hsc in Hrest.
  destruct Hrest as [Hte _]. rewrite Hte in Hent, Hwf.
  eexists. split; [apply (decode_indexed_enc d idx rest n v h'); try done|done].
  by apply (entry_bound (d_table d) idx (HF n v)).
Qed.

(** What a field becomes when no size update is pending. *)
Lemma sync_field enc dst n v s :
  e_sizeChanged enc = false -> table_wf (e_table enc) -> field_ok n v ->
  exists k out enc', EncodeHeaderField enc dst n v s = Some (k, dst ++ out, enc') /\
    e_sizeChanged enc' = false /\ 0 <= k /\ out <> [] /\
    forall (d : dec) rest h', sync enc d -> d_data d = out ++ rest -> handle (d_hs d) n v s = (Ok tt, h') ->
    exists d1, decode hd d = (Ok k, d1) /\ d_data d1 = rest /\ d_hs d1 = h' /\ sync enc' d1.
Proof.
  intros Hsc Hwf Hok. unfold EncodeHeaderField. unfold encSizeUpdates. rewrite Hsc.
  pose proof (fun t idx => sync_literal enc dst n v s t idx Hsc Hok) as Hlit.
  pose proof (fun idx => sync_indexed enc dst n v idx Hsc Hwf) as Hidx.
  destruct s.
  { destruct (Hlit indexedNever 0) as (k & out & -> & Hk & Ho & Hd); [lia|done|done|lia|].
    exists k, out, enc. by split_and!. }
  destruct (Z.eqb_spec (ht_maxSize (e_table enc)) 0) as [H0|H0].
  { destruct (index n v) as [idx [|]] eqn:Hix.
    - apply index_true in Hix as [Hr Hx]. pose proof (entry_static (e_table enc) _ _ Hr Hx) as Hent.
      destruct (Hidx idx Hent) as (-> & Ho & Hd). exists 0, (encIndexed [] idx), enc. by split_and!.
    - apply index_false in Hix as [_ Hix].
      destruct (Hlit indexedFalse idx) as (k & out & -> & Hk & Ho & Hd); [|done|done| |].
      { destruct Hix as [[-> _]|[? _]]; lia. }
      { destruct Hix as [[-> _]|(Hr & x & Hx & Hn)]; [lia|]. intros _. exists x. split; [by apply entry_static|done]. }
      exists k, out, enc. by split_and!. }
  destruct (Z.ltb_spec (ht_maxSize (e_table enc)) (HeaderFieldSize n v)) as [Hbig|Hfit].
  { destruct (Hlit indexedFalse 0) as (k & out & -> & Hk & Ho & Hd); [lia|done|done|lia|].
    exists k, out, enc. by split_and!. }
  destruct (find (e_table enc) n v) as [idx [|]] eqn:Hf.
  { apply find_matched in Hf as [_ Hent].
    destruct (Hidx idx Hent) as (-> & Ho & Hd). exists 0, (encIndexed [] idx), enc. by split_and!. }
  apply find_unmatched in Hf as [_ Hf].
  assert (Hir : 0 <= idx < 2 ^ 60 /\
    (0 < idx -> exists x, entry (e_table enc) idx = Some (Some x) /\ hf_name x = n)).
  { destruct Hf as [[-> _]|(Hp & x & Hx & Hn)]; [split; lia|].
    pose proof (entry_bound _ _ _ Hwf Hx). split; [lia|]. eauto. }
  destruct Hir as [Hir Hent]. destruct (e_i enc) eqn:Hi.
  - destruct (add_wf (e_table enc) n v Hwf Hok) as (t' & b & Hadd & Hwf' & Hmx).
    rewrite encLiteral_app, Hadd. cbn -[encLiteral]. eexists _, _, _. split; [done|]. split; [done|].
    split; [apply encLiteral_size_nonneg|]. split; [apply encLiteral_nonempty|].
    intros d rest h' Hsync Hd Hh. pose proof Hsync as (_ & _ & Hmax & Hch & Hrest). rewrite Hsc in Hrest, Hch.
    destruct Hrest as [Hte Hmn]. rewrite Hte in Hent, Hadd.
    eexists. split; [apply (decode_literal_enc d indexedTrue idx rest n v (e_h enc) h' t'); try done; by exists b|].
    cbn. split_and!; [done|done|]. unfold sync. cbn. rewrite Hsc. split_and!; try done. lia.
  - destruct (Hlit indexedFalse idx) as (k & out & -> & Hk & Ho & Hd); [lia|done|done|done|].
    exists k, out, enc. by split_and!.
Qed.

(** One call of [EncodeHeaderField] and the steps that decode its output. *)
Lemma sync_EncodeHeaderField enc dst n v s :
  table_wf (e_table enc) -> field_ok n v ->
  exists k out enc', EncodeHeaderField enc dst n v s = Some (k, dst ++ out, enc') /\
    e_sizeChanged enc' = false /\ 0 <= k /\ (exists tl, out = (encSizeUpdates enc []).2 ++ tl /\ tl <> []) /\
    forall (d : dec) rest limit h', sync enc d -> (e_sizeChanged enc = true -> d_st d = false) ->
      0 <= d_n d -> limit = 0 \/ d_n d + k <= limit < 2 ^ 32 ->
      d_data d = out ++ rest -> handle (d_hs d) n v s = (Ok tt, h') ->
      exists d1, runs limit k d d1 /\ d_data d1 = rest /\ d_hs d1 = h' /\ sync enc' d1.
Proof.
  intros Hwf Hok. rewrite EncodeHeaderField_updates, encSizeUpdates_app. cbn [fst snd].
  set (enc1 := (encSizeUpdates enc []).1). set (pre := (encSizeUpdates enc []).2).
  assert (Hsc1 : e_sizeChanged enc1 = false /\ e_table enc1 = e_table enc).
  { unfold enc1, encSizeUpdates. by destruct (e_sizeChanged enc) eqn:?. }
  destruct Hsc1 as [Hsc1 Ht1]. rewrite <- Ht1 in Hwf.
  destruct (sync_field enc1 (dst ++ pre) n v s Hsc1 Hwf Hok) as (k & out & enc' & He & Hsc' & Hk & Ho & Hdec).
  exists k, (pre ++ out), enc'. rewrite He, app_assoc. split; [done|]. split; [done|]. split; [done|].
  split; [by exists out|].
  intros d rest limit h' Hsync Hst Hn Hl Hd Hh. rewrite <- app_assoc in Hd.
  destruct (sync_updates enc d (out ++ rest) limit Hsync Hst Hn ltac:(lia) Hd) as (d1 & Hr1 & Hd1 & Hh1 & Hs1).
  rewrite <- Hh1 in Hh. destruct (Hdec d1 rest h' Hs1 Hd1 Hh) as (d2 & Hr2 & Hd2 & Hh2 & Hs2).
  pose proof Hr1 as (_ & _ & _ & Hn1).
  assert (Hn1' : 0 <= d_n d1 /\ (limit = 0 \/ d_n d1 + k <= limit < 2 ^ 32)).
  { rewrite Hn1. destruct (Z.eqb_spec limit 0); lia. }
  destruct (runs_step limit k d1 d2) as (d3 & Hr3 & Hobs & Hd3); try tauto.
  { rewrite Hd1. by intros [? _]%app_nil. }
  exists d3. split; [by apply (runs_trans limit 0 k d d1 d3)|]. split; [congruence|].
  symmetry in Hobs. split; [|by apply (sync_ext _ _ _ Hobs)].
  apply observe_fields in Hobs as (<- & _). done.
Qed.

(** ** Header blocks *)

Lemma sync_EncodeFields fs enc dst :
  table_wf (e_table enc) -> e_sizeChanged enc = false -> fields_ok fs ->
  exists k out enc', EncodeFields enc dst fs = Some (k, dst ++ out, enc') /\ 0 <= k /\
    e_sizeChanged enc' = false /\
    forall (d : dec) limit h', sync enc d -> 0 <= d_n d ->
      limit = 0 \/ d_n d + k <= limit < 2 ^ 32 ->
      d_data d = out -> accepts (d_hs d) fs h' ->
      exists d1, runs limit k d d1 /\ d_data d1 = [] /\ d_hs d1 = h' /\ sync enc' d1.
Proof.
  revert enc dst. induction fs as [|[[n v] s] fs IH]; intros enc dst Hwf Hsc Hok.
  { exists 0, [], enc. cbn. rewrite app_nil_r. split_and!; [done|done|done|].
    intros d limit h' Hsync Hn Hl Hd Hacc. inversion Hacc; subst.
    exists d. split_and!; try done. unfold runs. split_and!; try done. destruct (limit =? 0); lia. }
  apply Forall_cons in Hok as [Hok1 Hok]. cbn in Hok1.
  destruct (sync_EncodeHeaderField enc dst n v s Hwf Hok1) as (k1 & o1 & enc1 & He1 & Hsc1 & Hk1 & _ & Hd1).
  assert (Hwf1 : table_wf (e_table enc1)) by by apply (EncodeHeaderField_wf _ _ _ _ _ _ _ _ Hwf Hok1 He1).
  destruct (IH enc1 (dst ++ o1) Hwf1 Hsc1 Hok) as (k2 & o2 & enc2 & He2 & Hk2 & Hsc2 & Hd2).
  exists (k1 + k2), (o1 ++ o2), enc2. cbn. rewrite He1. cbn. rewrite He2. cbn.
  rewrite app_assoc. split_and!; [done|lia|done|].
  intros d limit h' Hsync Hn Hl Hd Hacc. inversion Hacc as [|? ? ? ? h1 ? ? Hh Hacc']; subst.
  destruct (Hd1 d o2 limit h1 Hsync) as (d1 & Hr1 & Hdat1 & Hh1 & Hs1); [congruence|done|lia|done|done|].
  rewrite <- Hh1 in Hacc'. pose proof Hr1 as (_ & _ & _ & Hn1).
  assert (Hn1' : 0 <= d_n d1 /\ (limit = 0 \/ d_n d1 + k2 <= limit < 2 ^ 32)).
  { rewrite Hn1. destruct (Z.eqb_spec limit 0); lia. }
  destruct (Hd2 d1 limit h' Hs1 ltac:(tauto) ltac:(tauto) Hdat1 Hacc') as (d2 & Hr2 & Hdat2 & Hh2 & Hs2).
  exists d2. split_and!; try done. by apply (runs_trans limit k1 k2 d d1 d2).
Qed.

(** Between two header blocks. *)
Definition quiet (d : dec) : Prop := d_b d = [] /\ d_err d = None /\ d_st d = false /\ d_n d = 0.

Lemma guard_of_sync enc (d : dec) tl :
  sync enc d -> guard_ok (resume ((encSizeUpdates enc []).2 ++ tl) (set_b [] d)) \/ tl = [].
Proof.
  intros (Hwe & _ & _ & Hch & Hrest). destruct tl as [|t tl]; [by right|left].
  unfold guard_ok, resume. cbn [d_data set_b set_data d_b app d_sizeChanged].
  destruct (d_sizeChanged d).
  - rewrite (Hch eq_refl) in Hrest. destruct Hrest as [_ Hmin].
    assert (Hfirst : exists b k, (encSizeUpdates enc []).2 = b :: k /\ 32 <= bz b < 64).
    { unfold encSizeUpdates, encDynamicTableSizeUpdate. rewrite Hch by done. cbn [snd].
      destruct (_ <? _).
      - destruct (encInteger_first 0x20 5 (e_minSize enc) prefix_update ltac:(lia)) as (b & k & Hb & Hr).
        rewrite encInteger_app, Hb. by eexists _, _.
      - destruct Hwe as (_ & Hr0 & _).
        destruct (encInteger_first 0x20 5 (ht_maxSize (e_table enc)) prefix_update ltac:(lia)) as (b & k & Hb & Hr).
        rewrite Hb. by eexists _, _. }
    destruct Hfirst as (b & k & -> & Hb). cbn.
    pose proof (byte_forall (fun z => implb ((32 <=? z) && (z <? 64)) (Z.land z 224 =? 32))
      ltac:(vm_compute; reflexivity) b) as Hc. cbn beta in Hc.
    destruct (Z.land (bz b) 224 =? 32); [done|lia].
  - by destruct (_ ++ _).
Qed.

Lemma runs_finish limit k (d d1 : dec) :
  runs limit k d d1 -> d_data d1 = [] -> loop hd limit d = (Ok tt, d1).
Proof. intros (-> & _) Hd. unfold loop. cbn. by rewrite Hd. Qed.

(** A header block is decoded by one call of [Decode] to the fields it was made of. *)
Lemma sync_block enc fs :
  table_wf (e_table enc) -> fields_ok fs ->
  exists k out enc', EncodeFields enc [] fs = Some (k, out, enc') /\ 0 <= k /\
    forall (d : dec) limit h', sync enc d -> quiet d -> limit = 0 \/ k <= limit < 2 ^ 32 ->
      accepts (d_hs d) fs h' ->
      exists d1 d2, Decode hd d out limit = (Ok tt, d1) /\ d_n d1 = (if limit =? 0 then 0 else k) /\
        Reset d1 = (None, d2) /\ quiet d2 /\ d_hs d2 = h' /\ sync enc' d2.
Proof.
  intros Hwf Hok. destruct fs as [|[[n v] s] fs].
  { exists 0, [], enc. split_and!; [done|done|]. intros d limit h' Hsync Hq Hl Hacc.
    inversion Hacc; subst. destruct Hq as (Hb & He & Hst & Hn).
    exists d, d. unfold Reset. rewrite Decode_nil, Hb by done. split_and!; try done.
    - rewrite Hn. by destruct (limit =? 0).
    - cbn. f_equal. destruct d. cbn in *. by subst. }
  apply Forall_cons in Hok as [Hok1 Hok]. cbn in Hok1.
  destruct (sync_EncodeHeaderField enc [] n v s Hwf Hok1) as
    (k1 & o1 & enc1 & He1 & Hsc1 & Hk1 & (tl & Htl & Htne) & Hd1).
  assert (Hwf1 : table_wf (e_table enc1)) by by apply (EncodeHeaderField_wf _ _ _ _ _ _ _ _ Hwf Hok1 He1).
  destruct (sync_EncodeFields fs enc1 o1 Hwf1 Hsc1 Hok) as (k2 & o2 & enc2 & He2 & Hk2 & Hsc2 & Hd2).
  exists (k1 + k2), (o1 ++ o2), enc2. cbn -[EncodeHeaderField]. rewrite He1. cbn -[EncodeHeaderField].
  rewrite He2. split_and!; [done|lia|].
  intros d limit h' Hsync Hq Hl Hacc. inversion Hacc as [|? ? ? ? h1 ? ? Hh Hacc']; subst h' fs n v s h.
  destruct Hq as (Hb & He & Hst & Hn). set (d0 := resume (o1 ++ o2) d).
  assert (Hs0 : sync enc d0) by done.
  assert (Hne : o1 ++ o2 <> []) by (rewrite Htl; intros [[_ ?]%app_nil _]%app_nil; done).
  destruct (Hd1 d0 o2 limit h1 Hs0) as (d1 & Hr1 & Hdat1 & Hh1 & Hs1); [done|cbn; lia|cbn; lia|cbn; by rewrite Hb|done|].
  rewrite <- Hh1 in Hacc'. pose proof Hr1 as (_ & _ & _ & Hn1). cbn in Hn1. rewrite Hn in Hn1.
  assert (Hn1' : 0 <= d_n d1 /\ (limit = 0 \/ d_n d1 + k2 <= limit < 2 ^ 32)).
  { rewrite Hn1. destruct (Z.eqb_spec limit 0); lia. }
  destruct (Hd2 d1 limit h2 Hs1 ltac:(tauto) ltac:(tauto) Hdat1 Hacc') as (d2 & Hr2 & Hdat2 & Hh2 & Hs2).
  assert (Hrun : runs limit (k1 + k2) d0 d2) by by apply (runs_trans limit k1 k2 d0 d1 d2).
  pose proof (runs_finish _ _ _ _ Hrun Hdat2) as Hloop. destruct Hrun as (_ & Hb2 & He2' & Hn2).
  cbn in Hb2, He2', Hn2. rewrite Hn in Hn2.
  destruct (Decode_cons hd d (o1 ++ o2) limit He Hne) as [[_ ->]|[Hg _]].
  2: { destruct Hg. destruct (guard_of_sync enc d (tl ++ o2) Hsync) as [Hg|Hg].
       - unfold resume in *. cbn in *. rewrite Hb. cbn. rewrite Htl, <- app_assoc. exact Hg.
       - by apply app_nil in Hg as [? _]. }
  fold d0. rewrite Hloop. exists d2. unfold Reset. rewrite Hb2. eexists. split_and!; [done| |done| | |].
  - rewrite Hn2. by destruct (limit =? 0).
  - unfold quiet. cbn. by split_and!.
  - done.
  - done.
Qed.

(** ** Resizing on both sides *)

Lemma sync_SetMax enc (d : dec) max :
  sync enc d -> 0 <= max < 2 ^ 31 ->
  exists enc' d', enc_SetMaxHeaderTableSize enc max = Some enc' /\
    dec_SetMaxHeaderTableSize d max = Some d' /\ sync enc' d' /\ d_hs d' = d_hs d /\
    (quiet d -> quiet d').
Proof.
  intros (Hwe & Hwd & Hmax & Hch & Hrest) Hm.
  unfold enc_SetMaxHeaderTableSize, dec_SetMaxHeaderTableSize.
  destruct (setMaxSize_spec (e_table enc) max Hwe Hm) as [be ->].
  destruct (setMaxSize_spec (d_table d) max Hwd Hm) as [bd ->]. cbn.
  set (mn := if max <? e_minSize enc then max else e_minSize enc).
  assert (Hmn : 0 <= mn <= max /\
    evict_spec max (ht_data (e_table enc)) = evict_spec mn (ht_data (d_table d))).
  { destruct (e_sizeChanged enc).
    - destruct Hrest as [-> Hmin]. rewrite evict_spec_evict_spec. unfold mn.
      destruct (Z.ltb_spec max (e_minSize enc)); (split; [lia|f_equal; lia]).
    - destruct Hrest as [-> Hmin]. unfold mn. rewrite Hmin. destruct (Z.ltb_spec max maxUint32); unfold maxUint32 in *; [|lia].
      split; [lia|done]. }
  destruct Hmn as [Hmn Hev]. destruct Hwe as (_ & _ & _ & Halle). pose proof Hwd as (_ & _ & _ & Halld).
  destruct (max <? d_maxSizeLimit d); eexists _, _; (split_and!; [done|done| |done|done]).
  - unfold sync. cbn. split_and!; [by apply evict_wf|by apply evict_wf|lia|done| |lia..].
    rewrite Hev, evict_spec_evict_spec. f_equal. lia.
  - unfold sync. cbn. split_and!; [by apply evict_wf|done|lia|done|done|lia..].
Qed.

Lemma sync_new m hs :
  0 <= m < 2 ^ 31 -> sync (NewEncoder m) (NewDecoder m hs) /\ quiet (NewDecoder m hs).
Proof.
  intros Hm. unfold sync, quiet, table_wf. cbn. split_and!; try done; lia.
Qed.

(** ** Sessions *)

Inductive hop :=
| HResize (max : Z)
| HBlock (fs : list field).

Definition hop_ok (o : hop) : Prop :=
  match o with
  | HResize max => 0 <= max < 2 ^ 31
  | HBlock fs => fields_ok fs
  end.

Definition hop_fields (o : hop) : list field :=
  match o with HResize _ => [] | HBlock fs => fs end.

(** A resize is applied by both endpoints; a block is encoded by one and decoded, in one
    call, by the other, which then resets its decoder.  [None] is any error or panic. *)
Fixpoint session (enc : Encoder) (d : dec) (ops : list hop) : option (Encoder * dec) :=
  match ops with
  | [] => Some (enc, d)
  | HResize max :: ops =>
    enc ← enc_SetMaxHeaderTableSize enc max;
    d ← dec_SetMaxHeaderTableSize d max;
    session enc d ops
  | HBlock fs :: ops =>
    '(_, block, enc) ← EncodeFields enc [] fs;
    match Decode hd d block 0 with
    | (Ok _, d) => match Reset d with
                   | (None, d) => session enc d ops
                   | (Some _, _) => None
                   end
    | _ => None
    end
  end.

Lemma session_sync ops enc (d : dec) h' :
  sync enc d -> quiet d -> Forall hop_ok ops -> accepts (d_hs d) (ops ≫= hop_fields) h' ->
  exists enc' d', session enc d ops = Some (enc', d') /\ d_hs d' = h' /\ sync enc' d' /\ quiet d'.
Proof.
  revert enc d. induction ops as [|o ops IH]; intros enc d Hs Hq Hok Hacc.
  { exists enc, d. inversion Hacc; subst. done. }
  apply Forall_cons in Hok as [Ho Hok]. destruct o as [max|fs].
  - destruct (sync_SetMax enc d max Hs Ho) as (enc1 & d1 & He & Hd & Hs1 & Hh & Hq1).
    cbn. rewrite He, Hd. cbn. apply IH; auto. by rewrite Hh.
  - pose proof Hs as (Hwf & _). destruct (sync_block enc fs Hwf Ho) as (k & out & enc1 & He & Hk & Hdec).
    cbn [mbind list_bind hop_fields] in Hacc. apply accepts_app in Hacc as (h1 & Ha1 & Ha2).
    destruct (Hdec d 0 h1 Hs Hq ltac:(by left) Ha1) as (d1 & d2 & Hd & _ & Hr & Hq2 & Hh2 & Hs2).
    cbn. rewrite He. cbn. rewrite Hd, Hr. apply IH; auto. by rewrite Hh2.
Qed.
End Sync.

(** ** Collecting the decoded fields *)

(** A handler that keeps every field it is called with. *)
Definition collect (h : list field) (n v : gostring) (s : bool) : outcome Empty_set unit * list field :=
  (Ok tt, h ++ [(n, v, s)]).

Lemma collect_accepts h fs : accepts collect h fs (h ++ fs).
Proof.
  revert h. induction fs as [|[[n v] s] fs IH]; intros h; [rewrite app_nil_r; constructor|].
  econstructor; [done|]. specialize (IH (h ++ [(n, v, s)])). by rewrite <- app_assoc in IH.
Qed.

(** Concrete fields and resizes are in range. *)
Ltac fields_tac :=
  repeat (unfold hop_ok, fields_ok; first [apply Forall_nil_2 | apply Forall_cons_2]);
  vm_compute; intuition congruence.

(** ** Properties *)

(** C4: encoder and decoder stay synchronised over a connection's life.  For any sequence
    of table resizes and header blocks, applied to a new encoder and a new decoder of the
    same size, every block is encoded and decoded without error or panic, the decoder's
    handler receives exactly the encoded fields, in order and with their sensitivity, and
    both dynamic tables agree at the end up to size updates still to be sent. *)
Theorem hpack_session_roundtrip m ops :
  0 <= m < 2 ^ 31 -> Forall hop_ok ops ->
  exists enc d, session collect (NewEncoder m) (NewDecoder m []) ops = Some (enc, d) /\
    d_hs d = ops ≫= hop_fields /\ sync enc d.
Proof.
  intros Hm Hok. destruct (sync_new (E := Empty_set) m (@nil field) Hm) as [Hs Hq].
  destruct (session_sync collect ops _ _ (ops ≫= hop_fields) Hs Hq Hok (collect_accepts [] _))
    as (enc & d & Hrun & Hh & Hs' & _). eauto.
Qed.

Lemma hpack_session_roundtrip_witness :
  exists enc d,
    session collect (NewEncoder 4096) (NewDecoder 4096 [])
      [HBlock [(str ":method", str "GET", false); (str "cookie", str "a=b", true)]; HResize 64;
       HBlock [(str "x-custom", str "value", false); (str ":method", str "GET", false)]] = Some (enc, d) /\
    d_hs d = [(str ":method", str "GET", false); (str "cookie", str "a=b", true);
              (str "x-custom", str "value", false); (str ":method", str "GET", false)].
Proof.
  destruct (hpack_session_roundtrip 4096
    [HBlock [(str ":method", str "GET", false); (str "cookie", str "a=b", true)]; HResize 64;
     HBlock [(str "x-custom", str "value", false); (str ":method", str "GET", false)]])
    as (enc & d & Hrun & Hh & _); [lia| |].
  { fields_tac. }
  exists enc, d. split; [exact Hrun|exact Hh].
Defined.

(** C38: the decoder accounts header list sizes as the encoder reports them.  A block of
    fields encoded into [k] accounted bytes is accepted by a synchronised decoder under
    every limit of at least [k], the decoder's count is then exactly [k], and after the
    reset it is ready for the next block. *)
Theorem header_list_size_agrees enc fs :
  table_wf (e_table enc) -> fields_ok fs ->
  exists k out enc', EncodeFields enc [] fs = Some (k, out, enc') /\ 0 <= k /\
    forall (d : Decoder (list field) Empty_set) limit,
      sync enc d -> quiet d -> k <= limit < 2 ^ 32 -> limit <> 0 ->
      exists d1 d2, Decode (Some collect) d out limit = (Ok tt, d1) /\ d_n d1 = k /\
        Reset d1 = (None, d2) /\ quiet d2 /\ d_hs d2 = d_hs d ++ fs /\ sync enc' d2.
Proof.
  intros Hwf Hok. destruct (sync_block collect enc fs Hwf Hok) as (k & out & enc' & He & Hk & Hd).
  exists k, out, enc'. split_and!; [done|done|]. intros d limit Hs Hq Hl H0.
  destruct (Hd d limit _ Hs Hq ltac:(by right) (collect_accepts (d_hs d) fs)) as (d1 & d2 & Hdec & Hn & Hrest).
  exists d1, d2. rewrite (proj2 (Z.eqb_neq limit 0) H0) in Hn. done.
Qed.

Lemma header_list_size_agrees_witness :
  exists out enc' d1, EncodeFields (NewEncoder 4096) [] [(str "x-custom", str "value", false)] = Some (45, out, enc') /\
    Decode (Some collect) (NewDecoder 4096 [] : Decoder (list field) Empty_set) out 45 = (Ok tt, d1) /\ d_n d1 = 45 /\
    d_hs d1 = [(str "x-custom", str "value", false)].
Proof.
  destruct (header_list_size_agrees (NewEncoder 4096) [(str "x-custom", str "value", false)])
    as (k & out & enc' & He & _ & Hd).
  - apply (sync_new (E := Empty_set) 4096 tt). lia.
  - fields_tac.
  - assert (Hk : (fun x => x.1.1) <$> EncodeFields (NewEncoder 4096) [] [(str "x-custom", str "value", false)] = Some 45)
      by (vm_compute; reflexivity).
    rewrite He in Hk. injection Hk as ->.
    destruct (Hd (NewDecoder 4096 []) 45) as (d1 & d2 & Hdec & Hn & Hr & _ & Hhs & _).
    + apply sync_new. lia.
    + repeat split.
    + lia.
    + done.
    + exists out, enc', d1. split; [exact He|]. split; [exact Hdec|]. split; [exact Hn|].
      revert Hr. unfold Reset. case_decide; [|done]. intros [= <-]. exact Hhs.
Defined.
