(* ===== verification/Types.v ===== *)
(** * Shared types and constants ([src/http2.go])

    Error codes, settings, frame types and flags are integers of the source's width with
    named constants, since a peer may send any value.  Frames are one constructor per
    struct of the source.  Error values keep what the code inspects: the kind, the error
    code and the stream identifier; the formatted text is not part of them. *)

From S2P Require Import Prelude HpackDecode.

(** ** Error codes (RFC 7540 section 7) *)

Definition ErrCodeNo : Z := 0x0.
Definition ErrCodeProtocol : Z := 0x1.
Definition ErrCodeInternal : Z := 0x2.
Definition ErrCodeFlowControl : Z := 0x3.
Definition ErrCodeSettingsTimeout : Z := 0x4.
Definition ErrCodeStreamClosed : Z := 0x5.
Definition ErrCodeFrameSize : Z := 0x6.
Definition ErrCodeRefusedStream : Z := 0x7.
Definition ErrCodeCancel : Z := 0x8.
Definition ErrCodeCompression : Z := 0x9.
Definition ErrCodeConnect : Z := 0xa.
Definition ErrCodeEnhanceYourCalm : Z := 0xb.
Definition ErrCodeInadequateSecurity : Z := 0xc.
Definition ErrCodeHTTP11Required : Z := 0xd.

(** ** Limits and defaults *)

Definition maxConcurrentStreams : Z := 2 ^ 31 - 1.
Definition maxInitialWindowSize : Z := 2 ^ 31 - 1.
Definition maxFrameSizeLowerBound : Z := 2 ^ 14.
Definition maxFrameSizeUpperBound : Z := 2 ^ 24 - 1.
Definition defaultHeaderTableSize : Z := 4096.
Definition defaultEnablePush : Z := 1.
Definition defaultMaxConcurrentStreams : Z := maxConcurrentStreams.
Definition defaultInitialWindowSize : Z := 65535.
Definition defaultMaxFrameSize : Z := maxFrameSizeLowerBound.

(** ** Settings identifiers *)

Definition SettingHeaderTableSize : Z := 0x1.
Definition SettingEnablePush : Z := 0x2.
Definition SettingMaxConcurrentStreams : Z := 0x3.
Definition SettingInitialWindowSize : Z := 0x4.
Definition SettingMaxFrameSize : Z := 0x5.
Definition SettingMaxHeaderListSize : Z := 0x6.

Definition settingLen : Z := 6.

Record setting := MkSetting { s_ID : Z; s_Value : Z }.

#[global] Instance setting_eq_decision : EqDecision setting.
Proof. solve_decision. Defined.

Abbreviation Settings := (list setting).

(** [nil] is [None]; a made map is [Some m]. *)
Abbreviation Header := (option (gmap gostring (list gostring))).

(** ** Frame types and flags *)

Definition FrameData : Z := 0x0.
Definition FrameHeaders : Z := 0x1.
Definition FramePriority : Z := 0x2.
Definition FrameRSTStream : Z := 0x3.
Definition FrameSettings : Z := 0x4.
Definition FramePushPromise : Z := 0x5.
Definition FramePing : Z := 0x6.
Definition FrameGoAway : Z := 0x7.
Definition FrameWindowUpdate : Z := 0x8.
Definition FrameContinuation : Z := 0x9.

Definition FlagEndStream : Z := 0x1.
Definition FlagEndHeaders : Z := 0x4.
Definition FlagAck : Z := 0x1.
Definition FlagPadded : Z := 0x8.
Definition FlagPriority : Z := 0x20.

(** [(f & v) == v] *)
Definition Flags_Has (f v : Z) : bool := Z.land f v =? v.

(** ** Errors *)

Inductive error :=
| ConnError (code : Z)
| StreamError (code streamID : Z)
| StreamErrorList (l : list (Z * Z))
| MalformedError
| HandshakeError
| HpackHeaderFieldsTooLarge
| HpackDecodingError (d : decodingError)
| ErrClosed
| errStreamClosed
| ErrEOF
| ErrUnexpectedEOF
| PlainError (text : string).

(** ** Frames *)

Record Priority := MkPriority { StreamDependency : Z; Weight : Z; Exclusive : bool }.

#[global] Instance Priority_eq_decision : EqDecision Priority.
Proof. solve_decision. Defined.

Definition noPriority : Priority := MkPriority 0 0 false.

(** The reader of a DATA or unknown frame's payload is [None] when nil, and otherwise the
    bytes it yields. *)
Inductive Frame :=
| DataFrame (StreamID : Z) (Data : option (list byte)) (DataLen PadLen : Z) (EndStream : bool)
| HeadersFrame (StreamID : Z) (Hdr : Header) (Prio : Priority) (PadLen : Z) (EndStream : bool)
| PriorityFrame (StreamID : Z) (Prio : Priority)
| RSTStreamFrame (StreamID ErrCode : Z)
| SettingsFrame (Ack : bool) (Setts : Settings)
| PushPromiseFrame (StreamID PromisedStreamID : Z) (Hdr : Header) (PadLen : Z)
| PingFrame (Ack : bool) (Data : list byte)
| GoAwayFrame (LastStreamID ErrCode : Z) (DebugData : list byte)
| WindowUpdateFrame (StreamID WindowSizeIncrement : Z)
| UnknownFrame (FrameType StreamID Flags : Z) (Payload : option (list byte)) (PayloadLen : Z).

Definition Frame_Type (f : Frame) : Z :=
  match f with
  | DataFrame _ _ _ _ _ => FrameData
  | HeadersFrame _ _ _ _ _ => FrameHeaders
  | PriorityFrame _ _ => FramePriority
  | RSTStreamFrame _ _ => FrameRSTStream
  | SettingsFrame _ _ => FrameSettings
  | PushPromiseFrame _ _ _ _ => FramePushPromise
  | PingFrame _ _ => FramePing
  | GoAwayFrame _ _ _ => FrameGoAway
  | WindowUpdateFrame _ _ => FrameWindowUpdate
  | UnknownFrame t _ _ _ _ => t
  end.

Definition Frame_Stream (f : Frame) : Z :=
  match f with
  | DataFrame id _ _ _ _ | HeadersFrame id _ _ _ _ | PriorityFrame id _ | RSTStreamFrame id _
  | PushPromiseFrame id _ _ _ | WindowUpdateFrame id _ | UnknownFrame _ id _ _ _ => id
  | SettingsFrame _ _ | PingFrame _ _ | GoAwayFrame _ _ _ => 0
  end.

Definition Frame_EndOfStream (f : Frame) : bool :=
  match f with
  | DataFrame _ _ _ _ e | HeadersFrame _ _ _ _ e => e
  | UnknownFrame _ _ fl _ _ => Flags_Has fl FlagEndStream
  | _ => false
  end.

Definition HasPriority (p : Priority) : bool := negb (bool_decide (p = noPriority)).
