(* ===== verification/Settings.v ===== *)
(** * Connection settings ([src/util.go], [Settings])

    A [Settings] is a slice of identifier and value pairs, scanned linearly.  The
    theorems give the laws of [SetValue] and [Value] (set then get, independence of
    other identifiers, rejection of the values that RFC 7540 section 6.5.2 excludes) and
    the invariant that a slice built by [SetValue] holds each identifier once and only
    valid values. *)

From S2P Require Import Prelude HpackDecode Types.

Fixpoint value (s : Settings) (id : Z) : option Z :=
  match s with
  | [] => None
  | x :: s => if s_ID x =? id then Some (s_Value x) else value s id
  end.

Definition Value (s : Settings) (id : Z) : Z :=
  match value s id with
  | Some v => v
  | None =>
    if id =? SettingHeaderTableSize then defaultHeaderTableSize
    else if id =? SettingEnablePush then defaultEnablePush
    else if id =? SettingMaxConcurrentStreams then defaultMaxConcurrentStreams
    else if id =? SettingInitialWindowSize then defaultInitialWindowSize
    else if id =? SettingMaxFrameSize then defaultMaxFrameSize
    else 0
  end.

(** The validity switch of [SetValue]. *)
Definition valid_setting (id v : Z) : bool :=
  if id =? SettingEnablePush then v <? 2
  else if id =? SettingInitialWindowSize then v <=? maxInitialWindowSize
  else if id =? SettingMaxFrameSize then
    (maxFrameSizeLowerBound <=? v) && (v <=? maxFrameSizeUpperBound)
  else true.

(** Overwrite the first entry of the identifier, or append one. *)
Fixpoint put_setting (s : Settings) (id v : Z) : Settings :=
  match s with
  | [] => [MkSetting id v]
  | x :: s => if s_ID x =? id then MkSetting (s_ID x) v :: s else x :: put_setting s id v
  end.

(** [None] is the error "invalid setting specified"; the slice is then unchanged. *)
Definition SetValue (s : Settings) (id v : Z) : option Settings :=
  if valid_setting id v then Some (put_setting s id v) else None.

Definition HeaderTableSize (s : Settings) : Z := Value s SettingHeaderTableSize.
Definition SetHeaderTableSize (s : Settings) (v : Z) := SetValue s SettingHeaderTableSize v.
Definition PushEnabled (s : Settings) : bool := negb (Value s SettingEnablePush =? 0).
Definition SetPushEnabled (s : Settings) (enabled : bool) :=
  SetValue s SettingEnablePush (if enabled then 1 else 0).
Definition MaxConcurrentStreams (s : Settings) : Z := Value s SettingMaxConcurrentStreams.
Definition SetMaxConcurrentStreams (s : Settings) (v : Z) := SetValue s SettingMaxConcurrentStreams v.
Definition InitialWindowSize (s : Settings) : Z := Value s SettingInitialWindowSize.
Definition SetInitialWindowSize (s : Settings) (v : Z) := SetValue s SettingInitialWindowSize v.
Definition MaxFrameSize (s : Settings) : Z := Value s SettingMaxFrameSize.
Definition SetMaxFrameSize (s : Settings) (v : Z) := SetValue s SettingMaxFrameSize v.
Definition MaxHeaderListSize (s : Settings) : Z := Value s SettingMaxHeaderListSize.
Definition SetMaxHeaderListSize (s : Settings) (v : Z) := SetValue s SettingMaxHeaderListSize v.

(** ** Specification *)

Definition settings_wf (s : Settings) : Prop :=
  NoDup (map s_ID s) /\ Forall (fun x => valid_setting (s_ID x) (s_Value x) = true) s.

(** The smallest and the largest value of a setting in RFC 7540 section 6.5.2: ENABLE_PUSH is 0
    or 1, an initial window is at most 2^31-1, a frame size lies between 2^14 and 2^24-1, and
    the others are any 32-bit numbers. *)
Definition rfc_bounds (id : Z) : Z * Z :=
  match id with
  | 2 => (0, 1)
  | 4 => (0, 2147483647)
  | 5 => (16384, 16777215)
  | _ => (0, 4294967295)
  end.

Definition in_bounds (id v : Z) : Prop := (rfc_bounds id).1 <= v <= (rfc_bounds id).2.

(** The values are 32-bit numbers. *)
Definition uint32_values (s : Settings) : Prop := Forall (fun x => 0 <= s_Value x < 2 ^ 32) s.

(** ** Lemmas *)

Lemma value_put s id v id' :
  value (put_setting s id v) id' = if id' =? id then Some v else value s id'.
Proof.
  induction s as [|x s IH]; cbn.
  - rewrite (Z.eqb_sym id). by destruct (id' =? id).
  - destruct (Z.eqb_spec (s_ID x) id) as [He|Hne]; cbn.
    + rewrite He, (Z.eqb_sym id). by destruct (id' =? id).
    + rewrite IH. destruct (Z.eqb_spec (s_ID x) id'), (Z.eqb_spec id' id); congruence.
Qed.

Lemma put_setting_ids s id v x :
  x ∈ map s_ID (put_setting s id v) <-> x = id \/ x ∈ map s_ID s.
Proof.
  induction s as [|y s IH]; cbn.
  - rewrite !elem_of_cons. set_solver.
  - destruct (Z.eqb_spec (s_ID y) id) as [He|]; cbn; rewrite !elem_of_cons, ?IH; naive_solver.
Qed.

Lemma put_setting_wf s id v :
  settings_wf s -> valid_setting id v = true -> settings_wf (put_setting s id v).
Proof.
  intros [Hnd Hall] Hv. split.
  - clear Hall. induction s as [|x s IH]; cbn in *; [repeat constructor; set_solver|].
    apply NoDup_cons in Hnd as [Hx Hnd]. destruct (Z.eqb_spec (s_ID x) id) as [He|Hne]; cbn.
    + apply NoDup_cons. done.
    + apply NoDup_cons. split; [|by apply IH]. rewrite put_setting_ids. naive_solver.
  - clear Hnd. induction Hall as [|x s Hx Hall IH]; cbn; [by repeat constructor|].
    destruct (Z.eqb_spec (s_ID x) id) as [<-|]; by constructor.
Qed.

(** The switch of the code against the numbers of the RFC. *)
Lemma valid_setting_bounds id v : 0 <= v < 2 ^ 32 -> valid_setting id v = true <-> in_bounds id v.
Proof.
  intros Hv. unfold valid_setting, in_bounds.
  destruct (Z.eqb_spec id SettingEnablePush) as [->|H2]; [cbn; lia|].
  destruct (Z.eqb_spec id SettingInitialWindowSize) as [->|H4]; [cbn; unfold maxInitialWindowSize; lia|].
  destruct (Z.eqb_spec id SettingMaxFrameSize) as [->|H5];
    [cbn; rewrite andb_true_iff; unfold maxFrameSizeLowerBound, maxFrameSizeUpperBound; lia|].
  unfold SettingEnablePush, SettingInitialWindowSize, SettingMaxFrameSize in *.
  assert (rfc_bounds id = (0, 4294967295)) as ->; [|cbn; lia].
  unfold rfc_bounds. destruct id as [|[[[]|[]|]|[[]|[]|]|]|]; try done; by destruct H2 || destruct H4 || destruct H5.
Qed.

Lemma put_setting_values s id v : uint32_values s -> 0 <= v < 2 ^ 32 -> uint32_values (put_setting s id v).
Proof.
  intros Hs Hv. induction Hs as [|x s Hx Hs IH]; cbn; [by constructor|].
  destruct (s_ID x =? id); by constructor.
Qed.

(** What is read from a well-formed slice, the defaults included, is within the bounds. *)
Lemma Value_range s id : settings_wf s -> uint32_values s -> in_bounds id (Value s id).
Proof.
  intros [_ Hall] Hu. unfold Value. destruct (value s id) as [v|] eqn:E.
  - apply valid_setting_bounds; revert E; induction Hall as [|x s Hx Hall IH]; cbn; try done;
      apply Forall_cons in Hu as [Hux Hu]; (destruct (Z.eqb_spec (s_ID x) id) as [<-|]; [by intros [= <-]|by apply IH]).
  - apply valid_setting_bounds.
    + clear. repeat case_match; by vm_compute.
    + unfold valid_setting. clear.
      repeat match goal with |- context [id =? ?k] => destruct (Z.eqb_spec id k) as [->|]; [by vm_compute|] end. done.
Qed.

(** ** Properties *)

(** C37: settings read back what was set.  On a well-formed slice [SetValue] accepts exactly
    the values within the bounds of RFC 7540 section 6.5.2, which are given as numbers; an
    accepted value is read back, every other setting is unchanged, the slice stays well-formed,
    and every setting read from it, a default included, is within its bounds: the push flag,
    the initial window size and the frame size among them. *)
Theorem settings_laws s id v :
  settings_wf s -> uint32_values s -> 0 <= v < 2 ^ 32 ->
  match SetValue s id v with
  | Some s' =>
    in_bounds id v /\ settings_wf s' /\ uint32_values s' /\ Value s' id = v /\
    (forall id', id' <> id -> Value s' id' = Value s id') /\ (forall id', in_bounds id' (Value s' id'))
  | None => ~ in_bounds id v
  end.
Proof.
  intros Hwf Hu Hr. pose proof (valid_setting_bounds id v Hr) as Hb. unfold SetValue. destruct (valid_setting id v) eqn:Hv.
  - pose proof (put_setting_wf s id v Hwf Hv) as Hwf'. pose proof (put_setting_values s id v Hu Hr) as Hu'.
    split_and!; [by apply Hb|done|done| | |].
    + unfold Value. by rewrite value_put, Z.eqb_refl.
    + intros id' Hne. unfold Value. rewrite value_put. by destruct (Z.eqb_spec id' id).
    + intros id'. by apply Value_range.
  - intros Hi. by apply Hb in Hi.
Qed.

Lemma settings_laws_witness :
  match SetValue [MkSetting SettingEnablePush 0] SettingMaxFrameSize 20000 with
  | Some s' => MaxFrameSize s' = 20000 /\ Value s' SettingEnablePush = 0
  | None => False
  end /\ ~ in_bounds SettingMaxFrameSize 16383.
Proof.
  assert (H : settings_wf [MkSetting SettingEnablePush 0])
    by (split; repeat constructor; set_solver).
  assert (Hu : uint32_values [MkSetting SettingEnablePush 0]) by (constructor; [cbn; lia|constructor]).
  split.
  - pose proof (settings_laws _ SettingMaxFrameSize 20000 H Hu ltac:(lia)) as L. cbn in L.
    destruct L as (_ & _ & _ & Hv & Ho & _). split; [exact Hv|]. apply (Ho SettingEnablePush). discriminate.
  - exact (settings_laws _ SettingMaxFrameSize 16383 H Hu ltac:(lia)).
Defined.
