(* ===== verification/StreamState.v ===== *)
(** * Stream states and their concurrent transitions ([src/stream.go])

    [transition_state] is the pure method [StreamState.transition]; [casEffects] lists, in
    the order of the source, what [stream.compareAndSwapState] does once its
    compare-and-swap has succeeded.  The methods [stream.transition] and [stream.close]
    retry a load and a compare-and-swap until the latter succeeds; the step relation
    [sstep] interleaves any number of calls of them on one stream, one atomic access at
    a time.

    The theorems relate the pure function to the diagram of RFC 7540 section 5.1, show
    that no schedule reopens a stream or closes its channel twice, that the counter of
    active streams is exact when no call is in flight, and that a call retries at most
    four times whatever the others do. *)

From S2P Require Import Prelude HpackDecode Types.

Inductive StreamState :=
| StateIdle
| StateReservedLocal
| StateReservedRemote
| StateOpen
| StateHalfClosedLocal
| StateHalfClosedRemote
| StateClosed.

#[global] Instance StreamState_eq_decision : EqDecision StreamState.
Proof. solve_decision. Defined.

Definition active (s : StreamState) : bool :=
  match s with StateOpen | StateHalfClosedLocal | StateHalfClosedRemote => true | _ => false end.

Definition readable (s : StreamState) : bool :=
  match s with StateOpen | StateHalfClosedLocal => true | _ => false end.

Definition writable (s : StreamState) : bool :=
  match s with StateOpen | StateHalfClosedRemote => true | _ => false end.

(** ** The pure transition function *)

(** The switch of the receiving side; [None] is the early [return] with [ok] false. *)
Definition recv_switch (from : StreamState) (frameType : Z) : option StreamState :=
  match from with
  | StateIdle =>
    if frameType =? FrameHeaders then Some StateOpen
    else if frameType =? FramePriority then Some from
    else if frameType =? FramePushPromise then Some StateReservedRemote
    else None
  | StateReservedLocal | StateHalfClosedRemote =>
    if (frameType =? FramePriority) || (frameType =? FrameWindowUpdate) then Some from
    else if frameType =? FrameRSTStream then Some StateClosed
    else None
  | StateReservedRemote =>
    if frameType =? FrameHeaders then Some StateHalfClosedLocal
    else if frameType =? FramePriority then Some from
    else if frameType =? FrameRSTStream then Some StateClosed
    else None
  | StateOpen | StateHalfClosedLocal =>
    if frameType =? FrameRSTStream then Some StateClosed else Some from
  | StateClosed =>
    if frameType =? FramePriority then Some from else None
  end.

(** The switch of the sending side. *)
Definition send_switch (from : StreamState) (frameType : Z) : option StreamState :=
  match from with
  | StateIdle =>
    if frameType =? FrameHeaders then Some StateOpen
    else if frameType =? FramePriority then Some from
    else if frameType =? FramePushPromise then Some StateReservedLocal
    else None
  | StateReservedLocal =>
    if frameType =? FrameHeaders then Some StateHalfClosedRemote
    else if frameType =? FramePriority then Some from
    else if frameType =? FrameRSTStream then Some StateClosed
    else None
  | StateReservedRemote | StateHalfClosedLocal =>
    if (frameType =? FramePriority) || (frameType =? FrameWindowUpdate) then Some from
    else if frameType =? FrameRSTStream then Some StateClosed
    else None
  | StateOpen =>
    if frameType =? FrameRSTStream then Some StateClosed else Some from
  | StateHalfClosedRemote =>
    if (frameType =? FrameData) || (frameType =? FrameHeaders) || (frameType =? FramePriority)
    then Some from
    else if frameType =? FrameRSTStream then Some StateClosed
    else None
  | StateClosed =>
    if frameType =? FramePriority then Some from else None
  end.

(** The effect of END_STREAM on the state reached by the switch. *)
Definition end_stream (recv : bool) (to : StreamState) : StreamState :=
  match to with
  | StateOpen => if recv then StateHalfClosedRemote else StateHalfClosedLocal
  | StateHalfClosedLocal | StateHalfClosedRemote => StateClosed
  | _ => to
  end.

(** [StreamState.transition]: the new state, [None] when [ok] is false. *)
Definition transition_state (from : StreamState) (recv : bool) (frameType : Z) (endStream : bool)
    : option StreamState :=
  to ← (if recv then recv_switch from frameType else send_switch from frameType);
  Some (if endStream then end_stream recv to else to).

(** ** Errors of a refused transition *)

(** The tail of [stream.transition] after a refused transition: which error is returned,
    given the reset flags of the stream. *)
Definition refused (id : Z) (from : StreamState) (recv : bool) (frameType : Z)
    (resetReceived resetSent : bool) : error :=
  if negb recv then
    match from with
    | StateClosed => PlainError "stream already closed"
    | _ => PlainError "bad stream state"
    end
  else if resetReceived then StreamError ErrCodeStreamClosed id
  else if resetSent then StreamError ErrCodeStreamClosed id
  else match from with
    | StateHalfClosedRemote => ConnError ErrCodeStreamClosed
    | StateClosed =>
      if (frameType =? FrameRSTStream) || (frameType =? FrameWindowUpdate)
      then ConnError ErrCodeProtocol else ConnError ErrCodeProtocol
    | _ => ConnError ErrCodeProtocol
    end.

(** ** The effects of a successful compare-and-swap *)

Inductive effect :=
| EAddStream            (* conn.addStream(s) *)
| EIncr                 (* AddUint32(&numStreams, 1) on the side that owns the stream *)
| EDecr                 (* AddUint32(&numStreams, ^uint32(0)) on that side *)
| EInitRecvFlow         (* s.recvFlow = &flowController{...} *)
| EInitSendFlow         (* s.sendFlow = &remoteFlowController{...}; incrementInitialWindow *)
| ECancelWrite          (* s.cancel(errStreamClosed) *)
| EDrainSendFlow        (* s.sendFlow.cancel(); incrementWindow(-window()) *)
| EDrainSendFlowIfSet   (* the same, guarded by s.sendFlow != nil *)
| EReturnConsumedIfSet  (* recvFlow.returnBytes(recvFlow.consumedBytes()) if not nil *)
| ECloseCh              (* close(s.closeCh) *)
| ERemoveStream.        (* conn.removeStream(s) *)

#[global] Instance effect_eq_decision : EqDecision effect.
Proof. solve_decision. Defined.

Definition casEffects (from to : StreamState) : list effect :=
  match to with
  | StateReservedLocal | StateReservedRemote =>
    match from with StateIdle => [EAddStream] | _ => [] end
  | StateOpen | StateHalfClosedLocal | StateHalfClosedRemote =>
    match from with
    | StateIdle | StateReservedLocal | StateReservedRemote =>
      [EIncr; EInitRecvFlow]
        ++ (match to with StateHalfClosedLocal => [] | _ => [EInitSendFlow] end)
        ++ (match from with StateIdle => [EAddStream] | _ => [] end)
    | StateOpen =>
      match to with StateHalfClosedLocal => [ECancelWrite; EDrainSendFlow] | _ => [] end
    | _ => []
    end
  | StateClosed =>
    match from with
    | StateOpen | StateHalfClosedLocal | StateHalfClosedRemote => [EDecr]
    | _ => []
    end
    ++ match from with
       | StateClosed => []
       | _ => [ECloseCh; ECancelWrite; EDrainSendFlowIfSet; EReturnConsumedIfSet; ERemoveStream]
       end
  | StateIdle => []
  end.

(** ** Concurrent calls on one stream *)

Inductive call :=
| CallTransition (recv : bool) (frameType : Z) (endStream : bool)
| CallClose.

(** The state a call proposes from the value it loaded; [None] when it is refused. *)
Definition propose (c : call) (from : StreamState) : option StreamState :=
  match c with
  | CallTransition recv frameType endStream => transition_state from recv frameType endStream
  | CallClose => Some StateClosed
  end.

(** The program counter of a call: about to load, about to compare-and-swap, running the
    effects of a successful swap, or returned with the state and whether it was accepted. *)
Inductive pc :=
| PLoad
| PCas (from to : StreamState)
| PEffects (to : StreamState) (todo : list effect)
| PDone (result : option StreamState).

Record thread := MkThread { th_call : call; th_pc : pc; th_retries : nat }.

(** The shared stream: its state word and the effects performed so far. *)
Record sys := MkSys { sy_state : StreamState; sy_trace : list effect; sy_threads : list thread }.

(** One atomic action of one call. *)
Inductive tstep : StreamState -> thread -> StreamState -> list effect -> thread -> Prop :=
| ts_load st c n to :
    propose c st = Some to ->
    tstep st (MkThread c PLoad n) st [] (MkThread c (PCas st to) n)
| ts_refuse st c n :
    propose c st = None ->
    tstep st (MkThread c PLoad n) st [] (MkThread c (PDone None) n)
| ts_swap st c n to :
    tstep st (MkThread c (PCas st to) n) to [] (MkThread c (PEffects to (casEffects st to)) n)
| ts_retry st c n from to :
    st <> from ->
    tstep st (MkThread c (PCas from to) n) st [] (MkThread c PLoad (S n))
| ts_effect st c n to e l :
    tstep st (MkThread c (PEffects to (e :: l)) n) st [e] (MkThread c (PEffects to l) n)
| ts_return st c n to :
    tstep st (MkThread c (PEffects to []) n) st [] (MkThread c (PDone (Some to)) n).

Inductive sstep : sys -> sys -> Prop :=
| sstep_thread st tr l t r st' es t' :
    tstep st t st' es t' ->
    sstep (MkSys st tr (l ++ t :: r)) (MkSys st' (tr ++ es) (l ++ t' :: r)).

Definition start (st : StreamState) (calls : list call) : sys :=
  MkSys st [] (map (fun c => MkThread c PLoad 0) calls).

(** The same as functions: one action of a call, of the call at an index, and of the
    calls named by a schedule. *)
Definition texec (st : StreamState) (t : thread) : option (StreamState * list effect * thread) :=
  let (c, p, n) := t in
  match p with
  | PLoad =>
    match propose c st with
    | Some to => Some (st, [], MkThread c (PCas st to) n)
    | None => Some (st, [], MkThread c (PDone None) n)
    end
  | PCas from to =>
    if decide (st = from) then Some (to, [], MkThread c (PEffects to (casEffects st to)) n)
    else Some (st, [], MkThread c PLoad (S n))
  | PEffects to (e :: l) => Some (st, [e], MkThread c (PEffects to l) n)
  | PEffects to [] => Some (st, [], MkThread c (PDone (Some to)) n)
  | PDone _ => None
  end.

Definition exec (y : sys) (i : nat) : option sys :=
  t ← sy_threads y !! i;
  '(st, es, t') ← texec (sy_state y) t;
  Some (MkSys st (sy_trace y ++ es) (<[i := t']> (sy_threads y))).

Fixpoint exec_all (y : sys) (schedule : list nat) : option sys :=
  match schedule with
  | [] => Some y
  | i :: schedule => y' ← exec y i; exec_all y' schedule
  end.

(** Two calls race on an open stream: one receives RST_STREAM while another closes it. *)
Definition race : sys := start StateOpen [CallTransition true FrameRSTStream false; CallClose].

Definition race_schedule : list nat :=
  [0; 1; 0; 1; 1; 1; 1; 0; 0; 0; 0; 0; 0; 0]%nat.

Definition race_end : sys :=
  MkSys StateClosed (casEffects StateOpen StateClosed)
    [MkThread (CallTransition true FrameRSTStream false) (PDone (Some StateClosed)) 0;
     MkThread CallClose (PDone (Some StateClosed)) 1].

(** ** Specification *)

(** The order in which a stream's life proceeds. *)
Definition rank (s : StreamState) : nat :=
  match s with
  | StateIdle => 0
  | StateReservedLocal | StateReservedRemote => 1
  | StateOpen => 2
  | StateHalfClosedLocal | StateHalfClosedRemote => 3
  | StateClosed => 4
  end.

(** The edges of the diagram of RFC 7540 section 5.1. *)
Inductive rfc_event := EvH | EvPP | EvES | EvR.

Inductive rfc_edge : bool -> StreamState -> rfc_event -> StreamState -> Prop :=
| rfc_send_pp : rfc_edge false StateIdle EvPP StateReservedLocal
| rfc_recv_pp : rfc_edge true StateIdle EvPP StateReservedRemote
| rfc_open recv : rfc_edge recv StateIdle EvH StateOpen
| rfc_send_h : rfc_edge false StateReservedLocal EvH StateHalfClosedRemote
| rfc_recv_h : rfc_edge true StateReservedRemote EvH StateHalfClosedLocal
| rfc_recv_es : rfc_edge true StateOpen EvES StateHalfClosedRemote
| rfc_send_es : rfc_edge false StateOpen EvES StateHalfClosedLocal
| rfc_recv_es2 : rfc_edge true StateHalfClosedLocal EvES StateClosed
| rfc_send_es2 : rfc_edge false StateHalfClosedRemote EvES StateClosed
| rfc_reset recv s : s <> StateIdle -> s <> StateClosed -> rfc_edge recv s EvR StateClosed.

Inductive rfc_path : bool -> StreamState -> list rfc_event -> StreamState -> Prop :=
| rfc_nil recv s : rfc_path recv s [] s
| rfc_cons recv s e s' l s'' :
    rfc_edge recv s e s' -> rfc_path recv s' l s'' -> rfc_path recv s (e :: l) s''.

(** The letter of the diagram that a frame type has. *)
Definition frame_letter (frameType : Z) : option rfc_event :=
  if frameType =? FrameHeaders then Some EvH
  else if frameType =? FramePushPromise then Some EvPP
  else if frameType =? FrameRSTStream then Some EvR
  else None.

(** The events that a frame stands for in a state, in order: its letter, which may be missing
    only where the diagram has no edge with it, then END_STREAM. *)
Definition frame_events (recv : bool) (from : StreamState) (frameType : Z) (endStream : bool) (l : list rfc_event) : Prop :=
  exists a : list rfc_event, l = (a ++ if endStream then [EvES] else []) /\
    match frame_letter frameType with
    | Some e => a = [e] \/ a = [] /\ forall to, ~ rfc_edge recv from e to
    | None => a = []
    end.

(** The frame types RFC 7540 section 5.1 lets an endpoint send or receive in a state. *)
Definition rfc_allows (recv : bool) (s : StreamState) (frameType : Z) : bool :=
  let ty t := frameType =? t in
  match s, recv with
  | StateIdle, _ => ty FrameHeaders || ty FramePriority || ty FramePushPromise
  | StateReservedLocal, false => ty FrameHeaders || ty FrameRSTStream || ty FramePriority
  | StateReservedLocal, true => ty FrameRSTStream || ty FramePriority || ty FrameWindowUpdate
  | StateReservedRemote, true => ty FrameHeaders || ty FrameRSTStream || ty FramePriority
  | StateReservedRemote, false => ty FrameRSTStream || ty FramePriority || ty FrameWindowUpdate
  | StateOpen, _ => true
  | StateHalfClosedLocal, false => ty FrameRSTStream || ty FramePriority || ty FrameWindowUpdate
  | StateHalfClosedLocal, true => true
  | StateHalfClosedRemote, true => ty FrameRSTStream || ty FramePriority || ty FrameWindowUpdate
  | StateHalfClosedRemote, false => true
  | StateClosed, false => ty FramePriority
  | StateClosed, true => ty FramePriority || ty FrameRSTStream || ty FrameWindowUpdate
  end.

(** Where the code is stricter than the RFC: in half-closed (remote) it sends only DATA, HEADERS,
    PRIORITY and RST_STREAM, and in closed it does not ignore RST_STREAM and WINDOW_UPDATE. *)
Definition stricter (recv : bool) (s : StreamState) (frameType : Z) : bool :=
  match s, recv with
  | StateHalfClosedRemote, false => bool_decide (frameType ∉ [FrameData; FrameHeaders; FramePriority; FrameRSTStream])
  | StateClosed, true => bool_decide (frameType ∈ [FrameRSTStream; FrameWindowUpdate])
  | _, _ => false
  end.

Definition count (e : effect) (l : list effect) : Z := Z.of_nat (length (filter (e =.) l)).

(** The effects a call has still to perform. *)
Definition pending (t : thread) : list effect :=
  match th_pc t with PEffects _ todo => todo | _ => [] end.

Definition all_pending (y : sys) : list effect := sy_threads y ≫= pending.

Definition finished (t : thread) : Prop := exists r, th_pc t = PDone r.

(** A bound on the atomic actions a call has left; it decreases with each of them. *)
Definition call_measure (t : thread) : nat :=
  match th_pc t with
  | PLoad => 20 * (5 - th_retries t)
  | PCas _ _ => 20 * (5 - th_retries t) - 1
  | PEffects _ todo => S (length todo)
  | PDone _ => 0
  end.

Definition sys_measure (y : sys) : nat := list_sum (map call_measure (sy_threads y)).

(** What holds of a call while the stream, started in [st0], is in state [st]. *)
Definition thread_ok (st0 st : StreamState) (t : thread) : Prop :=
  match th_pc t with
  | PLoad => (rank st0 + th_retries t <= rank st)%nat
  | PCas from to =>
    propose (th_call t) from = Some to /\
    (rank st0 + th_retries t <= rank from <= rank st)%nat /\ (rank from = rank st -> from = st)
  | PEffects to _ => (rank to <= rank st)%nat /\ (rank st0 + th_retries t <= 4)%nat
  | PDone _ => (rank st0 + th_retries t <= 4)%nat
  end.

(** Effects done and still to do together account for the state. *)
Definition sys_ok (st0 : StreamState) (y : sys) : Prop :=
  let effects := sy_trace y ++ all_pending y in
  (rank st0 <= rank (sy_state y))%nat /\
  count EIncr effects - count EDecr effects = Z.b2z (active (sy_state y)) - Z.b2z (active st0) /\
  count ECloseCh effects
    = Z.b2z (bool_decide (sy_state y = StateClosed)) - Z.b2z (bool_decide (st0 = StateClosed)) /\
  Forall (thread_ok st0 (sy_state y)) (sy_threads y).

(** ** Lemmas on the pure function *)

Ltac ftcases :=
  repeat match goal with
  | |- context [?a =? ?b] => destruct (Z.eqb_spec a b)
  | H : context [?a =? ?b] |- _ => destruct (Z.eqb_spec a b)
  end.

Lemma recv_switch_rank from ft to :
  recv_switch from ft = Some to -> to = from \/ (rank from < rank to)%nat.
Proof. destruct from; cbn; ftcases; cbn; intros [= <-]; cbn; auto with lia. Qed.

Lemma send_switch_rank from ft to :
  send_switch from ft = Some to -> to = from \/ (rank from < rank to)%nat.
Proof. destruct from; cbn; ftcases; cbn; intros [= <-]; cbn; auto with lia. Qed.

Lemma end_stream_rank recv s : end_stream recv s = s \/ (rank s < rank (end_stream recv s))%nat.
Proof. destruct s, recv; cbn; auto with lia. Qed.

Lemma transition_state_rank from recv ft es to :
  transition_state from recv ft es = Some to -> to = from \/ (rank from < rank to)%nat.
Proof.
  unfold transition_state. intros H. apply bind_Some in H as (m & Hm & [= <-]).
  assert (m = from \/ (rank from < rank m)%nat) as Hr
    by (destruct recv; [by eapply recv_switch_rank|by eapply send_switch_rank]).
  destruct es; [|done]. destruct (end_stream_rank recv m) as [->|]; [done|].
  destruct Hr as [->|]; [by right|right; lia].
Qed.

Lemma propose_rank c from to : propose c from = Some to -> to = from \/ (rank from < rank to)%nat.
Proof.
  destruct c; cbn; [apply transition_state_rank|]. intros [= <-]. destruct from; cbn; auto with lia.
Qed.

Lemma rank_closed s : (rank s <= 4)%nat /\ ((4 <= rank s)%nat <-> s = StateClosed).
Proof. destruct s; cbn; split; try lia; split; intros; lia || done. Qed.

Lemma propose_closed c to : propose c StateClosed = Some to -> to = StateClosed.
Proof.
  intros [->|H]%propose_rank; [done|]. apply rank_closed. pose proof (rank_closed to). cbn in H. lia.
Qed.

Lemma propose_not_idle c from to : propose c from = Some to -> to = StateIdle -> from = StateIdle.
Proof. intros [<-|H]%propose_rank Ht; [done|]. subst. cbn in H. lia. Qed.

(** ** Lemmas on effects and schedules *)

Lemma count_app e l k : count e (l ++ k) = count e l + count e k.
Proof. unfold count. rewrite filter_app, length_app. lia. Qed.

Lemma count_cons e x l : count e (x :: l) = Z.b2z (bool_decide (e = x)) + count e l.
Proof.
  unfold count. rewrite filter_cons. case_decide as H; case_bool_decide as H'; cbn; naive_solver lia.
Qed.

Lemma count_nonneg e l : 0 <= count e l.
Proof. unfold count. lia. Qed.

Lemma casEffects_counts from to c :
  propose c from = Some to ->
  count EIncr (casEffects from to) - count EDecr (casEffects from to)
    = Z.b2z (active to) - Z.b2z (active from) /\
  count ECloseCh (casEffects from to)
    = Z.b2z (bool_decide (to = StateClosed)) - Z.b2z (bool_decide (from = StateClosed)).
Proof.
  intros H. pose proof (propose_rank _ _ _ H) as Hr.
  destruct from, to; try (destruct Hr as [Hr|Hr]; [discriminate Hr|cbn in Hr; lia]);
    split; vm_compute; reflexivity.
Qed.

Lemma pending_split l t r :
  (l ++ t :: r) ≫= pending = (l ≫= pending) ++ pending t ++ (r ≫= pending).
Proof. by rewrite bind_app, bind_cons. Qed.

Lemma tstep_rank st t st' es t' :
  tstep st t st' es t' ->
  match th_pc t with PCas from to => propose (th_call t) from = Some to | _ => True end ->
  (rank st <= rank st')%nat /\ (rank st = rank st' -> st = st').
Proof.
  intros H Hp. destruct H; cbn in *; try (split; [lia|done]).
  apply propose_rank in Hp as [->|]; split; auto; lia.
Qed.

(** A call stays as described when another one moves the state up. *)
Lemma thread_ok_mono st0 st st' t :
  (rank st <= rank st')%nat -> (rank st = rank st' -> st = st') ->
  thread_ok st0 st t -> thread_ok st0 st' t.
Proof.
  unfold thread_ok. intros Hle Heq. destruct (th_pc t) as [|from to|to l|r]; [lia| |lia|lia].
  intros (Hp & Hr & Hf). split_and!; [done|lia|lia|].
  intros E. assert (rank st = rank st') by lia. rewrite Hf by lia. auto.
Qed.

Lemma tstep_thread_ok st0 st t st' es t' :
  tstep st t st' es t' -> thread_ok st0 st t -> thread_ok st0 st' t'.
Proof.
  intros H Ht. assert (Hc : forall s, (rank s <= 4)%nat) by (intros s; apply rank_closed).
  destruct H as [? ? ? ? E| |? ? ? ?|? ? ? ? ? Hne| |]; unfold thread_ok in *; cbn in *;
    try specialize (Hc st); try lia.
  - split_and!; [done|lia..|done].
  - destruct Ht as (Hp & Hr & Hf). destruct (decide (rank from = rank st)); [|lia].
    exfalso. apply Hne. symmetry. auto.
Qed.

(** Effects are accounted for when they become due, and only move when performed. *)
Lemma tstep_counts st0 st t st' es t' e :
  tstep st t st' es t' -> thread_ok st0 st t ->
  count e (es ++ pending t') - count e (pending t)
    = match th_pc t with
      | PCas from to => if decide (st = from) then count e (casEffects from to) else 0
      | _ => 0
      end.
Proof.
  intros H Ht. destruct H; cbn; rewrite ?count_cons; cbn; try (unfold count; cbn; lia).
  - rewrite decide_True by done. unfold count. cbn. lia.
  - rewrite decide_False by done. unfold count. cbn. lia.
Qed.

Lemma tstep_balance st0 st t st' es t' :
  tstep st t st' es t' -> thread_ok st0 st t ->
  let due e := count e (es ++ pending t') - count e (pending t) in
  due EIncr - due EDecr = Z.b2z (active st') - Z.b2z (active st) /\
  due ECloseCh = Z.b2z (bool_decide (st' = StateClosed)) - Z.b2z (bool_decide (st = StateClosed)).
Proof.
  intros H Ht due. subst due. cbv beta. rewrite !(tstep_counts _ _ _ _ _ _ _ H Ht).
  destruct H; cbn; try (split; lia).
  - rewrite !decide_True by done. destruct Ht as (Hp & _). by eapply casEffects_counts.
  - rewrite !decide_False by done. split; lia.
Qed.

Lemma sstep_ok st0 y y' : sstep y y' -> sys_ok st0 y -> sys_ok st0 y'.
Proof.
  unfold sys_ok, all_pending. intros [st tr l t r st' es t' Ht] (Hr & Hn & Hc & Hall). cbn in *.
  apply Forall_app in Hall as [Hl [Hto Hrr]%Forall_cons].
  assert (Hmono : (rank st <= rank st')%nat /\ (rank st = rank st' -> st = st')).
  { eapply tstep_rank; [done|]. unfold thread_ok in Hto. destruct (th_pc t); [done|apply Hto|done..]. }
  destruct Hmono as [Hle Heq].
  pose proof (tstep_balance _ _ _ _ _ _ Ht Hto) as [Hb1 Hb2].
  split_and!; cbn.
  - lia.
  - rewrite pending_split in *. rewrite !count_app in *. lia.
  - rewrite pending_split in *. rewrite !count_app in *. lia.
  - apply Forall_app. split; [|constructor].
    + eapply Forall_impl; [exact Hl|]. intros. by eapply thread_ok_mono.
    + by eapply tstep_thread_ok.
    + eapply Forall_impl; [exact Hrr|]. intros. by eapply thread_ok_mono.
Qed.

Lemma start_ok st calls : sys_ok st (start st calls).
Proof.
  assert (Hp : all_pending (start st calls) = []) by (induction calls; cbn in *; done).
  unfold sys_ok. rewrite Hp. cbn. split_and!; try (unfold count; cbn; lia).
  apply Forall_map, Forall_true. intros c. unfold thread_ok. cbn. lia.
Qed.

Lemma run_ok st calls y : rtc sstep (start st calls) y -> sys_ok st y.
Proof.
  intros H. eapply rtc_preserves; [apply sstep_ok|exact H|apply start_ok].
Qed.

Lemma finished_pending y : Forall finished (sy_threads y) -> all_pending y = [].
Proof.
  unfold all_pending. induction 1 as [|t l [r Hr] _ IH]; [done|].
  rewrite bind_cons, IH. unfold pending. by rewrite Hr.
Qed.

(** ** The executable semantics *)

Lemma texec_sound st t st' es t' : texec st t = Some (st', es, t') -> tstep st t st' es t'.
Proof.
  destruct t as [c [|from to|to [|e l]|r] n]; cbn;
    try (intros [= <- <- <-]; first [apply ts_effect|apply ts_return]).
  - destruct (propose c st) eqn:E; intros [= <- <- <-]; by constructor.
  - case_decide as E; intros [= <- <- <-]; [subst|]; by constructor.
Qed.

Lemma exec_sound y i y' : exec y i = Some y' -> sstep y y'.
Proof.
  unfold exec. intros H. apply bind_Some in H as (t & Ht & H).
  apply bind_Some in H as ([[st es] t'] & Hx & [= <-]).
  destruct y as [st0 tr ths]. cbn in *.
  rewrite insert_take_drop by (by eapply lookup_lt_Some).
  rewrite <- (take_drop_middle _ _ _ Ht) at 1. constructor. by apply texec_sound.
Qed.

Lemma exec_all_sound schedule y y' :
  exec_all y schedule = Some y' -> nsteps sstep (length schedule) y y'.
Proof.
  revert y. induction schedule as [|i sch IH]; cbn; intros y H; [injection H as <-; constructor|].
  apply bind_Some in H as (z & Hz & H). econstructor; [by eapply exec_sound|auto].
Qed.

Lemma exec_all_rtc schedule y y' : exec_all y schedule = Some y' -> rtc sstep y y'.
Proof. intros H. eapply rtc_nsteps_2, exec_all_sound, H. Qed.

(** ** Enabledness *)

Lemma tstep_enabled st t : ~ finished t -> exists st' es t', tstep st t st' es t'.
Proof.
  destruct t as [c p n]. intros Hf. destruct p as [|from to|to [|e l]|r].
  - destruct (propose c st) eqn:E; eauto using tstep.
  - destruct (decide (st = from)) as [->|]; eauto using tstep.
  - eauto using tstep.
  - eauto using tstep.
  - exfalso. apply Hf. by exists r.
Qed.

Lemma enabled y : ~ Forall finished (sy_threads y) -> exists y', sstep y y'.
Proof.
  intros Hn. assert (exists t, t ∈ sy_threads y /\ ~ finished t) as (t & Hin & Ht).
  { destruct y as [st tr ths]. cbn in *. induction ths as [|t ths IH]; [by destruct Hn|].
    destruct (th_pc t) as [| | |r] eqn:E;
      try (exists t; split; [by left|]; intros [r' Hr]; congruence).
    destruct IH as (t' & ? & ?); [|exists t'; split; [by right|done]].
    intros Hall. apply Hn. constructor; [by exists r|done]. }
  destruct y as [st tr ths]. cbn in *. apply list_elem_of_split in Hin as (l & r & ->).
  destruct (tstep_enabled st t Ht) as (st' & es & t' & Hs). eexists. by constructor.
Qed.

Lemma tstep_measure st0 st t st' es t' :
  tstep st t st' es t' -> thread_ok st0 st t -> (call_measure t' < call_measure t)%nat.
Proof.
  intros H Ht. assert (Hc : forall s, (rank s <= 4)%nat) by (intros s; apply rank_closed).
  assert (He : forall a b, (length (casEffects a b) <= 7)%nat) by (intros [] []; cbn; lia).
  destruct H; unfold thread_ok, call_measure in *; cbn -[Nat.mul] in *.
  1,2: specialize (Hc st); lia.
  - specialize (Hc st). specialize (He st to). lia.
  - pose proof (Hc from). destruct (decide (rank from = rank st)) as [E|]; [by destruct H; symmetry; apply Ht|].
    specialize (Hc st). lia.
  - lia.
  - lia.
Qed.

Lemma sstep_measure st0 y y' :
  sstep y y' -> sys_ok st0 y -> (sys_measure y' < sys_measure y)%nat.
Proof.
  intros [st tr l t r st' es t' Ht] (_ & _ & _ & Hall). cbn in *.
  apply Forall_app in Hall as [_ [Hto _]%Forall_cons].
  unfold sys_measure. cbn. rewrite !map_app, !list_sum_app. cbn.
  pose proof (tstep_measure _ _ _ _ _ _ Ht Hto). lia.
Qed.

Lemma nsteps_measure st0 k y y' :
  nsteps sstep k y y' -> sys_ok st0 y -> (k + sys_measure y' <= sys_measure y)%nat.
Proof.
  induction 1 as [|k x y z Hs _ IH]; intros Hok; [lia|].
  specialize (IH (sstep_ok _ _ _ Hs Hok)). pose proof (sstep_measure _ _ _ Hs Hok). lia.
Qed.

Lemma start_measure st calls : sys_measure (start st calls) = (100 * length calls)%nat.
Proof. unfold sys_measure, start. cbn -[Nat.mul]. rewrite map_map. induction calls; cbn -[Nat.mul] in *; lia. Qed.

Lemma sstep_rank st0 y y' :
  rtc sstep y y' -> sys_ok st0 y -> (rank (sy_state y) <= rank (sy_state y'))%nat.
Proof.
  induction 1 as [|x y z Hs _ IH]; intros Hok; [lia|].
  specialize (IH (sstep_ok _ _ _ Hs Hok)). destruct Hs as [st tr l t r st' es t' Ht]. cbn in *.
  destruct Hok as (_ & _ & _ & [_ [Hto _]%Forall_cons]%Forall_app).
  destruct (tstep_rank _ _ _ _ _ Ht); [|lia].
  unfold thread_ok in Hto. destruct (th_pc t); [done|apply Hto|done..].
Qed.

(** The switch follows at most one edge of the diagram. *)
Lemma switch_path (recv : bool) from ft m :
  (if recv then recv_switch from ft else send_switch from ft) = Some m ->
  exists a : list rfc_event, frame_events recv from ft false a /\ rfc_path recv from a m.
Proof.
  assert (Hs : forall e s s', rfc_edge recv s e s' -> rfc_path recv s [e] s')
    by eauto using rfc_path.
  unfold frame_events, frame_letter.
  destruct recv, from; cbn; ftcases; cbn; intros [= <-];
    let edge e := exists [e]; split; [exists [e]; split; [done|by left]|apply Hs; by constructor] in
    first [ by subst | edge EvH | edge EvPP | edge EvR
          | exists []; split; [exists []; split; [done|right; split; [done|intros to Hto; by inversion Hto]]|constructor]
          | exists []; split; [by exists []|constructor] ].
Qed.

(** A DATA or HEADERS frame leads to a state in which END_STREAM has an edge. *)
Lemma switch_end (recv : bool) from ft m :
  ft = FrameData \/ ft = FrameHeaders ->
  (if recv then recv_switch from ft else send_switch from ft) = Some m ->
  rfc_edge recv m EvES (end_stream recv m).
Proof. intros [-> | ->]; destruct recv, from; cbn; intros [= <-]; constructor. Qed.

Lemma rfc_path_snoc recv s l s' e s'' :
  rfc_path recv s l s' -> rfc_edge recv s' e s'' -> rfc_path recv s (l ++ [e]) s''.
Proof. induction 1; cbn; eauto using rfc_path. Qed.

Lemma rfc_path_unique recv s l t t' : rfc_path recv s l t -> rfc_path recv s l t' -> t = t'.
Proof.
  intros Hp. revert t'. induction Hp as [|recv s e s1 l t He Hp IH]; intros t' Hq; inversion Hq as [|? ? ? s2 ? ? He2]; subst; [done|].
  assert (s1 = s2) as -> by (destruct He; by inversion He2). by apply IH.
Qed.

(** ** Properties *)

(** A frame type is accepted in a state exactly when RFC 7540 section 5.1 lets an endpoint
    send or receive it there and the code is not stricter. *)
Theorem transition_accepts from recv frameType endStream :
  is_Some (transition_state from recv frameType endStream) <->
  rfc_allows recv from frameType = true /\ stricter recv from frameType = false.
Proof.
  assert (Hb : forall (o : option StreamState) f, is_Some (to ← o; Some (f to : StreamState)) <-> is_Some o)
    by (intros [] ?; split; intros [? [=]]; by eexists).
  unfold transition_state. rewrite Hb. unfold stricter.
  destruct from, recv; cbn; try case_bool_decide as Hin; try rewrite !elem_of_cons, elem_of_nil in Hin; ftcases; cbn;
    split; first [ by intros [? ?] | by eauto | exfalso; naive_solver ].
Qed.



(** C14: whatever the interleaving of transitions and closes on a stream, its state only
    moves forward, a closed stream stays closed, and the stream's channel is closed at
    most once (a second close would panic) and exactly once when the stream has been
    closed and no call is in flight. *)
Theorem close_channel_once st calls y y' :
  rtc sstep (start st calls) y -> rtc sstep y y' ->
  (rank (sy_state y) <= rank (sy_state y'))%nat /\
  (sy_state y = StateClosed -> sy_state y' = StateClosed) /\
  count ECloseCh (sy_trace y') <= 1 /\
  (st <> StateClosed -> sy_state y' = StateClosed -> Forall finished (sy_threads y') ->
   count ECloseCh (sy_trace y') = 1).
Proof.
  intros H H'. pose proof (run_ok _ _ _ H) as Hok.
  assert (sys_ok st y') as (_ & _ & Hc & _) by (eapply run_ok; by etrans).
  pose proof (sstep_rank _ _ _ H' Hok) as Hr. rewrite count_app in Hc.
  pose proof (count_nonneg ECloseCh (all_pending y')). split_and!; [done| | |].
  - intros E. rewrite E in Hr. by apply rank_closed.
  - revert Hc. do 2 case_bool_decide; simpl Z.b2z; lia.
  - intros Hne E Hf. rewrite (finished_pending _ Hf) in Hc.
    rewrite bool_decide_true, bool_decide_false in Hc by done. unfold count in *. cbn in Hc. lia.
Qed.

(** C28: the counter of active streams is exact.  When no call is in flight, the increments
    and decrements performed on it add up to one if the stream went from inactive to
    active, to minus one for the opposite and to zero otherwise, so that the 32-bit
    counter holds the number of active streams again even if it wrapped in between. *)
Theorem num_streams_exact st calls y others :
  rtc sstep (start st calls) y -> Forall finished (sy_threads y) ->
  0 <= others < 2 ^ 32 - 1 ->
  u32 (others + Z.b2z (active st) + count EIncr (sy_trace y) - count EDecr (sy_trace y))
    = others + Z.b2z (active (sy_state y)).
Proof.
  intros H Hf Ho. destruct (run_ok _ _ _ H) as (_ & Hn & _ & _).
  rewrite (finished_pending _ Hf), app_nil_r in Hn.
  rewrite u32_small; [lia|]. destruct (active (sy_state y)); cbn in *; lia.
Qed.

(** C29: no call spins.  On a stream under any schedule a call retries its
    compare-and-swap at most four times, a run of [n] calls takes at most [100 n] atomic
    actions, and until every call has returned some action is possible. *)
Theorem calls_terminate st calls k y :
  nsteps sstep k (start st calls) y ->
  (k <= 100 * length calls)%nat /\
  Forall (fun t => rank st + th_retries t <= 4)%nat (sy_threads y) /\
  (~ Forall finished (sy_threads y) -> exists y', sstep y y').
Proof.
  intros H. pose proof (nsteps_measure st _ _ _ H (start_ok _ _)) as Hm.
  rewrite start_measure in Hm. split_and!; [lia| |apply enabled].
  destruct (run_ok st calls y) as (_ & _ & _ & Hall); [by eapply rtc_nsteps_2|].
  eapply Forall_impl; [exact Hall|]. intros t. unfold thread_ok.
  pose proof (proj1 (rank_closed (sy_state y))). destruct (th_pc t); lia.
Qed.

Lemma race_runs : exec_all race race_schedule = Some race_end.
Proof. vm_compute. reflexivity. Qed.

Lemma close_channel_once_witness :
  rtc sstep race race_end /\ count ECloseCh (sy_trace race_end) <= 1.
Proof.
  assert (H : rtc sstep race race_end) by (apply (exec_all_rtc race_schedule), race_runs).
  split; [exact H|]. exact (proj1 (proj2 (proj2 (close_channel_once _ _ _ _ (rtc_refl _ _) H)))).
Defined.

Lemma num_streams_exact_witness :
  rtc sstep race race_end /\
  u32 (0 + 1 + count EIncr (sy_trace race_end) - count EDecr (sy_trace race_end)) = 0 + 0.
Proof.
  assert (H : rtc sstep race race_end) by (apply (exec_all_rtc race_schedule), race_runs).
  split; [exact H|]. apply (num_streams_exact StateOpen _ race_end 0 H); [|lia].
  repeat constructor; by eexists.
Defined.

Lemma calls_terminate_witness :
  nsteps sstep 14 race race_end /\ (14 <= 100 * 2)%nat.
Proof.
  assert (H : nsteps sstep 14 race race_end) by (apply (exec_all_sound race_schedule), race_runs).
  split; [exact H|]. exact (proj1 (calls_terminate _ _ _ _ H)).
Defined.
