(* ===== verification/FlowControl.v ===== *)
(** * Flow control ([src/flow_control.go])

    The receiving side, [flowController], counts the bytes the peer may still send and
    announces more of them with WINDOW_UPDATE frames; the sending side,
    [remoteFlowController], keeps credit in an integer and in a channel of capacity one
    from which writers take it, and [allocateBytes] takes credit from a stream and from
    the connection.  Go's [int] has 64 bits; the values here stay far below that width
    and are integers.

    The receiving side is proved to refine a ledger of credit and outstanding bytes.  The
    sending side is proved to be a pool of credit, the interface [CreditPool], and any
    interleaving of allocations on several streams with the peer's updates is proved,
    against that interface, never to send more than the peer granted.  The drain of a
    stream's window when the stream is closed, [rf_drain], is not a step of that model. *)

From S2P Require Import Prelude HpackDecode Types.

(** ** The receive window *)

Record flowController := MkFC {
  fc_id : Z;
  fc_win : Z;
  fc_winLowerBound : Z;
  fc_winUpperBound : Z;
  fc_processedWin : Z;
}.

Definition newFlowController (id w : Z) : flowController := MkFC id w 0 w w.

Definition fc_initialWindow (c : flowController) : Z := u32 (fc_winUpperBound c).
Definition fc_window (c : flowController) : Z := fc_win c.
Definition fc_consumedBytes (c : flowController) : Z := fc_processedWin c - fc_win c.

(** [None] is the error "window size overflow". *)
Definition fc_updateWindow (c : flowController) (delta : Z) : option flowController :=
  if (0 <? delta) && (maxInitialWindowSize - delta <? fc_win c) then None
  else Some (MkFC (fc_id c) (fc_win c + delta) (if delta <? 0 then delta else 0)
               (fc_winUpperBound c) (fc_processedWin c + delta)).

Definition fc_updateInitialWindow (c : flowController) (delta : Z) : flowController :=
  let n := fc_winUpperBound c + delta in
  let n := if n <? defaultInitialWindowSize then defaultInitialWindowSize else n in
  let n := if maxInitialWindowSize <? n then maxInitialWindowSize else n in
  let delta := n - fc_winUpperBound c in
  MkFC (fc_id c) (fc_win c) (fc_winLowerBound c) (fc_winUpperBound c + delta) (fc_processedWin c).

(** [float32(w)] for a non-negative integer: round to 24 significant bits, ties to even. *)
Definition float32 (w : Z) : Z :=
  let e := Z.max 0 (Z.log2 w - 23) in
  let q := w / 2 ^ e in
  let r := w mod 2 ^ e in
  let up := (2 ^ e <? 2 * r) || ((2 * r =? 2 ^ e) && Z.odd q && (0 <? e)) in
  (if up then q + 1 else q) * 2 ^ e.

(** [int(float32(c.winUpperBound) * 0.5)]: halving is exact and the conversion truncates. *)
Definition threshold (c : flowController) : Z := float32 (fc_winUpperBound c) / 2.

(** The error returned, the controller after the call, and the frames added to the
    control queue. *)
Definition fc_result : Type := option error * flowController * list Frame.

Definition fc_windowUpdate (c : flowController) : fc_result :=
  if fc_winUpperBound c <=? 0 then (None, c, [])
  else if threshold c <? fc_processedWin c then (None, c, [])
  else
    let delta := fc_winUpperBound c - fc_processedWin c in
    match fc_updateWindow c delta with
    | None => (Some (ConnError ErrCodeInternal), c, [])
    | Some c' => (None, c', [WindowUpdateFrame (fc_id c) (u32 delta)])
    end.

Definition fc_incrementInitialWindow (c : flowController) (delta : Z) : option error * flowController :=
  if fc_id c =? 0 then (None, c)
  else match fc_updateWindow c delta with
       | None => (Some (PlainError "window size overflow"), c)
       | Some c' => (None, fc_updateInitialWindow c' delta)
       end.

Definition fc_incrementWindow (c : flowController) (delta : Z) : fc_result :=
  fc_windowUpdate (fc_updateInitialWindow c delta).

(** The error of the connection's controller or of a stream's. *)
Definition fc_error (c : flowController) (code : Z) : error :=
  if fc_id c =? 0 then ConnError code else StreamError code (fc_id c).

(** The part of [consumeBytes] after the connection's share. *)
Definition consume_self (c : flowController) (n : Z) : option error * flowController :=
  let c' := MkFC (fc_id c) (fc_win c - n) (fc_winLowerBound c) (fc_winUpperBound c) (fc_processedWin c) in
  (if fc_win c' <? fc_winLowerBound c' then Some (fc_error c' ErrCodeFlowControl) else None, c').

(** [consumeBytes] of the connection's controller. *)
Definition consumeBytes_conn (conn : flowController) (n : Z) : option error * flowController :=
  if n <=? 0 then (None, conn) else consume_self conn n.

(** [consumeBytes] of a stream's controller, which first consumes from the connection's. *)
Definition consumeBytes (conn s : flowController) (n : Z)
    : option error * flowController * flowController :=
  if n <=? 0 then (None, conn, s)
  else match consumeBytes_conn conn n with
       | (Some e, conn') => (Some e, conn', s)
       | (None, conn') => let '(e, s') := consume_self s n in (e, conn', s')
       end.

(** The part of [returnBytes] after the connection's share. *)
Definition return_self (c : flowController) (delta : Z) : fc_result :=
  if fc_processedWin c - delta <? fc_win c then (Some (fc_error c ErrCodeInternal), c, [])
  else fc_windowUpdate
         (MkFC (fc_id c) (fc_win c) (fc_winLowerBound c) (fc_winUpperBound c) (fc_processedWin c - delta)).

Definition returnBytes_conn (conn : flowController) (delta : Z) : fc_result := return_self conn delta.

Definition returnBytes (conn s : flowController) (delta : Z)
    : option error * flowController * flowController * list Frame :=
  match returnBytes_conn conn delta with
  | (Some e, conn', fs) => (Some e, conn', s, fs)
  | (None, conn', fs) =>
    let '(e, s', fs') := return_self s delta in (e, conn', s', fs ++ fs')
  end.

(** ** The send window *)

(** [winCh], a channel of capacity one, is the value it holds. *)
Record remoteFlowController := MkRFC { rf_id : Z; rf_win : Z; rf_winCh : option Z }.

(** The error, and the controller after the call. *)
Definition rf_updateWindow (c : remoteFlowController) (delta : Z) (reset : bool)
    : option error * remoteFlowController :=
  if (0 <? delta) && (maxInitialWindowSize - delta <? rf_win c) then
    (Some (if rf_id c =? 0 then ConnError ErrCodeFlowControl
           else StreamError ErrCodeFlowControl (rf_id c)), c)
  else
    let c := if reset then
               match rf_winCh c with
               | Some n => MkRFC (rf_id c) (rf_win c + n) None
               | None => c
               end
             else c in
    let c := MkRFC (rf_id c) (rf_win c + delta) (rf_winCh c) in
    if rf_win c <=? 0 then (None, c)
    else match rf_winCh c with
         | None => (None, MkRFC (rf_id c) 0 (Some (rf_win c)))
         | Some _ => (None, c)
         end.

Definition rf_incrementInitialWindow (c : remoteFlowController) (delta : Z) := rf_updateWindow c delta true.
Definition rf_incrementWindow (c : remoteFlowController) (delta : Z) := rf_updateWindow c delta false.
Definition rf_window (c : remoteFlowController) : Z := rf_win c.

Definition rf_cancel (c : remoteFlowController) : remoteFlowController :=
  match rf_winCh c with
  | Some n => MkRFC (rf_id c) (rf_win c + n) None
  | None => c
  end.

(** A receive from [windowCh()]; [None] when it would block. *)
Definition rf_receive (c : remoteFlowController) : option (Z * remoteFlowController) :=
  match rf_winCh c with
  | Some n => Some (n, MkRFC (rf_id c) (rf_win c) None)
  | None => None
  end.

(** [&remoteFlowController{s: s, winCh: make(chan int, 1)}; incrementInitialWindow(w)] *)
Definition newRemoteFlowController (id w : Z) : remoteFlowController :=
  (rf_incrementInitialWindow (MkRFC id 0 None) w).2.

(** [sendFlow.cancel(); sendFlow.incrementWindow(-sendFlow.window())], run on its own. *)
Definition rf_drain (c : remoteFlowController) : remoteFlowController :=
  let c := rf_cancel c in (rf_incrementWindow c (- rf_window c)).2.

(** [Conn.SendWindow] for an existing stream. *)
Definition SendWindow (c : remoteFlowController) : Z :=
  let w := rf_window c in if 0 <? w then u32 w else 0.

(** [Conn.RecvWindow] for an existing stream. *)
Definition RecvWindow (c : flowController) : Z :=
  let w := fc_window c in if 0 <? w then u32 w else 0.

(** ** Specification of the receive window: a ledger *)

(** The bytes the peer may still send, and the bytes it sent that were not returned. *)
Record ledger := MkLedger { l_credit : Z; l_outstanding : Z }.

Definition ledger_of (c : flowController) : ledger := MkLedger (fc_win c) (fc_consumedBytes c).

(** What happens to a controller: bytes arrive, bytes are returned by the reader, the
    window is enlarged by the user, the initial window size setting changes. *)
Inductive recv_op :=
| OpConsume (n : Z)
| OpReturn (n : Z)
| OpEnlarge (d : Z)
| OpSettings (d : Z).

Definition recv_step (c : flowController) (op : recv_op) : fc_result :=
  match op with
  | OpConsume n => let '(e, c') := consume_self c n in (e, c', [])
  | OpReturn n => return_self c n
  | OpEnlarge d => fc_incrementWindow c d
  | OpSettings d => let '(e, c') := fc_incrementInitialWindow c d in (e, c', [])
  end.

(** The credit that WINDOW_UPDATE frames announce to the peer. *)
Definition announced (fs : list Frame) : Z :=
  foldr (fun f a => match f with WindowUpdateFrame _ n => n + a | _ => a end) 0 fs.

Definition ledger_step (l : ledger) (op : recv_op) (ok : bool) (ann : Z) : ledger :=
  let (c, o) := l in
  match op with
  | OpConsume n => MkLedger (c - n) (o + n)
  | OpReturn n => if ok then MkLedger (c + ann) (o - n) else l
  | OpEnlarge _ => MkLedger (c + ann) o
  | OpSettings d => if ok then MkLedger (c + d) o else l
  end.

(** No more is returned than was consumed, and the bound stays representable. *)
Definition fc_inv (c : flowController) : Prop :=
  fc_win c <= fc_processedWin c /\ fc_winUpperBound c <= maxInitialWindowSize.

(** Byte counts are not negative, and the setting concerns streams only. *)
Definition recv_op_ok (c : flowController) (op : recv_op) : Prop :=
  match op with OpConsume n | OpReturn n => 0 <= n | OpEnlarge _ => True | OpSettings _ => fc_id c <> 0 end.

(** A stream's controller with the default window. *)
Definition sample_fc : flowController := newFlowController 1 defaultInitialWindowSize.

(** ** The pool interface *)

(** What [allocateBytes] relies on: a pool holds credit, an increment adds to it (or adds
    nothing, if it reports an overflow), a receive removes what it returns, and a cancel
    keeps the credit in the pool.  A pool is signalled when a receive does not block while
    there is credit: an increment by zero makes it so and the peer's updates keep it so. *)
Class CreditPool (P : Type) := {
  pool_total : P -> Z;
  pool_ok : P -> Prop;
  pool_incr : P -> Z -> P;
  pool_reset : P -> Z -> P;
  pool_cancel : P -> P;
  pool_take : P -> option (Z * P);
  pool_signalled : P -> Prop;
  pool_incr_law p d : pool_ok p -> 0 <= d ->
    pool_ok (pool_incr p d) /\ pool_total p <= pool_total (pool_incr p d) <= pool_total p + d;
  pool_reset_law p d : pool_ok p ->
    pool_ok (pool_reset p d) /\ pool_total (pool_reset p d) <= pool_total p + Z.max 0 d /\
    (d <= 0 -> pool_total (pool_reset p d) = pool_total p + d);
  pool_cancel_law p : pool_ok p ->
    pool_ok (pool_cancel p) /\ pool_total (pool_cancel p) = pool_total p;
  pool_take_law p x p' : pool_ok p -> pool_take p = Some (x, p') ->
    pool_ok p' /\ 0 < x <= pool_total p /\ pool_total p' = pool_total p - x;
  pool_signal_law p : pool_ok p -> pool_signalled (pool_incr p 0);
  pool_signal_incr p d : pool_ok p -> 0 <= d -> pool_signalled p -> pool_signalled (pool_incr p d);
  pool_signal_reset p d : pool_ok p -> pool_signalled p -> pool_signalled (pool_reset p d);
  pool_signal_take p : pool_signalled p -> 0 < pool_total p -> is_Some (pool_take p);
}.

(** ** Concurrent allocation *)

(** Where a call of [allocateBytes] stands: not running, waiting for the stream's credit,
    about to signal the connection's pool, waiting for the connection's credit, giving
    back what it does not use to the stream, and to the connection. *)
Inductive aphase :=
| AIdle
| AStream (n : Z)
| AGotStream (n sw : Z)
| AConn (n sw : Z)
| AReturnStream (m sw cw : Z)
| AReturnConn (m cw : Z).

Section Allocation.
Context {P : Type} `{CreditPool P}.

(** A stream with its writer: the pool, the phase of the writer, the bytes allocated so
    far, the credit the peer grants the stream now and the most it ever granted. *)
Record writer := MkWriter {
  w_pool : P; w_phase : aphase; w_got : Z; w_granted : Z; w_peak : Z }.

Record alloc := MkAlloc { a_conn : P; a_writers : list writer; a_granted : Z }.

(** One action of the writer of a stream, with its effect on the connection's pool. *)
Inductive wstep : P -> writer -> P -> writer -> Prop :=
| ws_begin c p got g k n :
    0 < n ->
    wstep c (MkWriter p AIdle got g k) c (MkWriter (pool_incr p 0) (AStream n) got g k)
| ws_stream c p got g k n sw p' :
    pool_take p = Some (sw, p') ->
    wstep c (MkWriter p (AStream n) got g k) c (MkWriter p' (AGotStream n sw) got g k)
| ws_signal c p got g k n sw :
    wstep c (MkWriter p (AGotStream n sw) got g k)
          (pool_incr c 0) (MkWriter p (AConn n sw) got g k)
| ws_conn c p got g k n sw cw c' :
    pool_take c = Some (cw, c') ->
    wstep c (MkWriter p (AConn n sw) got g k)
          c' (MkWriter p (AReturnStream (Z.min (Z.min n sw) cw) sw cw) got g k)
| ws_return_stream c p got g k m sw cw :
    wstep c (MkWriter p (AReturnStream m sw cw) got g k)
          c (MkWriter (if m <? sw then pool_incr p (sw - m) else p) (AReturnConn m cw) got g k)
| ws_return_conn c p got g k m cw :
    wstep c (MkWriter p (AReturnConn m cw) got g k)
          (if m <? cw then pool_incr c (cw - m) else c) (MkWriter p AIdle (got + m) g k)
| ws_closed_stream c p got g k n :
    wstep c (MkWriter p (AStream n) got g k) c (MkWriter p AIdle got g k)
| ws_closed_conn c p got g k n sw :
    wstep c (MkWriter p (AConn n sw) got g k) (pool_cancel c) (MkWriter p AIdle got g k)
| ws_conn_closed c p got g k n sw :
    wstep c (MkWriter p (AConn n sw) got g k) c (MkWriter p AIdle got g k).

(** What the peer does to a stream: WINDOW_UPDATE, or SETTINGS_INITIAL_WINDOW_SIZE with
    either sign. *)
Inductive wenv : writer -> writer -> Prop :=
| we_update p ph got g k d :
    0 < d ->
    wenv (MkWriter p ph got g k)
         (MkWriter (pool_incr p d) ph got (g + d) (Z.max k (g + d)))
| we_settings p ph got g k d :
    wenv (MkWriter p ph got g k)
         (MkWriter (pool_reset p d) ph got (g + d) (Z.max k (g + d))).

Inductive astep : alloc -> alloc -> Prop :=
| as_writer c l w r g c' w' :
    wstep c w c' w' ->
    astep (MkAlloc c (l ++ w :: r) g) (MkAlloc c' (l ++ w' :: r) g)
| as_env c l w r g w' :
    wenv w w' ->
    astep (MkAlloc c (l ++ w :: r) g) (MkAlloc c (l ++ w' :: r) g)
| as_conn_update c ws g d :
    0 < d -> astep (MkAlloc c ws g) (MkAlloc (pool_incr c d) ws (g + d)).

(** Credit a writer has taken and neither used nor given back. *)
Definition held_stream (w : writer) : Z :=
  match w_phase w with
  | AGotStream _ sw | AConn _ sw | AReturnStream _ sw _ => sw
  | AReturnConn m _ => m
  | _ => 0
  end.

Definition held_conn (w : writer) : Z :=
  match w_phase w with AReturnStream _ _ cw | AReturnConn _ cw => cw | _ => 0 end.

Definition sumz (f : writer -> Z) (l : list writer) : Z := foldr (fun w a => f w + a) 0 l.

Definition phase_ok (ph : aphase) : Prop :=
  match ph with
  | AIdle => True
  | AStream n => 0 < n
  | AGotStream n sw | AConn n sw => 0 < n /\ 0 < sw
  | AReturnStream m sw cw => 0 < m <= sw /\ m <= cw
  | AReturnConn m cw => 0 < m <= cw
  end.

Definition writer_ok (w : writer) : Prop :=
  pool_ok (w_pool w) /\ phase_ok (w_phase w) /\ 0 <= w_got w /\ w_granted w <= w_peak w /\
  pool_total (w_pool w) + held_stream w + w_got w <= w_granted w /\
  held_stream w + w_got w <= w_peak w.

Definition alloc_ok (a : alloc) : Prop :=
  pool_ok (a_conn a) /\ 0 <= pool_total (a_conn a) /\
  pool_total (a_conn a) + sumz held_conn (a_writers a) + sumz w_got (a_writers a) <= a_granted a /\
  Forall writer_ok (a_writers a).

(** A writer waiting for the credit of its stream has been signalled. *)
Definition writer_sig (w : writer) : Prop :=
  match w_phase w with AStream _ => pool_signalled (w_pool w) | _ => True end.

Definition conn_sig (c : P) (w : writer) : Prop :=
  match w_phase w with AConn _ _ => pool_signalled c | _ => True end.

(** Accounts in order, every stream signalled, and the connection too if it has one writer. *)
Definition live_ok (a : alloc) : Prop :=
  alloc_ok a /\ Forall writer_sig (a_writers a) /\
  (forall w, a_writers a = [w] -> conn_sig (a_conn a) w).

(** A connection whose peer granted it [g] bytes and each stream [gs]. *)
Definition fresh_writer (p : P) : writer := MkWriter p AIdle 0 (pool_total p) (pool_total p).

Definition fresh (c : P) (ps : list P) : alloc :=
  MkAlloc c (map fresh_writer ps) (pool_total c).
End Allocation.
Arguments writer P : clear implicits.
Arguments alloc P : clear implicits.

(** The two writers of the stall below: the first has its stream's credit and waits for
    the connection's, the second has sent ten bytes. *)
Definition stall_conn : remoteFlowController := MkRFC 0 5 None.
Definition stall_waiting : writer remoteFlowController :=
  MkWriter (MkRFC 1 0 None) (AConn 20 100) 0 100 100.
Definition stall_done : writer remoteFlowController :=
  MkWriter (MkRFC 3 0 (Some 90)) AIdle 10 100 100.
Definition stall : alloc remoteFlowController := MkAlloc stall_conn [stall_waiting; stall_done] 15.

(** ** The send window is a pool *)

Definition rf_total (c : remoteFlowController) : Z := rf_win c + default 0 (rf_winCh c).

(** A value in the channel is positive, and then the integer part is not negative. *)
Definition rf_ok (c : remoteFlowController) : Prop :=
  match rf_winCh c with Some x => 0 < x /\ 0 <= rf_win c | None => True end.

(** Credit is offered: none is left in the integer while the channel is empty. *)
Definition rf_signalled (c : remoteFlowController) : Prop := 0 < rf_win c -> is_Some (rf_winCh c).

Ltac rfcases :=
  repeat match goal with
  | c : remoteFlowController |- _ => destruct c as [? ? [?|]]
  end; cbn in *; unfold rf_ok, rf_total, rf_signalled in *; cbn in *.

Lemma rf_updateWindow_spec c delta reset e c' :
  rf_updateWindow c delta reset = (e, c') ->
  rf_ok c -> reset = true \/ 0 <= delta ->
  rf_ok c' /\
  (if (0 <? delta) && (maxInitialWindowSize - delta <? rf_win c)
   then e = Some (if rf_id c =? 0 then ConnError ErrCodeFlowControl
                  else StreamError ErrCodeFlowControl (rf_id c)) /\ c' = c
   else e = None /\ rf_total c' = rf_total c + delta /\ rf_signalled c').
Proof.
  unfold rf_updateWindow. intros H Hok Hd.
  destruct ((0 <? delta) && _); [injection H as <- <-; by split|].
  destruct c as [id win [x|]]; unfold rf_ok, rf_total, rf_signalled in *; cbn in *;
    destruct reset; cbn in *;
    match goal with H : context [?a <=? 0] |- _ => destruct (Z.leb_spec a 0) end;
    injection H as <- <-; cbn; split_and!; try done; try lia; try (intros; lia);
    try (destruct Hd; [done|lia]); intros; by eexists.
Qed.

Lemma rf_cancel_spec c :
  rf_ok (rf_cancel c) /\ rf_total (rf_cancel c) = rf_total c /\ rf_winCh (rf_cancel c) = None.
Proof. rfcases; split_and!; try done; lia. Qed.

Lemma rf_receive_spec c x c' :
  rf_ok c -> rf_receive c = Some (x, c') ->
  rf_ok c' /\ 0 < x <= rf_total c /\ rf_total c' = rf_total c - x.
Proof.
  destruct c as [id win [y|]]; cbn; [|done]. unfold rf_ok, rf_total. cbn.
  intros Hok [= -> <-]. cbn. split_and!; done || lia.
Qed.

Lemma rf_drain_total c : rf_total (rf_drain c) = 0 /\ rf_winCh (rf_drain c) = None.
Proof.
  unfold rf_drain. destruct (rf_cancel_spec c) as (_ & _ & Hch).
  destruct (rf_cancel c) as [id win ch]. cbn in Hch. subst ch.
  unfold rf_incrementWindow, rf_updateWindow, rf_window, rf_total. cbn [rf_win rf_id rf_winCh].
  assert (Hw : win + - win = 0) by lia. rewrite Hw. cbn.
  destruct ((0 <? - win) && (maxInitialWindowSize - - win <? win)) eqn:E; cbn; [|done].
  unfold maxInitialWindowSize in E. lia.
Qed.

Lemma rf_pool_incr p d : rf_ok p -> 0 <= d ->
  rf_ok (rf_incrementWindow p d).2 /\
  rf_total p <= rf_total (rf_incrementWindow p d).2 <= rf_total p + d.
Proof.
  intros Hok Hd. destruct (rf_incrementWindow p d) as [e c'] eqn:E. cbn.
  apply rf_updateWindow_spec in E as [Hok' H]; [|done|by right].
  split; [done|]. destruct (_ && _); [destruct H as [_ ->]; lia|lia].
Qed.

Lemma rf_pool_reset p d : rf_ok p ->
  rf_ok (rf_incrementInitialWindow p d).2 /\
  rf_total (rf_incrementInitialWindow p d).2 <= rf_total p + Z.max 0 d /\
  (d <= 0 -> rf_total (rf_incrementInitialWindow p d).2 = rf_total p + d).
Proof.
  intros Hok. destruct (rf_incrementInitialWindow p d) as [e c'] eqn:E. cbn.
  apply rf_updateWindow_spec in E as [Hok' H]; [|done|by left].
  split; [done|]. destruct (0 <? d) eqn:Hd; cbn [andb] in H.
  - destruct (maxInitialWindowSize - d <? rf_win p); [destruct H as [_ ->]; lia|lia].
  - lia.
Qed.

Lemma rf_signal_update p d reset :
  rf_ok p -> reset = true \/ 0 <= d -> rf_signalled p \/ d = 0 -> rf_signalled (rf_updateWindow p d reset).2.
Proof.
  intros Hok Hd Hs. destruct (rf_updateWindow p d reset) as [e c'] eqn:E. cbn.
  apply rf_updateWindow_spec in E as [_ H]; [|done..].
  destruct (0 <? d) eqn:Hp; cbn [andb] in H; [|apply H].
  destruct (maxInitialWindowSize - d <? rf_win p); [|apply H].
  destruct H as [_ ->]. destruct Hs as [ | -> ]; [done|discriminate Hp].
Qed.

Lemma rf_signal_take p : rf_signalled p -> 0 < rf_total p -> is_Some (rf_receive p).
Proof.
  destruct p as [id win [x|]]; unfold rf_signalled, rf_total, rf_receive; cbn; [by eauto|].
  intros Hs Hw. destruct Hs as [? Hx]; [lia|discriminate Hx].
Qed.

#[global] Instance remoteFlowController_pool : CreditPool remoteFlowController := {|
  pool_total := rf_total;
  pool_ok := rf_ok;
  pool_incr p d := (rf_incrementWindow p d).2;
  pool_reset p d := (rf_incrementInitialWindow p d).2;
  pool_cancel := rf_cancel;
  pool_take := rf_receive;
  pool_signalled := rf_signalled;
  pool_incr_law := rf_pool_incr;
  pool_reset_law := rf_pool_reset;
  pool_cancel_law p _ := conj (proj1 (rf_cancel_spec p)) (proj1 (proj2 (rf_cancel_spec p)));
  pool_take_law := rf_receive_spec;
  pool_signal_law p H := rf_signal_update p 0 false H (or_intror (Z.le_refl 0)) (or_intror eq_refl);
  pool_signal_incr p d H Hd Hs := rf_signal_update p d false H (or_intror Hd) (or_introl Hs);
  pool_signal_reset p d H Hs := rf_signal_update p d true H (or_introl eq_refl) (or_introl Hs);
  pool_signal_take := rf_signal_take;
|}.

(** ** Allocation against the interface *)

Section AllocationLemmas.
Context {P : Type} `{CreditPool P}.
Implicit Types (c p : P) (w : writer P) (a : alloc P).

Lemma sumz_split (f : writer P -> Z) l w r : sumz f (l ++ w :: r) = sumz f l + f w + sumz f r.
Proof. unfold sumz. induction l; cbn; lia. Qed.

Lemma sumz_nonneg (f : writer P -> Z) l : Forall (fun w => 0 <= f w) l -> 0 <= sumz f l.
Proof. unfold sumz. induction 1; cbn in *; lia. Qed.

Lemma held_nonneg w : writer_ok w -> 0 <= held_stream w /\ 0 <= held_conn w.
Proof.
  intros (_ & Hp & _). unfold held_stream, held_conn, phase_ok in *.
  destruct (w_phase w); lia.
Qed.

(** One action of a writer keeps its accounts and, with what it holds, the connection's. *)
Lemma wstep_ok c w c' w' :
  wstep c w c' w' -> pool_ok c -> 0 <= pool_total c -> writer_ok w ->
  writer_ok w' /\ pool_ok c' /\ 0 <= pool_total c' /\
  pool_total c' + held_conn w' + w_got w' <= pool_total c + held_conn w + w_got w.
Proof.
  intros Hs Hc Hc0 (Hp & Hph & Hg & Hk & Hle & Hpk).
  destruct Hs as [c p got g k n Hn|c p got g k n sw p' Ht|c p got g k n sw|c p got g k n sw cw c' Ht
    |c p got g k m sw cw|c p got g k m cw|c p got g k n|c p got g k n sw|c p got g k n sw];
    unfold writer_ok, held_stream, held_conn in *; cbn in *.
  - destruct (pool_incr_law p 0 Hp ltac:(lia)). split_and!; done || lia.
  - apply pool_take_law in Ht as (? & ? & ?); [|done]. split_and!; done || lia.
  - destruct (pool_incr_law c 0 Hc ltac:(lia)). split_and!; done || lia.
  - apply pool_take_law in Ht as (? & ? & ?); [|done]. split_and!; done || lia.
  - destruct (Z.ltb_spec m sw); [|split_and!; done || lia].
    destruct (pool_incr_law p (sw - m) Hp ltac:(lia)). split_and!; done || lia.
  - destruct (Z.ltb_spec m cw); [|split_and!; done || lia].
    destruct (pool_incr_law c (cw - m) Hc ltac:(lia)). split_and!; done || lia.
  - split_and!; done || lia.
  - destruct (pool_cancel_law c Hc) as [? He]. rewrite He. split_and!; done || lia.
  - split_and!; done || lia.
Qed.

Lemma wenv_ok w w' :
  wenv w w' -> writer_ok w ->
  writer_ok w' /\ held_conn w' = held_conn w /\ w_got w' = w_got w.
Proof.
  intros [p ph got g k d Hd|p ph got g k d] (Hp & Hph & Hg & Hk & Hle & Hpk);
    unfold writer_ok, held_stream, held_conn in *; cbn in *.
  - destruct (pool_incr_law p d Hp ltac:(lia)). split_and!; done || lia.
  - destruct (pool_reset_law p d Hp) as (? & ? & ?). split_and!; done || lia.
Qed.

Lemma astep_ok a a' : astep a a' -> alloc_ok a -> alloc_ok a'.
Proof.
  intros Hs (Hc & Hc0 & Hle & Hall).
  destruct Hs as [c l w r g c' w' Hw|c l w r g w' Hw|c ws g d Hd]; cbn [a_conn a_writers a_granted] in *.
  - apply Forall_app in Hall as [Hl [Hwo Hr]%Forall_cons]. rewrite !sumz_split in Hle.
    destruct (wstep_ok _ _ _ _ Hw Hc Hc0 Hwo) as (Hwo' & ? & ? & ?).
    split_and!; cbn [a_conn a_writers a_granted]; [done..|rewrite !sumz_split; lia|]. apply Forall_app. by auto.
  - apply Forall_app in Hall as [Hl [Hwo Hr]%Forall_cons]. rewrite !sumz_split in Hle.
    destruct (wenv_ok _ _ Hw Hwo) as (Hwo' & ? & ?).
    split_and!; cbn [a_conn a_writers a_granted]; [done..|rewrite !sumz_split; lia|]. apply Forall_app. by auto.
  - destruct (pool_incr_law c d Hc ltac:(lia)). split_and!; cbn [a_conn a_writers a_granted]; [done|lia|lia|done].
Qed.

Lemma fresh_ok c ps :
  pool_ok c -> 0 <= pool_total c -> Forall (fun p => pool_ok p /\ 0 <= pool_total p) ps ->
  alloc_ok (fresh c ps).
Proof.
  intros Hc Hc0 Hps. split_and!; cbn; [done..| |].
  - assert (sumz held_conn (map fresh_writer ps) = 0 /\ sumz w_got (map fresh_writer ps) = 0) as [E1 E2]
      by (clear; unfold sumz; induction ps; cbn in *; lia).
    unfold sumz in *. rewrite E1, E2. lia.
  - apply Forall_map. eapply Forall_impl; [exact Hps|]. intros p [Hp Hp0].
    unfold writer_ok, held_stream. cbn. split_and!; done || lia.
Qed.

Lemma wstep_sig c w c' w' :
  wstep c w c' w' -> pool_ok c -> writer_ok w ->
  (writer_sig w -> writer_sig w') /\ (conn_sig c w -> conn_sig c' w').
Proof.
  intros Hs Hc (Hp & _). destruct Hs; unfold writer_sig, conn_sig; cbn in *; split; try done;
    intros; by apply pool_signal_law.
Qed.

Lemma wenv_sig c w w' :
  wenv w w' -> writer_ok w -> (writer_sig w -> writer_sig w') /\ (conn_sig c w -> conn_sig c w').
Proof.
  intros Hs (Hp & _). destruct Hs as [p ph got g k d Hd|p ph got g k d];
    unfold writer_sig, conn_sig; cbn in *; split; try done; destruct ph; try done; intros.
  - apply pool_signal_incr; auto with lia.
  - by apply pool_signal_reset.
Qed.

Lemma astep_live a a' : astep a a' -> live_ok a -> live_ok a'.
Proof.
  intros Hs (Hok & Hsig & Hone). pose proof (astep_ok _ _ Hs Hok) as Hok'. split; [done|].
  destruct Hok as (Hc & _ & _ & Hall).
  destruct Hs as [c l w r g c' w' Hw|c l w r g w' Hw|c ws g d Hd]; cbn [a_conn a_writers] in *.
  - apply Forall_app in Hall as [_ [Hwo _]%Forall_cons]. apply Forall_app in Hsig as [Hl [Hws Hr]%Forall_cons].
    destruct (wstep_sig _ _ _ _ Hw Hc Hwo) as [H1 H2]. split; [apply Forall_app; auto|].
    intros x Hx. destruct l; [|by destruct l]. cbn in Hx. injection Hx as <- ->. by apply H2, Hone.
  - apply Forall_app in Hall as [_ [Hwo _]%Forall_cons]. apply Forall_app in Hsig as [Hl [Hws Hr]%Forall_cons].
    destruct (wenv_sig c _ _ Hw Hwo) as [H1 H2]. split; [apply Forall_app; auto|].
    intros x Hx. destruct l; [|by destruct l]. cbn in Hx. injection Hx as <- ->. by apply H2, Hone.
  - split; [done|]. intros w ->. specialize (Hone w eq_refl). unfold conn_sig in *.
    destruct (w_phase w); try done. apply pool_signal_incr; auto with lia.
Qed.

Lemma fresh_live c ps :
  pool_ok c -> 0 <= pool_total c -> Forall (fun p => pool_ok p /\ 0 <= pool_total p) ps ->
  live_ok (fresh c ps).
Proof.
  intros Hc Hc0 Hps. split; [by apply fresh_ok|]. cbn. split.
  - apply Forall_map, Forall_true. done.
  - intros w Hw. destruct ps; [done|]. by injection Hw as <- _.
Qed.

Lemma alloc_run_live c ps a :
  pool_ok c -> 0 <= pool_total c -> Forall (fun p => pool_ok p /\ 0 <= pool_total p) ps ->
  rtc astep (fresh c ps) a -> live_ok a.
Proof.
  intros Hc Hc0 Hps Hr. eapply rtc_preserves; [apply astep_live|exact Hr|by apply fresh_live].
Qed.
End AllocationLemmas.

Lemma newRemoteFlowController_ok id w :
  0 <= w <= maxInitialWindowSize ->
  rf_ok (newRemoteFlowController id w) /\ rf_total (newRemoteFlowController id w) = w.
Proof.
  intros Hw. unfold newRemoteFlowController, rf_incrementInitialWindow.
  destruct (rf_updateWindow _ w true) as [e c'] eqn:E.
  apply rf_updateWindow_spec in E as [Hok H]; [|done|by left]. cbn in *.
  destruct (Z.ltb_spec (maxInitialWindowSize - w) 0); [lia|]. rewrite andb_false_r in H.
  split; [done|]. unfold rf_total in *. cbn in H. lia.
Qed.

(** The windows of the connection and of its streams as the code creates them. *)
Lemma new_pools_ok ws :
  Forall (fun w => 0 <= w <= maxInitialWindowSize) ws ->
  Forall (fun p => rf_ok p /\ 0 <= rf_total p) (imap (fun i w => newRemoteFlowController (2 * Z.of_nat i + 1) w) ws).
Proof.
  intros H. apply Forall_lookup. intros i p Hp. rewrite list_lookup_imap in Hp.
  apply fmap_Some in Hp as (w & Hw & ->). rewrite Forall_lookup in H. specialize (H i w Hw). cbn in H.
  destruct (newRemoteFlowController_ok (2 * Z.of_nat i + 1) w H) as [? ->]. split; [done|lia].
Qed.


(** The connection and its streams with the windows the code gives them. *)
Lemma new_alloc_live w ws a :
  0 <= w <= maxInitialWindowSize -> Forall (fun w => 0 <= w <= maxInitialWindowSize) ws ->
  rtc astep (fresh (newRemoteFlowController 0 w)
               (imap (fun i w => newRemoteFlowController (2 * Z.of_nat i + 1) w) ws)) a ->
  live_ok a.
Proof.
  intros Hw Hws Hr. destruct (newRemoteFlowController_ok 0 w Hw) as [Hok Ht].
  refine (alloc_run_live _ _ _ _ _ _ Hr); [exact Hok|cbn; lia|exact (new_pools_ok _ Hws)].
Qed.

(** ** The receive window *)

Lemma float32_bounds w : 0 < w -> 0 < float32 w < 2 * w.
Proof.
  intros Hw. unfold float32. pose proof (Z.log2_spec w Hw) as [Hl1 _].
  set (e := Z.max 0 (Z.log2 w - 23)). assert (He : 0 <= e) by lia.
  assert (Hel : e <> 0 -> Z.log2 w = 23 + e) by lia. clearbody e.
  assert (Hpe : 0 < 2 ^ e) by (apply Z.pow_pos_nonneg; lia).
  pose proof (Z.div_mod w (2 ^ e) ltac:(lia)) as Hdm.
  pose proof (Z.mod_pos_bound w (2 ^ e) Hpe) as Hm.
  destruct (Z.eq_dec e 0) as [E|E].
  - subst e. rewrite Z.pow_0_r, Z.mod_1_r, Z.div_1_r. change (2 * 0) with 0. change ((1 <? 0) || _) with false. cbv iota. lia.
  - assert (Hq : 2 ^ 23 * 2 ^ e <= w).
    { rewrite <- Z.pow_add_r by lia. by rewrite <- (Hel E). }
    assert (2 ^ 23 <= w / 2 ^ e) by (apply Z.div_le_lower_bound; lia).
    destruct (_ || _); nia.
Qed.

Lemma threshold_lt c : 0 < fc_winUpperBound c -> 0 <= threshold c < fc_winUpperBound c.
Proof.
  intros Hc. unfold threshold. pose proof (float32_bounds _ Hc).
  split; [apply Z.div_pos; lia|apply Z.div_lt_upper_bound; lia].
Qed.

(** [windowUpdate] on a controller whose accounts are in order. *)
Lemma fc_windowUpdate_spec c e c' fs :
  fc_windowUpdate c = (e, c', fs) ->
  fc_win c <= fc_processedWin c -> fc_winUpperBound c <= maxInitialWindowSize ->
  e = None /\ fc_id c' = fc_id c /\ fc_winUpperBound c' = fc_winUpperBound c /\
  fc_consumedBytes c' = fc_consumedBytes c /\
  (0 < fc_winUpperBound c -> threshold c' < fc_processedWin c') /\
  (fs = [] /\ c' = c \/
   exists d, 0 < d /\ fs = [WindowUpdateFrame (fc_id c) (u32 d)] /\ fc_win c' = fc_win c + d /\
     fc_processedWin c' = fc_winUpperBound c).
Proof.
  unfold fc_windowUpdate. intros H Hw Hu.
  destruct (Z.leb_spec (fc_winUpperBound c) 0) as [Hz|Hz].
  { injection H as <- <- <-. split_and!; try done; [lia|by left]. }
  destruct (Z.ltb_spec (threshold c) (fc_processedWin c)) as [Ht|Ht].
  { injection H as <- <- <-. split_and!; try done. by left. }
  pose proof (threshold_lt c Hz) as Hth. unfold fc_updateWindow in H.
  set (d := fc_winUpperBound c - fc_processedWin c) in *.
  destruct (Z.ltb_spec 0 d); [|lia]. destruct (Z.ltb_spec (maxInitialWindowSize - d) (fc_win c)); [lia|].
  injection H as <- <- <-. unfold fc_consumedBytes, threshold in *. cbn in *.
  split_and!; try done; try lia. right. exists d. split_and!; done || lia.
Qed.

Lemma fc_updateInitialWindow_spec c d :
  let c' := fc_updateInitialWindow c d in
  fc_id c' = fc_id c /\ fc_win c' = fc_win c /\ fc_processedWin c' = fc_processedWin c /\
  fc_winUpperBound c' = Z.min maxInitialWindowSize (Z.max defaultInitialWindowSize (fc_winUpperBound c + d)).
Proof.
  unfold fc_updateInitialWindow, maxInitialWindowSize, defaultInitialWindowSize. cbn.
  split_and!; try done. zcases; lia.
Qed.

(** [windowUpdate] announces what it adds, when the credit is not absurdly negative. *)
Lemma windowUpdate_announced c e c' fs :
  fc_windowUpdate c = (e, c', fs) -> fc_inv c -> - 2 ^ 31 <= fc_win c ->
  e = None /\ fc_inv c' /\ fc_id c' = fc_id c /\ fc_consumedBytes c' = fc_consumedBytes c /\
  fc_win c' = fc_win c + announced fs /\ 0 <= announced fs /\
  (fc_win c' <= Z.max (fc_win c) maxInitialWindowSize) /\
  (0 < fc_winUpperBound c' -> threshold c' < fc_win c' + fc_consumedBytes c') /\
  (0 <= fc_win c -> Forall (fun f => exists d, f = WindowUpdateFrame (fc_id c) d /\
                                         1 <= d <= maxInitialWindowSize) fs).
Proof.
  intros H [Hw Hu] Hlow.
  destruct (fc_windowUpdate_spec _ _ _ _ H Hw Hu) as (-> & Hid & Hub & Hcb & Hth & Hcase).
  assert (Hwc : fc_win c' + fc_consumedBytes c' = fc_processedWin c') by (unfold fc_consumedBytes; lia).
  rewrite Hwc, Hub. unfold fc_inv, fc_consumedBytes in *.
  destruct Hcase as [[-> ->]|(d & Hd & -> & Hwin & Hpw)].
  - cbn. split_and!; try done; try lia.
  - assert (d < 2 ^ 32) by (unfold maxInitialWindowSize in *; lia).
    cbn. rewrite u32_small by lia. split_and!; try done; try lia.
    intros ?. constructor; [|constructor]. exists d. split; [done|]. lia.
Qed.

(** Returning bytes moves the ledger. *)
Lemma return_self_ledger c n e c' fs :
  fc_inv c -> 0 <= n -> - 2 ^ 31 <= fc_win c -> return_self c n = (e, c', fs) ->
  fc_inv c' /\
  ledger_of c' = ledger_step (ledger_of c) (OpReturn n) (bool_decide (e = None)) (announced fs) /\
  (e = None <-> n <= fc_consumedBytes c).
Proof.
  intros [Hw Hu] Hn Hlow H. unfold return_self in H.
  destruct (Z.ltb_spec (fc_processedWin c - n) (fc_win c)) as [Hlt|Hge].
  - injection H as <- <- <-. unfold fc_consumedBytes in *. split_and!; [done|done|]. split; [done|lia].
  - apply windowUpdate_announced in H as (-> & Hi & _ & Hc & Hwin & _); [|done..].
    unfold ledger_of, fc_consumedBytes, ledger_step in *. cbn in *.
    split_and!; [done|f_equal; lia|]. split; [lia|done].
Qed.

(** A frame that fits the window is consumed and returned without loss. *)
Lemma consume_return_self c n :
  fc_inv c -> fc_winLowerBound c = 0 -> 0 < fc_winUpperBound c -> fc_consumedBytes c = 0 ->
  0 < n <= fc_win c ->
  exists c1 c2 fs,
    consume_self c n = (None, c1) /\ return_self c1 n = (None, c2, fs) /\
    fc_consumedBytes c2 = 0 /\ threshold c2 < fc_win c2 /\
    Forall (fun f => exists id d, f = WindowUpdateFrame id d /\ 1 <= d <= maxInitialWindowSize) fs.
Proof.
  intros [Hw Hu] Hl Hub Hc Hn. unfold consume_self, fc_consumedBytes in *. cbn -[Z.sub].
  destruct (Z.ltb_spec (fc_win c - n) (fc_winLowerBound c)); [lia|]. eexists.
  destruct (return_self _ n) as [[e c2] fs] eqn:E. exists c2, fs. split; [done|].
  unfold return_self in E. cbn -[Z.sub] in E.
  destruct (Z.ltb_spec (fc_processedWin c - n) (fc_win c - n)); [lia|].
  pose proof E as E'. apply windowUpdate_announced in E as (-> & [? ?] & _ & Hc2 & Hwin & _ & _ & Hth & Hfs);
    [|split; cbn; lia|cbn; lia].
  apply fc_windowUpdate_spec in E' as (_ & _ & Hub2 & _); cbn in *; [|lia..].
  unfold fc_consumedBytes in *. cbn in *. split_and!; [done|lia|lia|].
  eapply Forall_impl; [apply Hfs; lia|]. intros f (d & -> & ?). eauto.
Qed.

(** ** Properties *)

(** C23: the receive window refines the ledger.  For any operation on a controller whose
    accounts are in order, the accounts stay in order, an error is reported exactly when
    the ledger refuses (a consumption below the lower bound, a return of more than is
    outstanding, an overflow by the setting), and credit and outstanding bytes change as
    the ledger says, the credit by exactly what the frames put on the control queue
    announce to the peer. *)
Theorem recv_window_refines_ledger c op e c' fs :
  fc_inv c -> recv_op_ok c op -> - 2 ^ 31 <= fc_win c ->
  recv_step c op = (e, c', fs) ->
  fc_inv c' /\
  ledger_of c' = ledger_step (ledger_of c) op (bool_decide (e = None)) (announced fs) /\
  (e = None <->
   match op with
   | OpConsume n => fc_winLowerBound c <= fc_win c - n
   | OpReturn n => n <= fc_consumedBytes c
   | OpEnlarge _ => True
   | OpSettings d => ~ (0 < d /\ maxInitialWindowSize < fc_win c + d)
   end).
Proof.
  intros Hinv Hop Hlow H. destruct op as [n|n|d|d]; cbn in H, Hop |- *.
  - unfold consume_self in H. cbn in H. injection H as <- <- <-.
    unfold fc_inv, ledger_of, fc_consumedBytes, ledger_step in *. cbn.
    split_and!; [lia|lia|f_equal; lia|]. destruct (Z.ltb_spec (fc_win c - n) (fc_winLowerBound c)); split; done || lia.
  - eapply return_self_ledger; eauto.
  - destruct (fc_updateInitialWindow_spec c d) as (Hid & Hw & Hp & Hu).
    apply windowUpdate_announced in H as (-> & Hi & _ & Hc & Hwin & _).
    + split_and!; [done| |done]. unfold ledger_of, fc_consumedBytes, ledger_step in *. f_equal; lia.
    + unfold fc_inv in *. lia.
    + lia.
  - unfold fc_incrementInitialWindow, fc_updateWindow in H. destruct (Z.eqb_spec (fc_id c) 0); [done|].
    destruct ((0 <? d) && (maxInitialWindowSize - d <? fc_win c)) eqn:E; injection H as <- <- <-.
    + split_and!; [done|done|]. split; [done|lia].
    + match goal with |- context [fc_updateInitialWindow ?x d] =>
        destruct (fc_updateInitialWindow_spec x d) as (Hid & Hw & Hp & Hu) end.
      unfold fc_inv, ledger_of, fc_consumedBytes, ledger_step in *. cbn in *.
      split_and!; [lia|lia|f_equal; lia|]. split; [lia|done].
Qed.

Lemma recv_window_refines_ledger_witness :
  exists c e c' fs,
    c = (consume_self sample_fc 40000).2 /\ recv_step c (OpReturn 40000) = (e, c', fs) /\
    announced fs = 40000 /\
    ledger_of c' = ledger_step (ledger_of c) (OpReturn 40000) (bool_decide (e = None)) (announced fs).
Proof.
  eexists _, _, _, _. split; [reflexivity|]. split; [reflexivity|]. split; [reflexivity|].
  eapply (recv_window_refines_ledger (consume_self sample_fc 40000).2 (OpReturn 40000));
    [..|reflexivity]; vm_compute; intuition discriminate.
Defined.

(** Reading keeps the peer sending.  On a connection and a stream with open windows
    and nothing outstanding, a DATA frame that fits both windows is consumed without an
    error, returning its bytes succeeds, nothing is outstanding afterwards, both windows
    are again above half of their bound, and every WINDOW_UPDATE sent carries an increment
    between one and 2^31-1. *)
Theorem data_cycle_no_stall conn s n :
  fc_inv conn -> fc_inv s -> fc_id conn = 0 -> fc_id s <> 0 ->
  0 < fc_winUpperBound conn -> 0 < fc_winUpperBound s ->
  fc_winLowerBound conn = 0 -> fc_winLowerBound s = 0 ->
  fc_consumedBytes conn = 0 -> fc_consumedBytes s = 0 ->
  0 < n -> n <= fc_win conn -> n <= fc_win s ->
  exists conn1 s1 conn2 s2 fs,
    consumeBytes conn s n = (None, conn1, s1) /\
    returnBytes conn1 s1 n = (None, conn2, s2, fs) /\
    fc_consumedBytes conn2 = 0 /\ fc_consumedBytes s2 = 0 /\
    threshold conn2 < fc_win conn2 /\ threshold s2 < fc_win s2 /\
    Forall (fun f => exists id d, f = WindowUpdateFrame id d /\ 1 <= d <= maxInitialWindowSize) fs.
Proof.
  intros Hc Hs Hidc Hids Huc Hus Hlc Hls Hoc Hos Hn Hnc Hns.
  unfold consumeBytes, consumeBytes_conn. destruct (Z.leb_spec n 0); [lia|].
  destruct (consume_return_self conn n) as (conn1 & conn2 & fc & -> & Hrc & ? & ? & ?); [done|lia..|].
  destruct (consume_return_self s n) as (s1 & s2 & fs & -> & Hrs & ? & ? & ?); [done|lia..|].
  exists conn1, s1, conn2, s2, (fc ++ fs). unfold returnBytes, returnBytes_conn. rewrite Hrc, Hrs.
  split_and!; try done. by apply Forall_app.
Qed.

Lemma data_cycle_no_stall_witness :
  exists conn1 s1 conn2 s2 fs,
    consumeBytes (newFlowController 0 65535) sample_fc 50000 = (None, conn1, s1) /\
    returnBytes conn1 s1 50000 = (None, conn2, s2, fs) /\
    fc_consumedBytes conn2 = 0 /\ fc_consumedBytes s2 = 0 /\
    threshold conn2 < fc_win conn2 /\ threshold s2 < fc_win s2 /\
    Forall (fun f => exists id d, f = WindowUpdateFrame id d /\ 1 <= d <= maxInitialWindowSize) fs.
Proof.
  apply data_cycle_no_stall; vm_compute; intuition discriminate.
Defined.

(** The send window conserves credit.  An update by [delta] either reports the overflow
    it detects, with the error of a connection or of a stream, and changes nothing, or adds
    exactly [delta] to the credit in integer and channel together and leaves credit
    offered in the channel whenever the integer part is positive. *)
Theorem send_window_conserves c delta reset :
  rf_ok c -> reset = true \/ 0 <= delta ->
  rf_ok (rf_updateWindow c delta reset).2 /\
  match rf_updateWindow c delta reset with
  | (None, c') =>
    (delta <= 0 \/ rf_win c + delta <= maxInitialWindowSize) /\
    rf_total c' = rf_total c + delta /\ rf_signalled c'
  | (Some e, c') =>
    0 < delta /\ maxInitialWindowSize < rf_win c + delta /\ c' = c /\
    e = (if rf_id c =? 0 then ConnError ErrCodeFlowControl
         else StreamError ErrCodeFlowControl (rf_id c))
  end.
Proof.
  intros Hok Hd. destruct (rf_updateWindow c delta reset) as [e c'] eqn:E.
  apply rf_updateWindow_spec in E as [Hok' H]; [|done..]. split; [done|].
  destruct ((0 <? delta) && (maxInitialWindowSize - delta <? rf_win c)) eqn:Eb.
  - destruct H as [-> ->]. split_and!; try done; lia.
  - destruct H as (-> & Ht & Hs). split_and!; try done. lia.
Qed.

Lemma send_window_conserves_witness :
  rf_total (rf_updateWindow (newRemoteFlowController 1 65535) (-70000) true).2 = -4465.
Proof.
  assert (H : rf_ok (newRemoteFlowController 1 65535)) by (vm_compute; intuition discriminate).
  pose proof (send_window_conserves _ (-70000) true H (or_introl eq_refl)) as [_ H']. apply H'.
Defined.

(** C6: flow control is never violated.  Start a connection and its streams with the
    windows the code gives them and let any number of writers allocate, in any
    interleaving with each other, with stream and connection closes, and with the peer's
    WINDOW_UPDATE and SETTINGS frames: the bytes allocated on all streams never exceed
    what the peer granted the connection, those of a stream never exceed the most the
    peer granted it, and a writer never goes on with nothing allocated. *)
Theorem allocation_within_grant w ws a :
  0 <= w <= maxInitialWindowSize -> Forall (fun w => 0 <= w <= maxInitialWindowSize) ws ->
  rtc astep (fresh (newRemoteFlowController 0 w)
               (imap (fun i w => newRemoteFlowController (2 * Z.of_nat i + 1) w) ws)) a ->
  sumz w_got (a_writers a) <= a_granted a /\
  Forall (fun x => w_got x <= w_peak x /\
    match w_phase x with AReturnStream m _ _ | AReturnConn m _ => 0 < m | _ => True end) (a_writers a).
Proof.
  intros Hw Hws Hr. destruct (new_alloc_live w ws a Hw Hws Hr) as [(_ & Hc & Hle & Hall) _].
  assert (Hh : 0 <= sumz held_conn (a_writers a)).
  { apply sumz_nonneg. eapply Forall_impl; [exact Hall|]. intros x Hx. by apply held_nonneg. }
  split; [lia|]. eapply Forall_impl; [exact Hall|]. intros x Hx.
  pose proof (held_nonneg _ Hx). destruct Hx as (_ & Hp & _ & _ & _ & Hk). split; [lia|].
  unfold phase_ok in Hp. destruct (w_phase x); try done; lia.
Qed.

(** C39: a writer waiting for its stream's credit is never left waiting while the stream has
    credit, whatever the schedule, and on a connection with a single writer the same
    holds of the connection's credit. *)
Theorem stream_credit_no_stall w ws a :
  0 <= w <= maxInitialWindowSize -> Forall (fun w => 0 <= w <= maxInitialWindowSize) ws ->
  rtc astep (fresh (newRemoteFlowController 0 w)
               (imap (fun i w => newRemoteFlowController (2 * Z.of_nat i + 1) w) ws)) a ->
  Forall (fun x => match w_phase x with
                   | AStream _ => 0 < rf_total (w_pool x) -> is_Some (rf_receive (w_pool x))
                   | AConn _ _ => a_writers a = [x] -> 0 < rf_total (a_conn a) ->
                                  is_Some (rf_receive (a_conn a))
                   | _ => True
                   end) (a_writers a).
Proof.
  intros Hw Hws Hr. destruct (new_alloc_live w ws a Hw Hws Hr) as (_ & Hsig & Hone).
  eapply Forall_impl; [exact Hsig|]. intros x Hx. specialize (Hone x).
  unfold writer_sig, conn_sig in *. cbn in *.
  destruct (w_phase x); try done; intros; apply rf_signal_take; auto.
Qed.

Lemma stall_reachable :
  rtc astep (fresh (newRemoteFlowController 0 10)
               [newRemoteFlowController 1 100; newRemoteFlowController 3 100]) stall.
Proof.
  eapply rtc_l; [apply (as_conn_update _ _ _ 5); lia|].
  eapply rtc_l; [apply (as_writer _ [] _ _), (ws_begin _ _ _ _ _ 20); lia|].
  eapply rtc_l; [apply (as_writer _ [] _ _), ws_stream; reflexivity|].
  eapply rtc_l; [apply (as_writer _ [] _ _), ws_signal|].
  eapply rtc_l; [apply (as_writer _ [_] _ _), (ws_begin _ _ _ _ _ 10); lia|].
  eapply rtc_l; [apply (as_writer _ [_] _ _), ws_stream; reflexivity|].
  eapply rtc_l; [apply (as_writer _ [_] _ _), ws_signal|].
  eapply rtc_l; [apply (as_writer _ [_] _ _), ws_conn; reflexivity|].
  eapply rtc_l; [apply (as_writer _ [_] _ _), ws_return_stream|].
  eapply rtc_l; [apply (as_writer _ [_] _ _), ws_return_conn|].
  apply rtc_refl.
Qed.

(** With two writers the connection's credit can be stranded.  A schedule without any
    close or error leads to a state where the connection has five bytes of credit, yet the
    channel is empty, the other writer is done, and the only way on for the writer that
    waits is that the stream or the connection is closed: what [allocateBytes] leaves in
    the integer part is not offered again after another writer emptied the channel. *)
Theorem conn_credit_stall :
  rtc astep (fresh (newRemoteFlowController 0 10)
               [newRemoteFlowController 1 100; newRemoteFlowController 3 100]) stall /\
  rf_total (a_conn stall) = 5 /\ w_phase stall_done = AIdle /\
  forall c' w', wstep (a_conn stall) stall_waiting c' w' -> w_phase w' = AIdle /\ w_got w' = 0.
Proof.
  split; [exact stall_reachable|]. split; [reflexivity|]. split; [reflexivity|].
  intros c' w' H. inversion H; subst; try done.
Qed.

Lemma allocation_within_grant_witness :
  sumz w_got (a_writers stall) <= a_granted stall.
Proof.
  refine (proj1 (allocation_within_grant 10 [100; 100] stall _ _ stall_reachable));
    repeat constructor; vm_compute; congruence.
Defined.

(** A writer that waited on an empty window of its stream, after a WINDOW_UPDATE of seven
    bytes; and one that has its stream's credit and waited on the connection's, after a
    WINDOW_UPDATE of nine. *)
Definition awaits_stream : writer remoteFlowController := MkWriter (MkRFC 1 0 (Some 7)) (AStream 5) 0 7 7.
Definition awaits_conn : writer remoteFlowController := MkWriter (MkRFC 1 0 None) (AConn 5 100) 0 100 100.

Lemma awaits_stream_reachable :
  rtc astep (fresh (newRemoteFlowController 0 10) [newRemoteFlowController 1 0]) (MkAlloc (newRemoteFlowController 0 10) [awaits_stream] 10).
Proof.
  eapply rtc_l; [apply (as_writer _ [] _ []), (ws_begin _ _ _ _ _ 5); lia|].
  eapply rtc_l; [apply (as_env _ [] _ []), (we_update _ _ _ _ _ 7); lia|]. apply rtc_refl.
Qed.

Lemma awaits_conn_reachable :
  rtc astep (fresh (newRemoteFlowController 0 0) [newRemoteFlowController 1 100]) (MkAlloc (MkRFC 0 0 (Some 9)) [awaits_conn] 9).
Proof.
  eapply rtc_l; [apply (as_writer _ [] _ []), (ws_begin _ _ _ _ _ 5); lia|].
  eapply rtc_l; [apply (as_writer _ [] _ []), ws_stream; reflexivity|].
  eapply rtc_l; [apply (as_writer _ [] _ []), ws_signal|].
  eapply rtc_l; [apply (as_conn_update _ _ _ 9); lia|]. apply rtc_refl.
Qed.

Lemma stream_credit_no_stall_witness :
  is_Some (rf_receive (w_pool awaits_stream)) /\ is_Some (rf_receive (MkRFC 0 0 (Some 9))).
Proof.
  split.
  - pose proof (stream_credit_no_stall 10 [0] _ ltac:(vm_compute; intuition congruence)
      ltac:(repeat constructor; vm_compute; congruence) awaits_stream_reachable) as Hf.
    apply Forall_cons in Hf as [Hx _]. apply Hx. vm_compute. reflexivity.
  - pose proof (stream_credit_no_stall 0 [100] _ ltac:(vm_compute; intuition congruence)
      ltac:(repeat constructor; vm_compute; congruence) awaits_conn_reachable) as Hf.
    apply Forall_cons in Hf as [Hx _]. apply Hx; [reflexivity|vm_compute; reflexivity].
Defined.

(** The overflow check overlooks the channel.  Two updates of 2^31-1 bytes each to a
    stream's empty window are both accepted, so the credit exceeds the largest window of
    RFC 7540 section 6.9.1 without the FLOW_CONTROL_ERROR it calls for. *)
Theorem send_window_overflow_undetected id :
  exists c1 c2,
    rf_incrementWindow (MkRFC id 0 None) maxInitialWindowSize = (None, c1) /\
    rf_incrementWindow c1 maxInitialWindowSize = (None, c2) /\
    maxInitialWindowSize < rf_total c2.
Proof. eexists _, _. split; [reflexivity|]. split; [reflexivity|]. vm_compute. reflexivity. Qed.

(** [SendWindow] does not report the credit that waits in the channel: on a new
    connection, which may send 65535 bytes, it reports zero. *)
Theorem SendWindow_misses_channel :
  SendWindow (newRemoteFlowController 0 defaultInitialWindowSize) = 0 /\
  exists c', rf_receive (newRemoteFlowController 0 defaultInitialWindowSize) = Some (65535, c').
Proof. split; [reflexivity|]. eexists. reflexivity. Qed.
