(* ===== verification/StreamWrite.v ===== *)
(** * Writing to a stream ([src/stream.go], [write] and [writeTo]; [src/flow_control.go],
    [allocateBytes])

    [stream.write] sends a HEADERS frame as it is and a DATA frame in chunks, each as large
    as the flow-control credit obtained for it.  What it needs of the flow control is the
    interface [Allocator]; [allocateBytes] is one call on the controllers of a stream and of
    its connection, with what happens while it waits as an argument.  It
    implements the interface, and it is a run of the step relation of FlowControl.

    What happens to a frame in the queue is the argument [send]: the write loop calls
    [writeTo] and answers with its error, or the stream is cancelled first. *)

From S2P Require Import Prelude HpackDecode Types FlowControl.

(** ** The interface to flow control *)

(** A call returns an error or between one and [n] bytes of credit, and none is asked for
    when [n] is not positive; [alloc_taken] counts what it returned. *)
Class Allocator (A : Type) := {
  alloc_bytes : A -> Z -> (error + Z) * A;
  alloc_valid : A -> Prop;
  alloc_taken : A -> Z;
  alloc_law a n r a' : alloc_valid a -> alloc_bytes a n = (r, a') ->
    alloc_valid a' /\
    match r with
    | inl _ => alloc_taken a' = alloc_taken a
    | inr m => (n <= 0 -> m = 0) /\ (0 < n -> 0 < m <= n) /\ alloc_taken a' = alloc_taken a + m
    end;
}.

(** ** [stream.write] *)

(** What becomes of a frame in the queue: [writeTo] ran and sent its error on [werr], or
    [cancel] sent one before. *)
Inductive reply := Written (err : option error) | Cancelled (err : error).

(** Which case the first [select] takes: the write token, or a closed channel. *)
Inductive selected := GotToken | ConnClosed | StreamClosed.

Section Write.
Context {A : Type} `{Allocator A} {T : Type}.
Variable send : T -> Frame -> reply * T.

(** The fields of the stream that writing uses, its flow control, the queue below it, and
    the frames handed to the queue so far. *)
Record wstate := MkWS {
  ws_sawEOS : bool;
  ws_lastWritten : Z;
  ws_alloc : A;
  ws_below : T;
  ws_sent : list Frame;
}.

Definition ws_set_alloc (a : A) (s : wstate) : wstate :=
  MkWS (ws_sawEOS s) (ws_lastWritten s) a (ws_below s) (ws_sent s).

(** [s.Frame = frame; s.conn.writeQueue.add(s, false); <-s.werr], with the assignments of
    [stream.writeTo]. *)
Definition enqueue (frame : Frame) (s : wstate) : option error * wstate :=
  let (r, t) := send (ws_below s) frame in
  match r with
  | Written err =>
    (err, MkWS (Frame_EndOfStream frame) (Frame_Type frame) (ws_alloc s) t (ws_sent s ++ [frame]))
  | Cancelled err =>
    (Some err, MkWS (ws_sawEOS s) (ws_lastWritten s) (ws_alloc s) t (ws_sent s ++ [frame]))
  end.

(** From the label [again].  The chunks share the reader of the frame: writing one leaves
    the rest of the data to the next.  [None] is an exhausted fuel. *)
Fixpoint write_chunks (fuel : nat) (id : Z) (data : option (list byte)) (endStream : bool)
    (dataLen padLen allowed : Z) (s : wstate) : option (option error * wstate) :=
  match fuel with
  | O => None
  | S fuel =>
    let chunkLen := if allowed <? dataLen then allowed else dataLen in
    let padding := allowed - chunkLen in
    let padding := if padLen <? padding then padLen else padding in
    let dataLen := dataLen - chunkLen in
    let padLen := padLen - padding in
    let lastFrame := dataLen + padLen =? 0 in
    match enqueue (DataFrame id data chunkLen (u8 padding) (endStream && lastFrame)) s with
    | (Some err, s) => Some (Some err, s)
    | (None, s) =>
      if lastFrame then Some (None, s)
      else
        match alloc_bytes (ws_alloc s) (dataLen + padLen) with
        | (inl err, a) => Some (Some err, ws_set_alloc a s)
        | (inr allowed, a) =>
          write_chunks fuel id (drop (Z.to_nat chunkLen) <$> data) endStream dataLen padLen allowed
            (ws_set_alloc a s)
        end
    end
  end.

(** Every chunk carries a byte, so there are at most [dataLen + padLen] of them. *)
Definition write (sel : selected) (frame : Frame) (s : wstate) : option (option error * wstate) :=
  match sel with
  | ConnClosed => Some (Some ErrClosed, s)
  | StreamClosed => Some (Some errStreamClosed, s)
  | GotToken =>
    if ws_sawEOS s then Some (Some errStreamClosed, s)
    else if Frame_Type frame =? FrameHeaders then Some (enqueue frame s)
    else
      match frame with
      | DataFrame id data dataLen padLen endStream =>
        match alloc_bytes (ws_alloc s) (dataLen + padLen) with
        | (inl err, a) => Some (Some err, ws_set_alloc a s)
        | (inr allowed, a) =>
          let s := ws_set_alloc a s in
          if allowed =? dataLen + padLen then Some (enqueue frame s)
          else write_chunks (S (Z.to_nat (dataLen + padLen))) id data endStream dataLen padLen allowed s
        end
      | _ => Some (Some (PlainError "bad flow control frame type"), s)
      end
  end.
End Write.
Arguments wstate A T : clear implicits.

(** ** [allocateBytes] *)

(** What happens while a call waits: the peer updates a window, or the stream is closed. *)
Inductive event := UpdateConn (d : Z) | UpdateStream (d : Z) | CloseStream.

(** The controllers of the connection and of the stream, the events to come, and the credit
    returned so far. *)
Record credit := MkCredit {
  cr_conn : remoteFlowController;
  cr_stream : remoteFlowController;
  cr_events : list event;
  cr_taken : Z;
}.

(** The case a [select] of [allocateBytes] takes. *)
Inductive waited := GotWindow (w : Z) | SawStreamClosed | SawConnClosed.

(** A [select] on the window of the connection or of the stream: credit is taken if there
    is some, and otherwise the next event happens.  A closed stream stays closed, and after
    the last event the connection is closed. *)
Fixpoint wait (conn : bool) (c s : remoteFlowController) (es : list event)
    : waited * remoteFlowController * remoteFlowController * list event :=
  match rf_receive (if conn then c else s) with
  | Some (w, p) => if conn then (GotWindow w, p, s, es) else (GotWindow w, c, p, es)
  | None =>
    match es with
    | [] => (SawConnClosed, c, s, [])
    | CloseStream :: _ => (SawStreamClosed, c, s, es)
    | UpdateConn d :: es => wait conn (rf_incrementWindow c d).2 s es
    | UpdateStream d :: es => wait conn c (rf_incrementWindow s d).2 es
    end
  end.

Definition allocateBytes (x : credit) (n : Z) : (error + Z) * credit :=
  if n <=? 0 then (inr 0, x)
  else
    let (c, s, es, got) := x in
    let s := (rf_incrementWindow s 0).2 in
    match wait false c s es with
    | (SawStreamClosed, c, s, es) => (inl errStreamClosed, MkCredit c s es got)
    | (SawConnClosed, c, s, es) => (inl ErrClosed, MkCredit c s es got)
    | (GotWindow sw, c, s, es) =>
      let c := (rf_incrementWindow c 0).2 in
      match wait true c s es with
      | (SawStreamClosed, c, s, es) => (inl errStreamClosed, MkCredit (rf_cancel c) s es got)
      | (SawConnClosed, c, s, es) => (inl ErrClosed, MkCredit c s es got)
      | (GotWindow cw, c, s, es) =>
        let n := if sw <? n then sw else n in
        let n := if cw <? n then cw else n in
        let s := if n <? sw then (rf_incrementWindow s (sw - n)).2 else s in
        let c := if n <? cw then (rf_incrementWindow c (cw - n)).2 else c in
        (inr n, MkCredit c s es (got + n))
      end
    end.

(** ** Specification *)

(** The bytes of a frame that count for flow control. *)
Definition frame_len (f : Frame) : Z :=
  match f with DataFrame _ _ dataLen padLen _ => dataLen + padLen | _ => 0 end.

Definition frames_len (fs : list Frame) : Z := foldr (fun f a => frame_len f + a) 0 fs.

(** DATA frames of stream [id] that together carry [d] and [p] bytes of padding, in order
    and none of them empty unless it is the only one, with the END_STREAM flag [e] on the
    last one; [more] is what the reader would yield after [d]. *)
Inductive chunked (id : Z) (e : bool) (more : list byte) : list byte -> Z -> list Frame -> Prop :=
| chunked_last d p :
    chunked id e more d p [DataFrame id (Some (d ++ more)) (zlen d) p e]
| chunked_more d1 d2 p1 p2 fs :
    0 <= p1 -> 0 < zlen d1 + p1 -> 0 <= p2 -> 0 < zlen d2 + p2 -> chunked id e more d2 p2 fs ->
    chunked id e more (d1 ++ d2) (p1 + p2)
      (DataFrame id (Some (d1 ++ d2 ++ more)) (zlen d1) p1 false :: fs).

(** WINDOW_UPDATE frames only add credit. *)
Definition event_ok (u : event) : Prop :=
  match u with UpdateConn d | UpdateStream d => 0 < d | CloseStream => True end.

Definition credit_valid (x : credit) : Prop :=
  rf_ok (cr_conn x) /\ rf_ok (cr_stream x) /\ Forall event_ok (cr_events x).

(** The credit that events grant the connection, or the stream. *)
Definition granted (conn : bool) (es : list event) : Z :=
  foldr (fun u a => match u with
                    | UpdateConn d => if conn then d else 0
                    | UpdateStream d => if conn then 0 else d
                    | CloseStream => 0
                    end + a) 0 es.

(** A connection and a stream of which the peer allows four bytes at first. *)
Definition sample_credit : credit :=
  MkCredit (newRemoteFlowController 0 defaultInitialWindowSize) (newRemoteFlowController 1 4)
    [UpdateStream 2; UpdateConn 100; UpdateStream 5; CloseStream] 0.

(** A queue whose frames are always written. *)
Definition written (n : nat) (_ : Frame) : reply * nat := (Written None, S n).

Definition sample_state : wstate credit nat := MkWS false 0 sample_credit 0%nat [].

(** ** The allocator *)

Lemma wait_valid conn c s es r c' s' es' :
  wait conn c s es = (r, c', s', es') -> rf_ok c -> rf_ok s -> Forall event_ok es ->
  (rf_ok c' /\ rf_ok s' /\ Forall event_ok es') /\ match r with GotWindow w => 0 < w | _ => True end.
Proof.
  revert c s. induction es as [|u es IH]; intros c s Hw Hc Hs Hes; cbn [wait] in Hw;
    (destruct (rf_receive (if conn then c else s)) as [[w p]|] eqn:E;
     [destruct conn; apply rf_receive_spec in E as (? & ? & _); try done; injection Hw as <- <- <- <-;
      (split; [done|lia])|]).
  - injection Hw as <- <- <- <-. done.
  - pose proof Hes as [Hu Hes']%Forall_cons.
    destruct u; [| |injection Hw as <- <- <- <-; done]; (eapply IH; [exact Hw| | |done]); try done;
      apply rf_pool_incr; done || (cbn in Hu; lia).
Qed.

Lemma return_rest_ok p w n : rf_ok p -> rf_ok (if n <? w then (rf_incrementWindow p (w - n)).2 else p).
Proof. intros Hp. destruct (Z.ltb_spec n w); [|done]. apply rf_pool_incr; done || lia. Qed.

(** [allocateBytes] keeps the promise of the interface. *)
Lemma allocateBytes_law x n r x' :
  credit_valid x -> allocateBytes x n = (r, x') ->
  credit_valid x' /\
  match r with
  | inl _ => cr_taken x' = cr_taken x
  | inr m => (n <= 0 -> m = 0) /\ (0 < n -> 0 < m <= n) /\ cr_taken x' = cr_taken x + m
  end.
Proof.
  destruct x as [c s es got]. intros Hv. pose proof Hv as (Hc & Hs & Hus). cbn in Hc, Hs, Hus.
  unfold allocateBytes. destruct (Z.leb_spec n 0) as [Hn|Hn].
  { intros [= <- <-]. cbn. split; [done|lia]. }
  destruct (wait false c _ es) as [[[r1 c1] s1] es1] eqn:E1.
  apply wait_valid in E1 as ((Hc1 & Hs1 & Hus1) & Hsw); [|done|apply rf_pool_incr; done || lia|done].
  destruct r1 as [sw| |]; [|intros [= <- <-]; done..].
  destruct (wait true _ s1 es1) as [[[r2 c2] s2] es2] eqn:E2.
  apply wait_valid in E2 as ((Hc2 & Hs2 & Hus2) & Hcw); [|apply rf_pool_incr; done || lia|done|done].
  destruct r2 as [cw| |]; intros [= <- <-]; [|split; [|done]; split_and!; try done; apply rf_cancel_spec|done].
  unfold credit_valid. cbn [cr_conn cr_stream cr_events cr_taken].
  split; [split_and!; try done; by apply return_rest_ok|]. zcases; lia.
Qed.

#[global] Instance credit_allocator : Allocator credit := {|
  alloc_bytes := allocateBytes;
  alloc_valid := credit_valid;
  alloc_taken := cr_taken;
  alloc_law := allocateBytes_law;
|}.

(** ** Chunks *)

Section WriteLemmas.
Context {A : Type} `{Allocator A} {T : Type} (send : T -> Frame -> reply * T).

Lemma enqueue_sent f (s s' : wstate A T) err :
  enqueue send f s = (err, s') ->
  ws_sent s' = ws_sent s ++ [f] /\ ws_alloc s' = ws_alloc s /\ (err = None -> ws_sawEOS s' = Frame_EndOfStream f).
Proof. unfold enqueue. by destruct (send _ f) as [[e|e] t]; intros [= <- <-]. Qed.

(** How the loop splits what remains between this chunk and the next ones. *)
Lemma chunk_split (d : list byte) p allowed :
  0 <= p -> 0 < allowed <= zlen d + p ->
  exists d1 d2 p1 p2, d = d1 ++ d2 /\ p = p1 + p2 /\ 0 <= p1 /\ 0 <= p2 /\ zlen d1 + p1 = allowed /\
    zlen d1 = (if allowed <? zlen d then allowed else zlen d) /\
    p1 = (let q := allowed - (if allowed <? zlen d then allowed else zlen d) in if p <? q then p else q).
Proof.
  intros Hp Ha. set (n := if allowed <? zlen d then allowed else zlen d). pose proof (zlen_nonneg d).
  assert (Hn : 0 <= n <= zlen d) by (unfold n; zcases; lia).
  exists (take (Z.to_nat n) d), (drop (Z.to_nat n) d), (if p <? allowed - n then p else allowed - n),
    (p - (if p <? allowed - n then p else allowed - n)).
  assert (Hl : zlen (take (Z.to_nat n) d) = n) by (unfold zlen in *; rewrite length_take; lia).
  rewrite take_drop, Hl. cbv zeta. unfold n in *. split_and!; try done; zcases; lia.
Qed.

Lemma write_chunks_ok fuel id d more e p allowed (s : wstate A T) :
  (Z.to_nat (zlen d + p) < fuel)%nat -> 0 <= p <= 255 -> 0 < allowed <= zlen d + p -> alloc_valid (ws_alloc s) ->
  exists err s' fs rest,
    write_chunks send fuel id (Some (d ++ more)) e (zlen d) p allowed s = Some (err, s') /\
    ws_sent s' = ws_sent s ++ fs /\ chunked id e more d p (fs ++ rest) /\ alloc_valid (ws_alloc s') /\
    alloc_taken (ws_alloc s') + allowed = alloc_taken (ws_alloc s) + frames_len fs /\
    (err = None -> rest = [] /\ ws_sawEOS s' = e).
Proof.
  revert d p allowed s. induction fuel as [|fuel IH]; intros d p allowed s Hf Hp Ha Hv; [lia|].
  destruct (chunk_split d p allowed) as (d1 & d2 & p1 & p2 & -> & -> & Hp1 & Hp2 & Hal & Hd1 & Hq); [lia..|].
  cbn [write_chunks]. rewrite <- Hd1 in *. cbv zeta in Hq. rewrite <- Hq. rewrite (zlen_app d1 d2) in *.
  pose proof (zlen_nonneg d1). pose proof (zlen_nonneg d2).
  replace (zlen d1 + zlen d2 - zlen d1) with (zlen d2) by lia. replace (p1 + p2 - p1) with p2 by lia.
  rewrite u8_small by lia. rewrite <- app_assoc.
  destruct (enqueue send _ s) as [err s1] eqn:Eq. apply enqueue_sent in Eq as (Hsent & Hall & Heos).
  destruct (Z.eqb_spec (zlen d2 + p2) 0) as [Hz|Hz].
  - assert (d2 = []) as -> by (destruct d2; [done|rewrite zlen_cons in *; pose proof (zlen_nonneg d2); lia]).
    change (zlen (@nil byte)) with 0 in *. rewrite andb_true_r in *. replace p2 with 0 in * by lia.
    exists err, s1, [DataFrame id (Some (d1 ++ more)) (zlen d1) p1 e], [].
    rewrite Z.add_0_r, !app_nil_r in *. split; [by destruct err|]. rewrite Hall.
    split_and!; [done|apply chunked_last|done|cbn; lia|]. intros Hn. by rewrite Heos.
  - rewrite andb_false_r in *. set (f := DataFrame _ _ _ _ _) in *.
    destruct err as [err|].
    { exists (Some err), s1, [f], [DataFrame id (Some (d2 ++ more)) (zlen d2) p2 e]. rewrite Hall.
      split_and!; [done|done| |done|cbn; lia|done]. cbn. constructor; try lia. constructor. }
    destruct (alloc_bytes (ws_alloc s1) (zlen d2 + p2)) as [r a] eqn:Ea. rewrite Hall in Ea.
    destruct (alloc_law _ _ _ _ Hv Ea) as [Hva Hr]. destruct r as [err|m].
    { exists (Some err), (ws_set_alloc a s1), [f], [DataFrame id (Some (d2 ++ more)) (zlen d2) p2 e].
      split_and!; [done|done| |done|cbn; lia|done]. cbn. constructor; try lia. constructor. }
    destruct Hr as (_ & Hm & Ht). cbn [fmap option_fmap option_map].
    replace (Z.to_nat (zlen d1)) with (length d1) by (unfold zlen; lia). rewrite drop_app_length.
    destruct (IH d2 p2 m (ws_set_alloc a s1)) as (err & s2 & fs & rest & Hw & Hs2 & Hch & Hv2 & Ht2 & He2);
      [lia|lia|lia|done|].
    exists err, s2, (f :: fs), rest. split_and!; [done| |constructor; done || lia|done| |done].
    + rewrite Hs2. cbn. rewrite Hsent, <- app_assoc. done.
    + change (frames_len (f :: fs)) with (zlen d1 + p1 + frames_len fs). cbn [ws_alloc ws_set_alloc] in Ht2. lia.
Qed.
End WriteLemmas.

(** ** [allocateBytes] is a run of the concurrent model *)

Lemma granted_cons b u l : granted b (u :: l) = granted b [u] + granted b l.
Proof. cbn [granted foldr]. fold (granted b l). lia. Qed.

Lemma granted_app b l l' : granted b (l ++ l') = granted b l + granted b l'.
Proof. induction l as [|u l IH]; [done|]. cbn [app]. rewrite granted_cons, IH, (granted_cons b u l). lia. Qed.

Abbreviation one c s ph got g k cg := (MkAlloc c [MkWriter s ph got g k] cg).

Lemma one_writer c s ph got g k cg c' s' ph' got' g' k' :
  wstep (P := remoteFlowController) c (MkWriter s ph got g k) c' (MkWriter s' ph' got' g' k') ->
  astep (one c s ph got g k cg) (one c' s' ph' got' g' k' cg).
Proof. intros Hs. by apply (as_writer c [] _ [] cg). Qed.

(** Waiting is a sequence of the peer's steps, and then the receive. *)
Lemma wait_steps conn c s es r c1 s1 es1 ph got g k cg :
  wait conn c s es = (r, c1, s1, es1) -> Forall event_ok es ->
  exists c0 s0 k0 used,
    rtc astep (one c s ph got g k cg)
      (one c0 s0 ph got (g + granted false used) k0 (cg + granted true used)) /\
    es = used ++ es1 /\
    match r with
    | GotWindow w => rf_receive (if conn then c0 else s0) = Some (w, if conn then c1 else s1) /\
                     (if conn then s1 = s0 else c1 = c0)
    | _ => c1 = c0 /\ s1 = s0
    end.
Proof.
  revert c s g k cg. induction es as [|u es IH]; intros c s g k cg Hw Hes; cbn [wait] in Hw;
    (destruct (rf_receive (if conn then c else s)) as [[w p]|] eqn:E;
     [exists c, s, k, []; cbn [granted foldr]; rewrite !Z.add_0_r;
      destruct conn; injection Hw as <- <- <- <-; split_and!; done|]).
  - injection Hw as <- <- <- <-. exists c, s, k, []. cbn [granted foldr]. by rewrite !Z.add_0_r.
  - apply Forall_cons in Hes as [Hd Hes]. destruct u as [d|d|]; cbn in Hd.
    + destruct (IH _ _ g k (cg + d) Hw Hes) as (c0 & s0 & k0 & used & Hr & -> & Hm).
      exists c0, s0, k0, (UpdateConn d :: used). rewrite (granted_cons false), (granted_cons true).
      change (granted false [UpdateConn d]) with 0. change (granted true [UpdateConn d]) with (d + 0).
      rewrite Z.add_0_l, Z.add_0_r, Z.add_assoc. split_and!; [|done|done]. eapply rtc_l; [|exact Hr].
      exact (as_conn_update c _ cg d Hd).
    + destruct (IH _ _ (g + d) (Z.max k (g + d)) cg Hw Hes) as (c0 & s0 & k0 & used & Hr & -> & Hm).
      exists c0, s0, k0, (UpdateStream d :: used). rewrite (granted_cons false), (granted_cons true).
      change (granted true [UpdateStream d]) with 0. change (granted false [UpdateStream d]) with (d + 0).
      rewrite Z.add_0_l, Z.add_0_r, Z.add_assoc. split_and!; [|done|done]. eapply rtc_l; [|exact Hr].
      apply (as_env c [] _ [] cg). exact (we_update s _ _ _ _ d Hd).
    + injection Hw as <- <- <- <-. exists c, s, k, []. cbn [granted foldr]. by rewrite !Z.add_0_r.
Qed.

(** The second half of a call: the wait for the connection's credit and the returns. *)
Lemma conn_steps c s es n sw got rx g k cg :
  match wait true c s es with
  | (SawStreamClosed, c, s, es) => (inl errStreamClosed, MkCredit (rf_cancel c) s es got)
  | (SawConnClosed, c, s, es) => (inl ErrClosed, MkCredit c s es got)
  | (GotWindow cw, c, s, es) =>
    let n := if sw <? n then sw else n in
    let n := if cw <? n then cw else n in
    let s := if n <? sw then (rf_incrementWindow s (sw - n)).2 else s in
    let c := if n <? cw then (rf_incrementWindow c (cw - n)).2 else c in
    (inr n, MkCredit c s es (got + n))
  end = rx -> Forall event_ok es ->
  exists used k', es = used ++ cr_events rx.2 /\
    rtc astep (one c s (AConn n sw) got g k cg)
      (one (cr_conn rx.2) (cr_stream rx.2) AIdle (cr_taken rx.2)
         (g + granted false used) k' (cg + granted true used)).
Proof.
  intros Heq Hes. destruct (wait true c s es) as [[[r2 c2] s2] es2] eqn:E2.
  apply (wait_steps _ _ _ _ _ _ _ _ (AConn n sw) got g k cg) in E2 as (c3 & s3 & k3 & used & Hr & -> & Hm); [|done].
  exists used, k3. destruct r2 as [cw| |]; destruct Hm as [Ht ->]; subst rx; cbn [snd cr_conn cr_stream cr_taken cr_events].
  - split; [done|]. replace (if cw <? _ then _ else _) with (Z.min (Z.min n sw) cw) by (zcases; lia).
    eapply rtc_r; [eapply rtc_r; [eapply rtc_r; [exact Hr|]|]|]; apply one_writer.
    + exact (ws_conn c3 s3 _ _ _ _ _ _ _ Ht).
    + exact (ws_return_stream c2 s3 _ _ _ _ _ _).
    + exact (ws_return_conn c2 _ _ _ _ _ _).
  - split; [done|]. subst c2. eapply rtc_r; [exact Hr|]. apply one_writer. exact (ws_closed_conn c3 _ _ _ _ _ _).
  - split; [done|]. subst c2. eapply rtc_r; [exact Hr|]. apply one_writer, ws_conn_closed.
Qed.

(** ** Correctness *)

(** A call of [allocateBytes], with the peer's updates that arrive while it waits, is a
    run of the concurrent model of allocation with this writer: the controllers, the bytes
    allocated and the credit granted are those of the state the run ends in, so what is
    proved of every interleaving holds of the call. *)
Theorem allocateBytes_refines x n r x' g k cg :
  0 < n -> credit_valid x -> allocateBytes x n = (r, x') ->
  exists (used : list event) k',
    cr_events x = used ++ cr_events x' /\
    rtc astep (one (cr_conn x) (cr_stream x) AIdle (cr_taken x) g k cg)
      (one (cr_conn x') (cr_stream x') AIdle (cr_taken x')
         (g + granted false used) k' (cg + granted true used)).
Proof.
  intros Hn (_ & _ & Hes). destruct x as [c s es got]. cbn [cr_events] in Hes. unfold allocateBytes.
  destruct (Z.leb_spec n 0); [lia|]. cbn [cr_conn cr_stream cr_taken cr_events].
  assert (Hb : astep (one c s AIdle got g k cg) (one c (rf_incrementWindow s 0).2 (AStream n) got g k cg)).
  { apply one_writer. exact (ws_begin c s _ _ _ _ Hn). }
  destruct (wait false c _ es) as [[[r1 c1] s1] es1] eqn:E1.
  apply (wait_steps _ _ _ _ _ _ _ _ (AStream n) got g k cg) in E1 as (c0 & s0 & k0 & used & Hr & -> & Hm); [|done].
  apply Forall_app in Hes as [_ Hes]. assert (Hr0 := rtc_l _ _ _ _ Hb Hr).
  destruct r1 as [sw| |].
  2, 3: destruct Hm as [-> ->]; intros [= <- <-]; exists used, k0; cbn; (split; [done|]);
    (eapply rtc_r; [exact Hr0|]); apply one_writer, ws_closed_stream.
  destruct Hm as [Ht ->]. set (g1 := g + _) in *. set (cg1 := cg + _) in *.
  assert (Hs1 : rtc astep (one c s AIdle got g k cg) (one (rf_incrementWindow c0 0).2 s1 (AConn n sw) got g1 k0 cg1)).
  { eapply rtc_r; [eapply rtc_r; [exact Hr0|]|]; apply one_writer; [exact (ws_stream c0 s0 _ _ _ _ _ _ Ht)|].
    exact (ws_signal c0 s1 _ _ _ _ _). }
  intros Heq. destruct (conn_steps _ _ _ _ _ _ _ g1 k0 cg1 Heq Hes) as (used2 & k3 & Hev & Hr2).
  exists (used ++ used2), k3. rewrite !granted_app, !Z.add_assoc, <- app_assoc. split; [by f_equal|].
  exact (rtc_trans _ _ _ Hs1 Hr2).
Qed.

Lemma allocateBytes_refines_witness :
  exists (used : list event) k',
    cr_events sample_credit = used ++ cr_events (allocateBytes sample_credit 3).2 /\
    rtc astep (one (cr_conn sample_credit) (cr_stream sample_credit) AIdle 0 4 4 65535)
      (one (cr_conn (allocateBytes sample_credit 3).2) (cr_stream (allocateBytes sample_credit 3).2) AIdle 3
         (4 + granted false used) k' (65535 + granted true used)).
Proof.
  refine (allocateBytes_refines sample_credit 3 (inr 3) (allocateBytes sample_credit 3).2 4 4 65535 _ _ _).
  - done.
  - split_and!; [done|done|]. repeat constructor.
  - reflexivity.
Defined.

(** At most one frame per byte, and one for an empty frame. *)
Lemma chunked_length id e more d p fs : chunked id e more d p fs -> Z.of_nat (length fs) <= Z.max 1 (zlen d + p).
Proof.
  induction 1 as [|d1 d2 p1 p2 fs H1 H2 H3 H4 _ IH]; cbn [length]; [lia|]. rewrite zlen_app. lia.
Qed.

(** C9: [stream.write] sends a DATA frame in chunks, at most one per byte.  Provided that each
    of its waits is answered, the one for credit by credit or an error and the one for the
    write loop by [writeTo] or [cancel], whatever the answers are: the call ends after at most
    one frame per byte of data and padding (or one, for an empty frame); the frames it hands over are
    an initial part of a sequence of frames of the stream that together carry the data and
    the padding in order, with END_STREAM on the last one only and only if asked for.  They
    are the whole sequence if it reports no error.  The credit it takes is exactly the sum
    of their data and padding, without the Pad Length octets.  After it has sent END_STREAM,
    every further write returns an error and hands over nothing. *)
Theorem stream_write_chunks {A} `{Allocator A} {T} (send : T -> Frame -> reply * T) id d more p e
    (s : wstate A T) :
  0 <= p <= 255 -> alloc_valid (ws_alloc s) -> ws_sawEOS s = false ->
  exists err s' fs rest,
    write send GotToken (DataFrame id (Some (d ++ more)) (zlen d) p e) s = Some (err, s') /\
    ws_sent s' = ws_sent s ++ fs /\ chunked id e more d p (fs ++ rest) /\ Z.of_nat (length fs) <= Z.max 1 (zlen d + p) /\
    alloc_taken (ws_alloc s') = alloc_taken (ws_alloc s) + frames_len fs /\
    (err = None -> rest = []) /\
    (err = None -> e = true -> forall sel f, exists x, write send sel f s' = Some (Some x, s')).
Proof.
  intros Hp Hv Hs.
  assert (Hshort : forall fs rest : list Frame, chunked id e more d p (fs ++ rest) -> Z.of_nat (length fs) <= Z.max 1 (zlen d + p))
    by (intros fs rest Hc; apply chunked_length in Hc; rewrite length_app in Hc; lia).
  unfold write at 1. rewrite Hs. cbn [Frame_Type]. change (FrameData =? FrameHeaders) with false.
  pose proof (zlen_nonneg d). cbv iota.
  destruct (alloc_bytes (ws_alloc s) (zlen d + p)) as [r a] eqn:Ea.
  destruct (alloc_law _ _ _ _ Hv Ea) as [Hva Hr]. destruct r as [err|m].
  { exists (Some err), (ws_set_alloc a s), [], [DataFrame id (Some (d ++ more)) (zlen d) p e].
    split_and!; [done|by rewrite app_nil_r|apply chunked_last|cbn; lia|cbn; lia|done|done]. }
  destruct Hr as (Hm0 & Hm & Ht).
  assert (Hend : forall s' : wstate A T, ws_sawEOS s' = e -> e = true ->
    forall sel f, exists x, write send sel f s' = Some (Some x, s')).
  { intros s' He' He sel f. unfold write. rewrite He', He. destruct sel; by eexists. }
  destruct (Z.eqb_spec m (zlen d + p)) as [Heq|Hne].
  - destruct (enqueue send _ (ws_set_alloc a s)) as [err s1] eqn:Eq.
    apply enqueue_sent in Eq as (Hsent & Hall & Heos).
    exists err, s1, [DataFrame id (Some (d ++ more)) (zlen d) p e], []. rewrite Hall.
    split_and!; [done|done|apply chunked_last|cbn; lia|cbn; lia|done|]. intros Hn. by apply Hend, Heos.
  - destruct (write_chunks_ok send (S (Z.to_nat (zlen d + p))) id d more e p m (ws_set_alloc a s))
      as (err & s' & fs & rest & Hw & Hsent & Hch & _ & Hcr & He); [lia|lia|lia|done|].
    exists err, s', fs, rest. cbn in Hcr. split_and!; [done|done|done|by eapply Hshort|lia| |]; intros Hn; [by apply He|].
    by apply Hend, He.
Qed.

Lemma stream_write_chunks_witness :
  exists err s' fs rest,
    write written GotToken (DataFrame 1 (Some (str "hello" ++ str "!")) 5 3 true) sample_state = Some (err, s') /\
    ws_sent s' = [] ++ fs /\ chunked 1 true (str "!") (str "hello") 3 (fs ++ rest) /\ Z.of_nat (length fs) <= Z.max 1 (5 + 3) /\
    cr_taken (ws_alloc s') = 0 + frames_len fs /\ (err = None -> rest = []) /\
    (err = None -> true = true -> forall sel f, exists x, write written sel f s' = Some (Some x, s')).
Proof.
  refine (stream_write_chunks written 1 (str "hello") (str "!") 3 true sample_state _ _ _).
  - lia.
  - split_and!; [done|done|]. repeat constructor.
  - reflexivity.
Defined.

(** The sample runs: four bytes, then two, then the last two of padding. *)
Example sample_write :
  exists s', write written GotToken (DataFrame 1 (Some (str "hello")) 5 3 true) sample_state = Some (None, s') /\
    map (fun f => (frame_len f, Frame_EndOfStream f)) (ws_sent s') = [(4, false); (2, false); (2, true)].
Proof. eexists. split; vm_compute; reflexivity. Qed.
