(* ===== verification/WriteQueue.v ===== *)
(** * The write queue ([src/conn.go], [writeQueue])

    Producers append frames to one of two buffers, control and normal, and the write loop
    receives them from a channel of capacity one that [add] and [set] fill.  Each of
    [add], [set] and the channel receive is one atomic step: the first two hold the mutex,
    and their selects on the channel do not block.  The write loop is the consumer: it
    blocks in a receive, calls [set], handles the frame and blocks again.

    The queue is proved to implement two first-in-first-out queues without loss or
    duplication under any interleaving, never to leave the consumer blocked while
    something is queued, and to deliver what is left, control frames first. *)

From S2P Require Import Prelude.

Section Queue.
Context {A : Type}.
Implicit Types x : A.

Record writeQueue := MkWQ { wq_cbuf : list A; wq_buf : list A; wq_ch : option A }.

(** [&writeQueue{ch: make(chan Frame, 1)}] *)
Definition newWriteQueue : writeQueue := MkWQ [] [] None.

(** [select { case w.ch <- w.cbuf[0]: w.cbuf = w.cbuf[1:]; default: }] *)
Definition offer_control (w : writeQueue) : writeQueue :=
  match wq_ch w, wq_cbuf w with
  | None, x :: l => MkWQ l (wq_buf w) (Some x)
  | _, _ => w
  end.

(** [select { case w.ch <- w.buf[0]: w.buf = w.buf[1:]; default: }] *)
Definition offer_normal (w : writeQueue) : writeQueue :=
  match wq_ch w, wq_buf w with
  | None, x :: l => MkWQ (wq_cbuf w) l (Some x)
  | _, _ => w
  end.

Definition wq_set (w : writeQueue) : bool * writeQueue :=
  if (0 <? zlen (wq_cbuf w)) then (true, offer_control w)
  else if (0 <? zlen (wq_buf w)) then (true, offer_normal w)
  else (false, w).

Definition wq_add (w : writeQueue) (frame : A) (control : bool) : writeQueue :=
  if control then offer_control (MkWQ (wq_cbuf w ++ [frame]) (wq_buf w) (wq_ch w))
  else offer_normal (MkWQ (wq_cbuf w) (wq_buf w ++ [frame]) (wq_ch w)).

(** A receive from [get()]; [None] when it would block. *)
Definition wq_receive (w : writeQueue) : option (A * writeQueue) :=
  match wq_ch w with
  | Some x => Some (x, MkWQ (wq_cbuf w) (wq_buf w) None)
  | None => None
  end.

(** One round of the write loop: receive, then [set]; the flag is [flush]. *)
Definition round (w : writeQueue) : option (A * bool * writeQueue) :=
  '(x, w) ← wq_receive w;
  let (more, w) := wq_set w in
  Some (x, negb more, w).

(** Rounds of the write loop, until it blocks or the bound is reached. *)
Fixpoint drain (n : nat) (w : writeQueue) : list A * writeQueue :=
  match n with
  | O => ([], w)
  | S n =>
    match round w with
    | None => ([], w)
    | Some (x, _, w) => let (l, w) := drain n w in (x :: l, w)
    end
  end.

(** ** Interleavings *)

(** The consumer is blocked in its receive, or has received and not yet called [set]. *)
Inductive cphase := Waiting | Received.

Record qsys := MkQ { q_queue : writeQueue; q_phase : cphase; q_out : list A }.

Inductive qlabel := LAdd (x : A) (control : bool) | LInternal.

Inductive qstep : qsys -> qlabel -> qsys -> Prop :=
| qs_add w p out x control :
    qstep (MkQ w p out) (LAdd x control) (MkQ (wq_add w x control) p out)
| qs_receive w out x w' :
    wq_receive w = Some (x, w') ->
    qstep (MkQ w Waiting out) LInternal (MkQ w' Received (out ++ [x]))
| qs_set w out :
    qstep (MkQ w Received out) LInternal (MkQ (wq_set w).2 Waiting out)
| qs_extra_set w p out :
    (* the calls of [set] in the shutdown tests of the write loop *)
    qstep (MkQ w p out) LInternal (MkQ (wq_set w).2 p out).

Inductive qrun : qsys -> list qlabel -> qsys -> Prop :=
| qrun_nil q : qrun q [] q
| qrun_cons q l q' ls q'' : qstep q l q' -> qrun q' ls q'' -> qrun q (l :: ls) q''.

(** What was added to the queue, in order. *)
Definition added (ls : list qlabel) : list (A * bool) :=
  ls ≫= fun l => match l with LAdd x c => [(x, c)] | LInternal => [] end.

(** ** Specification *)

(** Everything queued, in the order in which it is delivered if nothing is added. *)
Definition contents (w : writeQueue) : list A := option_list (wq_ch w) ++ wq_cbuf w ++ wq_buf w.

(** The consumer cannot block while something is queued. *)
Definition offered (w : writeQueue) : Prop := wq_ch w = None -> wq_cbuf w = [] /\ wq_buf w = [].

Definition q_ok (q : qsys) : Prop :=
  match q_phase q with Waiting => offered (q_queue q) | Received => True end.

(** Two queues: the elements of a class, received, in the channel or buffered. *)
Variable cls : A -> bool.

Definition class (b : bool) (l : list A) : list A := filter (fun x => cls x = b) l.

(** The buffers hold frames of their own class. *)
Definition sorted_bufs (w : writeQueue) : Prop :=
  Forall (fun x => cls x = true) (wq_cbuf w) /\ Forall (fun x => cls x = false) (wq_buf w).

(** One class: what is in the channel, then its buffer. *)
Definition view (b : bool) (w : writeQueue) : list A :=
  class b (option_list (wq_ch w)) ++ (if b then wq_cbuf w else wq_buf w).

(** The two queues of a run. *)
Definition two_queues (q : qsys) (hist : list A) : Prop :=
  sorted_bufs (q_queue q) /\ forall b, class b (q_out q) ++ view b (q_queue q) = class b hist.

(** ** Lemmas *)

Lemma offer_control_contents w :
  contents (offer_control w) = contents w /\
  (wq_cbuf w <> [] -> wq_ch (offer_control w) <> None).
Proof. destruct w as [[|x l] b [y|]]; cbn; split; done. Qed.

Lemma offer_normal_contents w :
  wq_cbuf w = [] \/ wq_ch w <> None -> contents (offer_normal w) = contents w.
Proof. destruct w as [[|z l] [|x b] [y|]]; cbn; intros [|]; done. Qed.

Lemma offered_some w : wq_ch w <> None -> offered w.
Proof. intros H E. by destruct H. Qed.

Lemma offer_normal_ch w : wq_buf w <> [] -> wq_ch (offer_normal w) <> None.
Proof. destruct w as [l [|x b] [y|]]; cbn; done. Qed.

Lemma wq_set_contents w : contents (wq_set w).2 = contents w.
Proof.
  unfold wq_set. destruct w as [[|z l] [|x b] [y|]]; try done.
Qed.

Lemma wq_set_offered w : offered (wq_set w).2.
Proof. unfold wq_set, offered. destruct w as [[|z l] [|x b] [y|]]; cbn; done. Qed.

Lemma wq_add_offered w x c : offered (wq_add w x c).
Proof.
  apply offered_some. unfold wq_add. destruct c.
  - apply offer_control_contents. cbn. by destruct (wq_cbuf w).
  - apply offer_normal_ch. cbn. by destruct (wq_buf w).
Qed.

Lemma wq_receive_contents w x w' :
  wq_receive w = Some (x, w') ->
  contents w = x :: contents w' /\ wq_cbuf w' = wq_cbuf w /\ wq_buf w' = wq_buf w.
Proof. destruct w as [c b [y|]]; cbn; [|done]. by intros [= -> <-]. Qed.

Lemma qstep_ok q l q' : qstep q l q' -> q_ok q -> q_ok q'.
Proof.
  intros [w p out x c|w out x w' H|w out|w p out] Hok; unfold q_ok in *; cbn in *; try done.
  - destruct p; [apply wq_add_offered|done].
  - apply wq_set_offered.
  - destruct p; [apply wq_set_offered|done].
Qed.

Lemma class_app b l k : class b (l ++ k) = class b l ++ class b k.
Proof. apply filter_app. Qed.

Lemma class_self b l : Forall (fun x => cls x = b) l -> class b l = l.
Proof. unfold class. induction 1; [done|]. rewrite filter_cons_True by done. by f_equal. Qed.

Lemma class_other b l : Forall (fun x => cls x = negb b) l -> class b l = [].
Proof.
  unfold class. induction 1 as [|x l Hx _ IH]; [done|]. rewrite filter_cons_False; [done|].
  rewrite Hx. by destruct b.
Qed.

Lemma view_contents w b : sorted_bufs w -> class b (contents w) = view b w.
Proof.
  intros [Hc Hb]. unfold contents, view. rewrite !class_app. f_equal. destruct b.
  - rewrite (class_self true), (class_other true), app_nil_r; done.
  - rewrite (class_other false), (class_self false); done.
Qed.

Lemma class_singleton b x : class b [x] = if Bool.eqb (cls x) b then [x] else [].
Proof.
  destruct (Bool.eqb_spec (cls x) b) as [Hx|Hx].
  - apply class_self. by repeat constructor.
  - apply class_other. repeat constructor. by destruct (cls x), b.
Qed.

(** Offering a buffered frame moves it within its class. *)
Lemma offer_view w b :
  sorted_bufs w ->
  (sorted_bufs (offer_control w) /\ view b (offer_control w) = view b w) /\
  (sorted_bufs (offer_normal w) /\ view b (offer_normal w) = view b w).
Proof.
  destruct w as [c n [y|]]; [by destruct c, n|]. intros [Hc Hb]. cbn in Hc, Hb.
  split; [destruct c as [|x c]|destruct n as [|x n]]; try done.
  - apply Forall_cons in Hc as [Hx Hc]. unfold sorted_bufs, view. cbn [offer_control wq_ch wq_cbuf wq_buf option_list].
    split; [done|]. change (option_list (Some x)) with [x]. rewrite class_singleton, Hx. by destruct b.
  - apply Forall_cons in Hb as [Hx Hb]. unfold sorted_bufs, view. cbn [offer_normal wq_ch wq_cbuf wq_buf option_list].
    split; [done|]. change (option_list (Some x)) with [x]. rewrite class_singleton, Hx. by destruct b.
Qed.

Lemma wq_set_view w b : sorted_bufs w -> sorted_bufs (wq_set w).2 /\ view b (wq_set w).2 = view b w.
Proof.
  intros Hw. unfold wq_set. destruct (0 <? _); [by apply offer_view|].
  destruct (0 <? _); [by apply offer_view|done].
Qed.

Lemma wq_add_view w x b :
  sorted_bufs w ->
  sorted_bufs (wq_add w x (cls x)) /\ view b (wq_add w x (cls x)) = view b w ++ class b [x].
Proof.
  intros [Hc Hb]. unfold wq_add. destruct (cls x) eqn:Hx.
  - set (q := MkWQ (wq_cbuf w ++ [x]) (wq_buf w) (wq_ch w)).
    assert (Hq : sorted_bufs q) by (split; [apply Forall_app; by auto|done]).
    destruct (offer_view q b Hq) as [[? ->] _]. split; [done|]. unfold view, q. cbn [wq_ch wq_cbuf wq_buf].
    rewrite class_singleton, Hx, <- app_assoc. destruct b; cbn [Bool.eqb]; by rewrite ?app_nil_r.
  - set (q := MkWQ (wq_cbuf w) (wq_buf w ++ [x]) (wq_ch w)).
    assert (Hq : sorted_bufs q) by (split; [done|apply Forall_app; by auto]).
    destruct (offer_view q b Hq) as [_ [? ->]]. split; [done|]. unfold view, q. cbn [wq_ch wq_cbuf wq_buf].
    rewrite class_singleton, Hx, <- app_assoc. destruct b; cbn [Bool.eqb]; by rewrite ?app_nil_r.
Qed.

Lemma qstep_two q l q' hist :
  qstep q l q' -> two_queues q hist ->
  (forall x c, l = LAdd x c -> c = cls x) ->
  two_queues q' (hist ++ map fst (added [l])).
Proof.
  intros Hs [Hb Hv] Hl. destruct Hs as [w p out x c|w out x w' H|w out|w p out]; cbn in *.
  - rewrite (Hl x c eq_refl). split; [by apply (wq_add_view w x true)|]. intros b. cbn.
    destruct (wq_add_view w x b Hb) as [_ ->]. by rewrite app_assoc, Hv, class_app.
  - rewrite app_nil_r. destruct w as [cb nb [y|]]; [|done]. injection H as -> <-. split; [done|].
    intros b. rewrite <- Hv. cbn [q_out q_queue]. rewrite class_app, <- app_assoc. f_equal. 
  - rewrite app_nil_r. split; [by apply (wq_set_view w true)|]. intros b. cbn.
    destruct (wq_set_view w b Hb) as [_ ->]. done.
  - rewrite app_nil_r. split; [by apply (wq_set_view w true)|]. intros b. cbn.
    destruct (wq_set_view w b Hb) as [_ ->]. done.
Qed.

Lemma qrun_inv q ls q' hist :
  qrun q ls q' -> q_ok q -> two_queues q hist ->
  Forall (fun '(x, c) => c = cls x) (added ls) ->
  q_ok q' /\ two_queues q' (hist ++ map fst (added ls)).
Proof.
  intros H. revert hist. induction H as [q|q l q1 ls q2 Hs _ IH]; intros hist Hok Htwo Hall.
  { cbn. by rewrite app_nil_r. }
  change (added (l :: ls)) with (added ([l] ++ ls)) in *. unfold added in *. rewrite bind_app in *.
  apply Forall_app in Hall as [Hl Hls]. rewrite map_app, app_assoc. apply IH; [by eapply qstep_ok| |done].
  eapply qstep_two; [done..|]. intros x c ->. by apply Forall_cons in Hl as [? _].
Qed.
End Queue.
Arguments writeQueue A : clear implicits.
Arguments qsys A : clear implicits.
Arguments qlabel A : clear implicits.

Lemma round_contents {A} (w : writeQueue A) :
  offered w ->
  match round w with
  | Some (x, flush, w') =>
    contents w = x :: contents w' /\ offered w' /\
    (flush = true <-> wq_cbuf w = [] /\ wq_buf w = [])
  | None => w = newWriteQueue
  end.
Proof.
  intros Ho. unfold round. destruct (wq_receive w) as [[x w']|] eqn:E; cbn [mbind option_bind].
  - destruct (wq_receive_contents _ _ _ E) as (Hc & <- & <-).
    pose proof (wq_set_contents w') as Hs. pose proof (wq_set_offered w') as Hs'.
    destruct (wq_set w') as [more w''] eqn:Es. cbn in *. split_and!; [congruence|done|].
    unfold wq_set in Es. destruct w' as [[|u cb] [|v nb] ch]; cbn in *; injection Es as <- <-; naive_solver.
  - destruct w as [cb nb [y|]]; [done|]. destruct (Ho eq_refl) as [Hcb Hnb]. cbn in *. by subst.
Qed.

Lemma drain_contents {A} n (w : writeQueue A) :
  offered w -> (length (contents w) <= n)%nat -> drain n w = (contents w, newWriteQueue).
Proof.
  revert w. induction n as [|n IH]; intros w Ho Hn; cbn [drain].
  - destruct w as [[|u cb] [|v nb] [y|]]; cbn in *; done || lia.
  - pose proof (round_contents w Ho) as Hr. destruct (round w) as [[[x f] w']|]; [|by subst].
    destruct Hr as (Hc & Ho' & _). rewrite Hc in *. cbn in Hn.
    by rewrite IH by (done || lia).
Qed.

(** ** Properties *)

(** C16: the write queue is two first-in-first-out queues.  Under any interleaving of
    producers with the write loop, the control frames received so far followed by those
    still queued are exactly the control frames added, in the order they were added, and
    likewise for the normal frames: nothing is lost, duplicated or reordered in a class. *)
Theorem queue_is_two_fifos {A} (cls : A -> bool) ls q :
  qrun (MkQ newWriteQueue Waiting []) ls q ->
  Forall (fun '(x, c) => c = cls x) (added ls) ->
  forall b, class cls b (q_out q) ++ class cls b (contents (q_queue q))
              = class cls b (map fst (added ls)).
Proof.
  intros Hr Hall b.
  destruct (qrun_inv cls _ _ _ [] Hr) as [_ [Hb Hv]]; [done| |done|].
  - split; [by split; constructor|]. by intros [].
  - by rewrite view_contents.
Qed.

(** C30: no wake-up is lost.  Whenever the write loop waits in its receive from the
    queue, under any interleaving, the channel holds a frame unless both buffers are empty.
    (The loop can also wait elsewhere, for the result of a stream's frame to be taken.) *)
Theorem queue_no_lost_wakeup {A} ls (q : qsys A) :
  qrun (MkQ newWriteQueue Waiting []) ls q -> q_phase q = Waiting ->
  wq_receive (q_queue q) = None -> contents (q_queue q) = [].
Proof.
  intros Hr Hp Hn.
  assert (Hok : q_ok q).
  { assert (H0 : q_ok (MkQ (@newWriteQueue A) Waiting [])) by done. revert H0.
    clear Hp Hn. induction Hr; eauto using qstep_ok. }
  unfold q_ok in Hok. rewrite Hp in Hok. destruct (q_queue q) as [cb nb [y|]]; [done|].
  destruct (Hok eq_refl) as [E1 E2]. cbn in *. by subst.
Qed.

(** What is queued is delivered, control frames first.  Left to itself the write loop
    receives the frame in the channel, then every control frame, then every normal frame,
    each in order, and stops with an empty queue; it flushes exactly after a frame that
    leaves both buffers empty. *)
Theorem queue_drains {A} (w : writeQueue A) n :
  offered w -> (length (contents w) <= n)%nat ->
  drain n w = (option_list (wq_ch w) ++ wq_cbuf w ++ wq_buf w, newWriteQueue) /\
  match round w with
  | Some (_, flush, _) => flush = true <-> wq_cbuf w = [] /\ wq_buf w = []
  | None => True
  end.
Proof.
  intros Ho Hn. split; [exact (drain_contents n w Ho Hn)|].
  pose proof (round_contents w Ho) as Hr. destruct (round w) as [[[x f] w']|]; [apply Hr|done].
Qed.

Lemma queue_is_two_fifos_witness :
  exists q, qrun (MkQ newWriteQueue Waiting [])
              [LAdd 1 false; LAdd 2 false; LAdd 10 true; LInternal; LInternal] q /\
    class (Z.leb 10) true (q_out q) ++ class (Z.leb 10) true (contents (q_queue q)) = [10].
Proof.
  assert (Hr : exists q, qrun (MkQ newWriteQueue Waiting [])
    [LAdd 1 false; LAdd 2 false; LAdd 10 true; LInternal; LInternal] q).
  { eexists. eapply qrun_cons; [apply qs_add|]. eapply qrun_cons; [apply qs_add|].
    eapply qrun_cons; [apply qs_add|]. eapply qrun_cons; [apply qs_receive; reflexivity|].
    eapply qrun_cons; [apply qs_set|]. apply qrun_nil. }
  destruct Hr as [q H]. exists q. split; [exact H|]. apply (queue_is_two_fifos (Z.leb 10) _ _ H). repeat constructor.
Defined.

Lemma queue_no_lost_wakeup_witness :
  qrun (MkQ newWriteQueue Waiting []) [LAdd 1 false; LInternal; LInternal]
       (MkQ newWriteQueue Waiting [1]) /\
  contents (q_queue (MkQ newWriteQueue Waiting [1])) = [].
Proof.
  assert (H : qrun (MkQ newWriteQueue Waiting []) [LAdd 1 false; LInternal; LInternal]
                   (MkQ newWriteQueue Waiting [1])).
  { eapply qrun_cons; [apply qs_add|]. eapply qrun_cons; [apply qs_receive; reflexivity|].
    eapply qrun_cons; [apply qs_set|]. apply qrun_nil. }
  split; [exact H|]. apply (queue_no_lost_wakeup _ _ H); reflexivity.
Defined.

Lemma queue_drains_witness :
  drain 3 (MkWQ [10] [1] (Some 0)) = ([0; 10; 1], newWriteQueue).
Proof. apply (queue_drains (MkWQ [10] [1] (Some 0)) 3); [done|cbn; lia]. Defined.
