(* ===== verification/HttpHeader.v ===== *)
(** * Header maps ([src/util.go], [Header])

    A [Header] maps field names to their values; nil is [None], and writing to a nil map
    panics as in Go.  The file holds the key functions ([validHeaderKey],
    [CanonicalHTTP2HeaderKey] with its table of common names), the accessors, and
    [Header.add], the handler that the frame reader passes to the HPACK decoder.

    [strings.ToLower] is written out for ASCII strings; on other strings it applies the
    Unicode tables of the standard library, which are a parameter.

    The theorems show that the table lookups of [CanonicalHTTP2HeaderKey] are an
    optimisation of [strings.ToLower], give every branch of [Header.add], and show that a
    header collected field by field holds exactly the fields. *)

From S2P Require Import Prelude HpackDecode Types.

(** ** Keys *)

Definition lower_byte (b : byte) : byte :=
  if (65 <=? bz b) && (bz b <=? 90) then zb (bz b + 32) else b.

Definition is_ascii (s : gostring) : bool := forallb (fun b => bz b <? 128) s.

Definition validHeaderKey (v : gostring) : bool :=
  (0 <? zlen v) &&
  forallb (fun c => negb ((127 <=? bz c) || ((65 <=? bz c) && (bz c <=? 90)))) v.

(** The names of the second loop of [init]. *)
Definition commonNames : list string :=
  ["Accept"; "Accept-Charset"; "Accept-Encoding"; "Accept-Language";
   "Accept-Ranges"; "Age"; "Allow"; "ALPN";
   "Authentication-Info"; "Authorization"; "Cache-Control"; "Connection";
   "Content-Disposition"; "Content-Encoding"; "Content-Language"; "Content-Length";
   "Content-Location"; "Content-Range"; "Content-Type"; "Cookie";
   "DASL"; "DAV"; "Date"; "Depth";
   "Destination"; "ETag"; "Expect"; "Expires";
   "Forwarded"; "From"; "Host"; "HTTP2-Settings";
   "If"; "If-Match"; "If-Modified-Since"; "If-None-Match";
   "If-Range"; "If-Schedule-Tag-Match"; "If-Unmodified-Since"; "Last-Modified";
   "Location"; "Lock-Token"; "Max-Forwards"; "MIME-Version";
   "Ordering-Type"; "Origin"; "Overwrite"; "Position";
   "Pragma"; "Prefer"; "Preference-Applied"; "Proxy-Authenticate";
   "Proxy-Authentication-Info"; "Proxy-Authorization"; "Public-Key-Pins"; "Public-Key-Pins-Report-Only";
   "Range"; "Referer"; "Retry-After"; "Schedule-Reply";
   "Schedule-Tag"; "Sec-WebSocket-Accept"; "Sec-WebSocket-Extensions"; "Sec-WebSocket-Key";
   "Sec-WebSocket-Protocol"; "Sec-WebSocket-Version"; "Server"; "Set-Cookie";
   "SLUG"; "Strict-Transport-Security"; "TE"; "Timeout";
   "Trailer"; "Transfer-Encoding"; "Upgrade"; "User-Agent";
   "Vary"; "Via"; "WWW-Authenticate"; "Warning";
   "Access-Control-Allow-Credentials"; "Access-Control-Allow-Headers"; "Access-Control-Allow-Methods"; "Access-Control-Allow-Origin";
   "Access-Control-Max-Age"; "Access-Control-Request-Method"; "Access-Control-Request-Headers"; "Compliance";
   "Content-Transfer-Encoding"; "Cost"; "EDIINT-Features"; "Message-ID";
   "Non-Compliance"; "Optional"; "Resolution-Hint"; "Resolver-Location";
   "SubOK"; "Subst"; "Title"; "UA-Color";
   "UA-Media"; "UA-Pixels"; "UA-Resolution"; "UA-Windowpixels";
   "Version"; "X-Device-Accept"; "X-Device-Accept-Charset"; "X-Device-Accept-Encoding";
   "X-Device-Accept-Language"; "X-Device-User-Agent"]%string.

(** The names of the first loop of [init]. *)
Definition pseudoNames : list gostring :=
  [str ":method"; str ":scheme"; str ":authority"; str ":path"; str ":status"].

Definition pseudoHeader : gset gostring := list_to_set pseudoNames.

Definition commonHeader : gmap gostring gostring :=
  foldl (fun m v => let lower := map lower_byte (str v) in <[lower := lower]> (<[str v := lower]> m))
    ∅ commonNames.

Section Keys.
Variable unicodeToLower : gostring -> gostring.

Definition ToLower (s : gostring) : gostring :=
  if is_ascii s then map lower_byte s else unicodeToLower s.

Definition CanonicalHTTP2HeaderKey (s : gostring) : gostring :=
  match commonHeader !! s with
  | Some v => v
  | None => if validHeaderKey s then s else ToLower s
  end.

(** ** Accessors *)

(** A read of a nil map finds nothing. *)
Definition values (h : Header) (key : gostring) : list gostring :=
  default [] (m ← h; m !! key).

Definition Header_get (h : Header) (key : gostring) : gostring :=
  match values h key with v :: _ => v | [] => [] end.

(** An assignment to a map element; [None] is the panic on a nil map. *)
Definition Header_put (h : Header) (key : gostring) (vv : list gostring) : option Header :=
  m ← h; Some (Some (<[key := vv]> m)).

Definition Header_Method (h : Header) : gostring := Header_get h (str ":method").
Definition Header_SetMethod (h : Header) (v : gostring) := Header_put h (str ":method") [v].
Definition Header_Scheme (h : Header) : gostring := Header_get h (str ":scheme").
Definition Header_SetScheme (h : Header) (v : gostring) := Header_put h (str ":scheme") [v].
Definition Header_Authority (h : Header) : gostring := Header_get h (str ":authority").
Definition Header_SetAuthority (h : Header) (v : gostring) := Header_put h (str ":authority") [v].
Definition Header_Path (h : Header) : gostring := Header_get h (str ":path").
Definition Header_SetPath (h : Header) (v : gostring) := Header_put h (str ":path") [v].
Definition Header_Status (h : Header) : gostring := Header_get h (str ":status").
Definition Header_SetStatus (h : Header) (v : gostring) := Header_put h (str ":status") [v].

(** [None] is a panic: [key[0]] of an empty key, or a nil map. *)
Definition Header_Add (h : Header) (key value : gostring) : option Header :=
  match key with
  | [] => None
  | c :: _ =>
    if bz c =? 58 then Some h
    else let key := CanonicalHTTP2HeaderKey key in Header_put h key (values h key ++ [value])
  end.

Definition Header_Set (h : Header) (key value : gostring) : option Header :=
  Header_put h (CanonicalHTTP2HeaderKey key) [value].

Definition Header_Get (h : Header) (key : gostring) : gostring :=
  match h with
  | None => []
  | Some _ => Header_get h (CanonicalHTTP2HeaderKey key)
  end.

(** A deletion from a nil map does nothing. *)
Definition Header_Del (h : Header) (key : gostring) : Header :=
  match h with
  | None => None
  | Some m => Some (delete (CanonicalHTTP2HeaderKey key) m)
  end.
End Keys.

Definition Header_Len (h : Header) : Z :=
  match h with
  | None => 0
  | Some m => map_fold (fun _ vv n => n + zlen vv) 0 m
  end.

(** ** The decoder's handler *)

Definition errMalformedHeader : error := MalformedError.

Definition Header_add (h : Header) (key value : gostring) (_ : bool) : outcome error unit * Header :=
  match key with
  | [] => (Panic, h)
  | c :: _ =>
    if (bz c =? 58) && (5 <? Header_Len h) then (Err errMalformedHeader, h)
    else if (bz c =? 58) && negb (bool_decide (key ∈ pseudoHeader)) then (Err errMalformedHeader, h)
    else if negb (validHeaderKey key) then (Err errMalformedHeader, h)
    else (Ok tt, Some (<[key := values h key ++ [value]]> (default ∅ h)))
  end.

Definition badHeader (key : gostring) : bool :=
  bool_decide (key ∈ [str "connection"; str "keep-alive"; str "proxy-connection";
                      str "transfer-encoding"; str "host"; str "upgrade"]).

(** ** Specification *)

(** The values a list of fields has for a key, in order. *)
Definition field_values (fs : list (gostring * gostring)) (key : gostring) : list gostring :=
  (filter (fun f => f.1 = key) fs).*2.

(** The fields [Header.add] accepts after [n] others. *)
Definition addable (n : Z) (key : gostring) : Prop :=
  validHeaderKey key = true /\
  (forall c k, key = c :: k -> bz c = 58 -> n <= 5 /\ key ∈ pseudoHeader).

Fixpoint addable_all (n : Z) (fs : list (gostring * gostring)) : Prop :=
  match fs with
  | [] => True
  | (k, _) :: fs => addable n k /\ addable_all (n + 1) fs
  end.

Fixpoint add_all (h : Header) (fs : list (gostring * gostring)) : outcome error unit * Header :=
  match fs with
  | [] => (Ok tt, h)
  | (k, v) :: fs =>
    match Header_add h k v false with
    | (Ok _, h) => add_all h fs
    | r => r
    end
  end.

(** ** Lemmas on keys *)

Lemma lower_byte_range b : negb ((65 <=? bz (lower_byte b)) && (bz (lower_byte b) <=? 90)) = true.
Proof.
  unfold lower_byte. destruct ((65 <=? bz b) && (bz b <=? 90)) eqn:E; [|by rewrite E].
  rewrite bz_zb_small by lia. lia.
Qed.

Lemma lower_byte_id b : negb ((65 <=? bz b) && (bz b <=? 90)) = true -> lower_byte b = b.
Proof. unfold lower_byte. by destruct (_ && _). Qed.

Lemma lower_byte_idem b : lower_byte (lower_byte b) = lower_byte b.
Proof. apply lower_byte_id, lower_byte_range. Qed.

Lemma map_lower_idem s : map lower_byte (map lower_byte s) = map lower_byte s.
Proof. rewrite map_map. apply map_ext, lower_byte_idem. Qed.

Lemma is_ascii_lower s : is_ascii s = true -> is_ascii (map lower_byte s) = true.
Proof.
  unfold is_ascii. rewrite !forallb_forall. intros H x Hx. apply in_map_iff in Hx as (b & <- & Hb).
  specialize (H b Hb). unfold lower_byte. destruct (_ && _) eqn:E; [|done]. rewrite bz_zb_small by lia. lia.
Qed.

Lemma commonHeader_lower :
  map_Forall (fun k v => v = map lower_byte k /\ is_ascii k = true) commonHeader.
Proof. apply (bool_decide_unpack _). vm_compute. exact I. Qed.

Lemma validHeaderKey_lower s : validHeaderKey s = true -> map lower_byte s = s /\ is_ascii s = true.
Proof.
  unfold validHeaderKey, is_ascii. intros [_ H]%andb_prop.
  induction s as [|b s IH]; [done|]. cbn [forallb map] in *. apply andb_prop in H as [Hb H].
  destruct (IH H) as [IH1 IH2]. rewrite IH1, IH2, lower_byte_id by lia. split; [done|]. lia.
Qed.

Lemma ToLower_ascii u s : is_ascii s = true -> ToLower u s = map lower_byte s.
Proof. intros H. unfold ToLower. by rewrite H. Qed.

Lemma Canonical_ToLower u s : CanonicalHTTP2HeaderKey u s = ToLower u s.
Proof.
  unfold CanonicalHTTP2HeaderKey. destruct (commonHeader !! s) as [v|] eqn:E.
  - apply commonHeader_lower in E as [-> Ha]. by rewrite ToLower_ascii.
  - destruct (validHeaderKey s) eqn:Hv; [|done].
    destruct (validHeaderKey_lower s Hv) as [Hl Ha]. by rewrite ToLower_ascii.
Qed.

Lemma Canonical_valid u s : validHeaderKey s = true -> CanonicalHTTP2HeaderKey u s = s.
Proof.
  intros Hv. rewrite Canonical_ToLower. destruct (validHeaderKey_lower s Hv) as [Hl Ha].
  by rewrite ToLower_ascii.
Qed.

(** ** Lemmas on header maps *)

Lemma Len_insert_new (m : gmap gostring (list gostring)) k vv :
  m !! k = None -> Header_Len (Some (<[k := vv]> m)) = Header_Len (Some m) + zlen vv.
Proof. intros H. cbn. rewrite map_fold_insert_L; [done| |done]. intros. lia. Qed.

Lemma Len_insert (m : gmap gostring (list gostring)) k vv :
  Header_Len (Some (<[k := vv]> m)) = Header_Len (Some m) - zlen (values (Some m) k) + zlen vv.
Proof.
  assert (Hv : values (Some m) k = default [] (m !! k)) by done. rewrite Hv.
  destruct (m !! k) as [x|] eqn:E; cbn [from_option]; unfold id.
  - pose proof (Len_insert_new (delete k m) k x (lookup_delete_eq _ _)) as H1.
    pose proof (Len_insert_new (delete k m) k vv (lookup_delete_eq _ _)) as H2.
    rewrite insert_delete_id in H1 by done. rewrite insert_delete_eq in H2. lia.
  - rewrite Len_insert_new by done. rewrite zlen_nil. lia.
Qed.

Lemma values_insert m k vv k' :
  values (Some (<[k := vv]> m)) k' = if decide (k = k') then vv else values (Some m) k'.
Proof. unfold values. cbn. rewrite lookup_insert. by case_decide. Qed.

Lemma values_default h k : values (Some (default ∅ h)) k = values h k.
Proof. destruct h; [done|]. unfold values. cbn. by rewrite lookup_empty. Qed.

Lemma Len_default h : Header_Len (Some (default ∅ h)) = Header_Len h.
Proof. by destruct h. Qed.

Lemma Header_add_ok h k v b :
  addable (Header_Len h) k ->
  exists h', Header_add h k v b = (Ok tt, h') /\ Header_Len h' = Header_Len h + 1 /\
    h' = Some (<[k := values h k ++ [v]]> (default ∅ h)).
Proof.
  intros [Hv Hp]. destruct k as [|c k]; [done|]. cbn [Header_add].
  rewrite Hv. cbn [negb]. destruct (Z.eqb_spec (bz c) 58) as [Hc|Hc]; cbn [andb].
  - destruct (Hp c k eq_refl Hc) as [Hl Hm]. destruct (Z.ltb_spec 5 (Header_Len h)); [lia|].
    rewrite bool_decide_true by done. cbn [negb]. eexists. split_and!; [done| |done].
    rewrite Len_insert, values_default, Len_default, zlen_app, zlen_cons, zlen_nil. lia.
  - eexists. split_and!; [done| |done].
    rewrite Len_insert, values_default, Len_default, zlen_app, zlen_cons, zlen_nil. lia.
Qed.

Lemma field_values_cons k v fs key :
  field_values ((k, v) :: fs) key = (if decide (k = key) then [v] else []) ++ field_values fs key.
Proof. unfold field_values. rewrite filter_cons. cbn. by case_decide. Qed.

Lemma add_all_ok fs h :
  addable_all (Header_Len h) fs ->
  exists h', add_all h fs = (Ok tt, h') /\ Header_Len h' = Header_Len h + zlen fs /\
    forall k, values h' k = values h k ++ field_values fs k.
Proof.
  revert h. induction fs as [|[k v] fs IH]; intros h Hall.
  { exists h. split_and!; [done|rewrite zlen_nil; lia|]. intros. by rewrite app_nil_r. }
  destruct Hall as [Hk Hall]. destruct (Header_add_ok h k v false Hk) as (h1 & He & Hl & Hh1).
  cbn [add_all]. rewrite He. rewrite <- Hl in Hall. destruct (IH h1 Hall) as (h' & -> & Hl' & Hv).
  exists h'. split_and!; [done|rewrite zlen_cons; lia|]. intros key.
  rewrite Hv, Hh1, values_insert, values_default, field_values_cons. case_decide; subst; [|done].
  by rewrite <- app_assoc.
Qed.

(** ** Properties *)

(** The canonical form of a key is its lower-case form.  The table of common names and
    the scan for already valid keys are shortcuts that never change the result of
    [strings.ToLower]; a valid key is its own canonical form. *)
Theorem canonical_key_is_lower unicodeToLower s :
  CanonicalHTTP2HeaderKey unicodeToLower s = ToLower unicodeToLower s /\
  (validHeaderKey s = true -> CanonicalHTTP2HeaderKey unicodeToLower s = s) /\
  (is_ascii s = true ->
   CanonicalHTTP2HeaderKey unicodeToLower (CanonicalHTTP2HeaderKey unicodeToLower s)
     = CanonicalHTTP2HeaderKey unicodeToLower s).
Proof.
  split_and!; [apply Canonical_ToLower|apply Canonical_valid|]. intros Ha.
  rewrite !Canonical_ToLower, (ToLower_ascii _ s) by done.
  rewrite ToLower_ascii by by apply is_ascii_lower. apply map_lower_idem.
Qed.

Lemma canonical_key_is_lower_witness :
  CanonicalHTTP2HeaderKey id (str "content-type") = str "content-type".
Proof. apply (canonical_key_is_lower id (str "content-type")). reflexivity. Defined.

(** Every branch of [Header.add].  An empty key panics; an upper-case, non-ASCII or
    unknown pseudo-header key, or a pseudo-header after more than five values, is
    rejected and the header unchanged; any other field is appended to its key's values
    and nothing else changes. *)
Theorem header_add_spec h key value s :
  match Header_add h key value s with
  | (Panic, h') => key = [] /\ h' = h
  | (Err e, h') => e = errMalformedHeader /\ h' = h /\ key <> [] /\ ~ addable (Header_Len h) key
  | (Ok _, h') => addable (Header_Len h) key /\ Header_Len h' = Header_Len h + 1 /\
      forall k, values h' k = if decide (key = k) then values h k ++ [value] else values h k
  end.
Proof.
  destruct key as [|c key]; [by split|]. cbn [Header_add].
  assert (Hok : addable (Header_Len h) (c :: key) ->
    forall x, x = Some (<[c :: key := values h (c :: key) ++ [value]]> (default ∅ h)) ->
    addable (Header_Len h) (c :: key) /\ Header_Len x = Header_Len h + 1 /\
    forall k, values x k = if decide (c :: key = k) then values h k ++ [value] else values h k).
  { intros Ha x ->. split; [done|]. split.
    - by destruct (Header_add_ok h _ value s Ha) as (? & _ & Hl & <-).
    - intros k. rewrite values_insert, values_default. by case_decide; subst. }
  unfold addable in *. destruct (Z.eqb_spec (bz c) 58) as [Hc|Hc]; cbn [andb].
  - destruct (Z.ltb_spec 5 (Header_Len h)).
    { split_and!; try done. intros [_ Hp]. specialize (Hp c key eq_refl Hc). lia. }
    case_bool_decide as Hm; cbn [negb].
    + destruct (validHeaderKey (c :: key)) eqn:Hv; cbn [negb]; [|by split_and!; try done; intros []].
      apply Hok; [|done]. split; [done|]. intros ? ? [= <- <-] _. by split.
    + split_and!; try done. intros [_ Hp]. by destruct (Hp c key eq_refl Hc).
  - destruct (validHeaderKey (c :: key)) eqn:Hv; cbn [negb]; [|by split_and!; try done; intros []].
    apply Hok; [|done]. split; [done|]. by intros ? ? [= <- <-].
Qed.

(** A header collected field by field holds the fields.  Starting from a nil header and
    given acceptable fields, [Header.add] accepts them all, each key then has exactly its
    values in the order they came, and the length is the number of fields. *)
Theorem header_collects fs :
  addable_all 0 fs ->
  exists h, add_all None fs = (Ok tt, h) /\ Header_Len h = zlen fs /\
    forall k, values h k = field_values fs k.
Proof. intros H. by destruct (add_all_ok fs None H) as (h & He & Hl & Hv); exists h. Qed.

Lemma header_collects_witness :
  exists h, add_all None [(str ":method", str "GET"); (str "cookie", str "a"); (str "cookie", str "b")]
      = (Ok tt, h) /\ Header_Len h = 3 /\
    forall k, values h k = field_values [(str ":method", str "GET"); (str "cookie", str "a");
                                         (str "cookie", str "b")] k.
Proof.
  apply header_collects. cbn [addable_all]. split_and!; try exact I; split; try reflexivity;
    intros c k [= <- <-]; try discriminate. intros _. split; [lia|].
  apply (bool_decide_unpack _). vm_compute. exact I.
Defined.
