(* ===== verification/FrameWriter.v ===== *)
(** * Writing frames ([src/write.go])

    [frameWriter] with its scratch buffer, its sticky error and the HPACK encoder, and the
    [writeTo] method of every frame type.  The byte sink below it, the [io.Writer], is the
    interface [Sink]; [io.CopyN] copies what the source yields, up to the count, in one
    write, and reports an end of file if that is less than the count.

    Go iterates over a map in an unspecified order: the orders in which the pseudo-header
    names and the fields of a header are visited are arguments of the methods that write
    header blocks.

    [HeadersFrame.writeTo] and [PushPromiseFrame.writeTo] differ in the guards, the flags
    and the bytes between the frame header and the fragment, and are otherwise the same
    code; [writeHeaderBlock] is that code. *)

From S2P Require Import Prelude HeaderTable HpackEncode HpackDecode Types HttpHeader.

(** ** The byte sink *)

(** A write takes all bytes, or takes some of them and fails; after a failure every write
    fails, as [bufio.Writer] documents. *)
Class Sink (W : Type) := {
  sink_write : W -> list byte -> W * option error;
  sink_out : W -> list byte;
  sink_write_ok w b w' :
    sink_write w b = (w', None) -> sink_out w' = sink_out w ++ b;
  sink_write_err w b w' e :
    sink_write w b = (w', Some e) -> exists k, sink_out w' = sink_out w ++ take k b;
  sink_sticky w b w' e b' :
    sink_write w b = (w', Some e) -> exists w'' e', sink_write w' b' = (w'', Some e');
}.

(** A sink that takes everything. *)
#[global] Instance list_sink : Sink (list byte).
Proof.
  refine {| sink_write w b := (w ++ b, None); sink_out w := w |}.
  - by intros w b w' [= <-].
  - done.
  - done.
Defined.

(** ** Encoding *)

Definition be16 (v : Z) : list byte := [zb (Z.shiftr v 8); zb v].

Definition be32 (v : Z) : list byte :=
  [zb (Z.shiftr v 24); zb (Z.shiftr v 16); zb (Z.shiftr v 8); zb v].

(** The nine bytes of [writeFrameHeader]. *)
Definition frameHeader (payloadLen frameType flags streamID : Z) : list byte :=
  [zb (Z.shiftr payloadLen 16); zb (Z.shiftr payloadLen 8); zb payloadLen; zb frameType; zb flags]
    ++ be32 streamID.

Definition validStreamID (streamID : Z) : bool :=
  negb (streamID =? 0) && (Z.land streamID (Z.shiftl 1 31) =? 0).

Definition zeroBuf : list byte := replicate 255 Byte.x00.

(** ** The writer *)

Section Writer.
Context {W : Type} `{Sink W}.
Variable unicodeToLower : gostring -> gostring.

Record frameWriter := MkFW {
  fw_w : W;
  fw_buf : list byte;
  fw_maxFrameSize : Z;
  fw_err : option error;
  fw_enc : Encoder;
  fw_hpackBuf : list byte;
  fw_maxHeaderListSize : Z;
}.

Definition newFrameWriter (w : W) : frameWriter :=
  MkFW w [] defaultMaxFrameSize None (NewEncoder defaultHeaderTableSize) [] 0.

Definition fw_set_buf (b : list byte) (w : frameWriter) : frameWriter :=
  MkFW (fw_w w) b (fw_maxFrameSize w) (fw_err w) (fw_enc w) (fw_hpackBuf w) (fw_maxHeaderListSize w).
Definition fw_set_w (x : W) (e : option error) (w : frameWriter) : frameWriter :=
  MkFW x (fw_buf w) (fw_maxFrameSize w) e (fw_enc w) (fw_hpackBuf w) (fw_maxHeaderListSize w).
Definition fw_set_hpack (enc : Encoder) (b : list byte) (w : frameWriter) : frameWriter :=
  MkFW (fw_w w) (fw_buf w) (fw_maxFrameSize w) (fw_err w) enc b (fw_maxHeaderListSize w).

(** [frameWriter.Write]: nothing is written once an error was seen. *)
Definition fw_Write (src : list byte) (w : frameWriter) : frameWriter :=
  match fw_err w with
  | Some _ => w
  | None => let (x, e) := sink_write (fw_w w) src in fw_set_w x e w
  end.

(** [_, w.err = io.CopyN(w.Writer, data, n)], and what the source has left. *)
Definition fw_CopyN (data : list byte) (n : Z) (w : frameWriter) : frameWriter * list byte :=
  let chunk := take (Z.to_nat n) data in
  let (x, e) := sink_write (fw_w w) chunk in
  let e := match e with
           | Some e => Some e
           | None => if zlen chunk <? n then Some ErrEOF else None
           end in
  (fw_set_w x e w, drop (Z.to_nat n) data).

Definition writeFrameHeader (payloadLen frameType flags streamID : Z) (w : frameWriter) : frameWriter :=
  fw_set_buf (frameHeader payloadLen frameType flags streamID) w.
Definition writeByte (v : Z) (w : frameWriter) : frameWriter := fw_set_buf (fw_buf w ++ [zb v]) w.
Definition writeUint16 (v : Z) (w : frameWriter) : frameWriter := fw_set_buf (fw_buf w ++ be16 v) w.
Definition writeUint32 (v : Z) (w : frameWriter) : frameWriter := fw_set_buf (fw_buf w ++ be32 v) w.

(** [w.Write(w.buf)] *)
Definition flushBuf (w : frameWriter) : frameWriter := fw_Write (fw_buf w) w.

(** What a [writeTo] returns: nil, an error, or a panic. *)
Definition wresult : Type := outcome error unit * frameWriter.

(** [return w.err] *)
Definition return_err (w : frameWriter) : wresult :=
  match fw_err w with None => (Ok tt, w) | Some e => (Err e, w) end.

Definition fail (e : error) (w : frameWriter) : wresult := (Err e, w).

(** ** DATA *)

(** How much of the data and of the padding goes into the next frame. *)
Definition dataSplit (max remainingData padding : Z) : Z * Z :=
  let dataLen := if max <? remainingData then max else remainingData in
  let padLen := max - dataLen in
  let padLen := if 0 <? padLen then padLen - 1 else padLen in
  let padLen := if padding <? padLen then padding else padLen in
  (dataLen, padLen).

(** One frame of the loop. *)
Definition writeDataFrame (streamID : Z) (data : list byte) (dataLen padLen flags : Z)
    (w : frameWriter) : frameWriter * list byte :=
  let w :=
    if 0 <? padLen then
      writeByte padLen
        (writeFrameHeader (u32 (dataLen + padLen + 1)) FrameData (Z.lor flags FlagPadded) streamID w)
    else writeFrameHeader dataLen FrameData flags streamID w in
  let w := flushBuf w in
  let (w, data) := if 0 <? dataLen then fw_CopyN data dataLen w else (w, data) in
  (fw_Write (take (Z.to_nat padLen) zeroBuf) w, data).

(** [for !lastFrame && w.err == nil]; every frame carries data or padding, so as many
    rounds as there are bytes, and one, are enough ([data_loop_ok]). *)
Fixpoint data_loop (fuel : nat) (streamID : Z) (endStream : bool) (data : list byte)
    (remainingData padding : Z) (w : frameWriter) : frameWriter :=
  match fuel with
  | O => w
  | S fuel =>
    match fw_err w with
    | Some _ => w
    | None =>
      let '(dataLen, padLen) := dataSplit (fw_maxFrameSize w) remainingData padding in
      let remainingData := remainingData - dataLen in
      let padding := padding - padLen in
      let lastFrame := (remainingData =? 0) && (padding =? 0) in
      let flags := if endStream && lastFrame then FlagEndStream else 0 in
      let (w, data) := writeDataFrame streamID data dataLen padLen flags w in
      if lastFrame then w
      else data_loop fuel streamID endStream data remainingData padding w
    end
  end.

Definition DataFrame_writeTo (streamID : Z) (data : option (list byte)) (dataLen padLen : Z)
    (endStream : bool) (w : frameWriter) : wresult :=
  if negb (validStreamID streamID) then fail (PlainError "bad stream ID") w
  else if (dataLen <? 0) || ((0 <? dataLen) && bool_decide (data = None)) then
    fail (PlainError "bad data") w
  else
    let remainingData := u32 dataLen in
    return_err (data_loop (S (Z.to_nat (remainingData + padLen))) streamID endStream (default [] data)
                  remainingData padLen w).

(** ** Header blocks *)

(** The priority fields. *)
Definition priorityBytes (p : Priority) : list byte :=
  be32 (if Exclusive p then Z.lor (StreamDependency p) (Z.shiftl 1 31) else StreamDependency p)
    ++ [zb (Weight p)].

(** What is fixed for one header block: the type of its first frame, its stream, the bytes
    between frame header and fragment, their length with the padding, and the padding. *)
Record blockParams := MkBP {
  bp_type : Z; bp_streamID : Z; bp_prefix : list byte; bp_nonFragmentLen : Z; bp_padLen : Z }.

(** The state of the loop over the fields: the writer, the flags of the first frame,
    whether it was sent, the fields left and the size written. *)
Record blockState := MkBS {
  bs_w : frameWriter; bs_flags : Z; bs_first : bool; bs_remaining : Z; bs_written : Z }.

(** One fragment: the code from the label [write] to the test of [w.err]. *)
Definition writeFragment (bp : blockParams) (s : blockState) : Z * blockState :=
  let w := bs_w s in
  let fragmentLen := u32 (zlen (fw_hpackBuf w)) in
  if negb (bs_first s) then
    let maxFragmentLen := u32 (fw_maxFrameSize w - bp_nonFragmentLen bp) in
    let '(fragmentLen, flags) :=
      if maxFragmentLen <? fragmentLen then (maxFragmentLen, bs_flags s)
      else if bs_remaining s =? 0 then (fragmentLen, Z.lor (bs_flags s) FlagEndHeaders)
      else (fragmentLen, bs_flags s) in
    let w := writeFrameHeader (u32 (fragmentLen + bp_nonFragmentLen bp)) (bp_type bp) flags (bp_streamID bp) w in
    let w := fw_set_buf (fw_buf w ++ bp_prefix bp) w in
    let w := flushBuf w in
    let w := fw_Write (take (Z.to_nat fragmentLen) (fw_hpackBuf w)) w in
    let w := fw_Write (take (Z.to_nat (bp_padLen bp)) zeroBuf) w in
    (fragmentLen, MkBS w flags true (bs_remaining s) (bs_written s))
  else
    let '(fragmentLen, flags) :=
      if fw_maxFrameSize w <? fragmentLen then (fw_maxFrameSize w, 0)
      else if bs_remaining s =? 0 then (fragmentLen, FlagEndHeaders)
      else (fragmentLen, 0) in
    let w := flushBuf (writeFrameHeader fragmentLen FrameContinuation flags (bp_streamID bp) w) in
    let w := fw_Write (take (Z.to_nat fragmentLen) (fw_hpackBuf w)) w in
    (fragmentLen, MkBS w (bs_flags s) true (bs_remaining s) (bs_written s)).

(** The loop through [goto write]; each fragment takes bytes off the buffer, so one round
    more than there are bytes is enough. *)
Fixpoint writeFragments (fuel : nat) (bp : blockParams) (s : blockState) : option error * blockState :=
  match fuel with
  | O => (None, s)
  | S fuel =>
    let '(fragmentLen, s) := writeFragment bp s in
    let w := bs_w s in
    match fw_err w with
    | Some e => (Some e, s)
    | None =>
      let rest := drop (Z.to_nat fragmentLen) (fw_hpackBuf w) in
      let s := MkBS (fw_set_hpack (fw_enc w) rest w) (bs_flags s) (bs_first s) (bs_remaining s) (bs_written s) in
      if (fw_maxFrameSize w <=? zlen rest) || ((bs_remaining s =? 0) && (0 <? zlen rest))
      then writeFragments fuel bp s
      else (None, s)
    end
  end.

(** [n, w.hpackBuf = w.EncodeHeaderField(w.hpackBuf, k, v, false); written += n; remainingHeader--] *)
Definition encodeField (k v : gostring) (s : blockState) : option blockState :=
  let w := bs_w s in
  '(n, buf, enc) ← EncodeHeaderField (fw_enc w) (fw_hpackBuf w) k v false;
  Some (MkBS (fw_set_hpack enc buf w) (bs_flags s) (bs_first s) (bs_remaining s - 1)
          (u32 (bs_written s + n))).

(** The result of a loop: the state to go on with, or the return value. *)
Definition bresult : Type := outcome error unit * blockState.

(** [for k := range pseudoHeader] *)
Fixpoint encodePseudo (order : list gostring) (h : Header) (s : blockState) : bresult :=
  match order with
  | [] => (Ok tt, s)
  | k :: order =>
    match (m ← h; m !! k) with
    | None => encodePseudo order h s
    | Some (_ :: _ :: _) => (Err errMalformedHeader, s)
    | Some [] => (Panic, s)
    | Some [v] =>
      match encodeField k v s with
      | Some s => encodePseudo order h s
      | None => (Panic, s)
      end
    end
  end.

(** [for _, v := range vv] *)
Fixpoint encodeValues (k : gostring) (vv : list gostring) (s : blockState) : bresult :=
  match vv with
  | [] => (Ok tt, s)
  | v :: vv =>
    match encodeField k v s with
    | None => (Panic, s)
    | Some s =>
      let max := fw_maxHeaderListSize (bs_w s) in
      if negb (max =? 0) && (max <? bs_written s) then (Err HpackHeaderFieldsTooLarge, s)
      else encodeValues k vv s
    end
  end.

(** [for k, vv := range f.Header] *)
Fixpoint encodeFields (bp : blockParams) (order : list (gostring * list gostring)) (s : blockState) : bresult :=
  match order with
  | [] => (Ok tt, s)
  | (k, vv) :: order =>
    if bool_decide (k ∈ pseudoHeader) then encodeFields bp order s
    else
      match k with
      | [] => (Err errMalformedHeader, s)
      | c :: _ =>
        if bz c =? 58 then (Err errMalformedHeader, s)
        else
          match encodeValues (CanonicalHTTP2HeaderKey unicodeToLower k) vv s with
          | (Ok _, s) =>
            if (0 <? bs_remaining s) && (u32 (zlen (fw_hpackBuf (bs_w s))) <? fw_maxFrameSize (bs_w s))
            then encodeFields bp order s
            else
              match writeFragments (S (length (fw_hpackBuf (bs_w s)))) bp s with
              | (Some e, s) => (Err e, s)
              | (None, s) => encodeFields bp order s
              end
          | r => r
          end
      end
  end.

Definition writeHeaderBlock (bp : blockParams) (flags : Z) (h : Header)
    (pseudoOrder : list gostring) (order : list (gostring * list gostring)) (w : frameWriter) : wresult :=
  let remainingHeader := Header_Len h in
  if remainingHeader =? 0 then
    let w := writeFrameHeader (bp_nonFragmentLen bp) (bp_type bp) (Z.lor flags FlagEndHeaders) (bp_streamID bp) w in
    let w := fw_set_buf (fw_buf w ++ bp_prefix bp) w in
    return_err (fw_Write (take (Z.to_nat (bp_padLen bp)) zeroBuf) (flushBuf w))
  else
    let s := MkBS (fw_set_hpack (fw_enc w) [] w) flags false remainingHeader 0 in
    match encodePseudo pseudoOrder h s with
    | (Ok _, s) => let '(r, s) := encodeFields bp order s in (r, bs_w s)
    | (r, s) => (r, bs_w s)
    end.

Definition HeadersFrame_writeTo (streamID : Z) (h : Header) (prio : Priority) (padLen : Z)
    (endStream : bool) (pseudoOrder : list gostring) (order : list (gostring * list gostring))
    (w : frameWriter) : wresult :=
  if negb (validStreamID streamID) then fail (PlainError "bad stream ID") w
  else if HasPriority prio && negb (validStreamID (StreamDependency prio)) then
    fail (PlainError "bad stream dependency") w
  else
    let padded := 0 <? padLen in
    let flags := Z.lor (Z.lor (if padded then FlagPadded else 0)
                          (if HasPriority prio then FlagPriority else 0))
                   (if endStream then FlagEndStream else 0) in
    let nonFragmentLen := (if padded then padLen + 1 else 0) + (if HasPriority prio then 5 else 0) in
    let prefix := (if padded then [zb padLen] else [])
                    ++ (if HasPriority prio then priorityBytes prio else []) in
    writeHeaderBlock (MkBP FrameHeaders streamID prefix nonFragmentLen padLen) flags h pseudoOrder order w.

Definition PushPromiseFrame_writeTo (streamID promisedStreamID : Z) (h : Header) (padLen : Z)
    (pseudoOrder : list gostring) (order : list (gostring * list gostring)) (w : frameWriter) : wresult :=
  if negb (validStreamID streamID) then fail (PlainError "bad stream ID") w
  else if negb (validStreamID promisedStreamID) then fail (PlainError "bad promised stream ID") w
  else
    let padded := 0 <? padLen in
    let flags := if padded then FlagPadded else 0 in
    let nonFragmentLen := 4 + (if padded then padLen + 1 else 0) in
    let prefix := (if padded then [zb padLen] else []) ++ be32 promisedStreamID in
    writeHeaderBlock (MkBP FramePushPromise streamID prefix nonFragmentLen padLen) flags h pseudoOrder order w.

(** ** The other frames *)

Definition PriorityFrame_writeTo (streamID : Z) (prio : Priority) (w : frameWriter) : wresult :=
  if negb (validStreamID streamID) then fail (PlainError "bad stream ID") w
  else if negb (validStreamID (StreamDependency prio)) then fail (PlainError "bad stream dependency") w
  else
    let w := writeFrameHeader 5 FramePriority 0 streamID w in
    let w := if Exclusive prio then writeUint32 (Z.lor (StreamDependency prio) (Z.shiftl 1 31)) w
             else writeUint32 (StreamDependency prio) w in
    return_err (flushBuf (writeByte (Weight prio) w)).

Definition RSTStreamFrame_writeTo (streamID errCode : Z) (w : frameWriter) : wresult :=
  if negb (validStreamID streamID) then fail (PlainError "bad stream ID") w
  else return_err (flushBuf (writeUint32 errCode (writeFrameHeader 4 FrameRSTStream 0 streamID w))).

Definition writeSettings (s : Settings) (w : frameWriter) : frameWriter :=
  foldl (fun w x => writeUint32 (s_Value x) (writeUint16 (s_ID x) w)) w s.

Definition SettingsFrame_writeTo (ack : bool) (s : Settings) (w : frameWriter) : wresult :=
  if ack then
    if 0 <? zlen s then fail (PlainError "ACK settings frame must have an empty payload") w
    else return_err (flushBuf (writeFrameHeader 0 FrameSettings FlagAck 0 w))
  else
    return_err (flushBuf (writeSettings s (writeFrameHeader (u32 (settingLen * zlen s)) FrameSettings 0 0 w))).

Definition PingFrame_writeTo (ack : bool) (data : list byte) (w : frameWriter) : wresult :=
  let w := writeFrameHeader (u32 (zlen data)) FramePing (if ack then FlagAck else 0) 0 w in
  return_err (fw_Write data (flushBuf w)).

Definition GoAwayFrame_writeTo (lastStreamID errCode : Z) (debugData : list byte) (w : frameWriter) : wresult :=
  let w := writeFrameHeader (u32 (8 + zlen debugData)) FrameGoAway 0 0 w in
  let w := writeUint32 errCode (writeUint32 (Z.land lastStreamID (2 ^ 31 - 1)) w) in
  return_err (fw_Write debugData (flushBuf w)).

Definition WindowUpdateFrame_writeTo (streamID increment : Z) (w : frameWriter) : wresult :=
  if (increment =? 0) || (maxInitialWindowSize <? increment) then
    fail (PlainError "bad window size increment") w
  else return_err (flushBuf (writeUint32 increment (writeFrameHeader 4 FrameWindowUpdate 0 streamID w))).

Definition UnknownFrame_writeTo (frameType streamID flags : Z) (payload : option (list byte))
    (payloadLen : Z) (w : frameWriter) : wresult :=
  if (payloadLen <? 0) || ((0 <? payloadLen) && bool_decide (payload = None)) then
    fail (PlainError "bad payload") w
  else
    let w := flushBuf (writeFrameHeader (u32 payloadLen) frameType flags streamID w) in
    return_err (if 0 <? payloadLen then (fw_CopyN (default [] payload) payloadLen w).1 else w).

(** [frameWriter.WriteFrame]: dispatch on the type of the frame. *)
Definition WriteFrame (f : Frame) (pseudoOrder : list gostring) (order : list (gostring * list gostring))
    (w : frameWriter) : wresult :=
  match f with
  | DataFrame id data n p e => DataFrame_writeTo id data n p e w
  | HeadersFrame id h prio p e => HeadersFrame_writeTo id h prio p e pseudoOrder order w
  | PriorityFrame id prio => PriorityFrame_writeTo id prio w
  | RSTStreamFrame id c => RSTStreamFrame_writeTo id c w
  | SettingsFrame ack s => SettingsFrame_writeTo ack s w
  | PushPromiseFrame id pid h p => PushPromiseFrame_writeTo id pid h p pseudoOrder order w
  | PingFrame ack d => PingFrame_writeTo ack d w
  | GoAwayFrame l c d => GoAwayFrame_writeTo l c d w
  | WindowUpdateFrame id n => WindowUpdateFrame_writeTo id n w
  | UnknownFrame t id fl d n => UnknownFrame_writeTo t id fl d n w
  end.
End Writer.
Arguments frameWriter W : clear implicits.
