(* ===== verification/FrameReader.v ===== *)
(** * Reading frames ([src/read.go])

    [frameReader] reads frames from a buffered reader.  The model's input is the bytes the
    connection still delivers and the error it ends with; [Peek], [Discard], [ReadByte]
    and [io.ReadFull] behave on it as documented: a [Peek] beyond the end returns what
    there is with the error, a [Discard] takes what there is.  The payload of a DATA or
    unknown frame stays in the input and is skipped, as far as it was not read, by the
    next [ReadFrame].

    Two places ignore the error of a [Peek].  [readUint32] then panics on the short slice;
    the loop of [SettingsFrame.readFrom] extends the short slice into whatever the buffer
    holds behind its valid bytes, which is the field [fr_stale].

    The handler of the HPACK decoder is [Header.add] on the header of the frame being
    read, the state [d_hs] of the decoder while it runs. *)

From S2P Require Import Prelude HeaderTable HpackEncode HpackDecode Types Settings HttpHeader.

(** ** The reader *)

Record frameReader := MkFR {
  fr_in : list byte;
  fr_end : error;
  fr_stale : list byte;
  fr_bufSize : Z;
  fr_maxFrameSize : Z;
  fr_dec : Decoder Header error;
  fr_maxHeaderListSize : Z;
  fr_pending : option Frame;
  fr_payloadLen : Z;
  fr_frameType : Z;
  fr_flags : Z;
  fr_streamID : Z;
  fr_lastPayload : option (Z * Z);
}.

Definition newFrameReader (input : list byte) (e : error) (stale : list byte) (bufSize : Z) : frameReader :=
  MkFR input e stale bufSize defaultMaxFrameSize (NewDecoder defaultHeaderTableSize None) 0 None 0 0 0 0 None.

Definition fr_set_in (x : list byte) (r : frameReader) : frameReader :=
  MkFR x (fr_end r) (fr_stale r) (fr_bufSize r) (fr_maxFrameSize r) (fr_dec r) (fr_maxHeaderListSize r)
    (fr_pending r) (fr_payloadLen r) (fr_frameType r) (fr_flags r) (fr_streamID r) (fr_lastPayload r).
Definition fr_set_dec (x : Decoder Header error) (r : frameReader) : frameReader :=
  MkFR (fr_in r) (fr_end r) (fr_stale r) (fr_bufSize r) (fr_maxFrameSize r) x (fr_maxHeaderListSize r)
    (fr_pending r) (fr_payloadLen r) (fr_frameType r) (fr_flags r) (fr_streamID r) (fr_lastPayload r).
Definition fr_set_pending (x : option Frame) (r : frameReader) : frameReader :=
  MkFR (fr_in r) (fr_end r) (fr_stale r) (fr_bufSize r) (fr_maxFrameSize r) (fr_dec r) (fr_maxHeaderListSize r)
    x (fr_payloadLen r) (fr_frameType r) (fr_flags r) (fr_streamID r) (fr_lastPayload r).
Definition fr_set_header (len ty fl id : Z) (r : frameReader) : frameReader :=
  MkFR (fr_in r) (fr_end r) (fr_stale r) (fr_bufSize r) (fr_maxFrameSize r) (fr_dec r) (fr_maxHeaderListSize r)
    (fr_pending r) len ty fl id (fr_lastPayload r).
Definition fr_set_last (x : option (Z * Z)) (r : frameReader) : frameReader :=
  MkFR (fr_in r) (fr_end r) (fr_stale r) (fr_bufSize r) (fr_maxFrameSize r) (fr_dec r) (fr_maxHeaderListSize r)
    (fr_pending r) (fr_payloadLen r) (fr_frameType r) (fr_flags r) (fr_streamID r) x.

(** ** A state, error and panic monad over the reader *)

Definition R (A : Type) : Type := frameReader -> outcome error A * frameReader.

Definition rret {A} (a : A) : R A := fun r => (Ok a, r).
Definition rthrow {A} (e : error) : R A := fun r => (Err e, r).
Definition rbind {A B} (m : R A) (k : A -> R B) : R B := fun r =>
  match m r with
  | (Ok a, r) => k a r
  | (Err e, r) => (Err e, r)
  | (Panic, r) => (Panic, r)
  end.
Definition rget {A} (f : frameReader -> A) : R A := fun r => (Ok (f r), r).
Definition rmodify (f : frameReader -> frameReader) : R unit := fun r => (Ok tt, f r).
Definition rwhen (b : bool) (m : R unit) : R unit := if b then m else rret tt.

Declare Scope reader_scope.
Delimit Scope reader_scope with reader.
Notation "x <- m ;; k" := (rbind m (fun x => k))
  (at level 100, m at next level, right associativity) : reader_scope.
Notation "m ;; k" := (rbind m (fun _ => k)) (at level 100, right associativity) : reader_scope.
#[local] Open Scope reader_scope.

(** *** The buffered reader *)

(** [Peek(n)]: [n] bytes, or the error. *)
Definition peek (n : Z) : R (list byte) := fun r =>
  if zlen (fr_in r) <? n then (Err (fr_end r), r) else (Ok (take (Z.to_nat n) (fr_in r)), r).

(** [Discard(n)] with its error ignored. *)
Definition discard (n : Z) : R unit := rmodify (fun r => fr_set_in (drop (Z.to_nat n) (fr_in r)) r).

(** [Discard(n)] with its error returned. *)
Definition discard_err (n : Z) : R unit := fun r =>
  (if zlen (fr_in r) <? n then Err (fr_end r) else Ok tt, fr_set_in (drop (Z.to_nat n) (fr_in r)) r).

(** [b, _ := ReadByte()]: zero at the end of the input. *)
Definition readByte : R Z := fun r =>
  match fr_in r with
  | [] => (Ok 0, r)
  | b :: l => (Ok (bz b), fr_set_in l r)
  end.

(** [io.ReadFull] into [n] bytes. *)
Definition readFull (n : Z) : R (list byte) := fun r =>
  let l := take (Z.to_nat n) (fr_in r) in
  let r' := fr_set_in (drop (Z.to_nat n) (fr_in r)) r in
  if zlen l <? n then
    (Err (match fr_end r, l with ErrEOF, _ :: _ => ErrUnexpectedEOF | e, _ => e end), r')
  else (Ok l, r').

(** [binary.BigEndian]; a short slice panics. *)
Definition uint16 (b : list byte) : option Z :=
  match b with
  | x :: y :: _ => Some (Z.lor (bz y) (Z.shiftl (bz x) 8))
  | _ => None
  end.

Definition uint32 (b : list byte) : option Z :=
  match b with
  | x :: y :: z :: w :: _ =>
    Some (Z.lor (Z.lor (Z.lor (bz w) (Z.shiftl (bz z) 8)) (Z.shiftl (bz y) 16)) (Z.shiftl (bz x) 24))
  | _ => None
  end.

Definition orPanic {A} (o : option A) : R A := fun r =>
  match o with Some a => (Ok a, r) | None => (Panic, r) end.

Definition readUint32 : R Z :=
  b <- rget (fun r => take 4 (fr_in r)) ;;
  v <- orPanic (uint32 b) ;;
  discard 4 ;;
  rret v.

Definition hasFlag (v : Z) : R bool := rget (fun r => Flags_Has (fr_flags r) v).

(** ** The [readFrom] methods *)

Definition connError {A} (code : Z) : R A := rthrow (ConnError code).

(** The payload reader of a DATA or unknown frame. *)
Definition payload (n : Z) : R (option (list byte)) := rget (fun r => Some (take (Z.to_nat n) (fr_in r))).

Definition DataFrame_readFrom : R Frame :=
  streamID <- rget fr_streamID ;;
  payloadLen <- rget fr_payloadLen ;;
  (if streamID =? 0 then connError ErrCodeProtocol else rret tt) ;;
  padded <- hasFlag FlagPadded ;;
  np <- (if padded : bool then
           padLen <- readByte ;;
           if payloadLen <=? padLen then connError ErrCodeProtocol
           else rret (payloadLen - (padLen + 1), padLen)
         else rret (payloadLen, 0)) ;;
  endStream <- hasFlag FlagEndStream ;;
  rmodify (fr_set_last (Some np)) ;;
  data <- payload np.1 ;;
  rret (DataFrame streamID data np.1 np.2 endStream).

(** The errors of [Decode] and [Reset] as [ReadFrame] passes them on. *)
Definition hpackErr (e : hpackError error) : error :=
  match e with
  | ErrHeaderFieldsTooLarge => ConnError ErrCodeEnhanceYourCalm
  | DecodingError _ => ConnError ErrCodeCompression
  | HandlerError e => e
  | errNeedsMore => PlainError "hpack: need more data"
  end.

(** The header of the frame being read is the state of the decoder's handler. *)
Definition decodeChunk (chunk : list byte) : R unit := fun r =>
  match Decode (Some Header_add) (fr_dec r) chunk (fr_maxHeaderListSize r) with
  | (Ok _, d) => (Ok tt, fr_set_dec d r)
  | (Err e, d) => (Err (hpackErr e), fr_set_dec d r)
  | (Panic, d) => (Panic, fr_set_dec d r)
  end.

Definition resetDecoder : R unit := fun r =>
  match Reset (fr_dec r) with
  | (None, d) => (Ok tt, fr_set_dec d r)
  | (Some e, d) => (Err (hpackErr e), fr_set_dec d r)
  end.

(** [for fragmentLen > 0]; a round takes at least one byte off the fragment. *)
Fixpoint readFragment (fuel : nat) (fragmentLen : Z) : R unit :=
  match fuel with
  | O => rret tt
  | S fuel =>
    if 0 <? fragmentLen then
      bufSize <- rget fr_bufSize ;;
      let chunkSize := if bufSize <? fragmentLen then bufSize else fragmentLen in
      chunk <- peek chunkSize ;;
      decodeChunk chunk ;;
      discard chunkSize ;;
      readFragment fuel (fragmentLen - chunkSize)
    else rret tt
  end.

(** [f.Header] before and after the fragment is decoded. *)
Definition setHandlerState (h : Header) : R unit := rmodify (fun r => fr_set_dec (set_hs h (fr_dec r)) r).
Definition handlerState : R Header := rget (fun r => d_hs (fr_dec r)).

(** The common tail of the two header frames; [mk] rebuilds the frame with its header. *)
Definition finishHeaders (mk : Header -> Frame) (padLen fragmentLen : Z) : R Frame :=
  readFragment (S (Z.to_nat fragmentLen)) fragmentLen ;;
  h <- handlerState ;;
  frameType <- rget fr_frameType ;;
  rwhen (frameType =? Frame_Type (mk h)) (discard padLen) ;;
  endHeaders <- hasFlag FlagEndHeaders ;;
  (if endHeaders : bool then
     fun r => match resetDecoder r with
              | (x, r) => (x, fr_set_pending None r)
              end
   else rmodify (fr_set_pending (Some (mk h)))) ;;
  rret (mk h).

Definition HeadersFrame_readFrom (f : Frame) : R Frame :=
  streamID <- rget fr_streamID ;;
  payloadLen <- rget fr_payloadLen ;;
  frameType <- rget fr_frameType ;;
  (if streamID =? 0 then connError ErrCodeProtocol else rret tt) ;;
  if frameType =? FrameContinuation then
    match f with
    | HeadersFrame id h prio padLen endStream =>
      (if streamID =? id then rret tt else connError ErrCodeProtocol) ;;
      setHandlerState h ;;
      finishHeaders (fun h => HeadersFrame id h prio padLen endStream) padLen payloadLen
    | _ => orPanic None
    end
  else
    padded <- hasFlag FlagPadded ;;
    lp <- (if padded : bool then padLen <- readByte ;; rret (payloadLen - (padLen + 1), padLen)
           else rret (payloadLen, 0)) ;;
    priority <- hasFlag FlagPriority ;;
    fp <- (if priority : bool then
             v <- readUint32 ;;
             weight <- readByte ;;
             let dep := Z.land v 0x7fffffff in
             rret (lp.1 - 5, MkPriority dep weight (negb (dep =? v)))
           else rret (lp.1, noPriority)) ;;
    endStream <- hasFlag FlagEndStream ;;
    (if fp.1 <? 0 then connError ErrCodeProtocol else rret tt) ;;
    setHandlerState None ;;
    finishHeaders (fun h => HeadersFrame streamID h fp.2 lp.2 endStream) lp.2 fp.1.

Definition PriorityFrame_readFrom : R Frame :=
  streamID <- rget fr_streamID ;;
  payloadLen <- rget fr_payloadLen ;;
  (if streamID =? 0 then connError ErrCodeProtocol else rret tt) ;;
  if negb (payloadLen =? 5) then
    discard_err payloadLen ;; rthrow (StreamError ErrCodeFrameSize streamID)
  else
    x <- readUint32 ;;
    weight <- readByte ;;
    let dep := Z.land x 0x7fffffff in
    rret (PriorityFrame streamID (MkPriority dep weight (negb (dep =? x)))).

Definition RSTStreamFrame_readFrom : R Frame :=
  streamID <- rget fr_streamID ;;
  payloadLen <- rget fr_payloadLen ;;
  (if streamID =? 0 then connError ErrCodeProtocol else rret tt) ;;
  (if payloadLen =? 4 then rret tt else connError ErrCodeFrameSize) ;;
  errCode <- readUint32 ;;
  rret (RSTStreamFrame streamID errCode).

(** The error for a value [SetValue] refuses. *)
Definition settingError (id : Z) : error :=
  if id =? SettingInitialWindowSize then ConnError ErrCodeFlowControl
  else if id =? SettingMaxFrameSize then ConnError ErrCodeFrameSize
  else ConnError ErrCodeProtocol.

(** The loop over the settings of the payload. *)
Fixpoint readSettings (n : nat) (s : Settings) : R Settings :=
  match n with
  | O => rret s
  | S n =>
    b <- rget (fun r => take 6 (take 6 (fr_in r) ++ fr_stale r)) ;;
    id <- orPanic (uint16 b) ;;
    v <- orPanic (uint32 (drop 2 b)) ;;
    discard settingLen ;;
    match SetValue s id v with
    | Some s => readSettings n s
    | None => rthrow (settingError id)
    end
  end.

Definition SettingsFrame_readFrom : R Frame :=
  streamID <- rget fr_streamID ;;
  payloadLen <- rget fr_payloadLen ;;
  (if streamID =? 0 then rret tt else connError ErrCodeProtocol) ;;
  ack <- hasFlag FlagAck ;;
  if ack : bool then
    if 0 <? payloadLen then connError ErrCodeFrameSize else rret (SettingsFrame true [])
  else if negb (payloadLen mod settingLen =? 0) then connError ErrCodeFrameSize
  else
    s <- readSettings (Z.to_nat (payloadLen / settingLen)) [] ;;
    rret (SettingsFrame false s).

Definition PushPromiseFrame_readFrom (f : Frame) : R Frame :=
  streamID <- rget fr_streamID ;;
  payloadLen <- rget fr_payloadLen ;;
  frameType <- rget fr_frameType ;;
  (if streamID =? 0 then connError ErrCodeProtocol else rret tt) ;;
  if frameType =? FrameContinuation then
    match f with
    | PushPromiseFrame id pid h padLen =>
      (if streamID =? id then rret tt else connError ErrCodeProtocol) ;;
      setHandlerState h ;;
      finishHeaders (fun h => PushPromiseFrame id pid h padLen) padLen payloadLen
    | _ => orPanic None
    end
  else
    padded <- hasFlag FlagPadded ;;
    lp <- (if padded : bool then
             padLen <- readByte ;;
             if payloadLen <=? padLen then connError ErrCodeProtocol
             else rret (payloadLen - (padLen + 1), padLen)
           else rret (payloadLen, 0)) ;;
    v <- readUint32 ;;
    setHandlerState None ;;
    finishHeaders (fun h => PushPromiseFrame streamID (Z.land v (2 ^ 31 - 1)) h lp.2) lp.2 (lp.1 - 4).

Definition PingFrame_readFrom : R Frame :=
  streamID <- rget fr_streamID ;;
  payloadLen <- rget fr_payloadLen ;;
  (if streamID =? 0 then rret tt else connError ErrCodeProtocol) ;;
  (if payloadLen =? 8 then rret tt else connError ErrCodeFrameSize) ;;
  ack <- hasFlag FlagAck ;;
  data <- readFull 8 ;;
  rret (PingFrame ack data).

Definition GoAwayFrame_readFrom : R Frame :=
  streamID <- rget fr_streamID ;;
  payloadLen <- rget fr_payloadLen ;;
  (if streamID =? 0 then rret tt else connError ErrCodeProtocol) ;;
  (if payloadLen <? 8 then connError ErrCodeProtocol else rret tt) ;;
  last <- readUint32 ;;
  errCode <- readUint32 ;;
  debug <- readFull (payloadLen - 8) ;;
  rret (GoAwayFrame (Z.land last (2 ^ 31 - 1)) errCode debug).

Definition WindowUpdateFrame_readFrom : R Frame :=
  streamID <- rget fr_streamID ;;
  payloadLen <- rget fr_payloadLen ;;
  (if payloadLen =? 4 then rret tt else connError ErrCodeFrameSize) ;;
  v <- readUint32 ;;
  let increment := Z.land v 0x7fffffff in
  if increment =? 0 then
    if streamID =? 0 then connError ErrCodeProtocol else rthrow (StreamError ErrCodeProtocol streamID)
  else rret (WindowUpdateFrame streamID increment).

Definition UnknownFrame_readFrom : R Frame :=
  frameType <- rget fr_frameType ;;
  streamID <- rget fr_streamID ;;
  flags <- rget fr_flags ;;
  payloadLen <- rget fr_payloadLen ;;
  rmodify (fr_set_last (Some (payloadLen, 0))) ;;
  data <- payload payloadLen ;;
  rret (UnknownFrame frameType streamID flags data payloadLen).

(** [frame.readFrom(r)]: the pending frame for a CONTINUATION, otherwise the constructor
    [frameCtor] has for the type. *)
Definition readFrom (f : option Frame) : R Frame :=
  t <- rget fr_frameType ;;
  match f with
  | Some (PushPromiseFrame _ _ _ _ as f) => PushPromiseFrame_readFrom f
  | Some f => HeadersFrame_readFrom f
  | None =>
    if t =? FrameData then DataFrame_readFrom
    else if t =? FrameHeaders then HeadersFrame_readFrom (HeadersFrame 0 None noPriority 0 false)
    else if t =? FramePriority then PriorityFrame_readFrom
    else if t =? FrameRSTStream then RSTStreamFrame_readFrom
    else if t =? FrameSettings then SettingsFrame_readFrom
    else if t =? FramePushPromise then PushPromiseFrame_readFrom (PushPromiseFrame 0 0 None 0)
    else if t =? FramePing then PingFrame_readFrom
    else if t =? FrameGoAway then GoAwayFrame_readFrom
    else if t =? FrameWindowUpdate then WindowUpdateFrame_readFrom
    else UnknownFrame_readFrom
  end.

(** ** [ReadFrame] *)

(** [framePayload.Read] into [k] bytes. *)
Definition payloadRead (k : Z) : R (list byte) := fun r =>
  if k =? 0 then (Ok [], r)
  else match fr_lastPayload r with
  | None => (Err ErrEOF, r)
  | Some (n, p) =>
    if n <=? 0 then (Err ErrEOF, r)
    else
      let l := take (Z.to_nat (Z.min k n)) (fr_in r) in
      match l with
      | [] => (Err (fr_end r), r)
      | _ => (Ok l, fr_set_in (drop (length l) (fr_in r)) (fr_set_last (Some (n - zlen l, p)) r))
      end
  end.

(** [framePayload.Close] and [r.lastPayload = nil] *)
Definition closeLastPayload : R unit := fun r =>
  match fr_lastPayload r with
  | None => (Ok tt, r)
  | Some (n, p) =>
    let r := fr_set_last None r in
    if 0 <? n + p then discard_err (n + p) r else (Ok tt, r)
  end.

Definition frameHeaderLen : Z := 9.

(** The decoding of the nine bytes of a frame header. *)
Definition readFrameHeader : R unit :=
  b <- peek frameHeaderLen ;;
  match b with
  | b0 :: b1 :: b2 :: b3 :: b4 :: rest =>
    id <- orPanic (uint32 rest) ;;
    rmodify (fr_set_header
      (Z.lor (Z.lor (Z.shiftl (bz b0) 16) (Z.shiftl (bz b1) 8)) (bz b2)) (bz b3) (bz b4)
      (Z.land id (2 ^ 31 - 1))) ;;
    discard frameHeaderLen
  | _ => orPanic None
  end.

(** One round of [again]: a whole frame, or the pending header frame. *)
Definition readOne : R Frame :=
  readFrameHeader ;;
  payloadLen <- rget fr_payloadLen ;;
  max <- rget fr_maxFrameSize ;;
  (if max <? payloadLen then connError ErrCodeFrameSize else rret tt) ;;
  pending <- rget fr_pending ;;
  t <- rget fr_frameType ;;
  match pending with
  | Some f => if t =? FrameContinuation then readFrom (Some f) else connError ErrCodeProtocol
  | None => if t =? FrameContinuation then connError ErrCodeProtocol else readFrom None
  end.

(** [goto again] while headers are pending; a round takes the frame header off the input. *)
Fixpoint readLoop (fuel : nat) : R Frame :=
  match fuel with
  | O => orPanic None
  | S fuel =>
    f <- readOne ;;
    pending <- rget fr_pending ;;
    match pending with
    | None => rret f
    | Some _ => readLoop fuel
    end
  end.

Definition ReadFrame : R Frame :=
  closeLastPayload ;;
  fun r => readLoop (S (length (fr_in r))) r.
