(* ===== verification/FrameRoundtrip.v ===== *)
(** * Frames written and read back ([src/write.go] against [src/read.go])

    The two halves meet here.  For the frames of fixed layout the bytes written are
    [encode], whatever the sink below the writer, and the reader turns them back into the
    frame.  A DATA frame is cut into frames within the peer's frame size that carry the
    same data and padding, with END_STREAM on the last one only, and reading them gives
    the data back.  The last part gives the errors of [ReadFrame] on frames a peer
    must not send. *)

From S2P Require Import Prelude HeaderTable HpackEncode HpackDecode Types Settings HttpHeader.
From S2P Require Import StreamWrite FrameWriter FrameReader.

(** ** Specification *)

Definition encodeSetting (x : setting) : list byte := be16 (s_ID x) ++ be32 (s_Value x).

(** The layout of the frames that are neither DATA nor carry a header block. *)
Definition encode (f : Frame) : list byte :=
  match f with
  | PriorityFrame id prio => frameHeader 5 FramePriority 0 id ++ priorityBytes prio
  | RSTStreamFrame id c => frameHeader 4 FrameRSTStream 0 id ++ be32 c
  | SettingsFrame true _ => frameHeader 0 FrameSettings FlagAck 0
  | SettingsFrame false s =>
    frameHeader (settingLen * zlen s) FrameSettings 0 0 ++ (s ≫= encodeSetting)
  | PingFrame ack d => frameHeader (zlen d) FramePing (if ack then FlagAck else 0) 0 ++ d
  | GoAwayFrame l c d => frameHeader (8 + zlen d) FrameGoAway 0 0 ++ be32 l ++ be32 c ++ d
  | WindowUpdateFrame id n => frameHeader 4 FrameWindowUpdate 0 id ++ be32 n
  | _ => []
  end.

Definition prio_ok (p : Priority) : Prop := 0 < StreamDependency p < 2 ^ 31 /\ 0 <= Weight p < 256.

Definition setting_ok (x : setting) : Prop := 0 <= s_ID x < 2 ^ 16 /\ 0 <= s_Value x < 2 ^ 32.

(** Fields in range of their Go types, identifiers of 31 bits, valid and distinct settings. *)
Definition control_ok (f : Frame) : Prop :=
  match f with
  | PriorityFrame id prio => 0 < id < 2 ^ 31 /\ prio_ok prio
  | RSTStreamFrame id c => 0 < id < 2 ^ 31 /\ 0 <= c < 2 ^ 32
  | SettingsFrame true s => s = []
  | SettingsFrame false s => settings_wf s /\ Forall setting_ok s
  | PingFrame _ d => zlen d = 8
  | GoAwayFrame l c d => 0 <= l < 2 ^ 31 /\ 0 <= c < 2 ^ 32
  | WindowUpdateFrame id n => 0 <= id < 2 ^ 31 /\ 1 <= n <= maxInitialWindowSize
  | _ => False
  end.

(** The reader is between frames and the connection delivers [bytes], behind what the caller
    left unread of the last payload. *)
Definition ready (r : frameReader) (bytes : list byte) : Prop :=
  fr_pending r = None /\
  exists skip, fr_in r = skip ++ bytes /\
    match fr_lastPayload r with
    | None => skip = []
    | Some (n, p) => zlen skip = n + p
    end.

(** One DATA frame: its data, padding and END_STREAM flag. *)
Definition piece : Type := list byte * Z * bool.

Definition encodePiece (id : Z) (x : piece) : list byte :=
  let '(d, p, e) := x in
  let flags := if e : bool then FlagEndStream else 0 in
  if 0 <? p then
    frameHeader (zlen d + p + 1) FrameData (Z.lor flags FlagPadded) id ++ zb p :: d ++ replicate (Z.to_nat p) Byte.x00
  else frameHeader (zlen d) FrameData flags id ++ d.

(** The payload length of the frame. *)
Definition piece_len (x : piece) : Z := let '(d, p, _) := x in zlen d + (if 0 <? p then p + 1 else 0).

(** END_STREAM is set on the last piece only, and there if asked for. *)
Fixpoint ends_with (e : bool) (l : list piece) : Prop :=
  match l with
  | [] => False
  | [(_, _, e')] => e' = e
  | (_, _, e') :: l => e' = false /\ ends_with e l
  end.

(** The pieces carry [d] and [p] bytes of padding within frames of at most [max] bytes. *)
Definition carries (max : Z) (d : list byte) (p : Z) (e : bool) (l : list piece) : Prop :=
  (l ≫= fun x => x.1.1) = d /\ foldr (fun x a => x.1.2 + a) 0 l = p /\
  Forall (fun x => 0 <= x.1.2 <= 255 /\ piece_len x <= max) l /\ ends_with e l.

(** [n] calls of [ReadFrame] that all succeed. *)
Fixpoint ReadFrames (n : nat) (r : frameReader) : option (list Frame * frameReader) :=
  match n with
  | O => Some ([], r)
  | S n =>
    match ReadFrame r with
    | (Ok f, r) => '(fs, r) ← ReadFrames n r; Some (f :: fs, r)
    | _ => None
    end
  end.

(** The frame a piece is read as. *)
Definition piece_frame (id : Z) (x : piece) : Frame :=
  let '(d, p, e) := x in DataFrame id (Some d) (zlen d) p e.

(** What RFC 7540, sections 4.2 and 6, makes of a frame header alone: the connection error it is
    to be answered with, if it is.  The arguments are whether a header block is pending, the
    size limit and the fields of the frame header. *)
Definition header_error (pending : bool) (max len ty fl id : Z) : option error :=
  let ty_in l := existsb (Z.eqb ty) l in
  if max <? len then Some (ConnError ErrCodeFrameSize)
  else if pending then
    if ty =? FrameContinuation then None else Some (ConnError ErrCodeProtocol)
  else if ty =? FrameContinuation then Some (ConnError ErrCodeProtocol)
  else if (id =? 0) && ty_in [FrameData; FrameHeaders; FramePriority; FrameRSTStream; FramePushPromise] then
    Some (ConnError ErrCodeProtocol)
  else if negb (id =? 0) && ty_in [FrameSettings; FramePing; FrameGoAway] then
    Some (ConnError ErrCodeProtocol)
  else if ((ty =? FrameRSTStream) || (ty =? FrameWindowUpdate)) && negb (len =? 4) then
    Some (ConnError ErrCodeFrameSize)
  else if (ty =? FramePing) && negb (len =? 8) then Some (ConnError ErrCodeFrameSize)
  else if (ty =? FrameSettings) && Flags_Has fl FlagAck && (0 <? len) then Some (ConnError ErrCodeFrameSize)
  else if (ty =? FrameSettings) && negb (Flags_Has fl FlagAck) && negb (len mod 6 =? 0) then
    Some (ConnError ErrCodeFrameSize)
  else if (ty =? FrameGoAway) && (len <? 8) then Some (ConnError ErrCodeFrameSize)
  else None.

(** The first [ReadFrame] of a connection that delivers [bytes] and then ends. *)
Definition readFirst (bytes : list byte) : outcome error Frame * frameReader :=
  ReadFrame (newFrameReader bytes ErrEOF [] 4096).

(** A header with a single pseudo-header field. *)
Definition pseudoOnly : Header := Some {[ str ":path" := [str "/x"] ]}.

(** ** Lemmas on integers *)

(** Linear arithmetic with division and remainder by constants. *)
Ltac dlia :=
  change (2 ^ 8) with 256 in *; change (2 ^ 16) with 65536 in *; change (2 ^ 24) with 16777216 in *;
  Z.to_euclidean_division_equations; lia.

Lemma shiftr_byte v k : 0 <= k -> bz (zb (Z.shiftr v k)) = (v / 2 ^ k) mod 256.
Proof. intros Hk. rewrite bz_zb, Z.shiftr_div_pow2 by done. done. Qed.

Lemma shiftl_lor x y n : 0 <= n -> 0 <= y < 2 ^ n -> Z.lor y (Z.shiftl x n) = x * 2 ^ n + y.
Proof.
  intros Hn Hy. rewrite Z.lor_comm, Z.shiftl_mul_pow2 by done.
  apply (lor_disjoint _ _ n); [done|done|]. apply Z.mod_mul. lia.
Qed.

Lemma shiftl_lor_r x y n : 0 <= n -> 0 <= y < 2 ^ n -> Z.lor (Z.shiftl x n) y = x * 2 ^ n + y.
Proof. rewrite Z.lor_comm. apply shiftl_lor. Qed.

Lemma uint32_be32 v rest : 0 <= v < 2 ^ 32 -> uint32 (be32 v ++ rest) = Some v.
Proof.
  intros Hv. unfold be32, uint32. cbn [app]. rewrite !shiftr_byte, bz_zb by lia. f_equal.
  change (2 ^ 32) with 4294967296 in *. change (2 ^ 24) with 16777216.
  change (2 ^ 16) with 65536. change (2 ^ 8) with 256.
  rewrite (shiftl_lor _ _ 8), (shiftl_lor _ _ 16), (shiftl_lor _ _ 24) by dlia. dlia.
Qed.

Lemma uint16_be16 v rest : 0 <= v < 2 ^ 16 -> uint16 (be16 v ++ rest) = Some v.
Proof.
  intros Hv. unfold be16, uint16. cbn [app]. rewrite !shiftr_byte, bz_zb by lia. f_equal.
  change (2 ^ 16) with 65536 in *. change (2 ^ 8) with 256.
  rewrite (shiftl_lor _ _ 8) by dlia. dlia.
Qed.

(** Three bytes, most significant first. *)
Lemma uint24 v :
  0 <= v < 2 ^ 24 ->
  Z.lor (Z.lor (Z.shiftl ((v / 2 ^ 16) mod 256) 16) (Z.shiftl ((v / 2 ^ 8) mod 256) 8)) (v mod 256) = v.
Proof.
  intros Hv. rewrite (Z.shiftl_mul_pow2 _ 8), (shiftl_lor_r _ _ 16) by (lia || dlia).
  rewrite (lor_disjoint _ _ 8); [dlia|lia|dlia|dlia].
Qed.

Lemma validStreamID_spec id : 0 <= id < 2 ^ 32 -> validStreamID id = true <-> 0 < id < 2 ^ 31.
Proof.
  intros Hid. unfold validStreamID.
  assert (Hb : (Z.land id (Z.shiftl 1 31) =? 0) = (id <? 2 ^ 31)).
  { rewrite Z.shiftl_mul_pow2, Z.mul_1_l by lia. destruct (Z.ltb_spec id (2 ^ 31)).
    - apply Z.eqb_eq, Z.bits_inj_0. intros i. rewrite Z.land_spec.
      destruct (Z.eq_dec i 31) as [->|Hi]; [|by rewrite Z.pow2_bits_false, andb_false_r by lia].
      assert (Ht : Z.testbit id 31 = false) by (apply Z.testbit_false; [lia|]; by rewrite Z.div_small by lia).
      by rewrite Ht.
    - apply Z.eqb_neq. intros H0. apply (f_equal (fun z => Z.testbit z 31)) in H0.
      rewrite Z.land_spec, Z.pow2_bits_true, Z.testbit_0_l, andb_true_r in H0 by lia.
      apply Z.testbit_false in H0; [|lia].
      assert (Hq : id / 2 ^ 31 = 1) by (symmetry; apply Z.div_unique with (id - 2 ^ 31); lia).
      by rewrite Hq in H0. }
  rewrite Hb. destruct (Z.eqb_spec id 0); lia.
Qed.

(** The top bit of an identifier or dependency. *)
Lemma lor_top v : 0 <= v < 2 ^ 31 -> Z.lor v (Z.shiftl 1 31) = 2 ^ 31 + v.
Proof. intros Hv. rewrite shiftl_lor by lia. lia. Qed.

Lemma land_31 v : Z.land v (2 ^ 31 - 1) = v mod 2 ^ 31.
Proof. exact (Z.land_ones v 31 ltac:(lia)). Qed.

(** ** The writer *)

Section Write.
Context {W : Type} `{Sink W}.
Variable unicodeToLower : gostring -> gostring.
Implicit Types w : frameWriter W.

(** What the sink holds, the sticky error and the frame size limit. *)
Definition out (w : frameWriter W) : list byte := sink_out (fw_w w).

Lemma fw_Write_ok src w :
  fw_err (fw_Write src w) = None ->
  fw_err w = None /\ out (fw_Write src w) = out w ++ src /\
  fw_maxFrameSize (fw_Write src w) = fw_maxFrameSize w /\ fw_buf (fw_Write src w) = fw_buf w.
Proof.
  unfold fw_Write, out. destruct (fw_err w) eqn:E; [congruence|].
  destruct (sink_write (fw_w w) src) as [x [e|]] eqn:Ew; cbn; [done|].
  intros _. split_and!; try done. by apply sink_write_ok.
Qed.

Lemma flushBuf_ok w :
  fw_err (flushBuf w) = None ->
  fw_err w = None /\ out (flushBuf w) = out w ++ fw_buf w /\ fw_maxFrameSize (flushBuf w) = fw_maxFrameSize w.
Proof. intros He. destruct (fw_Write_ok _ _ He) as (? & ? & ? & _). done. Qed.

Lemma return_err_ok w w' : return_err w = (Ok tt, w') -> w' = w /\ fw_err w = None.
Proof. unfold return_err. destruct (fw_err w) eqn:E; [done|]. by intros [= ->]. Qed.

Lemma settings_len (s : Settings) : zlen (s ≫= encodeSetting) = 6 * zlen s.
Proof.
  induction s as [|x s IH]; [done|]. rewrite bind_cons, zlen_app, zlen_cons, IH.
  unfold encodeSetting. rewrite zlen_app.
  change (zlen (be16 _)) with 2. change (zlen (be32 _)) with 4. lia.
Qed.

Lemma writeSettings_buf s w :
  fw_buf (writeSettings s w) = fw_buf w ++ (s ≫= encodeSetting) /\
  out (writeSettings s w) = out w.
Proof.
  unfold writeSettings. revert w. induction s as [|x s IH]; intros w; cbn [foldl].
  { by rewrite app_nil_r. }
  destruct (IH (writeUint32 (s_Value x) (writeUint16 (s_ID x) w))) as [-> ->].
  rewrite bind_cons. cbn. by rewrite <- !app_assoc.
Qed.

(** A frame of fixed layout reaches the sink as its encoding. *)
Lemma control_written f po o w w' :
  control_ok f -> WriteFrame unicodeToLower f po o w = (Ok tt, w') ->
  zlen (encode f) < 2 ^ 24 -> out w' = out w ++ encode f.
Proof.
  intros Hok Hw Hlen. destruct f; try done; cbn [WriteFrame] in Hw; cbn [encode] in *; rewrite ?zlen_app in Hlen.
  - unfold PriorityFrame_writeTo in Hw. destruct (negb _); [done|]. destruct (negb _); [done|].
    destruct Hok as [_ _]. unfold priorityBytes. destruct (Exclusive Prio);
      apply return_err_ok in Hw as [-> (_ & -> & _)%flushBuf_ok]; done.
  - unfold RSTStreamFrame_writeTo in Hw. destruct (negb _); [done|].
    by apply return_err_ok in Hw as [-> (_ & -> & _)%flushBuf_ok].
  - unfold SettingsFrame_writeTo in Hw. destruct Ack.
    + destruct (0 <? _); [done|]. by apply return_err_ok in Hw as [-> (_ & -> & _)%flushBuf_ok].
    + apply return_err_ok in Hw as [-> (_ & -> & _)%flushBuf_ok].
      match goal with |- context [writeSettings ?s ?x] => destruct (writeSettings_buf s x) as [-> ->] end.
      cbn [fw_buf writeFrameHeader fw_set_buf]. unfold out, settingLen in *. cbn [fw_w writeFrameHeader fw_set_buf].
      rewrite u32_small; [done|]. pose proof (zlen_nonneg Setts).
      rewrite zlen_app, settings_len in Hlen. pose proof (zlen_nonneg (frameHeader (6 * zlen Setts) FrameSettings 0 0)).
      lia.
  - unfold PingFrame_writeTo in Hw. cbn in Hok.
    apply return_err_ok in Hw as [-> (He & -> & _)%fw_Write_ok]. apply flushBuf_ok in He as (_ & -> & _).
    cbn [fw_buf writeFrameHeader fw_set_buf]. rewrite u32_small by lia. unfold out. cbn. by rewrite <- app_assoc.
  - unfold GoAwayFrame_writeTo in Hw. destruct Hok as [Hl Hc].
    apply return_err_ok in Hw as [-> (He & -> & _)%fw_Write_ok]. apply flushBuf_ok in He as (_ & -> & _).
    pose proof (zlen_nonneg DebugData). rewrite ?zlen_app in Hlen. change (zlen (be32 _)) with 4 in Hlen.
    pose proof (zlen_nonneg (frameHeader (8 + zlen DebugData) FrameGoAway 0 0)).
    unfold writeUint32. cbn [fw_buf writeFrameHeader fw_set_buf]. unfold out. cbn [fw_w writeFrameHeader fw_set_buf].
    rewrite u32_small, land_31, Z.mod_small by lia. by rewrite <- !app_assoc.
  - unfold WindowUpdateFrame_writeTo in Hw. destruct (_ || _); [done|].
    by apply return_err_ok in Hw as [-> (_ & -> & _)%flushBuf_ok].
Qed.
(** Progress and bounds of the split. *)
Lemma dataSplit_spec max rd p dl pl :
  2 <= max -> 0 <= rd -> 0 <= p <= 255 -> dataSplit max rd p = (dl, pl) ->
  0 <= dl <= rd /\ 0 <= pl <= p /\ dl + (if 0 <? pl then pl + 1 else 0) <= max /\
  (0 < rd + p -> 0 < dl + pl) /\ dl <= max.
Proof. unfold dataSplit. intros Hm Hr Hp [= <- <-]. zcases; lia. Qed.

(** A frame of the loop reaches the sink as one piece. *)
Lemma writeDataFrame_ok id d more dl pl e w w' data' :
  fw_err w = None -> zlen d = dl -> 0 <= pl <= 255 -> dl + pl + 1 < 2 ^ 32 ->
  writeDataFrame id (d ++ more) dl pl (if e : bool then FlagEndStream else 0) w = (w', data') ->
  fw_err w' = None ->
  out w' = out w ++ encodePiece id (d, pl, e) /\ data' = more /\ fw_maxFrameSize w' = fw_maxFrameSize w.
Proof.
  intros He Hd Hp Hlt Hw He'. unfold writeDataFrame in Hw. pose proof (zlen_nonneg d).
  set (w1 := if 0 <? pl then _ else _) in Hw.
  assert (Hw1 : fw_err w1 = None /\ out w1 = out w /\ fw_maxFrameSize w1 = fw_maxFrameSize w /\
    encodePiece id (d, pl, e) = fw_buf w1 ++ d ++ take (Z.to_nat pl) zeroBuf).
  { unfold w1, encodePiece, zeroBuf. destruct (Z.ltb_spec 0 pl) as [Hpl|Hpl]; cbn -[frameHeader replicate];
      (split_and!; [done..|]); rewrite Hd.
    - rewrite u32_small, take_replicate by lia. rewrite (Nat.min_l _ 255) by lia. by rewrite <- app_assoc.
    - replace pl with 0 by lia. cbn [Z.to_nat take]. by rewrite app_nil_r. }
  clearbody w1. destruct Hw1 as (He1 & Ho1 & Hm1 & ->). rewrite <- Ho1, <- Hm1.
  destruct (if 0 <? dl then _ else _) as [w2 data2] eqn:E2. injection Hw as <- <-.
  destruct (fw_Write_ok _ _ He') as (He2 & -> & -> & _).
  destruct (Z.ltb_spec 0 dl) as [Hdl|Hdl].
  - unfold fw_CopyN in E2. replace (Z.to_nat dl) with (length d) in E2 by (unfold zlen in Hd; lia).
    rewrite take_app_length, drop_app_length in E2.
    destruct (sink_write (fw_w (flushBuf w1)) d) as [x [e2|]] eqn:Es; injection E2 as <- <-; [done|].
    assert (Hf : fw_err (flushBuf w1) = None).
    { unfold flushBuf, fw_Write in *. rewrite He1 in *.
      destruct (sink_write (fw_w w1) (fw_buf w1)) as [y [e3|]] eqn:Ew; [|done].
      destruct (sink_sticky _ _ _ _ d Ew) as (? & ? & Hs). cbn in Es. congruence. }
    destruct (flushBuf_ok _ Hf) as (_ & Hof & Hmf). apply sink_write_ok in Es. cbn in *.
    unfold out in *. cbn. rewrite Es, Hof. split_and!; [by rewrite <- !app_assoc|done|done].
  - injection E2 as <- <-. destruct d as [|b d]; [|rewrite zlen_cons in Hd; pose proof (zlen_nonneg d); lia].
    destruct (flushBuf_ok _ He2) as (_ & -> & ->). by rewrite <- app_assoc.
Qed.

(** The loop writes pieces that carry the data. *)
Lemma data_loop_ok fuel id e d more p w :
  (Z.to_nat (zlen d + p) < fuel)%nat -> fw_err w = None -> 2 <= fw_maxFrameSize w < 2 ^ 24 -> 0 <= p <= 255 ->
  fw_err (data_loop fuel id e (d ++ more) (zlen d) p w) = None ->
  exists l, out (data_loop fuel id e (d ++ more) (zlen d) p w) = out w ++ (l ≫= encodePiece id) /\
    carries (fw_maxFrameSize w) d p e l.
Proof.
  revert d p w. induction fuel as [|fuel IH]; intros d p w Hf He Hm Hp; [lia|].
  cbn [data_loop]. rewrite He. pose proof (zlen_nonneg d) as Hz.
  destruct (dataSplit (fw_maxFrameSize w) (zlen d) p) as [dl pl] eqn:Es.
  destruct (dataSplit_spec _ _ _ _ _ (proj1 Hm) Hz Hp Es) as (Hdl & Hpl & Hlen & Hprog & Hdm).
  set (lastFrame := (zlen d - dl =? 0) && (p - pl =? 0)).
  destruct (writeDataFrame _ _ _ _ _ _) as [w' data'] eqn:Ew. intros Herr.
  set (d1 := take (Z.to_nat dl) d). set (d2 := drop (Z.to_nat dl) d).
  assert (Hd12 : d = d1 ++ d2) by (unfold d1, d2; by rewrite take_drop).
  assert (Hl1 : zlen d1 = dl) by (unfold d1, zlen in *; rewrite length_take; lia).
  assert (Hl2 : zlen d2 = zlen d - dl) by (unfold d2, zlen in *; rewrite length_drop; lia).
  assert (He' : fw_err w' = None).
  { destruct lastFrame; [done|]. destruct fuel; [done|]. cbn [data_loop] in Herr.
    by destruct (fw_err w') eqn:E'; [rewrite E' in Herr|]. }
  rewrite Hd12, <- app_assoc in Ew.
  destruct (writeDataFrame_ok id d1 (d2 ++ more) dl pl (e && lastFrame) w w' data' He Hl1 ltac:(lia) ltac:(lia) Ew He')
    as (Ho & -> & Hmx).
  destruct lastFrame eqn:El.
  - exists [(d1, pl, e && true)]. unfold lastFrame in El.
    assert (d2 = []) as E2 by (destruct d2; [done|rewrite zlen_cons in Hl2; pose proof (zlen_nonneg d2); lia]).
    rewrite Ho, Hd12, E2, andb_true_r, app_nil_r. unfold carries, piece_len. cbn [mbind list_bind foldr fst snd ends_with].
    rewrite !app_nil_r. split_and!; try done; [lia|]. repeat constructor; cbn [fst snd]; rewrite ?Hl1; lia.
  - rewrite <- Hl2 in *. destruct (IH d2 (p - pl) w') as (l & Hol & Hcat & Hpad & Hall & Hend); try done; try lia.
    { unfold lastFrame in El. lia. }
    exists ((d1, pl, e && false) :: l). rewrite Hol, Ho, bind_cons, <- app_assoc. split; [done|].
    rewrite Hmx in Hall. unfold carries. rewrite bind_cons, Hcat. cbn [foldr fst snd]. rewrite Hpad, andb_false_r.
    split_and!; [by rewrite Hd12|lia| |].
    + constructor; [|done]. unfold piece_len. cbn [fst snd]. rewrite Hl1. lia.
    + destruct l; [done|]. by split.
Qed.

Lemma data_written id d more p e w :
  0 < id < 2 ^ 31 -> zlen d < 2 ^ 31 -> 0 <= p <= 255 -> fw_err w = None -> 2 <= fw_maxFrameSize w < 2 ^ 24 ->
  match DataFrame_writeTo id (Some (d ++ more)) (zlen d) p e w with
  | (Ok _, w') =>
    exists l, carries (fw_maxFrameSize w) d p e l /\ sink_out (fw_w w') = sink_out (fw_w w) ++ (l ≫= encodePiece id)
  | (Err x, w') => fw_err w' = Some x
  | (Panic, _) => False
  end.
Proof.
  intros Hid Hd Hp He Hm. pose proof (zlen_nonneg d) as Hz. unfold DataFrame_writeTo.
  rewrite (proj2 (validStreamID_spec id ltac:(lia))) by lia. cbn [negb].
  destruct (Z.ltb_spec (zlen d) 0); [lia|]. rewrite (bool_decide_false (_ = None)), andb_false_r by done. cbn [orb default].
  rewrite u32_small by lia. set (fuel := S _). cbn [from_option Datatypes.id].
  unfold return_err. destruct (fw_err (data_loop fuel id e (d ++ more) (zlen d) p w)) eqn:Er; [done|].
  destruct (data_loop_ok fuel id e d more p w ltac:(lia) He Hm Hp Er) as (l & Ho & Hc). by exists l.
Qed.

(** The payload of the pieces: the data, the padding, and an octet for each padded piece. *)
Lemma carries_payload max d p e l :
  carries max d p e l ->
  foldr (fun x a => piece_len x + a) 0 l = zlen d + p + zlen (filter (fun x : piece => 0 < x.1.2) l).
Proof.
  intros (<- & <- & Hall & _). induction Hall as [|[[d1 p1] e1] l [Hp _] _ IH]; [done|].
  rewrite bind_cons, filter_cons. cbn [foldr fst snd piece_len] in *. rewrite IH, zlen_app.
  destruct (decide _); [rewrite zlen_cons|]; zcases; lia.
Qed.
End Write.

(** ** The reader *)

(** Runs the reader on a state whose fields are known. *)
Ltac rstep := unfold rbind, rget, rret, rmodify, rwhen, hasFlag, orPanic, connError, rthrow; cbn [fr_in fr_end
  fr_stale fr_bufSize fr_maxFrameSize fr_dec fr_maxHeaderListSize fr_pending fr_payloadLen fr_frameType
  fr_flags fr_streamID fr_lastPayload fr_set_in fr_set_header fr_set_last fr_set_pending fr_set_dec].

Lemma readUint32_ok r v rest :
  0 <= v < 2 ^ 32 -> fr_in r = be32 v ++ rest -> readUint32 r = (Ok v, fr_set_in rest r).
Proof.
  intros Hv Hin. unfold readUint32. rstep. rewrite Hin. change (take 4 (be32 v ++ rest)) with (be32 v ++ []).
  rewrite uint32_be32 by done. unfold discard. rstep. by rewrite Hin.
Qed.

Lemma readByte_ok r v rest :
  0 <= v < 256 -> fr_in r = zb v :: rest -> readByte r = (Ok v, fr_set_in rest r).
Proof. intros Hv Hin. unfold readByte. rewrite Hin, bz_zb_small by done. done. Qed.

Lemma readFrameHeader_ok r len ty fl id rest :
  0 <= len < 2 ^ 24 -> 0 <= ty < 256 -> 0 <= fl < 256 -> 0 <= id < 2 ^ 31 ->
  fr_in r = frameHeader len ty fl id ++ rest ->
  readFrameHeader r = (Ok tt, fr_set_in rest (fr_set_header len ty fl id r)).
Proof.
  intros Hlen Hty Hfl Hid Hin. unfold readFrameHeader, peek. rstep. rewrite Hin.
  assert (Hz : (zlen (frameHeader len ty fl id ++ rest) <? frameHeaderLen) = false).
  { rewrite zlen_app. change (zlen (frameHeader _ _ _ _)) with 9. unfold frameHeaderLen.
    pose proof (zlen_nonneg rest). lia. }
  rewrite Hz. change (take (Z.to_nat frameHeaderLen) (frameHeader len ty fl id ++ rest))
    with (zb (Z.shiftr len 16) :: zb (Z.shiftr len 8) :: zb len :: zb ty :: zb fl :: be32 id ++ []).
  cbv iota beta. rewrite uint32_be32 by lia. unfold discard. rstep. rewrite Hin. cbv iota beta.
  rewrite !shiftr_byte, (bz_zb len), !bz_zb_small, land_31, (Z.mod_small id) by lia.
  rewrite uint24 by lia. done.
Qed.

(** A frame other than a CONTINUATION, within the size limit, reaches its [readFrom]. *)
Lemma readOne_header r len ty fl id rest :
  0 <= len < 2 ^ 24 -> 0 <= ty < 256 -> 0 <= fl < 256 -> 0 <= id < 2 ^ 31 ->
  fr_in r = frameHeader len ty fl id ++ rest -> fr_pending r = None ->
  len <= fr_maxFrameSize r -> ty <> FrameContinuation ->
  readOne r = readFrom None (fr_set_in rest (fr_set_header len ty fl id r)).
Proof.
  intros Hlen Hty Hfl Hid Hin Hp Hmax Hc. unfold readOne, rbind at 1.
  rewrite (readFrameHeader_ok r len ty fl id rest) by done. rstep.
  destruct (Z.ltb_spec (fr_maxFrameSize r) len); [lia|]. rstep. rewrite Hp.
  destruct (Z.eqb_spec ty FrameContinuation); [done|]. done.
Qed.

(** The next [ReadFrame] skips the rest of the last payload. *)
Lemma close_ready r bytes :
  ready r bytes -> closeLastPayload r = (Ok tt, fr_set_in bytes (fr_set_last None r)).
Proof.
  intros [_ (skip & Hin & Hl)]. unfold closeLastPayload. destruct (fr_lastPayload r) as [[n p]|] eqn:E.
  - unfold discard_err. cbn [fr_in fr_set_last]. rewrite Hin. pose proof (zlen_nonneg skip). pose proof (zlen_nonneg bytes).
    destruct (Z.ltb_spec 0 (n + p)).
    + rewrite zlen_app. destruct (Z.ltb_spec (zlen skip + zlen bytes) (n + p)); [lia|].
      rewrite <- Hl. unfold zlen. rewrite Nat2Z.id, drop_app_length. done.
    + assert (skip = []) by (destruct skip; [done|rewrite zlen_cons in *; pose proof (zlen_nonneg skip); lia]).
      subst. destruct r. cbn in *. by subst.
  - subst. destruct r. cbn in *. by subst.
Qed.

Lemma ReadFrame_ok r bytes f r' :
  ready r bytes -> readOne (fr_set_in bytes (fr_set_last None r)) = (Ok f, r') ->
  fr_pending r' = None -> ReadFrame r = (Ok f, r').
Proof.
  intros Hr Ho Hp. unfold ReadFrame, rbind. rewrite (close_ready r bytes Hr). cbn [readLoop].
  unfold rbind. rewrite Ho. rstep. by rewrite Hp.
Qed.

Lemma put_setting_new s id v :
  id ∉ map s_ID s -> put_setting s id v = s ++ [MkSetting id v].
Proof.
  induction s as [|x s IH]; cbn; [done|]. rewrite not_elem_of_cons. intros [Hx Hs].
  destruct (Z.eqb_spec (s_ID x) id); [congruence|]. by rewrite IH.
Qed.

(** A setting of a new identifier is appended. *)
Lemma SetValue_append s1 x s2 :
  settings_wf (s1 ++ x :: s2) -> SetValue s1 (s_ID x) (s_Value x) = Some (s1 ++ [x]).
Proof.
  intros [Hnd Hval]. apply Forall_app in Hval as [_ [Hvx _]%Forall_cons]. unfold SetValue. rewrite Hvx.
  rewrite put_setting_new; [by destruct x|]. rewrite map_app in Hnd. apply NoDup_app in Hnd as (_ & Hd & _).
  intros Hin. apply (Hd _ Hin). cbn. by left.
Qed.

Lemma readSettings_ok s2 s1 r rest :
  settings_wf (s1 ++ s2) -> Forall setting_ok s2 -> fr_in r = (s2 ≫= encodeSetting) ++ rest ->
  readSettings (length s2) s1 r = (Ok (s1 ++ s2), fr_set_in rest r).
Proof.
  revert s1 r. induction s2 as [|x s2 IH]; intros s1 r Hwf Hok Hin.
  { cbn in Hin. rewrite app_nil_r. destruct r. cbn in *. by subst. }
  apply Forall_cons in Hok as [[Hid Hv] Hok]. rewrite bind_cons, <- app_assoc in Hin.
  cbn [length readSettings]. rstep. rewrite Hin.
  change (take 6 (take 6 (encodeSetting x ++ (s2 ≫= encodeSetting) ++ rest) ++ fr_stale r))
    with (be16 (s_ID x) ++ be32 (s_Value x)).
  rewrite uint16_be16 by done. change (drop 2 (be16 (s_ID x) ++ be32 (s_Value x))) with (be32 (s_Value x) ++ []).
  rewrite uint32_be32 by done. unfold discard. rstep. rewrite Hin.
  change (drop (Z.to_nat settingLen) (encodeSetting x ++ (s2 ≫= encodeSetting) ++ rest))
    with ((s2 ≫= encodeSetting) ++ rest).
  rewrite (SetValue_append s1 x s2 Hwf). rewrite (IH (s1 ++ [x])); rewrite <- ?app_assoc; done.
Qed.

(** The state after a frame was taken off the input. *)
Definition took (r r' : frameReader) (rest : list byte) : Prop :=
  ready r' rest /\ fr_dec r' = fr_dec r /\ fr_maxFrameSize r' = fr_maxFrameSize r /\
  fr_bufSize r' = fr_bufSize r /\ fr_end r' = fr_end r /\ fr_maxHeaderListSize r' = fr_maxHeaderListSize r.

Lemma ReadFrame_via r len ty fl id rest f r1 rest' :
  0 <= len < 2 ^ 24 -> 0 <= ty < 256 -> 0 <= fl < 256 -> 0 <= id < 2 ^ 31 ->
  ready r (frameHeader len ty fl id ++ rest) -> len <= fr_maxFrameSize r -> ty <> FrameContinuation ->
  readFrom None (fr_set_in rest (fr_set_header len ty fl id (fr_set_last None r))) = (Ok f, r1) ->
  took r r1 rest' ->
  ReadFrame r = (Ok f, r1) /\ took r r1 rest'.
Proof.
  intros Hlen Hty Hfl Hid Hr Hmax Hc Hf Ht. split; [|done].
  eapply ReadFrame_ok; [exact Hr| |apply Ht]. pose proof Hr as [Hp _].
  by rewrite (readOne_header _ len ty fl id rest).
Qed.

(** Nothing but the input and the frame header changed. *)
Lemma took_simple r len ty fl id rest :
  fr_pending r = None ->
  took r (fr_set_in rest (fr_set_header len ty fl id (fr_set_last None r))) rest.
Proof. intros Hp. repeat split; [done|]. by exists []. Qed.

Lemma readPriority_ok r p rest :
  prio_ok p -> fr_in r = priorityBytes p ++ rest ->
  exists v r1, readUint32 r = (Ok v, r1) /\ readByte r1 = (Ok (Weight p), fr_set_in rest r) /\
    Z.land v 0x7fffffff = StreamDependency p /\
    negb (StreamDependency p =? v) = Exclusive p.
Proof.
  intros [Hd Hw] Hin. destruct p as [dep weight excl]. cbn in *. unfold priorityBytes in Hin. cbn in Hin.
  set (v := if excl then Z.lor dep (Z.shiftl 1 31) else dep) in *.
  assert (Hv : v = if excl then 2 ^ 31 + dep else dep) by (unfold v; destruct excl; [by rewrite lor_top by lia|done]).
  exists v, (fr_set_in (zb weight :: rest) r).
  split_and!.
  - apply readUint32_ok; [destruct excl; lia|exact Hin].
  - rewrite (readByte_ok _ weight rest) by done. done.
  - change 0x7fffffff with (2 ^ 31 - 1). rewrite land_31, Hv. destruct excl; [|by apply Z.mod_small; lia].
    rewrite <- (Z.mul_1_l (2 ^ 31)) at 1. rewrite Z.add_comm, Z.mod_add, Z.mod_small by lia. done.
  - destruct (Z.eqb_spec dep v), excl; try done; lia.
Qed.

(** Numeric side conditions on frame headers. *)
Ltac hdr_tac :=
  unfold FrameData, FrameHeaders, FramePriority, FrameRSTStream, FrameSettings, FramePushPromise, FramePing,
    FrameGoAway, FrameWindowUpdate, FrameContinuation, FlagAck, FlagPadded, FlagEndStream, settingLen in *;
  lia.

(** Dispatches [readFrom] on a known frame type and enters the method. *)
Ltac enter m := unfold readFrom; rstep; cbn [Z.eqb Pos.eqb FrameData FrameHeaders FramePriority FrameRSTStream
  FrameSettings FramePushPromise FramePing FrameGoAway FrameWindowUpdate]; unfold m; rstep.

Section ReadControl.
Variables (r : frameReader) (rest : list byte).

Lemma read_priority id p :
  0 < id < 2 ^ 31 -> prio_ok p -> ready r (encode (PriorityFrame id p) ++ rest) -> 5 <= fr_maxFrameSize r ->
  exists r', ReadFrame r = (Ok (PriorityFrame id p), r') /\ took r r' rest.
Proof.
  intros Hid Hp Hr Hmax. cbn [encode] in Hr. rewrite <- app_assoc in Hr.
  destruct (readPriority_ok (fr_set_in (priorityBytes p ++ rest) (fr_set_header 5 FramePriority 0 id (fr_set_last None r)))
    p rest Hp eq_refl) as (v & r1 & E1 & E2 & E3 & E4).
  eexists. eapply (ReadFrame_via r 5 FramePriority 0 id); [hdr_tac..|exact Hr|done|done| |apply took_simple, Hr].
  enter PriorityFrame_readFrom. destruct (Z.eqb_spec id 0); [lia|]. rstep. cbn [Z.eqb Pos.eqb negb].
  rewrite E1, E2, E3, E4. by destruct p.
Qed.

Lemma read_rst id c :
  0 < id < 2 ^ 31 -> 0 <= c < 2 ^ 32 -> ready r (encode (RSTStreamFrame id c) ++ rest) -> 4 <= fr_maxFrameSize r ->
  exists r', ReadFrame r = (Ok (RSTStreamFrame id c), r') /\ took r r' rest.
Proof.
  intros Hid Hc Hr Hmax. cbn [encode] in Hr. rewrite <- app_assoc in Hr.
  eexists. eapply (ReadFrame_via r 4 FrameRSTStream 0 id); [hdr_tac..|exact Hr|done|done| |apply took_simple, Hr].
  enter RSTStreamFrame_readFrom. destruct (Z.eqb_spec id 0); [lia|]. rstep. cbn [Z.eqb Pos.eqb]. rstep.
  by rewrite (readUint32_ok _ c rest).
Qed.

Lemma read_settings_ack :
  ready r (encode (SettingsFrame true []) ++ rest) -> 0 <= fr_maxFrameSize r ->
  exists r', ReadFrame r = (Ok (SettingsFrame true []), r') /\ took r r' rest.
Proof.
  intros Hr Hmax.
  eexists. eapply (ReadFrame_via r 0 FrameSettings FlagAck 0); [hdr_tac..|exact Hr|done|done| |apply took_simple, Hr].
  enter SettingsFrame_readFrom. done.
Qed.

Lemma read_settings s :
  settings_wf s -> Forall setting_ok s -> ready r (encode (SettingsFrame false s) ++ rest) ->
  6 * zlen s <= fr_maxFrameSize r -> 6 * zlen s < 2 ^ 24 ->
  exists r', ReadFrame r = (Ok (SettingsFrame false s), r') /\ took r r' rest.
Proof.
  intros Hwf Hok Hr Hmax Hlen. cbn [encode] in Hr. rewrite <- app_assoc in Hr. pose proof (zlen_nonneg s).
  eexists. eapply (ReadFrame_via r (settingLen * zlen s) FrameSettings 0 0); [hdr_tac..|exact Hr|hdr_tac|done| |apply took_simple, Hr].
  enter SettingsFrame_readFrom. cbn [Z.eqb]. rstep. change (Flags_Has 0 FlagAck) with false. cbv iota.
  rewrite Z.mul_comm, Z.mod_mul by done. cbn [Z.eqb negb]. rewrite Z.div_mul by done.
  unfold zlen at 1. rewrite Nat2Z.id. rstep. rewrite (readSettings_ok s [] _ rest) by done. done.
Qed.

Lemma read_ping ack d :
  zlen d = 8 -> ready r (encode (PingFrame ack d) ++ rest) -> 8 <= fr_maxFrameSize r ->
  exists r', ReadFrame r = (Ok (PingFrame ack d), r') /\ took r r' rest.
Proof.
  intros Hd Hr Hmax. cbn [encode] in Hr. rewrite <- app_assoc, Hd in Hr.
  eexists. eapply (ReadFrame_via r 8 FramePing (if ack then FlagAck else 0) 0);
    [hdr_tac|hdr_tac|destruct ack; hdr_tac|hdr_tac|exact Hr|done|done| |apply took_simple, Hr].
  enter PingFrame_readFrom. cbn [Z.eqb Pos.eqb]. rstep.
  assert (Hf : Flags_Has (if ack then FlagAck else 0) FlagAck = ack) by by destruct ack.
  unfold readFull. rstep. replace (Z.to_nat 8) with (length d) by (unfold zlen in Hd; lia).
  by rewrite take_app_length, drop_app_length, Hd, Hf.
Qed.

Lemma read_goaway l c d :
  0 <= l < 2 ^ 31 -> 0 <= c < 2 ^ 32 -> ready r (encode (GoAwayFrame l c d) ++ rest) ->
  8 + zlen d <= fr_maxFrameSize r -> 8 + zlen d < 2 ^ 24 ->
  exists r', ReadFrame r = (Ok (GoAwayFrame l c d), r') /\ took r r' rest.
Proof.
  intros Hl Hc Hr Hmax Hlen. cbn [encode] in Hr. rewrite <- !app_assoc in Hr. pose proof (zlen_nonneg d).
  eexists. eapply (ReadFrame_via r (8 + zlen d) FrameGoAway 0 0); [hdr_tac..|exact Hr|lia|done| |apply took_simple, Hr].
  enter GoAwayFrame_readFrom. cbn [Z.eqb]. rstep. destruct (Z.ltb_spec (8 + zlen d) 8); [lia|]. rstep.
  rewrite (readUint32_ok _ l (be32 c ++ d ++ rest)) by (done || lia).
  rewrite (readUint32_ok _ c (d ++ rest)) by done.
  unfold readFull. rstep. replace (Z.to_nat (8 + zlen d - 8)) with (length d) by (unfold zlen; lia).
  rewrite take_app_length, drop_app_length. destruct (Z.ltb_spec (zlen d) (8 + zlen d - 8)); [lia|].
  by rewrite land_31, Z.mod_small.
Qed.

Lemma read_window_update id n :
  0 <= id < 2 ^ 31 -> 1 <= n <= maxInitialWindowSize -> ready r (encode (WindowUpdateFrame id n) ++ rest) ->
  4 <= fr_maxFrameSize r ->
  exists r', ReadFrame r = (Ok (WindowUpdateFrame id n), r') /\ took r r' rest.
Proof.
  intros Hid Hn Hr Hmax. cbn [encode] in Hr. rewrite <- app_assoc in Hr. unfold maxInitialWindowSize in Hn.
  eexists. eapply (ReadFrame_via r 4 FrameWindowUpdate 0 id); [hdr_tac..|exact Hr|done|done| |apply took_simple, Hr].
  enter WindowUpdateFrame_readFrom. cbn [Z.eqb Pos.eqb]. rstep.
  rewrite (readUint32_ok _ n rest) by (done || lia).
  change 0x7fffffff with (2 ^ 31 - 1). rewrite land_31, Z.mod_small by lia.
  destruct (Z.eqb_spec n 0); [lia|]. done.
Qed.
End ReadControl.

(** What was encoded is read back, and nothing behind it is touched. *)
Lemma control_read f r rest :
  control_ok f -> ready r (encode f ++ rest) -> zlen (encode f) - 9 <= fr_maxFrameSize r ->
  zlen (encode f) < 2 ^ 24 -> exists r', ReadFrame r = (Ok f, r') /\ took r r' rest.
Proof.
  intros Hok Hr Hmax Hlen. destruct f; try done; cbn [control_ok] in Hok; pose proof Hr as Hr';
    cbn [encode] in Hmax, Hlen; rewrite ?zlen_app in Hmax, Hlen.
  - destruct Hok. by apply read_priority.
  - destruct Hok. by apply read_rst.
  - destruct Ack; [subst; by apply read_settings_ack|]. destruct Hok.
    rewrite zlen_app, settings_len in *. change (zlen (frameHeader _ _ _ _)) with 9 in *.
    apply read_settings; done || lia.
  - rewrite Hok in *. apply read_ping; [done..|]. change (zlen (frameHeader _ _ _ _)) with 9 in *. lia.
  - destruct Hok. change (zlen (frameHeader _ _ _ _)) with 9 in *. change (zlen (be32 _)) with 4 in *.
    rewrite ?zlen_app in *. change (zlen (be32 _)) with 4 in *. apply read_goaway; done || lia.
  - destruct Hok. by apply read_window_update.
Qed.

(** ** DATA *)

Lemma data_flags (e : bool) :
  let fl := if e then FlagEndStream else 0 in
  Flags_Has fl FlagPadded = false /\ Flags_Has fl FlagEndStream = e /\
  Flags_Has (Z.lor fl FlagPadded) FlagPadded = true /\
  Flags_Has (Z.lor fl FlagPadded) FlagEndStream = e /\ 0 <= fl < 256 /\ 0 <= Z.lor fl FlagPadded < 256.
Proof. by destruct e. Qed.

(** A DATA frame is read with its payload left for the body reader. *)
Lemma read_piece_payload r id d p e rest :
  0 < id < 2 ^ 31 -> 0 <= p <= 255 -> piece_len (d, p, e) <= fr_maxFrameSize r -> piece_len (d, p, e) < 2 ^ 24 ->
  ready r (encodePiece id (d, p, e) ++ rest) ->
  exists r', ReadFrame r = (Ok (piece_frame id (d, p, e)), r') /\ took r r' rest /\
    fr_lastPayload r' = Some (zlen d, p) /\ fr_in r' = d ++ replicate (Z.to_nat p) Byte.x00 ++ rest.
Proof.
  unfold piece_len, encodePiece, piece_frame.
  intros Hid Hp Hmax Hlen Hr. pose proof (zlen_nonneg d) as Hd.
  destruct (data_flags e) as (F1 & F2 & F3 & F4 & F5 & F6). cbv zeta in *.
  assert (Ht : Z.to_nat (zlen d) = length d) by (unfold zlen; lia).
  destruct (Z.ltb_spec 0 p) as [Hp0|Hp0]; rewrite <- app_assoc in Hr.
  - eexists. apply and_assoc. split.
    + eapply (ReadFrame_via r (zlen d + p + 1) FrameData (Z.lor (if e then FlagEndStream else 0) FlagPadded) id);
        [hdr_tac|hdr_tac|done|lia|exact Hr|lia|done| |].
      { enter DataFrame_readFrom. destruct (Z.eqb_spec id 0); [lia|]. rstep. rewrite F3. cbv iota.
        rewrite (readByte_ok _ p (d ++ replicate (Z.to_nat p) Byte.x00 ++ rest)) by (lia || (cbn [fr_in fr_set_in app]; by rewrite <- app_assoc)).
        rstep. destruct (Z.leb_spec (zlen d + p + 1) p); [lia|]. rstep. unfold payload. rstep. cbn [fst snd].
        replace (zlen d + p + 1 - (p + 1)) with (zlen d) by lia. rewrite Ht, take_app_length, F4. done. }
      repeat split; [by destruct Hr|]. cbn. exists (d ++ replicate (Z.to_nat p) Byte.x00).
      split; [by rewrite <- app_assoc|]. rewrite zlen_app. unfold zlen. rewrite length_replicate. lia.
    + done.
  - replace p with 0 in * by lia. eexists. apply and_assoc. split.
    + eapply (ReadFrame_via r (zlen d) FrameData (if e then FlagEndStream else 0) id);
        [hdr_tac|hdr_tac|done|lia|exact Hr|lia|done| |].
      { enter DataFrame_readFrom. destruct (Z.eqb_spec id 0); [lia|]. rstep. rewrite F1. cbv iota.
        rstep. unfold payload. rstep. cbn [fst snd]. rewrite Ht, take_app_length, F2. done. }
      repeat split; [by destruct Hr|]. cbn. exists d. split; [done|lia].
    + done.
Qed.

Lemma read_piece r id x rest :
  0 < id < 2 ^ 31 -> 0 <= x.1.2 <= 255 -> piece_len x <= fr_maxFrameSize r -> piece_len x < 2 ^ 24 ->
  ready r (encodePiece id x ++ rest) ->
  exists r', ReadFrame r = (Ok (piece_frame id x), r') /\ took r r' rest.
Proof.
  destruct x as [[d p] e]. cbn [fst snd]. intros Hid Hp Hmax Hlen Hr.
  destruct (read_piece_payload r id d p e rest Hid Hp Hmax Hlen Hr) as (r' & E & Ht & _). by exists r'.
Qed.

Lemma read_pieces l r id rest :
  0 < id < 2 ^ 31 ->
  Forall (fun x => 0 <= x.1.2 <= 255 /\ piece_len x <= fr_maxFrameSize r /\ piece_len x < 2 ^ 24) l ->
  ready r ((l ≫= encodePiece id) ++ rest) ->
  exists r', ReadFrames (length l) r = Some (map (piece_frame id) l, r') /\ took r r' rest.
Proof.
  intros Hid. revert r. induction l as [|x l IH]; intros r Hall Hr.
  { exists r. cbn. by repeat split; try apply Hr. }
  apply Forall_cons in Hall as [(Hp & Hm & Hl) Hall]. rewrite bind_cons, <- app_assoc in Hr.
  destruct (read_piece r id x _ Hid Hp Hm Hl Hr) as (r1 & E & Hr1 & Hd & Hmx & Hb & He & Hh).
  destruct (IH r1) as (r2 & E2 & Hr2 & Hd2 & Hmx2 & Hb2 & He2 & Hh2); [by rewrite Hmx|done|].
  exists r2. cbn [length ReadFrames map]. rewrite E, E2. cbn. split; [done|]. unfold took. by rewrite Hd2, Hmx2, Hb2, He2, Hh2.
Qed.

(** ** Refused frames *)

Lemma readLoop_err n r e r' : readOne r = (Err e, r') -> readLoop (S n) r = (Err e, r').
Proof. intros H. cbn [readLoop]. unfold rbind. by rewrite H. Qed.

(** Settles a branch of [readFrom] on a known frame type by its tests. *)
Ltac refuse He :=
  cbn [Z.eqb Pos.eqb FrameData FrameHeaders FramePriority FrameRSTStream FrameSettings FramePushPromise
    FramePing FrameGoAway FrameWindowUpdate FrameContinuation andb orb negb] in He;
  rstep;
  repeat (match type of He with
          | context [Z.eqb ?a ?b] => destruct (Z.eqb a b)
          | context [Z.ltb ?a ?b] => destruct (Z.ltb a b)
          | context [Flags_Has ?a ?b] => destruct (Flags_Has a b)
          end; cbn [andb orb negb] in He; rstep);
  try discriminate He; injection He as <-; by eexists.

(** A GOAWAY without its eight bytes. *)
Definition shortGoAway (max len ty : Z) : bool := (ty =? FrameGoAway) && (len <? 8) && (len <=? max).

Lemma goAway_refuses r len fl id rest :
  len < 8 -> exists r', readFrom None (fr_set_in rest (fr_set_header len FrameGoAway fl id r)) = (Err (ConnError ErrCodeProtocol), r').
Proof.
  intros Hl. unfold readFrom. rstep. cbn [Z.eqb Pos.eqb FrameGoAway FrameData FrameHeaders FramePriority FrameRSTStream FrameSettings FramePushPromise FramePing].
  unfold GoAwayFrame_readFrom. rstep. destruct (id =? 0); rstep; [|by eexists].
  destruct (Z.ltb_spec len 8); [by eexists|lia].
Qed.

(** The methods refuse a frame header as the specification says. *)
Lemma readFrom_refuses max r len ty fl id rest e :
  header_error false max len ty fl id = Some e -> len <= max -> ty <> FrameContinuation -> (ty = FrameGoAway -> 8 <= len) ->
  exists r', readFrom None (fr_set_in rest (fr_set_header len ty fl id r)) = (Err e, r').
Proof.
  intros He Hm Hc Hga. unfold header_error in He. destruct (Z.ltb_spec max len); [lia|].
  destruct (Z.eqb_spec ty FrameContinuation); [done|]. cbn [existsb] in He.
  unfold readFrom. rstep.
  destruct (Z.eqb_spec ty FrameData) as [->|]; [unfold DataFrame_readFrom; refuse He|].
  destruct (Z.eqb_spec ty FrameHeaders) as [->|]; [unfold HeadersFrame_readFrom; refuse He|].
  destruct (Z.eqb_spec ty FramePriority) as [->|]; [unfold PriorityFrame_readFrom; refuse He|].
  destruct (Z.eqb_spec ty FrameRSTStream) as [->|]; [unfold RSTStreamFrame_readFrom; refuse He|].
  destruct (Z.eqb_spec ty FrameSettings) as [->|]; [unfold SettingsFrame_readFrom, settingLen; refuse He|].
  destruct (Z.eqb_spec ty FramePushPromise) as [->|]; [unfold PushPromiseFrame_readFrom; refuse He|].
  destruct (Z.eqb_spec ty FramePing) as [->|]; [unfold PingFrame_readFrom; refuse He|].
  destruct (Z.eqb_spec ty FrameGoAway) as [->|];
    [specialize (Hga eq_refl); rewrite (proj2 (Z.ltb_ge len 8) Hga) in He; unfold GoAwayFrame_readFrom; refuse He|].
  destruct (Z.eqb_spec ty FrameWindowUpdate) as [->|]; [unfold WindowUpdateFrame_readFrom; refuse He|].
  exfalso. cbn [andb orb] in He. rewrite !andb_false_r in He. done.
Qed.

(** ** Properties *)

(** A frame of fixed layout is written, or the sink fails. *)
Lemma control_write_total {W} `{Sink W} u f po o (w : frameWriter W) :
  control_ok f -> fw_err w = None ->
  match WriteFrame u f po o w with
  | (Ok _, _) => True
  | (Err e, w') => fw_err w' = Some e
  | (Panic, _) => False
  end.
Proof.
  assert (Hret : forall x : frameWriter W, match return_err x with
    | (Ok _, _) => True | (Err e, w') => fw_err w' = Some e | (Panic, _) => False end)
    by (intros x; unfold return_err; by destruct (fw_err x) eqn:E).
  intros Hok He. destruct f; try done; cbn [WriteFrame]; cbn [control_ok] in Hok.
  - destruct Hok as [Hid [Hp _]]. unfold PriorityFrame_writeTo.
    rewrite (proj2 (validStreamID_spec StreamID ltac:(lia))), (proj2 (validStreamID_spec (StreamDependency Prio) ltac:(lia))) by lia.
    apply Hret.
  - destruct Hok as [Hid _]. unfold RSTStreamFrame_writeTo.
    rewrite (proj2 (validStreamID_spec StreamID ltac:(lia))) by lia. apply Hret.
  - unfold SettingsFrame_writeTo. destruct Ack; [subst|]; apply Hret.
  - apply Hret.
  - apply Hret.
  - unfold WindowUpdateFrame_writeTo. destruct Hok as [_ Hn].
    destruct (Z.eqb_spec WindowSizeIncrement 0); [lia|].
    destruct (Z.ltb_spec maxInitialWindowSize WindowSizeIncrement); [lia|]. apply Hret.
Qed.

(** Frames of fixed layout round-trip.  A PRIORITY, RST_STREAM, SETTINGS, PING, GOAWAY
    or WINDOW_UPDATE frame with fields in range is written completely or the write fails
    with the sink's error, never otherwise; what reaches the sink is read back by
    [ReadFrame] as the same frame, with nothing behind it touched, whatever the sink and
    whatever the reader has left of an earlier payload. *)
Theorem control_frame_roundtrip {W} `{Sink W} u f po o (w : frameWriter W) :
  control_ok f -> fw_err w = None -> zlen (encode f) < 2 ^ 24 ->
  match WriteFrame u f po o w with
  | (Ok _, w') =>
    exists bytes, sink_out (fw_w w') = sink_out (fw_w w) ++ bytes /\
      forall r rest, ready r (bytes ++ rest) -> zlen bytes - 9 <= fr_maxFrameSize r ->
        exists r', ReadFrame r = (Ok f, r') /\ took r r' rest
  | (Err e, w') => fw_err w' = Some e
  | (Panic, _) => False
  end.
Proof.
  intros Hok He Hlen. pose proof (control_write_total u f po o w Hok He) as Ht.
  destruct (WriteFrame u f po o w) as [[[]|e|] w'] eqn:E; [|done|done].
  exists (encode f). split; [by apply (control_written u f po o w w')|].
  intros r rest Hr Hm. by apply control_read.
Qed.

Lemma control_frame_roundtrip_witness :
  exists bytes, fw_w (WriteFrame (W := list byte) id (GoAwayFrame 5 ErrCodeProtocol [zb 1; zb 2]) [] []
                        (newFrameWriter [])).2 = [] ++ bytes /\
    forall r rest, ready r (bytes ++ rest) -> zlen bytes - 9 <= fr_maxFrameSize r ->
      exists r', ReadFrame r = (Ok (GoAwayFrame 5 ErrCodeProtocol [zb 1; zb 2]), r') /\ took r r' rest.
Proof.
  refine (control_frame_roundtrip (W := list byte) id (GoAwayFrame 5 ErrCodeProtocol [zb 1; zb 2]) [] []
            (newFrameWriter []) _ _ _); vm_compute; intuition congruence.
Defined.

(** DATA survives being cut into frames.  A DATA frame whose reader yields its data is
    written as a sequence of DATA frames that together carry the same bytes and the same
    padding, each within the peer's frame size limit, with END_STREAM on the last one only
    and only if it was asked for; reading as many frames gives them back.  The write
    terminates and fails only with the sink's error. *)
Theorem data_frame_roundtrip {W} `{Sink W} id d more p e (w : frameWriter W) :
  0 < id < 2 ^ 31 -> zlen d < 2 ^ 31 -> 0 <= p <= 255 -> fw_err w = None ->
  2 <= fw_maxFrameSize w < 2 ^ 24 ->
  match DataFrame_writeTo id (Some (d ++ more)) (zlen d) p e w with
  | (Ok _, w') =>
    exists l, carries (fw_maxFrameSize w) d p e l /\
      sink_out (fw_w w') = sink_out (fw_w w) ++ (l ≫= encodePiece id) /\
      forall r rest, ready r ((l ≫= encodePiece id) ++ rest) -> fw_maxFrameSize w <= fr_maxFrameSize r ->
        exists r', ReadFrames (length l) r = Some (map (piece_frame id) l, r') /\ took r r' rest
  | (Err x, w') => fw_err w' = Some x
  | (Panic, _) => False
  end.
Proof.
  intros Hid Hd Hp He Hm. pose proof (data_written id d more p e w Hid Hd Hp He Hm) as H'.
  destruct (DataFrame_writeTo _ _ _ _ _ w) as [[[]|x|] w']; [|done|done].
  destruct H' as (l & Hc & Ho). exists l. split_and!; [done|done|]. intros r rest Hr Hmax.
  apply read_pieces; [done| |done]. eapply Forall_impl; [apply Hc|]. cbn. lia.
Qed.

Lemma data_frame_roundtrip_witness :
  exists l, carries 16384 (str "hello") 3 true l /\
    fw_w (DataFrame_writeTo (W := list byte) 1 (Some (str "hello" ++ [])) 5 3 true (newFrameWriter [])).2
      = [] ++ (l ≫= encodePiece 1) /\
    forall r rest, ready r ((l ≫= encodePiece 1) ++ rest) -> 16384 <= fr_maxFrameSize r ->
      exists r', ReadFrames (length l) r = Some (map (piece_frame 1) l, r') /\ took r r' rest.
Proof.
  refine (data_frame_roundtrip (W := list byte) 1 (str "hello") [] 3 true (newFrameWriter []) _ _ _ _ _);
    vm_compute; intuition congruence.
Defined.

(** Padding costs more than the credit taken for it.  The frames that carry a padded
    DATA frame have more payload than the data and the padding for which [stream.write]
    obtained credit, by one octet for each frame with padding: the Pad Length field, which
    RFC 7540 section 6.9.1 counts, is not accounted for. *)
Theorem pad_length_uncounted {W} `{Sink W} id d more p e (w w' : frameWriter W) :
  0 < id < 2 ^ 31 -> zlen d < 2 ^ 31 -> 0 < p <= 255 -> fw_err w = None -> 2 <= fw_maxFrameSize w < 2 ^ 24 ->
  DataFrame_writeTo id (Some (d ++ more)) (zlen d) p e w = (Ok tt, w') ->
  exists l, sink_out (fw_w w') = sink_out (fw_w w) ++ (l ≫= encodePiece id) /\
    frame_len (DataFrame id (Some (d ++ more)) (zlen d) p e) < foldr (fun x a => piece_len x + a) 0 l.
Proof.
  intros Hid Hd Hp He Hm Hw. pose proof (data_written id d more p e w Hid Hd ltac:(lia) He Hm) as H'.
  rewrite Hw in H'. destruct H' as (l & Hc & Ho). exists l. split; [done|].
  rewrite (carries_payload _ _ _ _ _ Hc). cbn [frame_len].
  assert (Hne : zlen (filter (fun x : piece => 0 < x.1.2) l) <> 0); [|pose proof (zlen_nonneg (filter (fun x : piece => 0 < x.1.2) l)); lia].
  destruct Hc as (_ & Hsum & Hall & _). intros Hz.
  assert (Hf : filter (fun x : piece => 0 < x.1.2) l = []) by (destruct (filter _ l); [done|rewrite zlen_cons in Hz; pose proof (zlen_nonneg l0); lia]).
  clear Hz. assert (Hle : foldr (fun x a => x.1.2 + a) 0 l <= 0); [|lia]. clear Hsum Ho.
  induction Hall as [|x l Hx _ IH]; [done|]. rewrite filter_cons in Hf. destruct (decide _); [done|].
  cbn [foldr]. specialize (IH Hf). lia.
Qed.

Lemma pad_length_uncounted_witness :
  exists l, fw_w (DataFrame_writeTo (W := list byte) 1 (Some (str "hello" ++ [])) 5 3 true (newFrameWriter [])).2
      = [] ++ (l ≫= encodePiece 1) /\
    8 < foldr (fun x a => piece_len x + a) 0 l.
Proof.
  refine (pad_length_uncounted (W := list byte) 1 (str "hello") [] 3 true (newFrameWriter [])
            (DataFrame_writeTo (W := list byte) 1 (Some (str "hello" ++ [])) 5 3 true (newFrameWriter [])).2 _ _ _ _ _ _);
    vm_compute; intuition congruence.
Defined.



(** An empty field name in a header block crashes the reader.  The three-byte block
    40 00 00, a literal with an empty name and an empty value, makes [Header.add] index an
    empty string. *)
Theorem empty_field_name_panics :
  (readFirst (frameHeader 3 FrameHeaders FlagEndHeaders 1 ++ [zb 0x40; zb 0; zb 0])).1 = Panic.
Proof. vm_compute. reflexivity. Qed.

(** A connection that ends inside a frame crashes the reader.  When the input ends after
    two of the four bytes of an RST_STREAM payload, [readUint32] ignores the error of the
    peek and decodes the short slice. *)
Theorem truncated_frame_panics :
  (readFirst (frameHeader 4 FrameRSTStream 0 1 ++ [zb 0; zb 0])).1 = Panic.
Proof. vm_compute. reflexivity. Qed.

(** A PUSH_PROMISE too short for its promised stream identifier is accepted: with an
    empty payload the identifier is taken from the bytes of the next frame. *)
Theorem short_push_promise_accepted :
  exists r, readFirst (frameHeader 0 FramePushPromise FlagEndHeaders 1 ++ frameHeader 0 FrameSettings FlagAck 0)
    = (Ok (PushPromiseFrame 1 4 None 0), r) /\ zlen (fr_in r) = 5.
Proof. eexists. split; vm_compute; reflexivity. Qed.

(** A SETTINGS frame with a maximum frame size out of range is answered with
    FRAME_SIZE_ERROR, where the comment above the code and RFC 7540 section 6.5.2 ask for
    PROTOCOL_ERROR. *)
Theorem bad_max_frame_size_error :
  (readFirst (frameHeader 6 FrameSettings 0 0 ++ be16 SettingMaxFrameSize ++ be32 1)).1
    = Err (ConnError ErrCodeFrameSize).
Proof. vm_compute. reflexivity. Qed.

(** A header that has only pseudo-header fields is not written: the encoder's dynamic
    table gets the entry, nil is returned and no byte reaches the peer. *)
Theorem pseudo_only_header_not_written :
  exists w, HeadersFrame_writeTo (W := list byte) id 1 pseudoOnly noPriority 0 true pseudoNames
      [(str ":path", [str "/x"])] (newFrameWriter []) = (Ok tt, w) /\ fw_w w = [] /\
    ht_data (e_table (fw_enc w)) = [HF (str ":path") (str "/x")].
Proof. eexists. split; [vm_compute; reflexivity|]. split; reflexivity. Qed.
