(* ===== verification/HeaderBlock.v ===== *)
(** * Header blocks on the wire ([src/write.go])

    [HeadersFrame.writeTo] and [PushPromiseFrame.writeTo] encode the fields of a header one
    after the other and send a fragment whenever the buffer reaches the frame size limit, and
    the rest after the last field.  Here is what reaches the sink: a first frame and
    CONTINUATION frames whose fragments are the encoded block, within the limit, with
    END_HEADERS on the last one only. *)

From S2P Require Import Prelude HeaderTable HpackEncode HpackDecode HpackSync Types HttpHeader FrameWriter FrameRoundtrip.

(** ** What is expected on the wire *)

(** The first frame of a block with a fragment, and whether the block ends with it. *)
Definition firstFrameBytes (bp : blockParams) (flags : Z) (frag : list byte) (last : bool) : list byte :=
  frameHeader (zlen frag + bp_nonFragmentLen bp) (bp_type bp) (if last then Z.lor flags FlagEndHeaders else flags) (bp_streamID bp)
    ++ bp_prefix bp ++ frag ++ take (Z.to_nat (bp_padLen bp)) zeroBuf.

Definition continuationBytes (id : Z) (frag : list byte) (last : bool) : list byte :=
  frameHeader (zlen frag) FrameContinuation (if last then FlagEndHeaders else 0) id ++ frag.

(** The CONTINUATION frames of some fragments; the block ends with the last of them if it is
    closed. *)
Fixpoint continuations (id : Z) (closed : bool) (frags : list (list byte)) : list byte :=
  match frags with
  | [] => []
  | [f] => continuationBytes id f closed
  | f :: frags => continuationBytes id f false ++ continuations id closed frags
  end.

Definition blockBytes (bp : blockParams) (flags : Z) (closed : bool) (frags : list (list byte)) : list byte :=
  match frags with
  | [] => []
  | f :: frags => firstFrameBytes bp flags f (closed && bool_decide (frags = [])) ++ continuations (bp_streamID bp) closed frags
  end.

(** The fragments fit in frames of [max] bytes. *)
Definition fits (bp : blockParams) (max : Z) (frags : list (list byte)) : Prop :=
  Forall (fun f => zlen f <= max) frags /\
  match frags with f :: _ => zlen f + bp_nonFragmentLen bp <= max | [] => True end.

(** The fields of a header in the order in which they are written. *)
Definition pseudoPart (order : list gostring) (m : gmap gostring (list gostring)) : list field :=
  order ≫= fun k => (fun v => (k, v, false)) <$> default [] (m !! k).
Definition regularPart (order : list (gostring * list gostring)) : list field :=
  order ≫= fun kv => if bool_decide (kv.1 ∈ pseudoHeader) then [] else (fun v => (kv.1, v, false)) <$> kv.2.

Definition blockFields (pseudoOrder : list gostring) (order : list (gostring * list gostring))
    (m : gmap gostring (list gostring)) : list field :=
  pseudoPart pseudoOrder m ++ regularPart order.

(** A header that can be sent: lower-case names without a colon in front or the names of the
    pseudo-header fields, which have one value; no name without values; not only
    pseudo-header fields. *)
Definition name_ok (k : gostring) : bool :=
  match k with
  | [] => false
  | c :: _ => validHeaderKey k && (bool_decide (k ∈ pseudoHeader) || negb (bz c =? 58))
  end.

Definition header_ok (m : gmap gostring (list gostring)) : Prop :=
  map_Forall (fun k vv => name_ok k = true /\ vv <> [] /\ (k ∈ pseudoHeader -> length vv = 1%nat)) m /\
  exists k, is_Some (m !! k) /\ k ∉ pseudoHeader.

(** ** Encoding field by field *)

Lemma encIndexed_app dst i : encIndexed dst i = dst ++ encIndexed [] i.
Proof. apply encInteger_app. Qed.

(** What a field is encoded to does not depend on what is in the buffer. *)
Lemma EncodeHeaderField_app enc dst n v s :
  EncodeHeaderField enc dst n v s = (fun x => (x.1.1, dst ++ x.1.2, x.2)) <$> EncodeHeaderField enc [] n v s.
Proof.
  unfold EncodeHeaderField. rewrite (encSizeUpdates_app enc dst). destruct (encSizeUpdates enc []) as [enc1 pre].
  cbn [fst snd].
  assert (Hl : forall t i, encLiteral (dst ++ pre) n v t i (e_h enc1) =
    ((encLiteral pre n v t i (e_h enc1)).1, dst ++ (encLiteral pre n v t i (e_h enc1)).2)).
  { intros t i. rewrite (encLiteral_app (dst ++ pre)), (encLiteral_app pre). cbn [fst snd]. by rewrite app_assoc. }
  assert (Hi : forall i, encIndexed (dst ++ pre) i = dst ++ encIndexed pre i).
  { intros i. rewrite (encIndexed_app (dst ++ pre)), (encIndexed_app pre). by rewrite app_assoc. }
  rewrite !Hl. destruct s; [by destruct (encLiteral pre n v _ 0 _)|]. destruct (_ =? 0).
  { destruct (index n v) as [i []]; [by rewrite Hi|]. rewrite Hl. by destruct (encLiteral pre n v _ i _). }
  destruct (_ <? _); [by destruct (encLiteral pre n v _ 0 _)|]. destruct (find (e_table enc1) n v) as [i []]; [by rewrite Hi|].
  rewrite !Hl. destruct (e_i enc1); destruct (encLiteral pre n v _ i _); [|done]. cbn [fst snd].
  by destruct (add (e_table enc1) n v) as [[]|].
Qed.

(** [EncodeFields] in two parts. *)
Lemma EncodeFields_cons enc n v s fs k blk enc' :
  EncodeFields enc [] ((n, v, s) :: fs) = Some (k, blk, enc') ->
  exists k1 o1 enc1 k2 o2, EncodeHeaderField enc [] n v s = Some (k1, o1, enc1) /\
    EncodeFields enc1 [] fs = Some (k2, o2, enc') /\ k = k1 + k2 /\ blk = o1 ++ o2.
Proof.
  cbn -[EncodeHeaderField]. destruct (EncodeHeaderField enc [] n v s) as [[[k1 o1] enc1]|]; [|done]. cbn -[EncodeHeaderField].
  assert (Happ : forall fs enc dst, EncodeFields enc dst fs = (fun x => (x.1.1, dst ++ x.1.2, x.2)) <$> EncodeFields enc [] fs).
  { clear. induction fs as [|[[n v] s] fs IH]; intros enc dst; [cbn; by rewrite app_nil_r|].
    cbn -[EncodeHeaderField]. rewrite (EncodeHeaderField_app enc dst).
    destruct (EncodeHeaderField enc [] n v s) as [[[k1 o1] enc1]|]; cbn -[EncodeHeaderField]; [|done].
    rewrite (IH enc1 (dst ++ o1)), (IH enc1 o1). destruct (EncodeFields enc1 [] fs) as [[[k2 o2] enc2]|]; cbn; [|done].
    by rewrite app_assoc. }
  rewrite (Happ fs enc1 o1). destruct (EncodeFields enc1 [] fs) as [[[k2 o2] enc2]|] eqn:E; cbn; [|done].
  intros [= <- <- <-]. by exists k1, o1, enc1, k2, o2.
Qed.

(** ** Fragments *)

Lemma continuations_snoc id b l f :
  continuations id b (l ++ [f]) = continuations id false l ++ continuationBytes id f b.
Proof.
  induction l as [|x l IH]; [done|]. destruct l as [|y l]; [done|].
  change (continuationBytes id x false ++ continuations id b ((y :: l) ++ [f]) =
    (continuationBytes id x false ++ continuations id false (y :: l)) ++ continuationBytes id f b).
  by rewrite IH, app_assoc.
Qed.

(** One more frame of a block. *)
Lemma block_snoc bp flags b l f :
  blockBytes bp flags b (l ++ [f]) = blockBytes bp flags false l ++
    (if bool_decide (l = []) then firstFrameBytes bp flags f b else continuationBytes (bp_streamID bp) f b).
Proof.
  destruct l as [|x l]; [cbn; by rewrite andb_true_r, app_nil_r|].
  rewrite bool_decide_false by done. cbn [app blockBytes]. rewrite (bool_decide_false (l ++ [f] = [])) by (by destruct l).
  rewrite andb_false_r, continuations_snoc. cbn [andb]. by rewrite app_assoc.
Qed.

Lemma fits_snoc bp max l f :
  fits bp max l -> 0 <= bp_nonFragmentLen bp -> 0 < zlen f <= (if bool_decide (l = []) then max - bp_nonFragmentLen bp else max) ->
  fits bp max (l ++ [f]).
Proof.
  intros [Hall Hh] Hn Hf. split.
  - apply Forall_app. split; [done|]. constructor; [|done]. case_bool_decide; lia.
  - destruct l as [|x l]; [|done]. rewrite bool_decide_true in Hf by done. cbn. lia.
Qed.

Section Fragments.
Context {W : Type} `{Sink W}.
Implicit Types w : frameWriter W.

(** A write changes the sink and the error only. *)
Lemma fw_Write_same src w :
  fw_buf (fw_Write src w) = fw_buf w /\ fw_maxFrameSize (fw_Write src w) = fw_maxFrameSize w /\
  fw_enc (fw_Write src w) = fw_enc w /\ fw_hpackBuf (fw_Write src w) = fw_hpackBuf w /\
  fw_maxHeaderListSize (fw_Write src w) = fw_maxHeaderListSize w.
Proof. unfold fw_Write. destruct (fw_err w); [done|]. by destruct (sink_write _ _). Qed.

(** The header of a frame and what follows it. *)
Definition same_writer w w' : Prop :=
  fw_maxFrameSize w' = fw_maxFrameSize w /\ fw_enc w' = fw_enc w /\ fw_hpackBuf w' = fw_hpackBuf w /\
  fw_maxHeaderListSize w' = fw_maxHeaderListSize w.

Lemma flush_write b w :
  same_writer w (fw_Write b (flushBuf w)) /\
  (fw_err (fw_Write b (flushBuf w)) = None -> out (fw_Write b (flushBuf w)) = out w ++ fw_buf w ++ b).
Proof.
  destruct (fw_Write_same b (flushBuf w)) as (_ & M1 & E1 & B1 & L1), (fw_Write_same (fw_buf w) w) as (_ & M2 & E2 & B2 & L2).
  fold (flushBuf w) in M2, E2, B2, L2. split; [repeat split; congruence|].
  intros (He & -> & _)%fw_Write_ok. apply flushBuf_ok in He as (_ & -> & _). by rewrite <- app_assoc.
Qed.

Variables (bp : blockParams) (flags max : Z) (start : list byte).
Hypothesis Hmax : bp_nonFragmentLen bp < max < 2 ^ 24.
Hypothesis Hnon : 0 <= bp_nonFragmentLen bp.

(** The frames sent so far. *)
Definition sent (closed : bool) (frags : list (list byte)) (s : blockState) : Prop :=
  fw_err (bs_w s) = None /\ out (bs_w s) = start ++ blockBytes bp flags closed frags /\
  bs_first s = negb (bool_decide (frags = [])) /\ (closed = false -> bs_flags s = flags) /\
  fits bp max frags /\ fw_maxFrameSize (bs_w s) = max.

(** What a fragment does not touch. *)
Definition same_block (s s' : blockState (W := W)) : Prop :=
  fw_enc (bs_w s') = fw_enc (bs_w s) /\ bs_remaining s' = bs_remaining s /\ bs_written s' = bs_written s /\
  fw_maxHeaderListSize (bs_w s') = fw_maxHeaderListSize (bs_w s).

(** One fragment: as much of the buffer as fits in a frame. *)
Lemma writeFragment_ok frags s n s' :
  sent false frags s -> 0 < zlen (fw_hpackBuf (bs_w s)) < 2 ^ 32 -> writeFragment bp s = (n, s') ->
  same_block s s' /\ fw_hpackBuf (bs_w s') = fw_hpackBuf (bs_w s) /\ 0 < n <= zlen (fw_hpackBuf (bs_w s)) /\
  (fw_err (bs_w s') = None ->
   sent ((bs_remaining s =? 0) && (n =? zlen (fw_hpackBuf (bs_w s)))) (frags ++ [take (Z.to_nat n) (fw_hpackBuf (bs_w s))]) s').
Proof.
  intros (He & Ho & Hf & Hfl & Hfit & Hm) Hlen. specialize (Hfl eq_refl). set (buf := fw_hpackBuf (bs_w s)) in *.
  unfold writeFragment. fold buf. rewrite Hm, Hfl, Hf, negb_involutive, !(u32_small (zlen buf)) by lia.
  rewrite (u32_small (max - _)) by lia.
  assert (Hz : forall n, 0 < n <= zlen buf -> zlen (take (Z.to_nat n) buf) = n)
    by (intros k Hk; unfold zlen in *; rewrite length_take; lia).
  case_bool_decide as Hnil.
  - subst frags. set (cap := max - bp_nonFragmentLen bp).
    destruct (if cap <? zlen buf then _ else _) as [k fl'] eqn:E.
    assert (Hk : k = Z.min (zlen buf) cap /\ fl' = (if (bs_remaining s =? 0) && (k =? zlen buf) then Z.lor flags FlagEndHeaders else flags)).
    { destruct (Z.ltb_spec cap (zlen buf)); [injection E as <- <-|destruct (bs_remaining s =? 0); injection E as <- <-];
        (split; [lia|]); destruct (Z.eqb_spec cap (zlen buf)); rewrite ?Z.eqb_refl, ?andb_false_r; done || lia. }
    destruct Hk as [Hk ->]. intros [= <- <-]. unfold same_block. cbn [bs_w bs_remaining bs_written bs_flags bs_first].
    set (w1 := fw_set_buf _ _). change (fw_hpackBuf (flushBuf w1)) with (fw_hpackBuf (fw_Write (fw_buf w1) w1)).
    replace (fw_hpackBuf (fw_Write (fw_buf w1) w1)) with buf by (symmetry; apply fw_Write_same).
    destruct (flush_write (take (Z.to_nat k) buf) w1) as [S1 O1].
    change (same_writer (bs_w s) (fw_Write (take (Z.to_nat k) buf) (flushBuf w1))) in S1. destruct S1 as (M1 & E1 & B1 & L1). fold buf in B1.
    set (w2 := fw_Write _ (flushBuf w1)) in *.
    destruct (fw_Write_same (take (Z.to_nat (bp_padLen bp)) zeroBuf) w2) as (_ & M2 & E2 & B2 & L2).
    split; [repeat split; congruence|]. split; [congruence|]. split; [lia|].
    intros Herr. pose proof (fw_Write_ok _ _ Herr) as (Herr2 & O2 & _). unfold sent. cbn [bs_w bs_flags bs_first].
    split_and!; [done| |done| | |congruence].
    + rewrite O2, O1 by done. change (out w1) with (out (bs_w s)). rewrite Ho. cbn [blockBytes app]. rewrite app_nil_r.
      unfold firstFrameBytes, w1. cbn [fw_buf fw_set_buf writeFrameHeader]. rewrite Hz, u32_small by lia.
      by rewrite (bool_decide_true ([] = [])), andb_true_r, app_nil_r, <- !app_assoc by done.
    + intros Hc. by rewrite Hc.
    + apply (fits_snoc bp max []); [done|done|]. rewrite bool_decide_true, Hz by (done || lia). lia.
  - destruct (if max <? zlen buf then _ else _) as [k fl'] eqn:E.
    assert (Hk : k = Z.min (zlen buf) max /\ fl' = (if (bs_remaining s =? 0) && (k =? zlen buf) then FlagEndHeaders else 0)).
    { destruct (Z.ltb_spec max (zlen buf)); [injection E as <- <-|destruct (bs_remaining s =? 0); injection E as <- <-];
        (split; [lia|]); destruct (Z.eqb_spec max (zlen buf)); rewrite ?Z.eqb_refl, ?andb_false_r; done || lia. }
    destruct Hk as [Hk ->]. intros [= <- <-]. unfold same_block. cbn [bs_w bs_remaining bs_written bs_flags bs_first].
    set (w1 := writeFrameHeader _ _ _ _ _). change (fw_hpackBuf (flushBuf w1)) with (fw_hpackBuf (fw_Write (fw_buf w1) w1)).
    replace (fw_hpackBuf (fw_Write (fw_buf w1) w1)) with buf by (symmetry; apply fw_Write_same).
    destruct (flush_write (take (Z.to_nat k) buf) w1) as [S1 O1].
    change (same_writer (bs_w s) (fw_Write (take (Z.to_nat k) buf) (flushBuf w1))) in S1. destruct S1 as (M1 & E1 & B1 & L1). fold buf in B1.
    split; [repeat split; congruence|]. split; [congruence|]. split; [lia|].
    intros Herr. unfold sent. cbn [bs_w bs_flags bs_first]. split_and!; [done| | |done| |congruence].
    + rewrite O1 by done. change (out w1) with (out (bs_w s)). rewrite Ho, block_snoc, bool_decide_false by done.
      unfold continuationBytes, w1. cbn [fw_buf writeFrameHeader]. rewrite Hz by lia. by rewrite <- !app_assoc.
    + by rewrite bool_decide_false by (by destruct frags).
    + apply fits_snoc; [done|done|]. rewrite bool_decide_false, Hz by (done || lia). lia.
Qed.
(** The loop of the fragments: all of the buffer when no field is left, and otherwise until
    less than a frame is in it. *)
Lemma writeFragments_ok fuel frags s :
  (length (fw_hpackBuf (bs_w s)) < fuel)%nat -> sent false frags s -> 0 < zlen (fw_hpackBuf (bs_w s)) < 2 ^ 32 ->
  match writeFragments fuel bp s with
  | (Some e, s') => fw_err (bs_w s') = Some e
  | (None, s') => exists more, sent (bs_remaining s =? 0) (frags ++ more) s' /\ same_block s s' /\
      concat more ++ fw_hpackBuf (bs_w s') = fw_hpackBuf (bs_w s) /\ more <> [] /\
      (bs_remaining s = 0 -> fw_hpackBuf (bs_w s') = [])
  end.
Proof.
  revert frags s. induction fuel as [|fuel IH]; intros frags s Hfuel Hs Hlen; [lia|]. cbn [writeFragments].
  destruct (writeFragment bp s) as [n s1] eqn:E.
  destruct (writeFragment_ok frags s n s1 Hs Hlen E) as ((S1 & S2 & S3 & S4) & Hb & Hn & Hsent).
  set (buf := fw_hpackBuf (bs_w s)) in *. destruct (fw_err (bs_w s1)) as [e|] eqn:He; [exact He|].
  specialize (Hsent eq_refl). rewrite Hb, S2. set (rest := drop (Z.to_nat n) buf).
  assert (Hrest : zlen rest = zlen buf - n) by (unfold rest, zlen in *; rewrite length_drop; lia).
  assert (Hcat : take (Z.to_nat n) buf ++ rest = buf) by apply take_drop.
  set (s2 := MkBS (fw_set_hpack _ rest (bs_w s1)) _ _ _ _).
  assert (Hsent2 : sent ((bs_remaining s =? 0) && (n =? zlen buf)) (frags ++ [take (Z.to_nat n) buf]) s2) by exact Hsent.
  assert (Hmx : fw_maxFrameSize (bs_w s1) = max) by apply Hsent. rewrite Hmx. change (bs_remaining s2) with (bs_remaining s).
  destruct ((max <=? zlen rest) || ((bs_remaining s =? 0) && (0 <? zlen rest))) eqn:Hgo.
  - assert (Hfalse : (n =? zlen buf) = false) by lia. rewrite Hfalse, andb_false_r in Hsent2.
    specialize (IH (frags ++ [take (Z.to_nat n) buf]) s2). change (fw_hpackBuf (bs_w s2)) with rest in IH.
    change (bs_remaining s2) with (bs_remaining s) in IH.
    specialize (IH ltac:(unfold zlen in *; lia) Hsent2 ltac:(lia)).
    destruct (writeFragments fuel bp s2) as [[e|] s']; [exact IH|].
    destruct IH as (more & Hs' & (T1 & T2 & T3 & T4) & Hc & _ & Hz). exists (take (Z.to_nat n) buf :: more).
    rewrite <- app_assoc in Hs'. cbn in T1, T2, T3, T4.
    split; [exact Hs'|]. split; [repeat split; congruence|]. split; [cbn [concat]; by rewrite <- app_assoc, Hc|done].
  - exists [take (Z.to_nat n) buf]. cbn [concat]. rewrite app_nil_r. split; [|split; [by repeat split|]; split; [exact Hcat|]; split; [done|]].
    + assert (Hx : ((bs_remaining s =? 0) && (n =? zlen buf)) = (bs_remaining s =? 0)) by lia. by rewrite Hx in Hsent2.
    + intros Hr. cbn. destruct rest; [done|]. rewrite zlen_cons in *. pose proof (zlen_nonneg rest). lia.
Qed.
(** ** The loops over the fields *)

Variables (unicodeToLower : gostring -> gostring) (enc' : Encoder).

(** The fields left in a state, what they will be encoded to, and that their sizes stay
    within the limits. *)
Definition pending (k : Z) (blk : list byte) (fs : list field) (s : blockState (W := W)) : Prop :=
  let w := bs_w s in
  EncodeFields (fw_enc w) [] fs = Some (k, blk, enc') /\ table_wf (e_table (fw_enc w)) /\ fields_ok fs /\
  bs_remaining s = zlen fs /\ 0 <= bs_written s /\ 0 <= k /\ bs_written s + k < 2 ^ 32 /\
  (fw_maxHeaderListSize w = 0 \/ bs_written s + k <= fw_maxHeaderListSize w) /\
  zlen (fw_hpackBuf w) + zlen blk < 2 ^ 32.

Lemma encodeField_ok c frags n v fs k blk s :
  sent c frags s -> pending k blk ((n, v, false) :: fs) s ->
  exists s' k2 blk2, encodeField n v s = Some s' /\ sent c frags s' /\ pending k2 blk2 fs s' /\
    fw_hpackBuf (bs_w s') ++ blk2 = fw_hpackBuf (bs_w s) ++ blk /\ fw_hpackBuf (bs_w s') <> [].
Proof.
  intros Hs (He & Hwf & Hok & Hr & Hw0 & Hk & Hw & Hl & Hlen). apply Forall_cons in Hok as [Hok1 Hok]. cbn [fst snd] in Hok1.
  apply EncodeFields_cons in He as (k1 & o1 & enc1 & k2 & o2 & E1 & E2 & -> & ->).
  destruct (EncodeHeaderField_wf _ _ _ _ _ _ _ _ Hwf Hok1 E1) as [Hwf1 _].
  destruct (sync_EncodeHeaderField collect (fw_enc (bs_w s)) [] n v false Hwf Hok1) as (k' & o' & e' & E' & _ & Hk1 & (tl & Htl & Hne) & _).
  rewrite E1 in E'. cbn in E'. injection E' as <- <- <-.
  assert (Ho1 : o1 <> []) by (rewrite Htl; by intros [_ ?]%app_nil).
  destruct (sync_block collect enc1 fs Hwf1 Hok) as (k3 & o3 & e3 & E3 & Hk2 & _). rewrite E2 in E3. injection E3 as <- <- <-.
  unfold encodeField. rewrite EncodeHeaderField_app, E1. cbn [fmap option_fmap option_map mbind option_bind fst snd].
  rewrite !zlen_app in Hlen. eexists _, k2, o2. split; [reflexivity|]. rewrite u32_small by lia.
  split; [exact Hs|]. split; [|cbn; split; [by rewrite <- app_assoc|by intros [_ ?]%app_nil]].
  rewrite zlen_cons in Hr. unfold pending. cbn. rewrite zlen_app. split_and!; try done; lia.
Qed.

Lemma encodeValues_ok c frags n vv fs k blk s :
  sent c frags s -> pending k blk (((fun v => (n, v, false)) <$> vv) ++ fs) s ->
  exists s' k2 blk2, encodeValues n vv s = (Ok tt, s') /\ sent c frags s' /\ pending k2 blk2 fs s' /\
    fw_hpackBuf (bs_w s') ++ blk2 = fw_hpackBuf (bs_w s) ++ blk /\ (vv <> [] -> fw_hpackBuf (bs_w s') <> []).
Proof.
  revert k blk s. induction vv as [|v vv IH]; intros k blk s Hs Hp; [by exists s, k, blk|].
  destruct (encodeField_ok c frags n v _ k blk s Hs Hp) as (s1 & k1 & b1 & E1 & Hs1 & Hp1 & Hc1 & Hn1).
  cbn [encodeValues]. rewrite E1. pose proof Hp1 as (_ & _ & _ & _ & _ & Hk1 & _ & Hl1 & _).
  assert (Hlim : negb (fw_maxHeaderListSize (bs_w s1) =? 0) && (fw_maxHeaderListSize (bs_w s1) <? bs_written s1) = false) by lia.
  rewrite Hlim. destruct (IH k1 b1 s1 Hs1 Hp1) as (s2 & k2 & b2 & E2 & Hs2 & Hp2 & Hc2 & Hn2).
  exists s2, k2, b2. split_and!; [done|done|done|congruence|]. intros _ Hnil. destruct vv; [|by apply Hn2].
  cbn in E2. injection E2 as <-. done.
Qed.

Lemma encodePseudo_ok c frags order m fs k blk s :
  (forall x vv, x ∈ order -> m !! x = Some vv -> length vv = 1%nat) ->
  sent c frags s -> pending k blk (pseudoPart order m ++ fs) s ->
  exists s' k2 blk2, encodePseudo order (Some m) s = (Ok tt, s') /\ sent c frags s' /\ pending k2 blk2 fs s' /\
    fw_hpackBuf (bs_w s') ++ blk2 = fw_hpackBuf (bs_w s) ++ blk.
Proof.
  revert k blk s. induction order as [|x order IH]; intros k blk s Hone Hs Hp; [by exists s, k, blk|].
  assert (Hone' : forall y vv, y ∈ order -> m !! y = Some vv -> length vv = 1%nat) by (intros y vv Hy; apply Hone; by right).
  unfold pseudoPart in Hp. rewrite bind_cons in Hp. cbn [encodePseudo mbind option_bind].
  destruct (m !! x) as [vv|] eqn:Ex; [|by apply (IH k blk)].
  specialize (Hone x vv ltac:(by left) Ex). destruct vv as [|v [|]]; [done| |done].
  destruct (encodeField_ok c frags x v (pseudoPart order m ++ fs) k blk s Hs Hp) as (s1 & k1 & b1 & E1 & Hs1 & Hp1 & Hc1 & _).
  rewrite E1. destruct (IH k1 b1 s1 Hone' Hs1 Hp1) as (s2 & k2 & b2 & E2 & Hs2 & Hp2 & Hc2).
  exists s2, k2, b2. split_and!; [done|done|done|congruence].
Qed.

(** The keys that are visited. *)
Definition keys_ok (order : list (gostring * list gostring)) : Prop :=
  Forall (fun kv => name_ok kv.1 = true /\ kv.2 <> []) order.

Lemma encodeFields_skip order s :
  keys_ok order -> regularPart order = [] -> encodeFields unicodeToLower bp order s = (Ok tt, s).
Proof.
  induction 1 as [|[x vv] order [_ Hne] _ IH]; [done|]. unfold regularPart. rewrite bind_cons. cbn [encodeFields fst snd] in *.
  case_bool_decide; [done|]. by destruct vv.
Qed.

Lemma encodeFields_ok order frags k blk s :
  keys_ok order -> regularPart order <> [] -> sent false frags s -> pending k blk (regularPart order) s ->
  match encodeFields unicodeToLower bp order s with
  | (Ok _, s') => exists more, sent true (frags ++ more) s' /\ concat more = fw_hpackBuf (bs_w s) ++ blk /\ fw_enc (bs_w s') = enc' /\ more <> []
  | (Err e, s') => fw_err (bs_w s') = Some e
  | (Panic, _) => False
  end.
Proof.
  intros Hkeys. revert frags k blk s. induction Hkeys as [|[x vv] order [Hname Hne] Hkeys IH]; intros frags k blk s Hreg Hs Hp; [done|].
  cbn [encodeFields fst snd] in *. unfold regularPart in Hreg, Hp. rewrite bind_cons in Hreg, Hp. cbn [fst snd] in Hreg, Hp.
  case_bool_decide as Hps; [by apply (IH frags k blk)|]. unfold name_ok in Hname. rewrite (bool_decide_false _ Hps) in Hname.
  destruct x as [|c0 x0]; [done|]. set (x := c0 :: x0) in *. apply andb_prop in Hname as [Hv Hc]. cbn [orb] in Hc.
  destruct (bz c0 =? 58); [done|]. rewrite Canonical_valid by done.
  destruct (encodeValues_ok false frags x vv (regularPart order) k blk s Hs Hp) as (s1 & k1 & b1 & E1 & Hs1 & Hp1 & Hc1 & Hn1).
  rewrite E1, <- Hc1. specialize (Hn1 Hne). pose proof Hp1 as (Henc & _ & _ & Hr1 & _ & _ & _ & _ & Hlen1).
  assert (Hl1 : 0 < zlen (fw_hpackBuf (bs_w s1)) < 2 ^ 32).
  { pose proof (zlen_nonneg b1). destruct (fw_hpackBuf (bs_w s1)) as [|b0 l0]; [done|]. rewrite zlen_cons in *. pose proof (zlen_nonneg l0). lia. }
  destruct ((0 <? bs_remaining s1) && _) eqn:Hgo.
  { apply (IH frags k1 b1); [|done|done]. intros Hnil. rewrite Hnil, zlen_nil in Hr1. lia. }
  pose proof (writeFragments_ok (S (length (fw_hpackBuf (bs_w s1)))) frags s1 ltac:(lia) Hs1 Hl1) as Hw.
  destruct (writeFragments _ bp s1) as [[e|] s2]; [done|].
  destruct Hw as (more & Hs2 & (S1 & S2 & S3 & S4) & Hcat & Hmore & Hz).
  destruct (regularPart order) as [|f fs] eqn:Hreg'.
  - rewrite encodeFields_skip by done. rewrite Hr1 in Hs2, Hz. exists more. split; [exact Hs2|].
    cbn in Henc. injection Henc as <- <- <-. rewrite (Hz eq_refl), app_nil_r in Hcat. by rewrite Hcat, app_nil_r, S1.
  - assert (Hrem : (bs_remaining s1 =? 0) = false) by (rewrite Hr1, zlen_cons; pose proof (zlen_nonneg fs); lia).
    rewrite Hrem in Hs2. rewrite <- Hreg' in *.
    assert (Hp2 : pending k1 b1 (regularPart order) s2).
    { destruct Hp1 as (P1 & P2 & P3 & P4 & P5 & P6 & P7 & P8 & P9). unfold pending. rewrite S1, S2, S3, S4.
      split_and!; try done. rewrite <- Hcat, zlen_app in P9. pose proof (zlen_nonneg (concat more)). lia. }
    specialize (IH (frags ++ more) k1 b1 s2 ltac:(by rewrite Hreg') Hs2 Hp2).
    destruct (encodeFields _ bp order s2) as [[[]|e|] s3]; [|done|done].
    destruct IH as (more2 & Hs3 & Hcat3 & Henc3 & _). exists (more ++ more2). rewrite app_assoc, concat_app, Hcat3, app_assoc, Hcat.
    split_and!; [done..|]. by destruct more.
Qed.
End Fragments.
