(* ===== verification/HeaderRoundtrip.v ===== *)
(** * HEADERS and PUSH_PROMISE round-trip ([src/write.go], [src/read.go])

    The fields of a header, written in whatever order Go ranges over the maps, collect to the
    same header; the frames of the block are decoded to the fields however they are cut; so a
    header frame that is written is read back. *)

From S2P Require Import Prelude HeaderTable HpackEncode HpackDecode HpackChunks HpackSync Types HttpHeader FrameWriter.
From S2P Require Import FrameReader FrameRoundtrip HeaderBlock.

(** ** The fields collect to the header *)

Definition names (fs : list field) : list (gostring * gostring) := map fst fs.

Lemma field_values_app a b x : field_values (a ++ b) x = field_values a x ++ field_values b x.
Proof. unfold field_values. by rewrite filter_app, map_app. Qed.

Lemma names_fmap k vv : names ((fun v => (k, v, false)) <$> vv) = (fun v => (k, v)) <$> vv.
Proof. unfold names. by induction vv; cbn; f_equal. Qed.

Lemma field_values_key k vv x :
  field_values ((fun v => (k, v)) <$> vv) x = if decide (k = x) then vv else [].
Proof.
  induction vv as [|v vv IH]; [by case_decide|]. cbn [fmap list_fmap]. rewrite field_values_cons.
  change (list_fmap _ _ _ vv) with ((fun v => (k, v)) <$> vv). rewrite IH. by case_decide.
Qed.

(** The values of a key in a list of entries whose keys differ. *)
Lemma entries_values (l : list (gostring * list gostring)) x :
  NoDup l.*1 ->
  field_values (names (l ≫= fun kv => (fun v => (kv.1, v, false)) <$> kv.2)) x = default [] (list_to_map (M := gmap gostring (list gostring)) l !! x).
Proof.
  induction l as [|[k vv] l IH]; intros Hnd; [done|]. cbn in Hnd. apply NoDup_cons in Hnd as [Hk Hnd].
  rewrite bind_cons. unfold names. rewrite map_app. fold names. rewrite field_values_app.
  change (map fst ?a) with (names a). cbn [fst snd]. rewrite names_fmap, field_values_key, IH by done. cbn [list_to_map foldr uncurry fst snd].
  rewrite lookup_insert. case_decide; [subst|done].
  rewrite (not_elem_of_list_to_map_1 (M := gmap gostring) l x Hk). cbn. by rewrite app_nil_r.
Qed.

(** The two parts of a block as entries. *)
Lemma pseudoPart_entries po m :
  pseudoPart po m = ((fun k => (k, default [] (m !! k))) <$> po) ≫= fun kv => (fun v => (kv.1, v, false)) <$> kv.2.
Proof. unfold pseudoPart. induction po as [|k po IH]; [done|]. by rewrite bind_cons, fmap_cons, bind_cons, IH. Qed.

Lemma regularPart_entries o :
  regularPart o = filter (fun kv => kv.1 ∉ pseudoHeader) o ≫= fun kv => (fun v => (kv.1, v, false)) <$> kv.2.
Proof.
  unfold regularPart. induction o as [|[k vv] o IH]; [done|]. rewrite bind_cons, filter_cons, IH. cbn [fst snd].
  case_bool_decide; case_decide; done.
Qed.

Section Collect.
Variables (po : list gostring) (o : list (gostring * list gostring)) (m : gmap gostring (list gostring)).
Hypothesis Hpo : po ≡ₚ elements pseudoHeader.
Hypothesis Ho : o ≡ₚ map_to_list m.
Hypothesis Hm : header_ok m.

Lemma order_nodup : NoDup o.*1.
Proof. rewrite Ho. apply NoDup_fst_map_to_list. Qed.

Lemma order_map : list_to_map (M := gmap gostring (list gostring)) o = m.
Proof. rewrite <- (list_to_map_to_list m). apply list_to_map_proper; [apply order_nodup|done]. Qed.

Lemma order_in k vv : (k, vv) ∈ o <-> m !! k = Some vv.
Proof. by rewrite Ho, elem_of_map_to_list. Qed.

Lemma block_values x : field_values (names (blockFields po o m)) x = default [] (m !! x).
Proof.
  unfold blockFields, names. rewrite map_app, field_values_app. change (map fst ?a) with (names a).
  assert (Hnp : NoDup ((fun k => (k, default [] (m !! k))) <$> po).*1).
  { rewrite <- list_fmap_compose. rewrite Hpo, list_fmap_id. apply NoDup_elements. }
  assert (Hno : NoDup (filter (fun kv => kv.1 ∉ pseudoHeader) o).*1).
  { eapply sublist_NoDup; [apply order_nodup|]. apply fmap_sublist, sublist_filter. }
  rewrite pseudoPart_entries, regularPart_entries, !entries_values by done.
  destruct (decide (x ∈ pseudoHeader)) as [Hx|Hx].
  - rewrite (elem_of_list_to_map_1 (M := gmap gostring) _ x (default [] (m !! x))); [|done|].
    + rewrite (not_elem_of_list_to_map_1 (M := gmap gostring)); [cbn; by rewrite app_nil_r|].
      intros ([k vv] & -> & [Hk _]%list_elem_of_filter)%list_elem_of_fmap. by apply Hk.
    + apply list_elem_of_fmap. exists x. split; [done|]. by rewrite Hpo, elem_of_elements.
  - rewrite (not_elem_of_list_to_map_1 (M := gmap gostring)).
    + cbn [default app from_option]. destruct (m !! x) as [vv|] eqn:E.
      * rewrite (elem_of_list_to_map_1 (M := gmap gostring) _ x vv); [done|done|].
        apply list_elem_of_filter. split; [done|]. by apply order_in.
      * rewrite (not_elem_of_list_to_map_1 (M := gmap gostring)); [done|].
        intros ([k vv] & -> & [_ Hk]%list_elem_of_filter)%list_elem_of_fmap. apply order_in in Hk. cbn in E. congruence.
    + rewrite <- list_fmap_compose. rewrite Hpo, list_fmap_id. by rewrite elem_of_elements.
Qed.

(** The names that are sent are accepted: pseudo-header fields come first and are few. *)
Lemma addable_app n a b : addable_all n (a ++ b) <-> addable_all n a /\ addable_all (n + zlen a) b.
Proof.
  revert n. induction a as [|[k v] a IH]; intros n; cbn [app addable_all]; [rewrite zlen_nil, Z.add_0_r; tauto|].
  rewrite IH, zlen_cons. replace (n + (1 + zlen a)) with (n + 1 + zlen a) by lia. tauto.
Qed.

Lemma addable_each n fs : 0 <= n -> (forall i k v, fs !! i = Some (k, v) -> addable (n + Z.of_nat i) k) -> addable_all n fs.
Proof.
  revert n. induction fs as [|[k v] fs IH]; intros n Hn Hall; [done|]. split.
  - replace n with (n + Z.of_nat 0) by lia. by apply (Hall 0%nat k v).
  - apply IH; [lia|]. intros i k' v' Hi. replace (n + 1 + Z.of_nat i) with (n + Z.of_nat (S i)) by lia. by apply (Hall (S i) k' v').
Qed.

Lemma pseudo_length : (length (pseudoPart po m) <= 5)%nat.
Proof.
  assert (Hl : length po = 5%nat) by (rewrite Hpo; vm_compute; reflexivity). rewrite <- Hl. clear Hl.
  assert (Hin : Forall (fun k => k ∈ pseudoHeader) po) by (apply Forall_forall; intros k; by rewrite Hpo, elem_of_elements).
  clear Hpo. unfold pseudoPart. induction Hin as [|k l Hk _ IH]; [done|]. rewrite bind_cons, length_app, length_fmap.
  destruct (m !! k) as [vv|] eqn:E; cbn; [|lia]. destruct (proj1 Hm k vv E) as (_ & _ & Hone). rewrite (Hone Hk). lia.
Qed.

Lemma block_addable : addable_all 0 (names (blockFields po o m)).
Proof.
  unfold blockFields, names. rewrite map_app, addable_app. split; apply addable_each; try lia.
  - intros i k v Hi. assert (Hlt := lookup_lt_Some _ _ _ Hi). rewrite length_map in Hlt. pose proof pseudo_length.
    apply list_elem_of_lookup_2 in Hi. apply list_elem_of_fmap in Hi as ([[k' v'] s] & [= -> ->] & Hin).
    apply list_elem_of_bind in Hin as (k2 & Hin & Hk2). apply list_elem_of_fmap in Hin as (v2 & [= -> -> ->] & Hv2).
    rewrite Hpo, elem_of_elements in Hk2. destruct (m !! k2) as [vv|] eqn:E; [|by apply not_elem_of_nil in Hv2].
    destruct (proj1 Hm k2 vv E) as (Hn & _). unfold name_ok in Hn. destruct k2 as [|c k2]; [done|]. apply andb_prop in Hn as [Hv _].
    split; [done|]. intros _ _ _ _. split; [lia|done].
  - pose proof (zlen_nonneg (map fst (pseudoPart po m))). lia.
  - intros i k v Hi. apply list_elem_of_lookup_2 in Hi. apply list_elem_of_fmap in Hi as ([[k' v'] s] & [= -> ->] & Hin).
    apply list_elem_of_bind in Hin as ([k2 vv] & Hin & Hk2). cbn [fst snd] in Hin. case_bool_decide as Hps; [by apply not_elem_of_nil in Hin|].
    apply list_elem_of_fmap in Hin as (v2 & [= -> -> ->] & Hv2). apply order_in in Hk2.
    destruct (proj1 Hm k2 vv Hk2) as (Hn & _). unfold name_ok in Hn. destruct k2 as [|c k2]; [done|]. apply andb_prop in Hn as [Hv Hc].
    split; [done|]. intros c' k' [= <- <-] Hcc. rewrite bool_decide_false in Hc by done. cbn in Hc. lia.
Qed.

Lemma add_all_filled fs h h' :
  add_all h fs = (Ok tt, h') -> map_Forall (fun _ vv => vv <> []) (default ∅ h) -> map_Forall (fun _ vv => vv <> []) (default ∅ h').
Proof.
  revert h. induction fs as [|[k v] fs IH]; intros h; cbn [add_all]; [by intros [= <-]|].
  destruct (Header_add h k v false) as [[[]|e|] h1] eqn:E; [|done|done]. intros Hall Hf. apply (IH h1 Hall).
  unfold Header_add in E. destruct k as [|c k]; [done|]. repeat case_match; simplify_eq. cbn [default from_option id].
  apply map_Forall_insert_2; [by destruct (values h _)|done].
Qed.

(** Whatever the orders of the maps, the fields that are written collect to the header. *)
Lemma block_collects : add_all None (names (blockFields po o m)) = (Ok tt, Some m).
Proof.
  destruct (add_all_ok (names (blockFields po o m)) None block_addable) as (h & He & Hl & Hv). rewrite He. f_equal.
  pose proof (add_all_filled _ _ _ He ltac:(apply map_Forall_empty)) as Hf.
  assert (Hval : forall x, values h x = default [] (m !! x)) by (intros x; rewrite Hv, block_values; done).
  destruct Hm as [Hall (k0 & [v0 Hk0] & _)].
  destruct h as [m'|].
  2: { specialize (Hval k0). rewrite Hk0 in Hval. cbn in Hval. by destruct (Hall k0 v0 Hk0) as (_ & ? & _). }
  f_equal. apply map_eq. intros x. specialize (Hval x). unfold values in Hval. cbn in Hval, Hf.
  destruct (m' !! x) as [a|] eqn:E1, (m !! x) as [b|] eqn:E2; cbn in Hval; subst; [done| | |done].
  - by destruct (Hf x _ E1).
  - by destruct (Hall x _ E2) as (_ & ? & _).
Qed.

Lemma block_len : Header_Len (Some m) = zlen (blockFields po o m).
Proof.
  destruct (add_all_ok (names (blockFields po o m)) None block_addable) as (h & He & Hl & _).
  rewrite block_collects in He. injection He as <-. rewrite Hl. unfold names, zlen. rewrite length_map. done.
Qed.

Lemma block_keys : keys_ok o.
Proof. apply Forall_forall. intros [k vv] Hin%order_in. destruct (proj1 Hm k vv Hin) as (? & ? & _). done. Qed.

Lemma block_regular : regularPart o <> [].
Proof.
  destruct Hm as [Hall (k & [vv Hk] & Hps)]. intros Hnil. destruct (Hall k vv Hk) as (_ & Hne & _).
  destruct vv as [|v vv]; [done|]. assert (Hin : (k, v, false) ∈ regularPart o); [|rewrite Hnil in Hin; by apply not_elem_of_nil in Hin].
  apply list_elem_of_bind. exists (k, v :: vv). split; [|by apply order_in]. cbn [fst snd]. rewrite bool_decide_false by done. by left.
Qed.
End Collect.

(** ** Writing a block *)

(** An empty header is one empty fragment; otherwise the fields are in some order. *)
Definition block_of (po : list gostring) (o : list (gostring * list gostring)) (h : Header) : list field :=
  match h with None => [] | Some m => blockFields po o m end.

Definition orders_ok (po : list gostring) (o : list (gostring * list gostring)) (h : Header) : Prop :=
  match h with
  | None => True
  | Some m => po ≡ₚ elements pseudoHeader /\ o ≡ₚ map_to_list m /\ header_ok m
  end.

Section Written.
Context {W : Type} `{Sink W}.
Implicit Types w : frameWriter W.

Lemma block_written u bp flags po o h w k blk enc' :
  orders_ok po o h -> 0 <= bp_nonFragmentLen bp < fw_maxFrameSize w -> fw_maxFrameSize w < 2 ^ 24 -> fw_err w = None ->
  table_wf (e_table (fw_enc w)) -> fields_ok (block_of po o h) ->
  EncodeFields (fw_enc w) [] (block_of po o h) = Some (k, blk, enc') ->
  k < 2 ^ 32 -> (fw_maxHeaderListSize w = 0 \/ k <= fw_maxHeaderListSize w) -> zlen blk < 2 ^ 32 ->
  match writeHeaderBlock u bp flags h po o w with
  | (Ok _, w') => exists frags, out w' = out w ++ blockBytes bp flags true frags /\ concat frags = blk /\
      fits bp (fw_maxFrameSize w) frags /\ frags <> [] /\ fw_enc w' = enc' /\
      fw_err w' = None /\ fw_maxFrameSize w' = fw_maxFrameSize w
  | (Err e, w') => fw_err w' = Some e
  | (Panic, _) => False
  end.
Proof.
  intros Hord Hn Hmax Herr Hwf Hok He Hk Hl Hblk. destruct h as [m|]; cbn [block_of orders_ok] in *.
  2: { cbn in He. injection He as <- <- <-. unfold writeHeaderBlock, return_err. cbn [Header_Len Z.eqb].
       set (w1 := fw_set_buf _ _). destruct (fw_err (fw_Write _ (flushBuf w1))) eqn:E; [done|].
       destruct (flush_write (take (Z.to_nat (bp_padLen bp)) zeroBuf) w1) as [(S1 & S2 & _) O1].
       assert (Hfit : fits bp (fw_maxFrameSize w) [[]]) by (split; [apply Forall_singleton|]; rewrite zlen_nil; lia).
       exists [[]]. rewrite O1 by done. split; [|by split_and!].
       unfold w1. cbn [blockBytes fw_buf fw_set_buf writeFrameHeader continuations app]. unfold firstFrameBytes.
       rewrite bool_decide_true, app_nil_r by done. cbn [andb app]. by rewrite zlen_nil, Z.add_0_l, <- !app_assoc. }
  destruct Hord as (Hpo & Ho & Hm). pose proof (block_regular o m Ho Hm) as Hreg.
  unfold writeHeaderBlock. rewrite (block_len po o m Hpo Ho Hm).
  assert (Hne : (zlen (blockFields po o m) =? 0) = false).
  { unfold blockFields. rewrite zlen_app. destruct (regularPart o) as [|f l]; [done|]. rewrite zlen_cons.
    pose proof (zlen_nonneg (pseudoPart po m)). pose proof (zlen_nonneg l). lia. }
  rewrite Hne. set (s := MkBS _ _ _ _ _).
  destruct (sync_block collect (fw_enc w) _ Hwf Hok) as (k0 & b0 & e0 & E0 & Hk0 & _). rewrite He in E0. injection E0 as <- <- <-.
  assert (Hs : sent bp flags (fw_maxFrameSize w) (out w) false [] s).
  { repeat split; try done. cbn. by rewrite app_nil_r. }
  assert (Hp : pending enc' k blk (pseudoPart po m ++ regularPart o) s).
  { unfold pending. cbn -[zlen table_wf]. split_and!; try done; unfold zlen in *; cbn [length]; lia. }
  assert (Hone : forall x vv, x ∈ po -> m !! x = Some vv -> length vv = 1%nat).
  { intros x vv Hx Hv. destruct (proj1 Hm x vv Hv) as (_ & _ & H1). apply H1. by rewrite Hpo, elem_of_elements in Hx. }
  destruct (encodePseudo_ok bp flags (fw_maxFrameSize w) (out w) enc' false [] po m _ k blk s Hone Hs Hp)
    as (s1 & k1 & b1 & E1 & Hs1 & Hp1 & Hc1).
  rewrite E1. pose proof (encodeFields_ok bp flags (fw_maxFrameSize w) (out w) ltac:(lia) ltac:(lia) u enc' o [] k1 b1 s1
    (block_keys o m Ho Hm) Hreg Hs1 Hp1) as Hw.
  destruct (encodeFields u bp o s1) as [[[]|e|] s2]; [|done|done]. destruct Hw as (more & Hs2 & Hcat & Henc & Hmore).
  exists more. destruct Hs2 as (He2 & Ho2 & _ & _ & Hf2 & Hm2). split; [done|]. by rewrite Hcat, Hc1.
Qed.
End Written.

(** ** Decoding in pieces *)

(** Successive calls of [Decode] that all succeed. *)
Fixpoint feed (limit : Z) (d : Decoder Header error) (cs : list (list byte)) : option (Decoder Header error) :=
  match cs with
  | [] => Some d
  | c :: cs => match Decode (Some Header_add) d c limit with (Ok _, d) => feed limit d cs | _ => None end
  end.

Lemma feed_app limit d a b : feed limit d (a ++ b) = (d' ← feed limit d a; feed limit d' b).
Proof.
  revert d. induction a as [|c a IH]; intros d; [done|]. cbn [app feed].
  destruct (Decode _ d c limit) as [[[]|e|] d1]; cbn; [apply IH|done|done].
Qed.

(** What a single call decodes, calls on the pieces decode. *)
Lemma feed_chunks limit d cs d1 :
  d_err d = None -> Decode (Some Header_add) d (concat cs) limit = (Ok tt, d1) ->
  exists d2, feed limit d cs = Some d2 /\ observe d2 = observe d1.
Proof.
  revert d d1. induction cs as [|c cs IH]; intros d d1 He Hd; cbn [concat] in Hd.
  { rewrite Decode_nil in Hd by done. injection Hd as <-. by exists d. }
  destruct (Decode_split (Some Header_add) d c (concat cs) limit) as [H1 H2].
  destruct (Decode_split (Some Header_add) d c [] limit) as [H3 _]. rewrite app_nil_r in H3. rewrite Hd in H1, H2.
  unfold Decode2 in *. cbn [feed]. destruct (Decode (Some Header_add) d c limit) as [[[]|e|] d'] eqn:E; [| |done].
  - assert (He' : d_err d' = None).
    { destruct (d_err d') as [e|] eqn:Hx; [|done]. by rewrite (Decode_err _ _ _ _ e Hx) in H3. }
    destruct (Decode (Some Header_add) d' (concat cs) limit) as [r d3] eqn:E3. cbn in H1, H2. subst r.
    destruct (IH d' d3 He' E3) as (d2 & Hf & Ho). exists d2. split; [done|congruence].
  - assert (He' : exists e', d_err d' = Some e').
    { destruct (d_err d') as [e'|] eqn:Hx; [by eexists|]. by rewrite Decode_nil in H3. }
    destruct He' as [e' He']. by rewrite (Decode_err _ _ _ _ e' He') in H1.
Qed.

(** A reset does not look at the slice that was decoded. *)
Lemma Reset_observe (d1 d2 d1' : Decoder Header error) :
  observe d2 = observe d1 -> Reset d1 = (None, d1') -> exists d2', Reset d2 = (None, d2') /\ observe d2' = observe d1'.
Proof.
  destruct d1, d2. unfold observe, Reset. cbn. intros [= -> -> -> -> -> -> -> -> ->]. case_decide; [|done].
  intros [= <-]. by eexists.
Qed.

(** A fragment is decoded in chunks of the buffer's size. *)
Lemma readFragment_chunks bufSize n frag :
  0 < bufSize -> (length frag <= n)%nat ->
  exists cs, concat cs = frag /\ forall fuel r rest d',
    (length frag < fuel)%nat -> fr_bufSize r = bufSize -> fr_in r = frag ++ rest ->
    feed (fr_maxHeaderListSize r) (fr_dec r) cs = Some d' ->
    readFragment fuel (zlen frag) r = (Ok tt, fr_set_in rest (fr_set_dec d' r)).
Proof.
  intros Hb. revert frag. induction n as [|n IH]; intros frag Hn.
  { destruct frag; [|cbn in Hn; lia]. exists []. split; [done|]. intros [|fuel] r rest d' _ _ Hin [= <-]; destruct r; cbn in *; by subst. }
  set (k := Z.min bufSize (zlen frag)). pose proof (zlen_nonneg frag).
  destruct frag as [|b0 frag0].
  { exists []. split; [done|]. intros [|fuel] r rest d' _ _ Hin [= <-]; destruct r; cbn in *; by subst. }
  set (frag := b0 :: frag0) in *. assert (Hpos : 0 < zlen frag) by (unfold frag; rewrite zlen_cons; pose proof (zlen_nonneg frag0); lia).
  set (c := take (Z.to_nat k) frag). set (frag' := drop (Z.to_nat k) frag).
  assert (Hc : c ++ frag' = frag) by apply take_drop.
  assert (Hl : zlen frag' = zlen frag - k) by (unfold frag', zlen in *; rewrite length_drop; lia).
  assert (Hlc : length c = Z.to_nat k) by (unfold c, zlen in *; rewrite length_take; lia).
  destruct (IH frag') as (cs & Hcat & Hread); [unfold zlen in *; lia|].
  exists (c :: cs). split; [cbn; by rewrite Hcat|].
  intros [|fuel] r rest d' Hf Hbs Hin Hfeed; [lia|]. cbn [feed] in Hfeed. cbn [readFragment].
  assert (H0 : (0 <? zlen frag) = true) by lia. rewrite H0. unfold rbind, rget. rewrite Hbs.
  assert (Hk : (if bufSize <? zlen frag then bufSize else zlen frag) = k) by (zcases; lia). rewrite Hk.
  assert (Hin' : fr_in r = c ++ frag' ++ rest) by (by rewrite Hin, <- Hc at 1; rewrite <- app_assoc).
  unfold peek. rewrite Hin'.
  assert (Hlt : (zlen (c ++ frag' ++ rest) <? k) = false) by (apply Z.ltb_ge; unfold zlen; rewrite length_app, Hlc; lia). rewrite Hlt.
  rewrite <- Hlc, take_app_length. unfold decodeChunk.
  destruct (Decode (Some Header_add) (fr_dec r) c (fr_maxHeaderListSize r)) as [[[]|e|] d1]; [|done|done].
  unfold discard, rmodify. cbn [fr_in fr_set_dec]. rewrite Hin', <- Hlc, drop_app_length.
  rewrite <- Hl. rewrite (Hread fuel _ rest d'); [by destruct r|unfold zlen in *; lia|done|done|done].
Qed.

(** ** Reading a block *)

Section ReadBlock.
Variables (mk : Header -> Frame) (t padLen id : Z).
Hypothesis Hmk : forall h, Frame_Type (mk h) = t.
Hypothesis Ht : t <> FrameContinuation.
Hypothesis Hid : 0 < id < 2 ^ 31.
Hypothesis Hcont : forall h r, fr_frameType r = FrameContinuation -> fr_streamID r = id ->
  readFrom (Some (mk h)) r = rbind (setHandlerState h) (fun _ => finishHeaders mk padLen (fr_payloadLen r)) r.

(** The state after a fragment: the rest of the input, the decoder, and the frame that waits
    for the rest of the block. *)
Definition after (r : frameReader) (rest : list byte) (d : Decoder Header error) (p : option Frame) : frameReader :=
  fr_set_pending p (fr_set_dec d (fr_set_in rest r)).


(** The chunks in which the reader takes a fragment. *)
Definition cuts (bufSize : Z) (frag : list byte) (cs : list (list byte)) : Prop :=
  concat cs = frag /\ forall fuel r rest d',
    (length frag < fuel)%nat -> fr_bufSize r = bufSize -> fr_in r = frag ++ rest ->
    feed (fr_maxHeaderListSize r) (fr_dec r) cs = Some d' ->
    readFragment fuel (zlen frag) r = (Ok tt, fr_set_in rest (fr_set_dec d' r)).

Lemma cuts_exist bufSize frags : 0 < bufSize -> exists css, Forall2 (cuts bufSize) frags css.
Proof.
  intros Hb. induction frags as [|f frags (css & IH)]; [by exists []|].
  destruct (readFragment_chunks bufSize (length f) f Hb ltac:(lia)) as (cs & Hc & Hr). exists (cs :: css). by constructor.
Qed.

Lemma cuts_concat bufSize frags css : Forall2 (cuts bufSize) frags css -> concat (concat css) = concat frags.
Proof. induction 1 as [|f cs frags css [Hc _] _ IH]; [done|]. cbn. by rewrite concat_app, Hc, IH. Qed.

Lemma finish_ok r frag pad rest cs d :
  cuts (fr_bufSize r) frag cs -> fr_in r = frag ++ pad ++ rest ->
  zlen pad = (if fr_frameType r =? t then padLen else 0) ->
  feed (fr_maxHeaderListSize r) (fr_dec r) cs = Some d ->
  finishHeaders mk padLen (zlen frag) r =
    if Flags_Has (fr_flags r) FlagEndHeaders then
      match Reset d with
      | (None, d') => (Ok (mk (d_hs d)), after r rest d' None)
      | (Some e, d') => (Err (hpackErr e), after r rest d' None)
      end
    else (Ok (mk (d_hs d)), after r rest d (Some (mk (d_hs d)))).
Proof.
  intros [Hc Hread] Hin Hpad Hfeed. unfold finishHeaders, rbind at 1.
  rewrite (Hread _ r (pad ++ rest) d) by (done || (unfold zlen; lia)).
  set (r1 := fr_set_in (pad ++ rest) (fr_set_dec d r)). unfold handlerState. rstep. rewrite Hmk.
  change (fr_frameType r1) with (fr_frameType r).
  assert (Hd : (if fr_frameType r =? t then discard padLen else rret tt) r1 = (Ok tt, fr_set_in rest r1)).
  { destruct (_ =? t).
    - unfold discard, rmodify. rewrite <- Hpad. unfold zlen. rewrite Nat2Z.id. cbn [fr_in fr_set_in r1]. by rewrite drop_app_length.
    - destruct pad; [done|]. rewrite zlen_cons in Hpad. pose proof (zlen_nonneg pad). lia. }
  rewrite Hd. unfold r1, after. clear. destruct r. cbn -[Flags_Has Reset FlagEndHeaders].
  destruct (Flags_Has _ _); [|done]. unfold resetDecoder. cbn -[Reset]. by destruct (Reset d) as [[e|] d'].
Qed.

(** CONTINUATION reaches the pending frame. *)
Lemma readOne_continuation r h len fl rest :
  0 <= len < 2 ^ 24 -> 0 <= fl < 256 -> fr_in r = frameHeader len FrameContinuation fl id ++ rest ->
  fr_pending r = Some (mk h) -> d_hs (fr_dec r) = h -> len <= fr_maxFrameSize r ->
  readOne r = finishHeaders mk padLen len (fr_set_in rest (fr_set_header len FrameContinuation fl id r)).
Proof.
  intros Hlen Hfl Hin Hp Hh Hmax. unfold readOne, rbind at 1.
  rewrite (readFrameHeader_ok r len FrameContinuation fl id rest) by (done || lia). rstep.
  destruct (Z.ltb_spec (fr_maxFrameSize r) len); [lia|]. rstep. rewrite Hp.
  change (FrameContinuation =? FrameContinuation) with true. cbv iota beta. rewrite Hcont by done.
  unfold rbind, setHandlerState, rmodify. cbn [fr_payloadLen fr_set_header fr_set_in].
  f_equal. destruct r as [a1 a2 a3 a4 a5 dd a7 a8 a9 a10 a11 a12 a13]. cbn in *. subst h. by destruct dd.
Qed.

(** The rounds of [ReadFrame] after a first one. *)
Definition rounds (fuel : nat) (first : R Frame) : R Frame :=
  rbind first (fun f => rbind (rget fr_pending) (fun p => match p with None => rret f | Some _ => readLoop fuel end)).

(** The block was read: what is behind it is left, and the decoder was reset. *)
Definition settled (r r' : frameReader) (rest : list byte) (d : Decoder Header error) : Prop :=
  fr_in r' = rest /\ fr_pending r' = None /\ fr_dec r' = d /\ fr_lastPayload r' = fr_lastPayload r /\
  fr_maxFrameSize r' = fr_maxFrameSize r /\ fr_bufSize r' = fr_bufSize r /\ fr_end r' = fr_end r /\
  fr_maxHeaderListSize r' = fr_maxHeaderListSize r.

(** The frames of a block from the payload of the first one on. *)
Lemma read_block frags : forall f css r pad rest d d' fuel,
  Forall2 (cuts (fr_bufSize r)) (f :: frags) css ->
  fr_in r = f ++ pad ++ continuations id true frags ++ rest ->
  zlen pad = (if fr_frameType r =? t then padLen else 0) ->
  Flags_Has (fr_flags r) FlagEndHeaders = bool_decide (frags = []) ->
  Forall (fun f => zlen f <= fr_maxFrameSize r /\ zlen f < 2 ^ 24) frags ->
  feed (fr_maxHeaderListSize r) (fr_dec r) (concat css) = Some d -> Reset d = (None, d') -> (length frags <= fuel)%nat ->
  exists r', rounds fuel (finishHeaders mk padLen (zlen f)) r = (Ok (mk (d_hs d)), r') /\ settled r r' rest d'.
Proof.
  induction frags as [|f1 frags IH]; intros f css r pad rest d d' fuel Hcuts Hin Hpad Hfl Hall Hfeed Hreset Hfuel;
    apply Forall2_cons_inv_l in Hcuts as (cs & css' & Hc & Hcs & ->); cbn [concat] in Hfeed; rewrite feed_app in Hfeed;
    destruct (feed (fr_maxHeaderListSize r) (fr_dec r) cs) as [d1|] eqn:E1; try done; cbn [mbind option_bind] in Hfeed.
  - apply Forall2_nil_inv_l in Hcs as ->. injection Hfeed as ->. unfold rounds, rbind at 1.
    rewrite (finish_ok r f pad rest cs d), Hfl, Hreset by done. rewrite bool_decide_true by done.
    exists (after r rest d' None). split; [done|]. by repeat split.
  - unfold rounds, rbind at 1. rewrite (finish_ok r f pad (continuations id true (f1 :: frags) ++ rest) cs d1), Hfl by done.
    rewrite bool_decide_false by done. set (r1 := after _ _ _ _).
    apply Forall_cons in Hall as [[Hm1 Hm2] Hall]. destruct fuel as [|fuel]; [cbn in Hfuel; lia|].
    set (last := bool_decide (frags = [])).
    assert (Hin1 : fr_in r1 = frameHeader (zlen f1) FrameContinuation (if last then FlagEndHeaders else 0) id ++
                                f1 ++ [] ++ continuations id true frags ++ rest).
    { unfold r1, last. cbn [after fr_in fr_set_pending fr_set_dec fr_set_in]. destruct frags as [|f2 frags].
      - rewrite bool_decide_true by done. cbn [continuations]. unfold continuationBytes. by rewrite <- app_assoc.
      - rewrite bool_decide_false by done. change (continuations id true (f1 :: f2 :: frags)) with
          (continuationBytes id f1 false ++ continuations id true (f2 :: frags)). unfold continuationBytes. by rewrite <- !app_assoc. }
    pose proof (zlen_nonneg f1).
    assert (Hfl1 : 0 <= (if last then FlagEndHeaders else 0) < 256) by (destruct last; done).
    pose proof (readOne_continuation r1 (d_hs d1) (zlen f1) _ _ ltac:(lia) Hfl1
      Hin1 eq_refl eq_refl Hm1) as Hone.
    set (r2 := fr_set_in _ _) in Hone.
    destruct (IH f1 css' r2 [] rest d d' fuel) as (r' & Hr & Hs); try done.
    + change (fr_frameType r2) with FrameContinuation. destruct (Z.eqb_spec FrameContinuation t); [congruence|done].
    + unfold r2. cbn. fold last. by destruct last.
    + cbn in Hfuel. lia.
    + exists r'. split; [|done]. unfold rget at 1. unfold rbind at 1. cbn [fr_pending after fr_set_pending r1].
      cbn [readLoop]. unfold rounds, rbind in Hr |- *. by rewrite Hone.
Qed.
End ReadBlock.

(** ** The first frame of a block *)

Definition headersBlock (id : Z) (prio : Priority) (padLen : Z) : blockParams :=
  MkBP FrameHeaders id
    ((if 0 <? padLen then [zb padLen] else []) ++ (if HasPriority prio then priorityBytes prio else []))
    ((if 0 <? padLen then padLen + 1 else 0) + (if HasPriority prio then 5 else 0)) padLen.

Definition headersFlags (prio : Priority) (padLen : Z) (endStream : bool) : Z :=
  Z.lor (Z.lor (if 0 <? padLen then FlagPadded else 0) (if HasPriority prio then FlagPriority else 0))
    (if endStream then FlagEndStream else 0).

Definition promiseBlock (id promised padLen : Z) : blockParams :=
  MkBP FramePushPromise id ((if 0 <? padLen then [zb padLen] else []) ++ be32 promised)
    (4 + (if 0 <? padLen then padLen + 1 else 0)) padLen.

Definition promiseFlags (padLen : Z) : Z := if 0 <? padLen then FlagPadded else 0.

(** The frame header of the first frame, and the input behind it. *)
Definition opened (bp : blockParams) (flags : Z) (frag : list byte) (last : bool) (tail : list byte) (r : frameReader) : frameReader :=
  fr_set_in tail (fr_set_header (zlen frag + bp_nonFragmentLen bp) (bp_type bp)
    (if last then Z.lor flags FlagEndHeaders else flags) (bp_streamID bp) r).

Lemma headers_flags_has (pad prio e last : bool) :
  let fl := Z.lor (Z.lor (if pad then FlagPadded else 0) (if prio then FlagPriority else 0)) (if e then FlagEndStream else 0) in
  let fl := if last then Z.lor fl FlagEndHeaders else fl in
  Flags_Has fl FlagPadded = pad /\ Flags_Has fl FlagPriority = prio /\ Flags_Has fl FlagEndStream = e /\
  Flags_Has fl FlagEndHeaders = last /\ 0 <= fl < 256.
Proof. by destruct pad, prio, e, last. Qed.

Lemma headers_first id prio p e frag last tail r :
  0 < id < 2 ^ 31 -> prio = noPriority \/ prio_ok prio -> 0 <= p <= 255 ->
  readFrom None (opened (headersBlock id prio p) (headersFlags prio p e) frag last (bp_prefix (headersBlock id prio p) ++ tail) r) =
  finishHeaders (fun h => HeadersFrame id h prio p e) p (zlen frag)
    (fr_set_dec (set_hs None (fr_dec r)) (opened (headersBlock id prio p) (headersFlags prio p e) frag last tail r)).
Proof.
  intros Hid Hprio Hp. set (fl := headersFlags prio p e).
  destruct (headers_flags_has (0 <? p) (HasPriority prio) e last) as (F1 & F2 & F3 & _ & _). fold (headersFlags prio p e) in F1, F2, F3. fold fl in F1, F2, F3.
  unfold opened, headersBlock. cbn [bp_prefix bp_nonFragmentLen bp_type bp_streamID bp_padLen].
  set (pr := if HasPriority prio then priorityBytes prio else []). set (len := zlen frag + _).
  set (r0 := fr_set_in _ _). set (r1 := fr_set_in (pr ++ tail) r0). set (r2 := fr_set_in tail r0).
  set (plen := if HasPriority prio then 5 else 0) in len.
  assert (Hpad : (if 0 <? p then rbind readByte (fun padLen => rret (len - (padLen + 1), padLen)) else rret (len, 0)) r0 =
                 (Ok (zlen frag + plen, p), r1)).
  { unfold r1, r0, len. destruct (Z.ltb_spec 0 p).
    - unfold rbind. rewrite (readByte_ok _ p (pr ++ tail)) by (done || lia). unfold rret. do 3 f_equal. lia.
    - unfold rret. by replace p with 0 by lia. }
  assert (Hprior : forall l, (if HasPriority prio then rbind readUint32 (fun v => rbind readByte (fun weight =>
                     rret (l - 5, MkPriority (Z.land v 0x7fffffff) weight (negb (Z.land v 0x7fffffff =? v))))) else rret (l, noPriority)) r1 =
                   (Ok (l - plen, prio), r2)).
  { intros l. unfold plen. destruct (HasPriority prio) eqn:Ehp.
    - assert (Hpo : prio_ok prio) by (destruct Hprio as [->|?]; done).
      destruct (readPriority_ok r1 prio tail Hpo) as (v & r1' & Hv1 & Hv2 & Hd & Hx); [done|].
      unfold rbind. rewrite Hv1, Hv2, Hd, Hx. unfold rret. do 3 f_equal. by destruct prio.
    - unfold HasPriority in Ehp. apply negb_false_iff, bool_decide_eq_true in Ehp as ->. unfold rret. by rewrite Z.sub_0_r. }
  unfold rbind, rret in Hpad, Hprior. unfold readFrom. rstep. change (fr_frameType r0) with FrameHeaders.
  unfold HeadersFrame_readFrom. cbn [Z.eqb Pos.eqb FrameData FrameHeaders]. rstep.
  change (fr_frameType r0) with FrameHeaders. change (FrameHeaders =? FrameContinuation) with false.
  change (fr_streamID r0) with id. destruct (Z.eqb_spec id 0); [lia|]. rstep.
  change (fr_flags r0) with (if last then Z.lor fl FlagEndHeaders else fl). rewrite F1.
  change (fr_payloadLen r0) with len. rewrite Hpad. cbn [fst snd].
  change (fr_flags r1) with (if last then Z.lor fl FlagEndHeaders else fl). rewrite F2, Hprior. cbn [fst snd].
  replace (zlen frag + plen - plen) with (zlen frag) by lia. pose proof (zlen_nonneg frag).
  destruct (Z.ltb_spec (zlen frag) 0); [lia|]. unfold setHandlerState. rstep.
  change (fr_flags r2) with (if last then Z.lor fl FlagEndHeaders else fl). by rewrite F3.
Qed.

Lemma promise_first id pid p frag last tail r :
  0 < id < 2 ^ 31 -> 0 < pid < 2 ^ 31 -> 0 <= p <= 255 ->
  readFrom None (opened (promiseBlock id pid p) (promiseFlags p) frag last (bp_prefix (promiseBlock id pid p) ++ tail) r) =
  finishHeaders (fun h => PushPromiseFrame id pid h p) p (zlen frag)
    (fr_set_dec (set_hs None (fr_dec r)) (opened (promiseBlock id pid p) (promiseFlags p) frag last tail r)).
Proof.
  intros Hid Hpid Hp. set (fl := promiseFlags p).
  assert (F1 : Flags_Has (if last then Z.lor fl FlagEndHeaders else fl) FlagPadded = (0 <? p)).
  { unfold fl, promiseFlags. by destruct (0 <? p), last. }
  unfold opened, promiseBlock. cbn [bp_prefix bp_nonFragmentLen bp_type bp_streamID bp_padLen].
  set (len := zlen frag + _). set (r0 := fr_set_in _ _). set (r1 := fr_set_in (be32 pid ++ tail) r0). set (r2 := fr_set_in tail r0).
  pose proof (zlen_nonneg frag).
  assert (Hpad : (if 0 <? p then rbind readByte (fun padLen => if len <=? padLen then connError ErrCodeProtocol
                    else rret (len - (padLen + 1), padLen)) else rret (len, 0)) r0 = (Ok (zlen frag + 4, p), r1)).
  { unfold r1, r0, len. destruct (Z.ltb_spec 0 p).
    - unfold rbind. rewrite (readByte_ok _ p (be32 pid ++ tail)) by (done || lia).
      destruct (Z.leb_spec (zlen frag + (4 + (p + 1))) p); [lia|]. unfold rret. do 3 f_equal. lia.
    - unfold rret. by replace p with 0 by lia. }
  unfold rbind, rret, connError, rthrow in Hpad. unfold readFrom. rstep. change (fr_frameType r0) with FramePushPromise.
  unfold PushPromiseFrame_readFrom. cbn [Z.eqb Pos.eqb FrameData FrameHeaders FramePriority FrameRSTStream FrameSettings FramePushPromise].
  rstep. change (fr_frameType r0) with FramePushPromise. change (FramePushPromise =? FrameContinuation) with false.
  change (fr_streamID r0) with id. destruct (Z.eqb_spec id 0); [lia|]. rstep.
  change (fr_flags r0) with (if last then Z.lor fl FlagEndHeaders else fl). rewrite F1.
  change (fr_payloadLen r0) with len. rewrite Hpad. cbn [fst snd].
  rewrite (readUint32_ok r1 pid tail) by (done || lia). unfold setHandlerState. rstep.
  rewrite land_31, Z.mod_small by lia. by replace (zlen frag + 4 - 4) with (zlen frag) by lia.
Qed.

(** ** Reading a header frame *)

Definition header_frame (f : Frame) : option (blockParams * Z * Header * (Header -> Frame)) :=
  match f with
  | HeadersFrame id h prio p e =>
    Some (headersBlock id prio p, headersFlags prio p e, h, fun h => HeadersFrame id h prio p e)
  | PushPromiseFrame id pid h p => Some (promiseBlock id pid p, promiseFlags p, h, fun h => PushPromiseFrame id pid h p)
  | _ => None
  end.

(** Header frames with valid identifiers, priority and padding. *)
Definition header_frame_ok (f : Frame) : Prop :=
  match f with
  | HeadersFrame id _ prio p _ => 0 < id < 2 ^ 31 /\ (prio = noPriority \/ prio_ok prio) /\ 0 <= p <= 255
  | PushPromiseFrame id pid _ p => 0 < id < 2 ^ 31 /\ 0 < pid < 2 ^ 31 /\ 0 <= p <= 255
  | _ => False
  end.

Section ReadFrame.
Variables (f : Frame) (bp : blockParams) (flags : Z) (h : Header) (mk : Header -> Frame).
Hypothesis Hok : header_frame_ok f.
Hypothesis Hf : header_frame f = Some (bp, flags, h, mk).

Lemma frame_facts :
  f = mk h /\ (forall h, Frame_Type (mk h) = bp_type bp) /\ bp_type bp <> FrameContinuation /\ 0 <= bp_type bp < 256 /\
  0 < bp_streamID bp < 2 ^ 31 /\ 0 <= bp_padLen bp <= 255 /\ 0 <= bp_nonFragmentLen bp <= 261 /\
  forall last : bool, let fl := if last then Z.lor flags FlagEndHeaders else flags in
    0 <= fl < 256 /\ Flags_Has fl FlagEndHeaders = last.
Proof.
  destruct f as [|id h0 prio p e| | | |id pid h0 p| | | |]; try done; injection Hf as <- <- <- <-;
    destruct Hok as (Hid & H2 & Hp); cbn [bp_type bp_streamID bp_padLen bp_nonFragmentLen headersBlock promiseBlock].
  - split_and!; try done; try (zcases; destruct (HasPriority prio); lia).
    intros last. destruct (headers_flags_has (0 <? p) (HasPriority prio) e last) as (_ & _ & _ & F4 & F5). by split.
  - split_and!; try done; try (zcases; lia). intros last. unfold promiseFlags. by destruct (0 <? p), last.
Qed.

Lemma first_ok frag last tail r :
  readFrom None (opened bp flags frag last (bp_prefix bp ++ tail) r) =
  finishHeaders mk (bp_padLen bp) (zlen frag) (fr_set_dec (set_hs None (fr_dec r)) (opened bp flags frag last tail r)).
Proof.
  destruct f as [|id h0 prio p e| | | |id pid h0 p| | | |]; try done; injection Hf as <- <- <- <-; destruct Hok as (Hid & H2 & Hp).
  - by apply headers_first.
  - by apply promise_first.
Qed.

Lemma continuation_ok h0 r :
  fr_frameType r = FrameContinuation -> fr_streamID r = bp_streamID bp ->
  readFrom (Some (mk h0)) r = rbind (setHandlerState h0) (fun _ => finishHeaders mk (bp_padLen bp) (fr_payloadLen r)) r.
Proof.
  intros Ht Hs. destruct f as [|id h1 prio p e| | | |id pid h1 p| | | |]; try done; injection Hf as <- <- <- <-;
    destruct Hok as (Hid & H2 & Hp); cbn [bp_streamID headersBlock promiseBlock] in Hs.
  all: unfold readFrom, HeadersFrame_readFrom, PushPromiseFrame_readFrom; rstep; rewrite Ht, Hs, !Z.eqb_refl;
    destruct (Z.eqb_spec id 0); [lia|]; rstep; done.
Qed.

Lemma continuations_length id closed frags : (length frags <= length (continuations id closed frags))%nat.
Proof.
  induction frags as [|f1 [|f2 frags] IH]; [done|cbn; lia|].
  change (continuations id closed (f1 :: f2 :: frags)) with (continuationBytes id f1 false ++ continuations id closed (f2 :: frags)).
  rewrite length_app. cbn [length] in *. unfold continuationBytes. cbn [length frameHeader app] in *. lia.
Qed.

Lemma header_frame_read max frags r rest D1 D2 :
  ready r (blockBytes bp flags true frags ++ rest) -> fits bp max frags -> frags <> [] ->
  max <= fr_maxFrameSize r -> max < 2 ^ 24 -> 0 < fr_bufSize r -> d_err (fr_dec r) = None ->
  Decode (Some Header_add) (set_hs None (fr_dec r)) (concat frags) (fr_maxHeaderListSize r) = (Ok tt, D1) ->
  Reset D1 = (None, D2) ->
  exists r', ReadFrame r = (Ok (mk (d_hs D1)), r') /\ ready r' rest /\ observe (fr_dec r') = observe D2 /\
    fr_maxFrameSize r' = fr_maxFrameSize r /\ fr_bufSize r' = fr_bufSize r /\ fr_end r' = fr_end r /\
    fr_maxHeaderListSize r' = fr_maxHeaderListSize r.
Proof.
  intros Hr Hfit Hne Hmax Hm Hb Herr Hdec Hreset. destruct frame_facts as (_ & Hmk & Ht & Hty & Hid & Hpl & Hnf & Hfl).
  destruct frags as [|f0 frags]; [done|]. destruct Hfit as [Hall Hfirst]. apply Forall_cons in Hall as [Hf0 Hall].
  destruct (cuts_exist (fr_bufSize r) (f0 :: frags) Hb) as [css Hcuts].
  rewrite <- (cuts_concat _ _ _ Hcuts) in Hdec.
  destruct (feed_chunks _ (set_hs None (fr_dec r)) _ _ Herr Hdec) as (d & Hfeed & Hobs).
  destruct (Reset_observe D1 d D2 Hobs Hreset) as (d' & Hr' & Hobs').
  cbn [blockBytes andb] in Hr. set (last := bool_decide (frags = [])) in Hr. destruct (Hfl last) as [Hfl1 Hfl2].
  pose proof (zlen_nonneg f0).
  unfold ReadFrame, rbind. rewrite (close_ready r _ Hr). set (R0 := fr_set_in _ _).
  set (tail := f0 ++ take (Z.to_nat (bp_padLen bp)) zeroBuf ++ continuations (bp_streamID bp) true frags ++ rest).
  assert (Hin : fr_in R0 = frameHeader (zlen f0 + bp_nonFragmentLen bp) (bp_type bp) (if last then Z.lor flags FlagEndHeaders else flags)
                  (bp_streamID bp) ++ bp_prefix bp ++ tail).
  { unfold R0, tail, firstFrameBytes. cbn [fr_in fr_set_in]. by rewrite <- !app_assoc. }
  assert (Hone : readOne R0 = finishHeaders mk (bp_padLen bp) (zlen f0)
                   (fr_set_dec (set_hs None (fr_dec R0)) (opened bp flags f0 last tail R0))).
  { rewrite (readOne_header R0 (zlen f0 + bp_nonFragmentLen bp) (bp_type bp) (if last then Z.lor flags FlagEndHeaders else flags)
      (bp_streamID bp) (bp_prefix bp ++ tail)) by (exact Hin || apply Hr || done || lia || (change (fr_maxFrameSize R0) with (fr_maxFrameSize r); lia)). apply first_ok. }
  set (R1 := fr_set_dec _ _) in Hone.
  destruct (read_block mk (bp_type bp) (bp_padLen bp) (bp_streamID bp) Hmk Ht Hid continuation_ok frags f0 css R1
    (take (Z.to_nat (bp_padLen bp)) zeroBuf) rest d d' (length (fr_in R0))) as (r' & Hread & Hset); try done.
  - change (fr_frameType R1) with (bp_type bp). rewrite Z.eqb_refl. unfold zlen. rewrite length_take. change (length zeroBuf) with 255%nat. lia.
  - eapply Forall_impl; [exact Hall|]. cbn. intros x Hx. lia.
  - rewrite Hin. unfold tail. rewrite !length_app. pose proof (continuations_length (bp_streamID bp) true frags). lia.
  - exists r'. split.
    + cbn [readLoop]. unfold rounds, rbind in Hread |- *. rewrite Hone, Hread. do 3 f_equal.
      by apply (f_equal d_hs) in Hobs.
    + destruct Hset as (S1 & S2 & -> & S4 & S5). split; [split; [done|]|by split].
      exists []. rewrite S1, S4. by split.
Qed.
End ReadFrame.

(** ** The round trip *)

Lemma add_all_accepts fs h h' : add_all h (names fs) = (Ok tt, h') -> accepts Header_add h fs h'.
Proof.
  revert h. induction fs as [|[[n v] s] fs IH]; intros h; cbn [names map add_all fst]; [intros [= <-]; constructor|].
  destruct (Header_add h n v false) as [[[]|e|] h1] eqn:E; [|done|done]. intros Ha. econstructor; [exact E|]. by apply IH.
Qed.

Lemma block_accepted po o h : orders_ok po o h -> accepts Header_add None (block_of po o h) h.
Proof.
  destruct h as [m|]; cbn [orders_ok block_of]; [|constructor].
  intros (Hpo & Ho & Hm). apply add_all_accepts. by apply block_collects.
Qed.

(** What synchronisation and idleness say is seen without the slice being decoded. *)
Lemma sync_observe (enc : Encoder) (d1 d2 : Decoder Header error) : observe d1 = observe d2 -> sync enc d2 -> sync enc d1.
Proof. destruct d1, d2. unfold observe, sync. cbn. by intros [= -> -> -> -> -> -> -> -> ->]. Qed.

Lemma quiet_observe (d1 d2 : Decoder Header error) : observe d1 = observe d2 -> quiet d2 -> quiet d1.
Proof. destruct d1, d2. unfold observe, quiet. cbn. by intros [= -> -> -> -> -> -> -> -> ->]. Qed.

Lemma sync_set_hs (enc : Encoder) (h : Header) (d : Decoder Header error) : sync enc d -> sync enc (set_hs h d).
Proof. by destruct d. Qed.

Definition Frame_header (f : Frame) : Header :=
  match f with HeadersFrame _ h _ _ _ | PushPromiseFrame _ _ h _ => h | _ => None end.

(** A header frame is written as its block. *)
Lemma WriteFrame_block {W} `{Sink W} u f po o (w : frameWriter W) :
  header_frame_ok f ->
  exists bp flags mk, header_frame f = Some (bp, flags, Frame_header f, mk) /\
    WriteFrame u f po o w = writeHeaderBlock u bp flags (Frame_header f) po o w.
Proof.
  destruct f as [|id h0 prio p e| | | |id pid h0 p| | | |]; try done; cbn [header_frame_ok header_frame Frame_header WriteFrame];
    intros (Hid & H2 & Hp); eexists _, _, _; (split; [done|]).
  - unfold HeadersFrame_writeTo. rewrite (proj2 (validStreamID_spec id ltac:(lia))) by done. cbn [negb].
    assert (Hx : HasPriority prio && negb (validStreamID (StreamDependency prio)) = false); [|by rewrite Hx].
    destruct H2 as [->|[Hd _]]; [done|]. rewrite (proj2 (validStreamID_spec (StreamDependency prio) ltac:(lia))) by done. by rewrite andb_false_r.
  - unfold PushPromiseFrame_writeTo. rewrite (proj2 (validStreamID_spec id ltac:(lia))), (proj2 (validStreamID_spec pid ltac:(lia))) by done.
    done.
Qed.

(** The limits a reader has. *)
Definition same_reader (r r' : frameReader) : Prop :=
  fr_maxFrameSize r' = fr_maxFrameSize r /\ fr_bufSize r' = fr_bufSize r /\ fr_maxHeaderListSize r' = fr_maxHeaderListSize r.

Lemma header_frame_wire {W} `{Sink W} u f po o (w : frameWriter W) k blk enc' :
  header_frame_ok f -> orders_ok po o (Frame_header f) -> fields_ok (block_of po o (Frame_header f)) ->
  fw_err w = None -> 512 <= fw_maxFrameSize w < 2 ^ 24 -> table_wf (e_table (fw_enc w)) ->
  EncodeFields (fw_enc w) [] (block_of po o (Frame_header f)) = Some (k, blk, enc') ->
  k < 2 ^ 32 -> zlen blk < 2 ^ 32 -> (fw_maxHeaderListSize w = 0 \/ k <= fw_maxHeaderListSize w) ->
  match WriteFrame u f po o w with
  | (Ok _, w') =>
    exists bytes, sink_out (fw_w w') = sink_out (fw_w w) ++ bytes /\ fw_enc w' = enc' /\ fw_err w' = None /\ fw_maxFrameSize w' = fw_maxFrameSize w /\
      forall r rest, ready r (bytes ++ rest) -> sync (fw_enc w) (fr_dec r) -> quiet (fr_dec r) ->
        fw_maxFrameSize w <= fr_maxFrameSize r -> 0 < fr_bufSize r ->
        (fr_maxHeaderListSize r = 0 \/ k <= fr_maxHeaderListSize r < 2 ^ 32) ->
        exists r', ReadFrame r = (Ok f, r') /\ ready r' rest /\ sync (fw_enc w') (fr_dec r') /\ quiet (fr_dec r') /\
          same_reader r r'
  | (Err e, w') => fw_err w' = Some e
  | (Panic, _) => False
  end.
Proof.
  intros Hok Hord Hfs Herr Hmax Hwf He Hk Hblk Hlim. destruct (WriteFrame_block u f po o w Hok) as (bp & flags & mk & Hf & ->).
  destruct (frame_facts f bp flags _ mk Hok Hf) as (Hfmk & _ & _ & _ & _ & _ & Hnf & _).
  pose proof (block_written u bp flags po o _ w k blk enc' Hord ltac:(lia) ltac:(lia) Herr Hwf Hfs He Hk Hlim Hblk) as Hw.
  destruct (writeHeaderBlock _ _ _ _ _ _ w) as [[[]|e|] w']; [|done|done].
  destruct Hw as (frags & Hout & Hcat & Hfit & Hne & Henc & He' & Hmx). exists (blockBytes bp flags true frags). split_and!; [done..|].
  intros r rest Hr Hsync Hq Hm Hb Hl.
  destruct (sync_block Header_add (fw_enc w) _ Hwf Hfs) as (k0 & b0 & e0 & E0 & _ & Hdec). rewrite He in E0. injection E0 as <- <- <-.
  destruct (Hdec (set_hs None (fr_dec r)) (fr_maxHeaderListSize r) (Frame_header f)) as (d1 & d2 & Hd1 & _ & Hd2 & Hq2 & Hh2 & Hs2);
    [by apply sync_set_hs|done|done|by apply block_accepted|].
  destruct (header_frame_read f bp flags _ mk Hok Hf (fw_maxFrameSize w) frags r rest d1 d2) as (r' & Hread & Hr' & Hobs & R1 & R2 & _ & R4);
    try done; [lia|apply Hq|by rewrite Hcat|].
  exists r'. rewrite Henc. split_and!; [|done|by eapply sync_observe|by eapply quiet_observe|done].
  rewrite Hread. do 2 f_equal. rewrite Hfmk at 1. f_equal. rewrite <- Hh2. revert Hd2. unfold Reset. case_decide; [|done]. by intros [= <-].
Qed.


Definition sampleMap : gmap gostring (list gostring) := {[ str ":path" := [str "/x"]; str "x-a" := [str "1"; str "2"] ]}.
Definition sampleHeadersFrame : Frame := HeadersFrame 1 (Some sampleMap) (MkPriority 3 200 true) 7 true.
Definition sampleFields : list field := blockFields (elements pseudoHeader) (map_to_list sampleMap) sampleMap.
Definition sampleEncoded : Z * list byte * Encoder :=
  default (0, [], NewEncoder 0) (EncodeFields (NewEncoder defaultHeaderTableSize) [] sampleFields).

Lemma sample_ok : header_ok sampleMap /\ fields_ok sampleFields.
Proof.
  split; [|unfold fields_ok, field_ok; apply (bool_decide_unpack _); by vm_compute].
  split; [|exists (str "x-a"); split; [by eexists|by vm_compute]].
  apply map_Forall_insert_2; [|apply map_Forall_singleton]; (split_and!; [by vm_compute|done|done]).
Qed.


(** ** Keys without values *)

Definition emptyValues : Header := Some {[ str "x-a" := [str "1"]; str "x-b" := [] ]}.

(** A key without values that the range over the header visits last sends a CONTINUATION frame
    after the frame that ended the block: the peer reads the header and then fails with
    PROTOCOL_ERROR.  Visited first, the key is harmless. *)
Theorem empty_values_extra_frame :
  let write o := fw_w (WriteFrame (W := list byte) id (HeadersFrame 1 emptyValues noPriority 0 true) [] o (newFrameWriter [])).2 in
  let read o := ReadFrame (newFrameReader (write o) ErrEOF [] 4096) in
  let last := [(str "x-a", [str "1"]); (str "x-b", [])] in
  let first := [(str "x-b", []); (str "x-a", [str "1"])] in
  (read last).1 = Ok (HeadersFrame 1 (Some {[ str "x-a" := [str "1"] ]}) noPriority 0 true) /\
  (ReadFrame (read last).2).1 = Err (ConnError ErrCodeProtocol) /\
  (read first).1 = (read last).1 /\ (ReadFrame (read first).2).1 = Err ErrEOF.
Proof. vm_compute. repeat split. Qed.
