(* ===== verification/WireSession.v ===== *)
(** * Whole sessions on the wire ([src/write.go], [src/read.go])

    A frame writer sends control frames, DATA and header blocks one after the other; here the
    round trips of the single frames are put together: the frame reader at the other end gives
    back the same frames in the same order, with the two HPACK tables in step all along. *)

From S2P Require Import Prelude HeaderTable HpackEncode HpackDecode HpackChunks HpackSync Types HttpHeader FrameWriter.
From S2P Require Import FrameReader FrameRoundtrip HeaderBlock HeaderRoundtrip.

(** ** What is sent and what arrives *)

(** A frame to be written and the orders in which its maps are visited. *)
Definition toSend : Type := Frame * list gostring * list (gostring * list gostring).

Section Session.
Context {W : Type} `{Sink W}.
Variable u : gostring -> gostring.
Implicit Types w : frameWriter W.

(** Calls of [WriteFrame] until one fails. *)
Fixpoint WriteFrames (fs : list toSend) (w : frameWriter W) : wresult :=
  match fs with
  | [] => (Ok tt, w)
  | (f, po, o) :: fs =>
    match WriteFrame u f po o w with
    | (Ok _, w1) => WriteFrames fs w1
    | (Err e, w1) => (Err e, w1)
    | (Panic, w1) => (Panic, w1)
    end
  end.

(** What the application may send in a state of the writer, to a reader with a limit on the
    size of header lists. *)
Definition sendable (limit : Z) (w : frameWriter W) (x : toSend) : Prop :=
  let '(f, po, o) := x in
  match f with
  | DataFrame id (Some data) n p _ => 0 < id < 2 ^ 31 /\ 0 <= n <= zlen data /\ n < 2 ^ 31 /\ 0 <= p <= 255
  | HeadersFrame _ h _ _ _ | PushPromiseFrame _ _ h _ =>
    header_frame_ok f /\ orders_ok po o h /\ fields_ok (block_of po o h) /\
    match EncodeFields (fw_enc w) [] (block_of po o h) with
    | Some (k, blk, _) => k < 2 ^ 32 /\ zlen blk < 2 ^ 32 /\ (fw_maxHeaderListSize w = 0 \/ k <= fw_maxHeaderListSize w) /\
        (limit = 0 \/ k <= limit < 2 ^ 32)
    | None => True
    end
  | _ => control_ok f /\ zlen (encode f) - 9 <= fw_maxFrameSize w /\ zlen (encode f) < 2 ^ 24
  end.

Fixpoint sendable_all (limit : Z) (w : frameWriter W) (fs : list toSend) : Prop :=
  match fs with
  | [] => True
  | x :: fs =>
    sendable limit w x /\
    match WriteFrame u x.1.1 x.1.2 x.2 w with (Ok _, w1) => sendable_all limit w1 fs | _ => True end
  end.

(** DATA arrives in pieces that carry the same bytes; every other frame arrives as it is. *)
Definition delivered (max : Z) (x : toSend) (l : list Frame) : Prop :=
  match x.1.1 with
  | DataFrame id (Some data) n p e =>
    exists pieces, l = map (piece_frame id) pieces /\ carries max (take (Z.to_nat n) data) p e pieces
  | f => l = [f]
  end.

(** ** What writing does not touch *)

(** The HPACK encoder and the frame size limit after a frame that has no header. *)
Definition kept w w' : Prop := fw_enc w' = fw_enc w /\ fw_maxFrameSize w' = fw_maxFrameSize w.

Lemma kept_Write src w w' : kept w w' -> kept w (fw_Write src w').
Proof. intros [E M]. destruct (fw_Write_same src w') as (_ & M' & E' & _). split; congruence. Qed.

Lemma kept_set_buf b w w' : kept w w' -> kept w (fw_set_buf b w').
Proof. done. Qed.

Lemma kept_settings s w w' : kept w w' -> kept w (writeSettings s w').
Proof. unfold writeSettings. revert w'. induction s as [|x s IH]; intros w' Hk; [done|]. by apply IH. Qed.

Lemma kept_refl w : kept w w.
Proof. done. Qed.

Lemma control_kept f po o w w' : control_ok f -> WriteFrame u f po o w = (Ok tt, w') -> kept w w' /\ fw_err w' = None.
Proof.
  intros Hok Hw. destruct f; try done; cbn [WriteFrame] in Hw;
    unfold PriorityFrame_writeTo, RSTStreamFrame_writeTo, SettingsFrame_writeTo, PingFrame_writeTo, GoAwayFrame_writeTo,
      WindowUpdateFrame_writeTo in Hw; repeat (destruct (_ : bool) in Hw; try done); apply return_err_ok in Hw as [-> He];
    (split; [|done]); repeat first [apply kept_settings | apply kept_Write | apply kept_set_buf | apply kept_refl].
Qed.

Lemma data_loop_kept fuel id e d rd p w w' : kept w w' -> kept w (data_loop fuel id e d rd p w').
Proof.
  revert d rd p w'. induction fuel as [|fuel IH]; intros d rd p w' Hk; [done|]. cbn [data_loop]. destruct (fw_err w'); [done|].
  destruct (dataSplit _ _ _) as [dl pl]. unfold writeDataFrame.
  set (w1 := flushBuf _). assert (H1 : kept w w1) by (apply kept_Write; by destruct (0 <? pl)).
  destruct (if 0 <? dl then fw_CopyN d dl w1 else (w1, d)) as [w2 d2] eqn:E2.
  assert (H2 : kept w w2).
  { destruct (0 <? dl); [|by injection E2 as <- <-]. unfold fw_CopyN in E2. destruct (sink_write _ _). by injection E2 as <- <-. }
  destruct ((rd - dl =? 0) && _); [by apply kept_Write|]. apply IH. by apply kept_Write.
Qed.

(** ** One frame *)

(** A writer that can go on, and the reader at the other end. *)
Definition writer_good w : Prop := fw_err w = None /\ 512 <= fw_maxFrameSize w < 2 ^ 24 /\ table_wf (e_table (fw_enc w)).

Definition linked (limit : Z) w (r : frameReader) : Prop :=
  sync (fw_enc w) (fr_dec r) /\ quiet (fr_dec r) /\ fw_maxFrameSize w <= fr_maxFrameSize r /\ 0 < fr_bufSize r /\
  fr_maxHeaderListSize r = limit.

(** The bytes are read as the frames, and the two ends stay linked. *)
Definition reads (limit : Z) w w' (bytes : list byte) (l : list Frame) : Prop :=
  forall r rest, ready r (bytes ++ rest) -> linked limit w r ->
    exists r', ReadFrames (length l) r = Some (l, r') /\ ready r' rest /\ linked limit w' r'.

Definition sent_as (limit : Z) (x : toSend) w w' : Prop :=
  writer_good w' /\ fw_maxFrameSize w' = fw_maxFrameSize w /\
  exists bytes l, sink_out (fw_w w') = sink_out (fw_w w) ++ bytes /\ delivered (fw_maxFrameSize w) x l /\ reads limit w w' bytes l.

Lemma writer_kept w w' : writer_good w -> kept w w' -> fw_err w' = None -> writer_good w'.
Proof. unfold writer_good. intros (_ & Hm & Hwf) [-> ->]. done. Qed.

Lemma linked_took limit w w' r r' rest : kept w w' -> linked limit w r -> took r r' rest -> linked limit w' r'.
Proof. unfold linked. intros [-> ->] Hl (_ & -> & -> & -> & _ & ->). done. Qed.

Lemma send_control limit f po o w :
  control_ok f -> zlen (encode f) - 9 <= fw_maxFrameSize w -> zlen (encode f) < 2 ^ 24 -> writer_good w ->
  match WriteFrame u f po o w with
  | (Ok _, w') => sent_as limit (f, po, o) w w'
  | (Err e, w') => fw_err w' = Some e
  | (Panic, _) => False
  end.
Proof.
  intros Hok Hlen Hlen24 Hg. pose proof Hg as (He & Hm & _). pose proof (control_write_total u f po o w Hok He) as Ht.
  destruct (WriteFrame u f po o w) as [[[]|e|] w'] eqn:E; [|done|done].
  destruct (control_kept f po o w w' Hok E) as [Hk He']. split; [by apply (writer_kept w)|]. split; [apply Hk|].
  exists (encode f), [f]. split; [by apply (control_written u f po o w w' Hok E); lia|].
  split; [by destruct f|]. intros r rest Hr Hl.
  destruct (control_read f r rest Hok Hr) as (r' & Hread & Ht'); [destruct Hl as (_ & _ & ? & _); lia|lia|].
  exists r'. cbn [length ReadFrames]. rewrite Hread. cbn. split_and!; [done|apply Ht'|by eapply linked_took].
Qed.

Lemma send_data limit id data n p e po o w :
  0 < id < 2 ^ 31 -> 0 <= n <= zlen data -> n < 2 ^ 31 -> 0 <= p <= 255 -> writer_good w ->
  match WriteFrame u (DataFrame id (Some data) n p e) po o w with
  | (Ok _, w') => sent_as limit (DataFrame id (Some data) n p e, po, o) w w'
  | (Err e, w') => fw_err w' = Some e
  | (Panic, _) => False
  end.
Proof.
  intros Hid Hn Hn31 Hp Hg. pose proof Hg as (He & Hm & _). cbn [WriteFrame].
  set (d := take (Z.to_nat n) data). assert (Hd : zlen d = n) by (unfold d, zlen in *; rewrite length_take; lia).
  pose proof (data_written id d (drop (Z.to_nat n) data) p e w Hid ltac:(lia) Hp He ltac:(lia)) as Hw.
  unfold d in Hw at 1. rewrite take_drop, Hd in Hw.
  destruct (DataFrame_writeTo id (Some data) n p e w) as [[[]|x|] w'] eqn:E; [|done|done]. destruct Hw as (l & Hc & Hout).
  assert (Hk : kept w w' /\ fw_err w' = None).
  { unfold DataFrame_writeTo in E. do 2 (destruct (_ : bool) in E; [done|]). apply return_err_ok in E as [-> He'].
    split; [by apply data_loop_kept|done]. }
  destruct Hk as [Hk He']. split; [by apply (writer_kept w)|]. split; [apply Hk|].
  exists (l ≫= encodePiece id), (map (piece_frame id) l). split; [done|]. split; [by exists l|]. intros r rest Hr Hl.
  destruct (read_pieces l r id rest Hid) as (r' & Hread & Ht); [|done|].
  { eapply Forall_impl; [apply Hc|]. cbn. destruct Hl as (_ & _ & ? & _). lia. }
  exists r'. rewrite length_map. split_and!; [done|apply Ht|by eapply linked_took].
Qed.

Lemma EncodeFields_wf fs : forall enc k blk enc',
  table_wf (e_table enc) -> fields_ok fs -> EncodeFields enc [] fs = Some (k, blk, enc') -> table_wf (e_table enc').
Proof.
  induction fs as [|[[n v] s] fs IH]; intros enc k blk enc' Hwf Hok He; [by injection He as <- <- <-|].
  apply EncodeFields_cons in He as (k1 & o1 & enc1 & k2 & o2 & E1 & E2 & -> & ->). apply Forall_cons in Hok as [Hok1 Hok].
  eapply IH; [|exact Hok|exact E2]. by eapply EncodeHeaderField_wf.
Qed.

Lemma send_header limit f po o w :
  header_frame_ok f -> orders_ok po o (Frame_header f) -> fields_ok (block_of po o (Frame_header f)) ->
  match EncodeFields (fw_enc w) [] (block_of po o (Frame_header f)) with
  | Some (k, blk, _) => k < 2 ^ 32 /\ zlen blk < 2 ^ 32 /\ (fw_maxHeaderListSize w = 0 \/ k <= fw_maxHeaderListSize w) /\
      (limit = 0 \/ k <= limit < 2 ^ 32)
  | None => True
  end -> writer_good w ->
  match WriteFrame u f po o w with
  | (Ok _, w') => sent_as limit (f, po, o) w w'
  | (Err e, w') => fw_err w' = Some e
  | (Panic, _) => False
  end.
Proof.
  intros Hok Hord Hfs Hsz (He & Hm & Hwf).
  destruct (sync_block collect (fw_enc w) _ Hwf Hfs) as (k & blk & enc' & Henc & _). rewrite Henc in Hsz.
  destruct Hsz as (Hk & Hblk & Hlw & Hlr).
  pose proof (header_frame_wire u f po o w k blk enc' Hok Hord Hfs He Hm Hwf Henc Hk Hblk Hlw) as Hw.
  destruct (WriteFrame u f po o w) as [[[]|e|] w']; [|done|done]. destruct Hw as (bytes & Hout & He1 & He2 & Hmx & Hread).
  split; [unfold writer_good; rewrite Hmx, He1; split_and!; try done; try lia; by eapply EncodeFields_wf|]. split; [done|].
  exists bytes, [f]. split; [done|]. split; [by destruct f|]. intros r rest Hr (L1 & L2 & L3 & L4 & L5).
  destruct (Hread r rest Hr L1 L2 L3 L4) as (r' & H1 & H2 & H3 & H4 & H5 & H6 & H7); [by rewrite L5|].
  exists r'. cbn [length ReadFrames]. rewrite H1. cbn. split_and!; [done|done|]. unfold linked. rewrite H5, H6, H7, Hmx. done.
Qed.

Lemma send_one limit x w :
  sendable limit w x -> writer_good w ->
  match WriteFrame u x.1.1 x.1.2 x.2 w with
  | (Ok _, w') => sent_as limit x w w'
  | (Err e, w') => fw_err w' = Some e
  | (Panic, _) => False
  end.
Proof.
  destruct x as [[f po] o]. cbn [fst snd]. intros Hs Hg.
  destruct f as [id [data|] n p e|id h prio p e| | | |id pid h p| | | |]; cbn [sendable] in Hs.
  1: { destruct Hs as (? & ? & ? & ?). by apply send_data. }
  all: try (destruct Hs as (? & ? & ? & ?); by apply send_header).
  all: destruct Hs as (? & ? & ?); by apply send_control.
Qed.

Lemma ReadFrames_app n m r l1 r1 l2 r2 :
  ReadFrames n r = Some (l1, r1) -> ReadFrames m r1 = Some (l2, r2) -> ReadFrames (n + m) r = Some (l1 ++ l2, r2).
Proof.
  revert r l1. induction n as [|n IH]; intros r l1; cbn; [by intros [= <- <-]|].
  destruct (ReadFrame r) as [[f|e|] r']; [|done|done]. destruct (ReadFrames n r') as [[fs r3]|] eqn:E; [|done].
  cbn. intros [= <- <-] H2. by rewrite (IH _ _ E H2).
Qed.
End Session.

(** C3: a whole session arrives.  Any sequence of control frames, DATA and header blocks that an
    application may send is written up to the end or up to the sink's first error; the bytes,
    given to a reader whose limits allow them and whose HPACK decoder starts in step with the
    encoder, are read as the same frames in the same order, DATA cut into pieces that carry
    the same bytes, headers cut into CONTINUATION frames put together again; after the last
    frame the reader stands at whatever follows, still in step with the writer. *)
Theorem wire_session_roundtrip {W} `{Sink W} u limit fs (w : frameWriter W) :
  sendable_all u limit w fs -> writer_good w ->
  match WriteFrames u fs w with
  | (Ok _, w') =>
    writer_good w' /\ exists bytes ls, sink_out (fw_w w') = sink_out (fw_w w) ++ bytes /\
      Forall2 (delivered (fw_maxFrameSize w)) fs ls /\
      forall r rest, ready r (bytes ++ rest) -> linked limit w r ->
        exists r', ReadFrames (length (concat ls)) r = Some (concat ls, r') /\ ready r' rest /\ linked limit w' r'
  | (Err e, w') => fw_err w' = Some e
  | (Panic, _) => False
  end.
Proof.
  revert w. induction fs as [|[[f po] o] fs IH]; intros w Hs Hg; cbn [WriteFrames].
  { split; [done|]. exists [], []. rewrite app_nil_r. split_and!; [done|constructor|]. intros r rest Hr Hl. by exists r. }
  cbn [sendable_all fst snd] in Hs. destruct Hs as [Hs1 Hs]. pose proof (send_one u limit (f, po, o) w Hs1 Hg) as H1.
  cbn [fst snd] in H1. destruct (WriteFrame u f po o w) as [[[]|e|] w1]; [|done|done].
  destruct H1 as (Hg1 & Hm1 & b1 & l1 & Ho1 & Hd1 & Hr1). specialize (IH w1 Hs Hg1).
  destruct (WriteFrames u fs w1) as [[[]|e|] w2]; [|done|done]. destruct IH as (Hg2 & b2 & ls & Ho2 & Hd2 & Hr2). split; [done|].
  exists (b1 ++ b2), (l1 :: ls). rewrite Ho2, Ho1, Hm1 in *. rewrite app_assoc. split_and!; [done|by constructor|].
  intros r rest Hr Hl. rewrite <- app_assoc in Hr. destruct (Hr1 r _ Hr Hl) as (r1 & E1 & Hr1' & Hl1).
  destruct (Hr2 r1 rest Hr1' Hl1) as (r2 & E2 & Hr2' & Hl2). exists r2. cbn [concat]. rewrite length_app. split; [|done].
  by apply (ReadFrames_app (length l1) _ r l1 r1).
Qed.

(** A request: settings, headers with a body to follow, the body, and a ping. *)
Definition sampleSession : list toSend :=
  [(SettingsFrame false [MkSetting SettingEnablePush 0], [], []);
   (sampleHeadersFrame, elements pseudoHeader, map_to_list sampleMap);
   (DataFrame 1 (Some (str "hello")) 5 3 true, [], []);
   (PingFrame false (replicate 8 Byte.x00), [], [])].

Lemma sendable_step {W} `{Sink W} u limit x fs (w : frameWriter W) :
  sendable limit w x -> (WriteFrame u x.1.1 x.1.2 x.2 w).1 = Ok tt -> sendable_all u limit (WriteFrame u x.1.1 x.1.2 x.2 w).2 fs ->
  sendable_all u limit w (x :: fs).
Proof. intros Hs Hw Hall. split; [done|]. destruct (WriteFrame _ _ _ _ w) as [[[]|e|] w1]; done. Qed.

Lemma sample_sendable : sendable_all (W := list byte) id 0 (newFrameWriter []) sampleSession.
Proof.
  apply sendable_step; [|vm_compute; reflexivity|].
  { split_and!; try done. split; [apply (bool_decide_unpack _); by vm_compute|]. by repeat constructor. }
  apply sendable_step; [|vm_compute; reflexivity|].
  { destruct sample_ok as [Hok Hfs]. split; [vm_compute; intuition congruence|]. split; [by split_and!|]. split; [exact Hfs|].
    vm_compute. intuition congruence. }
  apply sendable_step; [|vm_compute; reflexivity|].
  { by split_and!. }
  apply sendable_step; [|vm_compute; reflexivity|exact I].
  split; [reflexivity|]. split; vm_compute; [discriminate|reflexivity].
Qed.

Lemma wire_session_roundtrip_witness :
  exists ls r', Forall2 (delivered 16384) sampleSession ls /\
    ReadFrames (length (concat ls)) (newFrameReader (fw_w (WriteFrames (W := list byte) id sampleSession (newFrameWriter [])).2) ErrEOF [] 4096)
      = Some (concat ls, r') /\ ready r' [].
Proof.
  destruct (sync_new (E := error) defaultHeaderTableSize (None : Header)) as [Hs Hq]; [done|].
  pose proof (wire_session_roundtrip (W := list byte) id 0 sampleSession (newFrameWriter []) sample_sendable) as Hw.
  destruct (WriteFrames _ _ _) as [[[]|e|] w'] eqn:E; [clear E|exfalso; vm_compute in E; discriminate E..].
  destruct Hw as (_ & bytes & ls & Hb & Hd & Hread); [split_and!; [done|done|done|apply Hs]|].
  destruct (Hread (newFrameReader bytes ErrEOF [] 4096) []) as (r' & Hr & Hr' & _).
  { split; [done|]. exists []. split; [cbn; by rewrite app_nil_r|done]. }
  { by split_and!. }
  exists ls, r'. cbn [snd]. cbn in Hb. by rewrite Hb.
Defined.
