(* ===== verification/ReaderAdvance.v ===== *)
(** * The frame reader only advances on its input ([src/read.go])

    Whatever the bytes are, [ReadFrame] leaves the reader on a suffix of its input, the
    frame it returns and the header frame it keeps pending have stream identifiers of 31
    bits, and a call that does not end with the end of the input takes at least one byte
    off it.  The connection's invariant and the termination of its read loop rest on it. *)

From S2P Require Import Prelude HpackEncode HpackDecode Types Settings HttpHeader FrameReader FrameRoundtrip.

#[local] Open Scope reader_scope.

(** The identifiers of a frame that was read fit in 31 bits. *)
Definition ids_read (f : Frame) : Prop :=
  0 <= Frame_Stream f < 2 ^ 31 /\
  match f with PushPromiseFrame _ pid _ _ => 0 <= pid < 2 ^ 31 | _ => True end.

(** The identifiers of a frame that an application may write: any 32-bit numbers but the two
    largest, after which the next identifier would wrap around. *)
Definition ids_ok (f : Frame) : Prop :=
  0 <= Frame_Stream f < 2 ^ 32 - 2 /\
  match f with PushPromiseFrame _ pid _ _ => 0 <= pid < 2 ^ 32 - 2 | _ => True end.

Lemma ids_read_ok f : ids_read f -> ids_ok f.
Proof. unfold ids_read, ids_ok. destruct f; lia. Qed.

(** The reader between two frames, and how it advances: on the same input. *)
Definition fr_ok (r : frameReader) : Prop :=
  0 <= fr_streamID r < 2 ^ 31 /\ forall f, fr_pending r = Some f -> ids_read f.

Definition reader_le (r r' : frameReader) : Prop :=
  (fr_ok r -> fr_ok r') /\ fr_end r' = fr_end r /\ fr_in r' `suffix_of` fr_in r.

Lemma reader_le_refl r : reader_le r r.
Proof. by split_and!. Qed.

Lemma reader_le_trans r1 r2 r3 : reader_le r1 r2 -> reader_le r2 r3 -> reader_le r1 r3.
Proof. intros (? & ? & ?) (? & ? & ?). split_and!; [by auto|congruence|by etransitivity]. Qed.

#[local] Hint Resolve reader_le_refl : core.

(** ** Programs of the reader *)

(** A program that stays on the input. *)
Definition radv {A} (m : R A) : Prop := forall r, fr_end (m r).2 = fr_end r /\ fr_in (m r).2 `suffix_of` fr_in r.

(** A program that keeps the identifiers in range and whose result satisfies [Q]. *)
Definition rok {A} (Q : A -> Prop) (m : R A) : Prop :=
  forall r, fr_ok r -> fr_ok (m r).2 /\ forall a, (m r).1 = Ok a -> Q a.

Definition anything {A} (_ : A) : Prop := True.

Lemma radv_bind {A B} (m : R A) (k : A -> R B) : radv m -> (forall a, radv (k a)) -> radv (rbind m k).
Proof.
  intros Hm Hk r. unfold rbind. specialize (Hm r). destruct (m r) as [[a|e|] r']; cbn in *; [|done..].
  destruct Hm as [He Hs]. destruct (Hk a r') as [He' Hs']. split; [congruence|by etransitivity].
Qed.

Lemma rok_bind {A B} (Q : A -> Prop) (Q' : B -> Prop) (m : R A) (k : A -> R B) :
  rok Q m -> (forall a, Q a -> rok Q' (k a)) -> rok Q' (rbind m k).
Proof.
  intros Hm Hk r Hr. unfold rbind. destruct (Hm r Hr) as [Hr' Ha]. destruct (m r) as [[a|e|] r']; cbn in *; [|done..].
  by apply (Hk a (Ha a eq_refl)).
Qed.

Lemma rok_seq {A B} (Q : B -> Prop) (m : R A) (k : A -> R B) :
  rok anything m -> (forall a, rok Q (k a)) -> rok Q (rbind m k).
Proof. intros Hm Hk. eapply rok_bind; [exact Hm|]. intros a _. apply Hk. Qed.

Lemma rok_id {B} (Q : B -> Prop) (k : Z -> R B) :
  (forall id, 0 <= id < 2 ^ 31 -> rok Q (k id)) -> rok Q (rbind (rget fr_streamID) k).
Proof.
  intros Hk. apply (rok_bind (fun id => 0 <= id < 2 ^ 31)); [|done].
  intros r Hr. split; [done|]. intros a [= <-]. apply Hr.
Qed.

Lemma rok_ret {A} (Q : A -> Prop) a : Q a -> rok Q (rret a).
Proof. intros Ha r Hr. split; [done|]. by intros b [= <-]. Qed.

Lemma rok_throw {A} (Q : A -> Prop) e : rok Q (rthrow e).
Proof. done. Qed.

Lemma rok_get {A} (f : frameReader -> A) : rok anything (rget f).
Proof. done. Qed.

Lemma rok_orPanic {A} (o : option A) : rok anything (orPanic o).
Proof. by destruct o. Qed.

Lemma rok_when b m : rok anything m -> rok anything (rwhen b m).
Proof. by destruct b. Qed.

Lemma radv_ret {A} (a : A) : radv (rret a).
Proof. done. Qed.
Lemma radv_throw {A} e : radv (@rthrow A e).
Proof. done. Qed.
Lemma radv_get {A} (f : frameReader -> A) : radv (rget f).
Proof. done. Qed.

Lemma radv_orPanic {A} (o : option A) : radv (orPanic o).
Proof. by destruct o. Qed.

Lemma radv_when b m : radv m -> radv (rwhen b m).
Proof. by destruct b. Qed.

Lemma radv_modify f :
  (forall r, (fr_end (f r), fr_in (f r)) = (fr_end r, fr_in r)) -> radv (rmodify f).
Proof. intros Hf r. specialize (Hf r). cbn. injection Hf as -> ->. done. Qed.

Lemma rok_modify f :
  (forall r, (fr_streamID (f r), fr_pending (f r)) = (fr_streamID r, fr_pending r)) -> rok anything (rmodify f).
Proof. intros Hf r [Hid Hp]. specialize (Hf r). injection Hf as E1 E2. split; [|done]. split; cbn; [by rewrite E1|by rewrite E2]. Qed.

(** ** The pieces *)

Lemma discard_le n : radv (discard n) /\ rok anything (discard n).
Proof. split; [|done]. intros r. split; [done|]. apply suffix_drop. Qed.

Lemma discard_err_le n : radv (discard_err n) /\ rok anything (discard_err n).
Proof. split; [|done]. intros r. split; [done|]. apply suffix_drop. Qed.

Lemma readByte_le : radv readByte /\ rok anything readByte.
Proof.
  split; intros r; unfold readByte; destruct (fr_in r) eqn:E; cbn; try done; split; try done.
  - by rewrite E.
  - by apply suffix_cons_r.
Qed.

Lemma peek_le n : radv (peek n) /\ rok anything (peek n).
Proof. split; intros r; unfold peek; by destruct (_ <? _). Qed.

Lemma readFull_le n : radv (readFull n) /\ rok anything (readFull n).
Proof. split; intros r; unfold readFull; destruct (_ <? _); cbn; try done; (split; [done|]; apply suffix_drop). Qed.

Lemma decodeChunk_le chunk : radv (decodeChunk chunk) /\ rok anything (decodeChunk chunk).
Proof. split; intros r; unfold decodeChunk; by destruct (Decode _ _ _ _) as [[]]. Qed.

Lemma resetDecoder_le : radv resetDecoder /\ rok anything resetDecoder.
Proof. split; intros r; unfold resetDecoder; by destruct (Reset _) as [[]]. Qed.

Lemma hasFlag_le v : radv (hasFlag v) /\ rok anything (hasFlag v).
Proof. done. Qed.
Lemma handlerState_le : radv handlerState /\ rok anything handlerState.
Proof. done. Qed.
Lemma payload_le n : radv (payload n) /\ rok anything (payload n).
Proof. done. Qed.

Lemma setHandlerState_le h : radv (setHandlerState h) /\ rok anything (setHandlerState h).
Proof. split; [by apply radv_modify|by apply rok_modify]. Qed.

Lemma connError_le {A} code : radv (@connError A code) /\ rok anything (@connError A code).
Proof. done. Qed.

Lemma rok_connError {A} (Q : A -> Prop) code : rok Q (connError code).
Proof. done. Qed.

Create HintDb h2reader discriminated.
#[local] Hint Constants Opaque : h2reader.
#[local] Hint Resolve discard_le discard_err_le readByte_le peek_le readFull_le decodeChunk_le resetDecoder_le
  hasFlag_le handlerState_le payload_le setHandlerState_le connError_le : h2reader.

(** One statement of a reader's program. *)
Ltac adv_base :=
  first [ simple apply radv_ret | simple apply radv_throw | simple apply radv_get | simple apply radv_orPanic | simple apply radv_modify; reflexivity
        | simple apply rok_modify; reflexivity
        | match goal with |- radv ?m => refine (proj1 (B := rok anything m) _); solve [auto with h2reader nocore] end
        | match goal with |- rok anything ?m => refine (proj2 (A := radv m) _); solve [auto with h2reader nocore] end
        | solve [simple apply rok_get | simple apply rok_throw | simple apply rok_connError | simple apply rok_orPanic | by simple apply rok_ret] ].
Ltac adv_walk :=
  repeat first [ adv_base
               | simple apply radv_bind; [|intros ?]
               | simple apply rok_id; intros ? ?
               | simple apply rok_seq; [|intros ?]
               | progress (cbv beta zeta)
               | simple apply rok_when
               | simple apply radv_when
               | match goal with |- context [if ?b then _ else _] => destruct b end ].

Lemma readUint32_le : radv readUint32 /\ rok anything readUint32.
Proof. split; unfold readUint32; adv_walk. Qed.
#[local] Hint Resolve readUint32_le : h2reader.

Lemma readFragment_le fuel n : radv (readFragment fuel n) /\ rok anything (readFragment fuel n).
Proof.
  revert n. induction fuel as [|fuel IH]; intros n; [by split|].
  split; cbn [readFragment]; adv_walk; apply IH.
Qed.
#[local] Hint Resolve readFragment_le : h2reader.

Lemma finishHeaders_le mk p n : radv (finishHeaders mk p n) /\ ((forall h, ids_read (mk h)) -> rok ids_read (finishHeaders mk p n)).
Proof.
  split; [|intros Hmk]; unfold finishHeaders; adv_walk.
  - intros r. destruct (resetDecoder r) as [x r'] eqn:E. pose proof (proj1 resetDecoder_le r) as Hr. rewrite E in Hr. exact Hr.
  - intros r Hr. destruct (resetDecoder r) as [x r'] eqn:E. pose proof (proj2 resetDecoder_le r Hr) as [[Hid _] _].
    rewrite E in Hid. split; [|done]. by split.
  - intros r [Hid _]. split; [|done]. split; [done|]. intros f [= <-]. apply Hmk.
Qed.


(** ** The [readFrom] methods *)

(** The result of a [readFrom] method: the frame has the identifier that was read. *)
Lemma rok_mask v : 0 <= Z.land v (2 ^ 31 - 1) < 2 ^ 31.
Proof. rewrite land_31. apply Z.mod_pos_bound. lia. Qed.

Ltac ids_done := apply rok_ret; split; [done|try done; apply rok_mask].

Lemma HeadersFrame_le f : radv (HeadersFrame_readFrom f) /\ (ids_read f -> rok ids_read (HeadersFrame_readFrom f)).
Proof.
  split; [|intros Hf]; unfold HeadersFrame_readFrom; adv_walk; try (destruct f; adv_walk); try apply finishHeaders_le;
    try done; intros h; by split.
Qed.

Lemma PushPromiseFrame_le f : radv (PushPromiseFrame_readFrom f) /\ (ids_read f -> rok ids_read (PushPromiseFrame_readFrom f)).
Proof.
  split; [|intros Hf]; unfold PushPromiseFrame_readFrom; adv_walk; try (destruct f; adv_walk); try apply finishHeaders_le;
    try done; intros h; (split; [done|apply rok_mask]).
Qed.

Lemma readSettings_le n s : radv (readSettings n s) /\ rok anything (readSettings n s).
Proof.
  revert s. induction n as [|n IH]; intros s; [by split|].
  split; cbn [readSettings]; adv_walk; destruct (SetValue _ _ _); try apply IH; adv_base.
Qed.
#[local] Hint Resolve readSettings_le : h2reader.

(** The other frames, by their definitions. *)
Lemma simple_le m :
  In m [DataFrame_readFrom; PriorityFrame_readFrom; RSTStreamFrame_readFrom; SettingsFrame_readFrom; PingFrame_readFrom;
        GoAwayFrame_readFrom; WindowUpdateFrame_readFrom; UnknownFrame_readFrom] -> radv m /\ rok ids_read m.
Proof.
  intros Hin. repeat (destruct Hin as [<-|Hin]; [split|]); [..|done];
    unfold DataFrame_readFrom, PriorityFrame_readFrom, RSTStreamFrame_readFrom, SettingsFrame_readFrom, PingFrame_readFrom,
      GoAwayFrame_readFrom, WindowUpdateFrame_readFrom, UnknownFrame_readFrom; adv_walk; ids_done.
Qed.

Lemma readFrom_le f : radv (readFrom f) /\ ((forall g, f = Some g -> ids_read g) -> rok ids_read (readFrom f)).
Proof.
  assert (Hn : 0 <= 0 < 2 ^ 31) by lia.
  split; [|intros Hf]; unfold readFrom; (simple apply radv_bind || simple apply rok_seq); try adv_base; intros t.
  - destruct f as [[]|]; try apply HeadersFrame_le; try apply PushPromiseFrame_le.
    repeat (match goal with |- context [if ?b then _ else _] => destruct b end;
      [try apply HeadersFrame_le; try apply PushPromiseFrame_le; try (apply simple_le; cbn; tauto)|]).
    apply simple_le. cbn. tauto.
  - destruct f as [g|].
    + assert (Hg := Hf g eq_refl). destruct g; (by apply HeadersFrame_le) || (by apply PushPromiseFrame_le).
    + repeat (match goal with |- context [if ?b then _ else _] => destruct b end;
        [first [by apply HeadersFrame_le|by apply PushPromiseFrame_le|apply simple_le; cbn; tauto]|]).
      apply simple_le. cbn. tauto.
Qed.

(** ** [ReadFrame] *)

Lemma readFrameHeader_le : radv readFrameHeader /\ rok anything readFrameHeader.
Proof.
  split; unfold readFrameHeader; adv_walk;
    match goal with |- context [match ?l with [] => _ | _ => _ end] => destruct l as [|b0 [|b1 [|b2 [|b3 [|b4 rest]]]]] end;
    adv_walk.
  intros r [Hid Hp]. split; [|done]. split; [apply rok_mask|exact Hp].
Qed.

Lemma rok_pending {B} (Q : B -> Prop) (k : option Frame -> R B) :
  (forall p, (forall f, p = Some f -> ids_read f) -> rok Q (k p)) -> rok Q (rbind (rget fr_pending) k).
Proof.
  intros Hk. apply (rok_bind (fun p => forall f, p = Some f -> ids_read f)); [|done].
  intros r Hr. split; [done|]. intros a [= <-]. apply Hr.
Qed.

(** The rest of a round after the frame header. *)
Definition afterHeader : R Frame :=
  payloadLen <- rget fr_payloadLen ;;
  max <- rget fr_maxFrameSize ;;
  (if max <? payloadLen then connError ErrCodeFrameSize else rret tt) ;;
  pending <- rget fr_pending ;;
  t <- rget fr_frameType ;;
  match pending with
  | Some f => if t =? FrameContinuation then readFrom (Some f) else connError ErrCodeProtocol
  | None => if t =? FrameContinuation then connError ErrCodeProtocol else readFrom None
  end.

Lemma afterHeader_le : radv afterHeader /\ rok ids_read afterHeader.
Proof.
  split; unfold afterHeader.
  - do 5 (simple apply radv_bind; [adv_walk|intros ?]).
    match goal with |- radv (match ?p with _ => _ end) => destruct p end; destruct (_ =? _); adv_base || apply readFrom_le.
  - do 3 (simple apply rok_seq; [adv_walk|intros ?]). apply rok_pending. intros p Hp.
    simple apply rok_seq; [adv_base|intros t]. destruct p as [f|]; destruct (_ =? _); adv_base || by apply readFrom_le.
Qed.

Lemma readOne_le : radv readOne /\ rok ids_read readOne.
Proof.
  split.
  - apply radv_bind; [apply readFrameHeader_le|]. intros _. apply afterHeader_le.
  - apply rok_seq; [apply readFrameHeader_le|]. intros _. apply afterHeader_le.
Qed.

Lemma readLoop_le n : radv (readLoop n) /\ rok ids_read (readLoop n).
Proof.
  induction n as [|n [IH1 IH2]]; [by split|]. split; cbn [readLoop].
  - apply radv_bind; [apply readOne_le|]. intros f. apply radv_bind; [apply radv_get|]. intros [g|]; [done|apply radv_ret].
  - apply (rok_bind ids_read); [apply readOne_le|]. intros f Hf. apply rok_seq; [apply rok_get|].
    intros [g|]; [done|by apply rok_ret].
Qed.

Lemma closeLastPayload_le : radv closeLastPayload /\ rok anything closeLastPayload.
Proof.
  split; intros r; unfold closeLastPayload; destruct (fr_lastPayload r) as [[n p]|]; try done;
    (destruct (_ <? _); [|done]).
  - apply (proj1 (discard_err_le (n + p)) (fr_set_last None r)).
  - apply (proj2 (discard_err_le (n + p)) (fr_set_last None r)).
Qed.

(** A call of [ReadFrame] advances the reader, and its frame has identifiers of 31 bits. *)
Lemma ReadFrame_le r :
  reader_le r (ReadFrame r).2 /\ (fr_ok r -> forall f, (ReadFrame r).1 = Ok f -> ids_read f).
Proof.
  assert (Ha : radv ReadFrame).
  { apply radv_bind; [apply closeLastPayload_le|]. intros _ r'. apply readLoop_le. }
  assert (Ho : rok ids_read ReadFrame).
  { apply rok_seq; [apply closeLastPayload_le|]. intros _ r'. apply readLoop_le. }
  split; [|by apply Ho]. split; [by apply Ho|]. apply Ha.
Qed.

Lemma payloadRead_le k r : reader_le r (payloadRead k r).2.
Proof.
  unfold payloadRead. destruct (k =? 0); [done|]. destruct (fr_lastPayload r) as [[n p]|]; [|done].
  destruct (n <=? 0); [done|]. destruct (take _ _) as [|b l]; [done|]. split_and!; [done|done|]. apply suffix_drop.
Qed.

(** ** Progress *)

Lemma readFrameHeader_progress r :
  readFrameHeader r = (Err (fr_end r), r) \/
  exists r', readFrameHeader r = (Ok tt, r') /\ (length (fr_in r') < length (fr_in r))%nat /\ fr_end r' = fr_end r.
Proof.
  unfold readFrameHeader, rbind, peek, discard, rmodify, orPanic. unfold frameHeaderLen.
  destruct (zlen (fr_in r) <? 9) eqn:E; [by left|right]. apply Z.ltb_ge in E. unfold zlen in E.
  destruct (fr_in r) as [|b0 [|b1 [|b2 [|b3 [|b4 [|b5 [|b6 [|b7 [|b8 rest]]]]]]]]] eqn:Hin; try (cbn in E; lia).
  change (Z.to_nat 9) with 9%nat. cbn [take uint32]. eexists. split; [reflexivity|].
  cbn [fr_in fr_set_in fr_set_header fr_end]. rewrite Hin. split; [|done]. rewrite length_drop. cbn [length]. lia.
Qed.

Lemma readOne_progress r :
  (exists r', readOne r = (Err (fr_end r), r')) \/ (length (fr_in (readOne r).2) < length (fr_in r))%nat.
Proof.
  change readOne with (rbind readFrameHeader (fun _ => afterHeader)). unfold rbind. destruct (readFrameHeader_progress r) as [->|(r' & -> & Hl & He)]; [by left; eexists|right].
  destruct (proj1 afterHeader_le r') as [_ Hs%suffix_length]. lia.
Qed.

Lemma readLoop_progress n r :
  (exists r', readLoop (S n) r = (Err (fr_end r), r')) \/ (length (fr_in (readLoop (S n) r).2) < length (fr_in r))%nat.
Proof.
  cbn [readLoop]. unfold rbind, rget. destruct (readOne_progress r) as [[r' ->]|Hl]; [by left; eexists|right].
  destruct (readOne r) as [[f|e|] r'] eqn:E; cbn in Hl; [|exact Hl..].
  destruct (fr_pending r') as [g|]; [|done]. destruct (proj1 (readLoop_le n) r') as [_ Hs%suffix_length]. lia.
Qed.

(** A call of [ReadFrame] fails with the error at the end of the input, or takes a byte off
    the input. *)
Lemma ReadFrame_progress r :
  (exists r', ReadFrame r = (Err (fr_end r), r')) \/ (length (fr_in (ReadFrame r).2) < length (fr_in r))%nat.
Proof.
  unfold ReadFrame, rbind. destruct (proj1 closeLastPayload_le r) as [He Hs%suffix_length].
  destruct (closeLastPayload r) as [[[]|e|] r'] eqn:E; cbn in He, Hs.
  - destruct (readLoop_progress (length (fr_in r')) r') as [[r2 ->]|Hl]; [left; rewrite He; by eexists|right; lia].
  - left. unfold closeLastPayload in E. destruct (fr_lastPayload r) as [[n p]|]; [|done]. destruct (_ <? _); [|done].
    unfold discard_err in E. cbn in E. destruct (_ <? _); [|done]. simplify_eq. by eexists.
  - unfold closeLastPayload in E. destruct (fr_lastPayload r) as [[n p]|]; [|done]. destruct (_ <? _); [|done].
    unfold discard_err in E. by destruct (_ <? _).
Qed.

(** ** Fuel *)

(** More rounds than bytes change nothing: the loop over pending header frames never runs out. *)
Lemma readLoop_enough n m r :
  (length (fr_in r) < n)%nat -> (length (fr_in r) < m)%nat -> readLoop n r = readLoop m r.
Proof.
  revert m r. induction n as [|n IH]; intros [|m] r Hn Hm; try lia. cbn [readLoop]. unfold rbind, rget.
  destruct (readOne_progress r) as [[r' ->]|Hl]; [done|]. destruct (readOne r) as [[f|e|] r']; try done. cbn in Hl.
  destruct (fr_pending r'); [|done]. apply IH; lia.
Qed.

(** Nor do more rounds than bytes of a fragment, with a buffer that holds a byte. *)
Lemma readFragment_enough n m k r :
  0 < fr_bufSize r -> (Z.to_nat k < n)%nat -> (Z.to_nat k < m)%nat -> readFragment n k r = readFragment m k r.
Proof.
  revert m k r. induction n as [|n IH]; intros [|m] k r Hb Hn Hm; try lia. cbn [readFragment].
  destruct (Z.ltb_spec 0 k); [|done]. unfold rbind, rget, peek, decodeChunk, discard. cbv iota beta.
  set (cs := if fr_bufSize r <? k then fr_bufSize r else k).
  assert (Hcs : 0 < cs <= k) by (unfold cs; destruct (Z.ltb_spec (fr_bufSize r) k); lia).
  destruct (zlen (fr_in r) <? cs); [done|].
  destruct (Decode _ _ _ _) as [[[]|e|] d]; try done. apply IH; [done|lia..].
Qed.
