(* ===== verification/Conn.v ===== *)
(** * The connection: its state and its stream table ([src/conn.go], [src/stream.go])

    [Conn] holds the two [connState]s (the local side and the remote side), the streams,
    the connection's flow controllers, the write queue, the frame reader and the frame
    writer.  A stream is an object that outlives its entry in the map [c.streams]: handlers
    and the body reader keep pointers to it.  Identifiers are never reused, so the objects
    are kept in a store indexed by identifier, [cn_objs], and the map is the set of its
    keys, [cn_streams].

    Here are the operations on the table and the two sides: [idleStream], the transitions
    with the effects that [StreamState] lists as changes of the connection, the changes of
    the initial window size, [applySettings], and the allocation of stream identifiers.
    Each runs to completion on the state, in a state, error and panic monad; the
    interleavings inside a transition are the subject of [StreamState], those of the
    operations the subject of [ConnSystem].

    What the code takes from outside is the class [ConnEnv]: the byte sink with its flush,
    the order in which Go ranges over a map, the text of errors, the growth of slices, the
    Unicode part of [strings.ToLower], which errors are network errors. *)

From S2P Require Import Prelude HpackEncode HpackDecode Types Settings StreamState FlowControl WriteQueue.
From S2P Require Import HttpHeader StreamWrite FrameWriter FrameReader.

(** ** The environment *)

Class ConnEnv (W : Type) := {
  env_sink :: Sink W;
  env_flush : W -> W * option error;
  env_rwcClose : option error;
  env_range : gset Z -> list Z;
  env_pseudoOrder : list gostring;
  env_fieldOrder : Header -> list (gostring * list gostring);
  env_errText : error -> list byte;
  env_growCap : Z -> Z;
  env_toLower : gostring -> gostring;
  env_netError : error -> option bool;
  env_range_perm X : env_range X ≡ₚ elements X;
}.

(** ** Assignments to the limits of the reader and the writer *)

Definition fr_set_maxFrameSize (x : Z) (r : frameReader) : frameReader :=
  MkFR (fr_in r) (fr_end r) (fr_stale r) (fr_bufSize r) x (fr_dec r) (fr_maxHeaderListSize r)
    (fr_pending r) (fr_payloadLen r) (fr_frameType r) (fr_flags r) (fr_streamID r) (fr_lastPayload r).
Definition fr_set_maxHeaderListSize (x : Z) (r : frameReader) : frameReader :=
  MkFR (fr_in r) (fr_end r) (fr_stale r) (fr_bufSize r) (fr_maxFrameSize r) (fr_dec r) x
    (fr_pending r) (fr_payloadLen r) (fr_frameType r) (fr_flags r) (fr_streamID r) (fr_lastPayload r).
Definition fw_set_maxFrameSize {W} (x : Z) (w : frameWriter W) : frameWriter W :=
  MkFW (fw_w w) (fw_buf w) x (fw_err w) (fw_enc w) (fw_hpackBuf w) (fw_maxHeaderListSize w).
Definition fw_set_maxHeaderListSize {W} (x : Z) (w : frameWriter W) : frameWriter W :=
  MkFW (fw_w w) (fw_buf w) (fw_maxFrameSize w) (fw_err w) (fw_enc w) (fw_hpackBuf w) x.

(** ** Streams *)

(** The goroutine that holds the write token of a stream: none, one that waits for credit
    to send the rest of a DATA frame, or one that waits on [werr] for the frame it queued,
    with the rest of the DATA frame behind it.  The flag says whether its [writeFrame] has
    deferred the release of the stream identifier token. *)
Inductive wphase :=
| WIdle
| WCredit (rest : Frame) (release : bool)
| WWaiting (rest : option Frame) (release : bool).

Record stream := MkStream {
  st_id : Z;
  st_state : StreamState;
  st_recvFlow : option flowController;
  st_sendFlow : option remoteFlowController;
  st_frame : option Frame;
  st_sawEOS : bool;
  st_lastWritten : Z;
  st_resetSent : bool;
  st_resetReceived : bool;
  st_closed : bool;
  st_writer : wphase;
}.

Definition st_set_id (x : Z) (s : stream) : stream :=
  MkStream x (st_state s) (st_recvFlow s) (st_sendFlow s) (st_frame s) (st_sawEOS s) (st_lastWritten
    s) (st_resetSent s) (st_resetReceived s) (st_closed s) (st_writer s).
Definition st_set_state (x : StreamState) (s : stream) : stream :=
  MkStream (st_id s) x (st_recvFlow s) (st_sendFlow s) (st_frame s) (st_sawEOS s) (st_lastWritten s)
    (st_resetSent s) (st_resetReceived s) (st_closed s) (st_writer s).
Definition st_set_recvFlow (x : option flowController) (s : stream) : stream :=
  MkStream (st_id s) (st_state s) x (st_sendFlow s) (st_frame s) (st_sawEOS s) (st_lastWritten s)
    (st_resetSent s) (st_resetReceived s) (st_closed s) (st_writer s).
Definition st_set_sendFlow (x : option remoteFlowController) (s : stream) : stream :=
  MkStream (st_id s) (st_state s) (st_recvFlow s) x (st_frame s) (st_sawEOS s) (st_lastWritten s)
    (st_resetSent s) (st_resetReceived s) (st_closed s) (st_writer s).
Definition st_set_frame (x : option Frame) (s : stream) : stream :=
  MkStream (st_id s) (st_state s) (st_recvFlow s) (st_sendFlow s) x (st_sawEOS s) (st_lastWritten s)
    (st_resetSent s) (st_resetReceived s) (st_closed s) (st_writer s).
Definition st_set_sawEOS (x : bool) (s : stream) : stream :=
  MkStream (st_id s) (st_state s) (st_recvFlow s) (st_sendFlow s) (st_frame s) x (st_lastWritten s)
    (st_resetSent s) (st_resetReceived s) (st_closed s) (st_writer s).
Definition st_set_lastWritten (x : Z) (s : stream) : stream :=
  MkStream (st_id s) (st_state s) (st_recvFlow s) (st_sendFlow s) (st_frame s) (st_sawEOS s) x
    (st_resetSent s) (st_resetReceived s) (st_closed s) (st_writer s).
Definition st_set_resetSent (x : bool) (s : stream) : stream :=
  MkStream (st_id s) (st_state s) (st_recvFlow s) (st_sendFlow s) (st_frame s) (st_sawEOS s)
    (st_lastWritten s) x (st_resetReceived s) (st_closed s) (st_writer s).
Definition st_set_resetReceived (x : bool) (s : stream) : stream :=
  MkStream (st_id s) (st_state s) (st_recvFlow s) (st_sendFlow s) (st_frame s) (st_sawEOS s)
    (st_lastWritten s) (st_resetSent s) x (st_closed s) (st_writer s).
Definition st_set_closed (x : bool) (s : stream) : stream :=
  MkStream (st_id s) (st_state s) (st_recvFlow s) (st_sendFlow s) (st_frame s) (st_sawEOS s)
    (st_lastWritten s) (st_resetSent s) (st_resetReceived s) x (st_writer s).
Definition st_set_writer (x : wphase) (s : stream) : stream :=
  MkStream (st_id s) (st_state s) (st_recvFlow s) (st_sendFlow s) (st_frame s) (st_sawEOS s)
    (st_lastWritten s) (st_resetSent s) (st_resetReceived s) (st_closed s) x.

(** What [idleStream] allocates. *)
Definition newStream (id : Z) : stream := MkStream id StateIdle None None None false 0 false false false WIdle.

(** ** The two sides *)

(** A GOAWAY frame as it is stored. *)
Record goAway := MkGoAway { ga_LastStreamID : Z; ga_ErrCode : Z; ga_DebugData : list byte }.

(** The stored [Settings] is a slice: its capacity decides whether an append leaves the
    array it is stored in. *)
Record connState := MkCS {
  cs_server : bool;
  cs_numStreams : Z;
  cs_nextStreamID : Z;
  cs_lastStreamID : Z;
  cs_settings : Settings;
  cs_settingsCap : Z;
  cs_goAway : option goAway;
}.

Definition cs_set_server (x : bool) (s : connState) : connState :=
  MkCS x (cs_numStreams s) (cs_nextStreamID s) (cs_lastStreamID s) (cs_settings s) (cs_settingsCap s)
    (cs_goAway s).
Definition cs_set_numStreams (x : Z) (s : connState) : connState :=
  MkCS (cs_server s) x (cs_nextStreamID s) (cs_lastStreamID s) (cs_settings s) (cs_settingsCap s)
    (cs_goAway s).
Definition cs_set_nextStreamID (x : Z) (s : connState) : connState :=
  MkCS (cs_server s) (cs_numStreams s) x (cs_lastStreamID s) (cs_settings s) (cs_settingsCap s)
    (cs_goAway s).
Definition cs_set_lastStreamID (x : Z) (s : connState) : connState :=
  MkCS (cs_server s) (cs_numStreams s) (cs_nextStreamID s) x (cs_settings s) (cs_settingsCap s)
    (cs_goAway s).
Definition cs_set_settings (x : Settings) (s : connState) : connState :=
  MkCS (cs_server s) (cs_numStreams s) (cs_nextStreamID s) (cs_lastStreamID s) x (cs_settingsCap s)
    (cs_goAway s).
Definition cs_set_settingsCap (x : Z) (s : connState) : connState :=
  MkCS (cs_server s) (cs_numStreams s) (cs_nextStreamID s) (cs_lastStreamID s) (cs_settings s) x
    (cs_goAway s).
Definition cs_set_goAway (x : option goAway) (s : connState) : connState :=
  MkCS (cs_server s) (cs_numStreams s) (cs_nextStreamID s) (cs_lastStreamID s) (cs_settings s)
    (cs_settingsCap s) x.

(** [connState.validStreamID] *)
Definition cs_validStreamID (s : connState) (streamID : Z) : bool :=
  Bool.eqb (cs_server s) (Z.land streamID 1 =? 0) && (0 <? streamID).

(** ** The connection *)

(** What waits in the write queue: a frame, a stream with the frame it wants to send, or
    [nil], a request to flush. *)
Inductive item := QFrame (f : Frame) | QStream (id : Z) | QFlush.

(** [data]: the reader of the payload of the last DATA frame, one object that is reused. *)
Record data := MkData {
  dt_stream : Z; dt_processed : Z; dt_endStream : bool; dt_sawEOF : bool; dt_err : option error }.

(** The goroutine of [writeLoop]: at the head of its loop, blocked for ever in the send on
    [werr] of a stream, or returned. *)
Inductive loopState := LoopHead | LoopBlocked (id : Z) | LoopDone.

Section Conn.
Context {W : Type} `{ConnEnv W}.

Record Conn := MkConn {
  cn_local : connState;
  cn_remote : connState;
  cn_objs : gmap Z stream;
  cn_streams : gset Z;
  cn_recv : flowController;
  cn_send : remoteFlowController;
  cn_queue : writeQueue item;
  cn_fr : frameReader;
  cn_fw : frameWriter W;
  cn_settingsCh : list Settings;
  cn_data : data;
  cn_lastData : bool;
  cn_idCh : bool;
  cn_idState : bool;
  cn_closing : bool;
  cn_closed : bool;
  cn_closeCh : bool;
  cn_loop : loopState;
}.

Definition cn_set_local (x : connState) (c : Conn) : Conn :=
  MkConn x (cn_remote c) (cn_objs c) (cn_streams c) (cn_recv c) (cn_send c) (cn_queue c) (cn_fr c)
    (cn_fw c) (cn_settingsCh c) (cn_data c) (cn_lastData c) (cn_idCh c) (cn_idState c) (cn_closing c)
    (cn_closed c) (cn_closeCh c) (cn_loop c).
Definition cn_set_remote (x : connState) (c : Conn) : Conn :=
  MkConn (cn_local c) x (cn_objs c) (cn_streams c) (cn_recv c) (cn_send c) (cn_queue c) (cn_fr c)
    (cn_fw c) (cn_settingsCh c) (cn_data c) (cn_lastData c) (cn_idCh c) (cn_idState c) (cn_closing c)
    (cn_closed c) (cn_closeCh c) (cn_loop c).
Definition cn_set_objs (x : gmap Z stream) (c : Conn) : Conn :=
  MkConn (cn_local c) (cn_remote c) x (cn_streams c) (cn_recv c) (cn_send c) (cn_queue c) (cn_fr c)
    (cn_fw c) (cn_settingsCh c) (cn_data c) (cn_lastData c) (cn_idCh c) (cn_idState c) (cn_closing c)
    (cn_closed c) (cn_closeCh c) (cn_loop c).
Definition cn_set_streams (x : gset Z) (c : Conn) : Conn :=
  MkConn (cn_local c) (cn_remote c) (cn_objs c) x (cn_recv c) (cn_send c) (cn_queue c) (cn_fr c)
    (cn_fw c) (cn_settingsCh c) (cn_data c) (cn_lastData c) (cn_idCh c) (cn_idState c) (cn_closing c)
    (cn_closed c) (cn_closeCh c) (cn_loop c).
Definition cn_set_recv (x : flowController) (c : Conn) : Conn :=
  MkConn (cn_local c) (cn_remote c) (cn_objs c) (cn_streams c) x (cn_send c) (cn_queue c) (cn_fr c)
    (cn_fw c) (cn_settingsCh c) (cn_data c) (cn_lastData c) (cn_idCh c) (cn_idState c) (cn_closing c)
    (cn_closed c) (cn_closeCh c) (cn_loop c).
Definition cn_set_send (x : remoteFlowController) (c : Conn) : Conn :=
  MkConn (cn_local c) (cn_remote c) (cn_objs c) (cn_streams c) (cn_recv c) x (cn_queue c) (cn_fr c)
    (cn_fw c) (cn_settingsCh c) (cn_data c) (cn_lastData c) (cn_idCh c) (cn_idState c) (cn_closing c)
    (cn_closed c) (cn_closeCh c) (cn_loop c).
Definition cn_set_queue (x : writeQueue item) (c : Conn) : Conn :=
  MkConn (cn_local c) (cn_remote c) (cn_objs c) (cn_streams c) (cn_recv c) (cn_send c) x (cn_fr c)
    (cn_fw c) (cn_settingsCh c) (cn_data c) (cn_lastData c) (cn_idCh c) (cn_idState c) (cn_closing c)
    (cn_closed c) (cn_closeCh c) (cn_loop c).
Definition cn_set_fr (x : frameReader) (c : Conn) : Conn :=
  MkConn (cn_local c) (cn_remote c) (cn_objs c) (cn_streams c) (cn_recv c) (cn_send c) (cn_queue c) x
    (cn_fw c) (cn_settingsCh c) (cn_data c) (cn_lastData c) (cn_idCh c) (cn_idState c) (cn_closing c)
    (cn_closed c) (cn_closeCh c) (cn_loop c).
Definition cn_set_fw (x : frameWriter W) (c : Conn) : Conn :=
  MkConn (cn_local c) (cn_remote c) (cn_objs c) (cn_streams c) (cn_recv c) (cn_send c) (cn_queue c)
    (cn_fr c) x (cn_settingsCh c) (cn_data c) (cn_lastData c) (cn_idCh c) (cn_idState c) (cn_closing c)
    (cn_closed c) (cn_closeCh c) (cn_loop c).
Definition cn_set_settingsCh (x : list Settings) (c : Conn) : Conn :=
  MkConn (cn_local c) (cn_remote c) (cn_objs c) (cn_streams c) (cn_recv c) (cn_send c) (cn_queue c)
    (cn_fr c) (cn_fw c) x (cn_data c) (cn_lastData c) (cn_idCh c) (cn_idState c) (cn_closing c)
    (cn_closed c) (cn_closeCh c) (cn_loop c).
Definition cn_set_data (x : data) (c : Conn) : Conn :=
  MkConn (cn_local c) (cn_remote c) (cn_objs c) (cn_streams c) (cn_recv c) (cn_send c) (cn_queue c)
    (cn_fr c) (cn_fw c) (cn_settingsCh c) x (cn_lastData c) (cn_idCh c) (cn_idState c) (cn_closing c)
    (cn_closed c) (cn_closeCh c) (cn_loop c).
Definition cn_set_lastData (x : bool) (c : Conn) : Conn :=
  MkConn (cn_local c) (cn_remote c) (cn_objs c) (cn_streams c) (cn_recv c) (cn_send c) (cn_queue c)
    (cn_fr c) (cn_fw c) (cn_settingsCh c) (cn_data c) x (cn_idCh c) (cn_idState c) (cn_closing c)
    (cn_closed c) (cn_closeCh c) (cn_loop c).
Definition cn_set_idCh (x : bool) (c : Conn) : Conn :=
  MkConn (cn_local c) (cn_remote c) (cn_objs c) (cn_streams c) (cn_recv c) (cn_send c) (cn_queue c)
    (cn_fr c) (cn_fw c) (cn_settingsCh c) (cn_data c) (cn_lastData c) x (cn_idState c) (cn_closing c)
    (cn_closed c) (cn_closeCh c) (cn_loop c).
Definition cn_set_idState (x : bool) (c : Conn) : Conn :=
  MkConn (cn_local c) (cn_remote c) (cn_objs c) (cn_streams c) (cn_recv c) (cn_send c) (cn_queue c)
    (cn_fr c) (cn_fw c) (cn_settingsCh c) (cn_data c) (cn_lastData c) (cn_idCh c) x (cn_closing c)
    (cn_closed c) (cn_closeCh c) (cn_loop c).
Definition cn_set_closing (x : bool) (c : Conn) : Conn :=
  MkConn (cn_local c) (cn_remote c) (cn_objs c) (cn_streams c) (cn_recv c) (cn_send c) (cn_queue c)
    (cn_fr c) (cn_fw c) (cn_settingsCh c) (cn_data c) (cn_lastData c) (cn_idCh c) (cn_idState c) x
    (cn_closed c) (cn_closeCh c) (cn_loop c).
Definition cn_set_closed (x : bool) (c : Conn) : Conn :=
  MkConn (cn_local c) (cn_remote c) (cn_objs c) (cn_streams c) (cn_recv c) (cn_send c) (cn_queue c)
    (cn_fr c) (cn_fw c) (cn_settingsCh c) (cn_data c) (cn_lastData c) (cn_idCh c) (cn_idState c)
    (cn_closing c) x (cn_closeCh c) (cn_loop c).
Definition cn_set_closeCh (x : bool) (c : Conn) : Conn :=
  MkConn (cn_local c) (cn_remote c) (cn_objs c) (cn_streams c) (cn_recv c) (cn_send c) (cn_queue c)
    (cn_fr c) (cn_fw c) (cn_settingsCh c) (cn_data c) (cn_lastData c) (cn_idCh c) (cn_idState c)
    (cn_closing c) (cn_closed c) x (cn_loop c).
Definition cn_set_loop (x : loopState) (c : Conn) : Conn :=
  MkConn (cn_local c) (cn_remote c) (cn_objs c) (cn_streams c) (cn_recv c) (cn_send c) (cn_queue c)
    (cn_fr c) (cn_fw c) (cn_settingsCh c) (cn_data c) (cn_lastData c) (cn_idCh c) (cn_idState c)
    (cn_closing c) (cn_closed c) (cn_closeCh c) x.
(** ** A state, error and panic monad over the connection *)

Definition C (A : Type) : Type := Conn -> outcome error A * Conn.

Definition cret {A} (a : A) : C A := fun c => (Ok a, c).
Definition cthrow {A} (e : error) : C A := fun c => (Err e, c).
Definition cbind {A B} (m : C A) (k : A -> C B) : C B := fun c =>
  match m c with
  | (Ok a, c) => k a c
  | (Err e, c) => (Err e, c)
  | (Panic, c) => (Panic, c)
  end.
Definition cget {A} (f : Conn -> A) : C A := fun c => (Ok (f c), c).
Definition cmodify (f : Conn -> Conn) : C unit := fun c => (Ok tt, f c).

(** A computation that panics or changes the state. *)
Definition clift (f : Conn -> option Conn) : C unit := fun c =>
  match f c with Some c' => (Ok tt, c') | None => (Panic, c) end.

(** [err := m] *)
Definition ctry (m : C unit) : C (option error) := fun c =>
  match m c with
  | (Ok _, c) => (Ok None, c)
  | (Err e, c) => (Ok (Some e), c)
  | (Panic, c) => (Panic, c)
  end.

(** [return err] *)
Definition creturn (e : option error) : C unit :=
  match e with None => cret tt | Some e => cthrow e end.

(** A pointer that is dereferenced. *)
Definition cderef {A} (o : option A) : C A := fun c =>
  match o with Some a => (Ok a, c) | None => (Panic, c) end.

Local Notation "x <- m ;; k" := (cbind m (fun x => k))
  (at level 100, m at next level, right associativity).
Local Notation "m ;; k" := (cbind m (fun _ => k)) (at level 100, right associativity).

(** ** The stream table *)

(** The side of a stream's identifier: [true] is the embedded [connState], [false] is
    [remote]. *)
Definition side (b : bool) (c : Conn) : connState := if b then cn_local c else cn_remote c.
Definition upd_side (b : bool) (f : connState -> connState) (c : Conn) : Conn :=
  if b then cn_set_local (f (cn_local c)) c else cn_set_remote (f (cn_remote c)) c.

Definition upd_stream (id : Z) (f : stream -> stream) (c : Conn) : Conn :=
  cn_set_objs (alter f id (cn_objs c)) c.

Definition add_queue (x : item) (control : bool) (c : Conn) : Conn :=
  cn_set_queue (wq_add (cn_queue c) x control) c.

(** [&sender{...}] frames of the flow controllers. *)
Definition add_frames (fs : list Frame) (c : Conn) : Conn :=
  foldl (fun c f => add_queue (QFrame f) true c) c fs.

Definition Flush (c : Conn) : Conn := add_queue QFlush false c.

Definition NumActiveStreams (c : Conn) : Z :=
  u32 (cs_numStreams (cn_local c) + cs_numStreams (cn_remote c)).

Definition LastStreamID (c : Conn) : Z := cs_lastStreamID (cn_remote c).

Definition is_some {A} (o : option A) : bool := match o with Some _ => true | None => false end.

Definition goingAway (c : Conn) : bool :=
  is_some (cs_goAway (cn_remote c)) || is_some (cs_goAway (cn_local c)).

(** [c.streams[streamID]]; [nil] is [None]. *)
Definition Conn_stream (c : Conn) (streamID : Z) : option stream :=
  if decide (streamID ∈ cn_streams c) then cn_objs c !! streamID else None.

Definition addStream (id : Z) (c : Conn) : Conn := cn_set_streams ({[id]} ∪ cn_streams c) c.

Definition removeStream (id : Z) (c : Conn) : Conn :=
  let c := cn_set_streams (cn_streams c ∖ {[id]}) c in
  if goingAway c && (NumActiveStreams c =? 0) then Flush c else c.

(** [stream.local] *)
Definition stream_local (id : Z) (c : Conn) : bool :=
  Bool.eqb (cs_server (cn_local c)) (Z.land id 1 =? 0).

(** ** The identifier token and the writer of a stream *)

(** [if atomic.CompareAndSwapInt32(&c.idState, 1, 0) { c.idCh <- struct{}{} }], also what the
    timer does.  The channel, of capacity one, is empty whenever [idState] is 1 ([conn_ok]),
    so the send does not block. *)
Definition releaseID (c : Conn) : Conn :=
  if cn_idState c then cn_set_idCh true (cn_set_idState false c) else c.

(** The goroutine returns from [stream.write] and runs what was deferred. *)
Definition finishWrite (id : Z) (release : bool) (c : Conn) : Conn :=
  let c := upd_stream id (st_set_writer WIdle) c in
  if release then releaseID c else c.

(** ** Transitions *)

(** [atomic.AddUint32(&numStreams, d)] on the side that owns the stream *)
Definition addNumStreams (id d : Z) (c : Conn) : Conn :=
  upd_side (stream_local id c) (fun s => cs_set_numStreams (u32 (cs_numStreams s + d)) s) c.

(** [s.recvFlow.returnBytes(n)]: the controllers of the stream and of the connection. *)
Definition stream_returnBytes (id n : Z) : C unit := fun c =>
  match cn_objs c !! id ≫= st_recvFlow with
  | None => (Panic, c)
  | Some f =>
    let '(e, conn, f', fs) := returnBytes (cn_recv c) f n in
    let c := upd_stream id (st_set_recvFlow (Some f')) (cn_set_recv conn c) in
    creturn e (add_frames fs c)
  end.

(** [s.sendFlow.cancel(); s.sendFlow.incrementWindow(-s.sendFlow.window())] *)
Definition drainSendFlow (id : Z) (c : Conn) : Conn :=
  upd_stream id (fun s => st_set_sendFlow (rf_drain <$> st_sendFlow s) s) c.

(** One effect of a successful compare-and-swap; [None] is a panic. *)
Definition runEffect (id : Z) (e : effect) (c : Conn) : option Conn :=
  match e with
  | EAddStream => Some (addStream id c)
  | EIncr => Some (addNumStreams id 1 c)
  | EDecr => Some (addNumStreams id (2 ^ 32 - 1) c)
  | EInitRecvFlow =>
    let w := InitialWindowSize (cs_settings (cn_local c)) in
    Some (upd_stream id (st_set_recvFlow (Some (newFlowController id w))) c)
  | EInitSendFlow =>
    let w := InitialWindowSize (cs_settings (cn_remote c)) in
    Some (upd_stream id (st_set_sendFlow (Some (newRemoteFlowController id w))) c)
  | ECancelWrite =>
    (* delivered only to a goroutine that waits on [werr], which then returns *)
    s ← cn_objs c !! id;
    Some (match st_writer s with WWaiting _ release => finishWrite id release c | _ => c end)
  | EDrainSendFlow => _ ← cn_objs c !! id ≫= st_sendFlow; Some (drainSendFlow id c)
  | EDrainSendFlowIfSet => Some (drainSendFlow id c)
  | EReturnConsumedIfSet =>
    match cn_objs c !! id ≫= st_recvFlow with
    | None => Some c
    | Some f => Some (stream_returnBytes id (fc_consumedBytes f) c).2
    end
  | ECloseCh =>
    s ← cn_objs c !! id;
    if st_closed s then None else Some (upd_stream id (st_set_closed true) c)
  | ERemoveStream => Some (removeStream id c)
  end.

Fixpoint runEffects (id : Z) (es : list effect) (c : Conn) : option Conn :=
  match es with
  | [] => Some c
  | e :: es => c' ← runEffect id e c; runEffects id es c'
  end.

(** A compare-and-swap of the state that succeeds. *)
Definition compareAndSwapState (id : Z) (from to : StreamState) (c : Conn) : option Conn :=
  runEffects id (casEffects from to) (upd_stream id (st_set_state to) c).

(** [stream.transition] *)
Definition stream_transition (id : Z) (recv : bool) (frameType : Z) (endStream : bool) : C StreamState := fun c =>
  match cn_objs c !! id with
  | None => (Panic, c)
  | Some s =>
    let from := st_state s in
    match transition_state from recv frameType endStream with
    | None => (Err (refused id from recv frameType (st_resetReceived s) (st_resetSent s)), c)
    | Some to =>
      match compareAndSwapState id from to c with
      | None => (Panic, c)
      | Some c =>
        (Ok to,
         if bool_decide (to = StateClosed) && (frameType =? FrameRSTStream) then
           upd_stream id (if recv then st_set_resetReceived true else st_set_resetSent true) c
         else c)
      end
    end
  end.

(** [stream.close] *)
Definition stream_close (id : Z) : C unit := fun c =>
  match cn_objs c !! id with
  | None => (Panic, c)
  | Some s => clift (compareAndSwapState id (st_state s) StateClosed) c
  end.

(** [for _, stream := range streams { stream.close() }] *)
Fixpoint closeStreams (ids : list Z) : C unit :=
  match ids with
  | [] => cret tt
  | id :: ids => stream_close id ;; closeStreams ids
  end.

(** The streams in the map, in the order Go ranges over it. *)
Definition range_streams (c : Conn) : list Z := env_range (cn_streams c).

(** ** New streams *)

Definition idleStream (b : bool) (streamID : Z) : C unit := fun c =>
  let s := side b c in
  if is_some (cs_goAway (cn_local c)) then (Err (ConnError ErrCodeProtocol), c)
  else if negb (cs_validStreamID s streamID) then (Err (ConnError ErrCodeProtocol), c)
  else if streamID <? cs_nextStreamID s then (Err (ConnError ErrCodeProtocol), c)
  else if MaxConcurrentStreams (cs_settings s) <? u32 (cs_numStreams s + 1) then
    (Err (ConnError ErrCodeRefusedStream), c)
  else
    let c := cn_set_objs (<[streamID := newStream streamID]> (cn_objs c)) c in
    (Ok tt, upd_side b (fun s => cs_set_lastStreamID streamID (cs_set_nextStreamID (u32 (streamID + 2)) s)) c).

(** The cases of the [select] in [NextStreamID], of which Go takes any that is ready: the
    connection was closed, the token is in [idCh], the timer fired (at any moment). *)
Inductive idCase := CaseClosed | CaseToken | CaseTimer.

(** The identifier or the error that is returned, or [goto again]. *)
Inductive idResult := IDReturn (r : outcome error Z) | IDAgain.

(** One round of [NextStreamID] with the given case; [None] when the case is not ready. *)
Definition NextStreamID (sel : idCase) (c : Conn) : option (idResult * Conn) :=
  match sel with
  | CaseClosed => if cn_closeCh c then Some (IDReturn (Err ErrClosed), c) else None
  | CaseToken =>
    if cn_idCh c then
      let next := cs_nextStreamID (cn_local c) in
      Some (IDReturn (Ok (if 1 <? next then next else u32 (next + 2))), cn_set_idState true (cn_set_idCh false c))
    else None
  | CaseTimer =>
    if cn_closeCh c then Some (IDReturn (Err ErrClosed), c)
    else Some (IDAgain, releaseID c)
  end.

(** ** Settings *)

(** [setInitialRecvWindow]: the streams in the order of the range, with the errors so far. *)
Fixpoint recvWindow_loop (delta : Z) (ids : list Z) (errs : list (Z * Z)) : C (list (Z * Z)) :=
  match ids with
  | [] => cret errs
  | id :: ids =>
    s <- cget (fun c => cn_objs c !! id) ;;
    s <- cderef s ;;
    if readable (st_state s) then
      f <- cderef (st_recvFlow s) ;;
      let (e, f') := fc_incrementInitialWindow f delta in
      cmodify (upd_stream id (st_set_recvFlow (Some f'))) ;;
      recvWindow_loop delta ids (if is_some e then errs ++ [(ErrCodeFlowControl, id)] else errs)
    else recvWindow_loop delta ids errs
  end.

(** [errors.Err()] *)
Definition errList (errs : list (Z * Z)) : C unit :=
  match errs with [] => cret tt | _ => cthrow (StreamErrorList errs) end.

Definition setInitialRecvWindow (delta : Z) : C unit :=
  if delta =? 0 then cret tt
  else
    ids <- cget range_streams ;;
    errs <- recvWindow_loop delta ids [] ;;
    errList errs.

(** [setInitialSendWindow]; the type assertion on the error panics for anything else than a
    stream error. *)
Fixpoint sendWindow_loop (delta : Z) (ids : list Z) (errs : list (Z * Z)) : C (list (Z * Z)) :=
  match ids with
  | [] => cret errs
  | id :: ids =>
    s <- cget (fun c => cn_objs c !! id) ;;
    s <- cderef s ;;
    if writable (st_state s) then
      f <- cderef (st_sendFlow s) ;;
      let (e, f') := rf_incrementInitialWindow f delta in
      cmodify (upd_stream id (st_set_sendFlow (Some f'))) ;;
      match e with
      | None => sendWindow_loop delta ids errs
      | Some e =>
        if st_id s =? 0 then cthrow e
        else match e with
             | StreamError code sid => sendWindow_loop delta ids (errs ++ [(code, sid)])
             | _ => cderef None
             end
      end
    else sendWindow_loop delta ids errs
  end.

Definition setInitialSendWindow (delta : Z) : C unit :=
  if delta =? 0 then cret tt
  else
    ids <- cget range_streams ;;
    errs <- sendWindow_loop delta ids [] ;;
    errList errs.

(** The local variable [cur] of [applySettings]: a copy of the stored slice, which shares its
    array until an append exceeds the capacity.  [sl_stored] is what the stored slice shows
    meanwhile. *)
Record slice := MkSlice { sl_cur : Settings; sl_cap : Z; sl_shared : bool; sl_stored : Settings }.

(** [cur.SetValue(id, v)] with its error ignored. *)
Definition slice_set (id v : Z) (l : slice) : slice :=
  if valid_setting id v then
    if bool_decide (id ∈ map s_ID (sl_cur l)) then
      MkSlice (put_setting (sl_cur l) id v) (sl_cap l) (sl_shared l)
        (if sl_shared l && bool_decide (id ∈ map s_ID (sl_stored l))
         then put_setting (sl_stored l) id v else sl_stored l)
    else if zlen (sl_cur l) <? sl_cap l then
      MkSlice (put_setting (sl_cur l) id v) (sl_cap l) (sl_shared l) (sl_stored l)
    else MkSlice (put_setting (sl_cur l) id v) (env_growCap (sl_cap l)) false (sl_stored l)
  else l.

(** What one known setting does besides being recorded, for the local or the remote side. *)
Definition applySetting (b : bool) (l : slice) (x : setting) : C unit :=
  let v := s_Value x in
  if s_ID x =? SettingEnablePush then
    server <- cget (fun c => cs_server (side b c)) ;;
    if (v =? 1) && Bool.eqb b server then cthrow (ConnError ErrCodeProtocol) else cret tt
  else if s_ID x =? SettingInitialWindowSize then
    let delta := v - InitialWindowSize (sl_cur l) in
    if b then setInitialRecvWindow delta else setInitialSendWindow delta
  else if s_ID x =? SettingHeaderTableSize then
    clift (fun c =>
      if b then
        d ← dec_SetMaxHeaderTableSize (fr_dec (cn_fr c)) v;
        Some (cn_set_fr (fr_set_dec d (cn_fr c)) c)
      else
        e ← enc_SetMaxHeaderTableSize (fw_enc (cn_fw c)) v;
        Some (cn_set_fw (fw_set_hpack e (fw_hpackBuf (cn_fw c)) (cn_fw c)) c))
  else if s_ID x =? SettingMaxHeaderListSize then
    cmodify (fun c =>
      if b then cn_set_fr (fr_set_maxHeaderListSize v (cn_fr c)) c
      else cn_set_fw (fw_set_maxHeaderListSize v (cn_fw c)) c)
  else if s_ID x =? SettingMaxFrameSize then
    cmodify (fun c =>
      if b then cn_set_fr (fr_set_maxFrameSize v (cn_fr c)) c
      else cn_set_fw (fw_set_maxFrameSize v (cn_fw c)) c)
  else cret tt.

Definition known_setting (id : Z) : bool :=
  existsb (Z.eqb id) [SettingHeaderTableSize; SettingEnablePush; SettingMaxConcurrentStreams;
    SettingInitialWindowSize; SettingMaxFrameSize; SettingMaxHeaderListSize].

(** The loop over the settings; on an error the stored slice is what [sl_stored] shows. *)
Fixpoint applySettings_loop (b : bool) (settings : Settings) (l : slice) : C slice :=
  match settings with
  | [] => cret l
  | x :: settings =>
    if known_setting (s_ID x) then
      fun c =>
        match applySetting b l x c with
        | (Ok _, c) => applySettings_loop b settings (slice_set (s_ID x) (s_Value x) l) c
        | (Err e, c) => (Err e, upd_side b (cs_set_settings (sl_stored l)) c)
        | (Panic, c) => (Panic, c)
        end
    else applySettings_loop b settings l
  end.

Definition applySettings (b : bool) (settings : Settings) : C unit :=
  l <- cget (fun c => let s := side b c in
                      MkSlice (cs_settings s) (cs_settingsCap s) true (cs_settings s)) ;;
  l <- applySettings_loop b settings l ;;
  cmodify (upd_side b (fun s => cs_set_settingsCap (sl_cap l) (cs_set_settings (sl_cur l) s))).

(** ** The windows of a stream *)

(** [InitialRecvWindow], [RecvWindow], [InitialSendWindow] and [SendWindow] *)
Definition Conn_InitialRecvWindow (c : Conn) (streamID : Z) : outcome error Z :=
  if streamID =? 0 then Ok (fc_initialWindow (cn_recv c))
  else match Conn_stream c streamID with
       | None => Ok 0
       | Some s => match st_recvFlow s with Some f => Ok (fc_initialWindow f) | None => Panic end
       end.

Definition Conn_RecvWindow (c : Conn) (streamID : Z) : outcome error Z :=
  if streamID =? 0 then Ok (RecvWindow (cn_recv c))
  else match Conn_stream c streamID with
       | None => Ok 0
       | Some s => match st_recvFlow s with Some f => Ok (RecvWindow f) | None => Panic end
       end.

Definition Conn_InitialSendWindow (c : Conn) (streamID : Z) : Z := InitialWindowSize (cs_settings (cn_remote c)).

Definition Conn_SendWindow (c : Conn) (streamID : Z) : outcome error Z :=
  if streamID =? 0 then Ok (SendWindow (cn_send c))
  else match Conn_stream c streamID with
       | None => Ok 0
       | Some s => match st_sendFlow s with Some f => Ok (SendWindow f) | None => Panic end
       end.

(** ** A new connection *)

Definition newConnState (server : bool) (next : Z) (settings : Settings) : connState :=
  MkCS server 0 next 0 settings (zlen settings) None.

Definition newConn (server : bool) (fr : frameReader) (w : W) : Conn :=
  let push := [MkSetting SettingEnablePush 0] in
  let win := defaultInitialWindowSize in
  MkConn
    (newConnState server (if server then 2 else 1) (if server then push else []))
    (newConnState (negb server) (if server then 1 else 2) (if server then [] else push))
    ∅ ∅ (newFlowController 0 win) (newRemoteFlowController 0 win) newWriteQueue fr (newFrameWriter w)
    [] (MkData 0 0 false false None) false true false false false false LoopHead.
End Conn.
Arguments Conn W : clear implicits.
Arguments C W A : clear implicits.

(** A connection over lists of bytes, for examples. *)
#[global] Instance list_env : ConnEnv (list byte).
Proof.
  refine {| env_flush w := (w, None); env_rwcClose := None; env_range := elements;
            env_pseudoOrder := elements pseudoHeader;
            env_fieldOrder h := map_to_list (default ∅ h); env_errText _ := [];
            env_growCap n := 2 * n + 1; env_toLower := id; env_netError _ := None |}.
  done.
Defined.
