(* ===== verification/ConnIO.v ===== *)
(** * The connection: reading, writing, errors and closing ([src/conn.go])

    [writeFrame] and [readFrame] with their dispatch on the frame type, [handleErr], the
    rounds of [writeLoop] with [stream.writeTo], the body reader [data], [close] and
    [CloseTimeout].  A call of [stream.write] is cut where it blocks: on credit, and on the
    answer of the write loop; [startWrite], [creditStep] and [writeTo] are the pieces. *)

From S2P Require Import Prelude HpackEncode HpackDecode Types Settings StreamState FlowControl WriteQueue.
From S2P Require Import HttpHeader StreamWrite FrameWriter FrameReader Conn.

Section IO.
Context {W : Type} `{ConnEnv W}.
Implicit Types c : Conn W.

Local Notation "x <- m ;; k" := (cbind m (fun x => k))
  (at level 100, m at next level, right associativity).
Local Notation "m ;; k" := (cbind m (fun _ => k)) (at level 100, right associativity).

(** The result of a call is ignored. *)
Definition ignore (m : C W unit) : C W unit := _ <- ctry m ;; cret tt.

(** ** GOAWAY and errors *)

(** The branch of [writeFrame] for GOAWAY. *)
Definition writeGoAway (ga : goAway) : C W unit :=
  sent <- cget (fun c => cs_goAway (cn_remote c)) ;;
  if (match sent with Some g => ga_LastStreamID g <? ga_LastStreamID ga | None => false end) then
    cthrow (PlainError "last stream ID must not increase")
  else
    cmodify (upd_side false (cs_set_goAway (Some ga))) ;;
    ids <- cget (fun c => filter (fun id => (ga_LastStreamID ga <? id) && cs_validStreamID (cn_remote c) id)
                            (range_streams c)) ;;
    closeStreams ids ;;
    cmodify (add_queue (QFrame (GoAwayFrame (ga_LastStreamID ga) (ga_ErrCode ga) (ga_DebugData ga))) true).

(** The branch for RST_STREAM; [onErr] is [handleErr]. *)
Definition writeRSTStream (onErr : error -> C W unit) (frame : Frame) : C W unit :=
  let streamID := Frame_Stream frame in
  s <- cget (fun c => Conn_stream c streamID) ;;
  match s with
  | None => cret tt
  | Some _ =>
    err <- ctry (stream_transition streamID false FrameRSTStream false ;; cret tt) ;;
    match err with
    | None => cmodify (add_queue (QFrame frame) true)
    | Some e => onErr e ;; cthrow e
    end
  end.

Definition errGoAway (code : Z) (e : error) : C W unit :=
  last <- cget LastStreamID ;;
  ignore (writeGoAway (MkGoAway last code (env_errText e))).

Fixpoint each {A} (f : A -> C W unit) (l : list A) : C W unit :=
  match l with
  | [] => cret tt
  | x :: l => f x ;; each f l
  end.

(** [handleErr]; it calls [writeFrame], which calls it again only for a refused RST_STREAM,
    whose error is neither a stream error nor a list of them. *)
Fixpoint handleErr_rec (depth : nat) (e : error) : C W unit :=
  match depth with
  | O => cret tt
  | S depth =>
    match e with
    | ErrClosed => cret tt
    | StreamError code id => ignore (writeRSTStream (handleErr_rec depth) (RSTStreamFrame id code))
    | StreamErrorList l => each (fun x => ignore (writeRSTStream (handleErr_rec depth) (RSTStreamFrame x.2 x.1))) l
    | ConnError code => errGoAway code e
    | _ => errGoAway ErrCodeInternal e
    end
  end.

Definition handleErr : error -> C W unit := handleErr_rec 2.

(** The tail of [writeFrame]: [if err != nil { c.handleErr(err) }; return]. *)
Definition finishErr {A} (e : error) : C W A := handleErr e ;; cthrow e.

(** ** [stream.write] in pieces *)

(** Whether the call returned, or now waits. *)
Inductive wout := WReturned | WWaits.

(** The chunk that uses the credit, and the rest of the DATA frame. *)
Definition splitChunk (f : Frame) (allowed : Z) : Frame * option Frame :=
  match f with
  | DataFrame id data dataLen padLen endStream =>
    if allowed =? dataLen + padLen then (f, None)
    else
      let chunkLen := if allowed <? dataLen then allowed else dataLen in
      let padding := allowed - chunkLen in
      let padding := if padLen <? padding then padLen else padding in
      let lastFrame := (dataLen - chunkLen) + (padLen - padding) =? 0 in
      (DataFrame id data chunkLen (u8 padding) (endStream && lastFrame),
       if lastFrame then None
       else Some (DataFrame id (drop (Z.to_nat chunkLen) <$> data) (dataLen - chunkLen) (padLen - padding) endStream))
  | _ => (f, None)
  end.

(** [s.Frame = frame; s.conn.writeQueue.add(s, false)], then the wait on [werr]. *)
Definition queueStream (id : Z) (f : Frame) (rest : option Frame) (release : bool) c : Conn W :=
  add_queue (QStream id) false
    (upd_stream id (fun s => st_set_writer (WWaiting rest release) (st_set_frame (Some f) s)) c).

(** [allocateBytes] when the credit is there; [None] when the call has to wait. *)
Definition allocateNow (id n : Z) c : option (Z * Conn W) :=
  if n <=? 0 then Some (0, c)
  else
    f ← cn_objs c !! id ≫= st_sendFlow;
    match allocateBytes (MkCredit (cn_send c) f [] 0) n with
    | (inr m, x) => Some (m, upd_stream id (st_set_sendFlow (Some (cr_stream x))) (cn_set_send (cr_conn x) c))
    | (inl _, _) => None
    end.

(** A writer that waits for credit gets it and queues the next chunk. *)
Definition creditStep (id : Z) c : option (Conn W) :=
  s ← cn_objs c !! id;
  match st_writer s with
  | WCredit f release =>
    '(allowed, c) ← allocateNow id (frame_len f) c;
    let (chunk, rest) := splitChunk f allowed in
    Some (queueStream id chunk rest release c)
  | _ => None
  end.

(** A writer that waits for credit finds its stream or the connection closed. *)
Definition creditClosed (id : Z) c : option (Conn W) :=
  s ← cn_objs c !! id;
  match st_writer s with
  | WCredit _ release => if st_closed s || cn_closeCh c then Some (finishWrite id release c) else None
  | _ => None
  end.

(** [stream.write], with the case that its first [select] takes, up to its first wait. *)
Definition startWrite (sel : selected) (id : Z) (frame : Frame) (release : bool) : C W wout :=
  match sel with
  | ConnClosed => cthrow ErrClosed
  | StreamClosed => cthrow errStreamClosed
  | GotToken =>
    s <- cget (fun c => cn_objs c !! id) ;;
    s <- cderef s ;;
    if st_sawEOS s then cthrow errStreamClosed
    else if Frame_Type frame =? FrameHeaders then
      cmodify (queueStream id frame None release) ;; cret WWaits
    else
      match frame with
      | DataFrame _ _ _ _ _ =>
        cmodify (upd_stream id (st_set_writer (WCredit frame release))) ;; cret WWaits
      | _ => cthrow (PlainError "bad flow control frame type")
      end
  end.

(** Whether the token is there, and whether the [select] can take the case. *)
Definition writer_idle (s : stream) : bool := match st_writer s with WIdle => true | _ => false end.

Definition can_select (sel : selected) (id : Z) c : bool :=
  match sel with
  | ConnClosed => cn_closeCh c
  | StreamClosed => match cn_objs c !! id with Some s => st_closed s | None => false end
  | GotToken => match cn_objs c !! id with Some s => writer_idle s | None => true end
  end.

(** ** [writeFrame] *)

(** The deferred release: at once if the call returns, and otherwise when it does. *)
Definition deferRelease (m : C W wout) : C W wout := fun c =>
  match m c with
  | (Panic, c) => (Panic, c)
  | (Ok WWaits, c) => (Ok WWaits, c)
  | (r, c) => (r, releaseID c)
  end.

(** The transition of a stream on a frame that is sent or received, with its error. *)
Definition tryTransition (id : Z) (recv : bool) (frameType : Z) (endStream : bool) : C W (option error) :=
  ctry (stream_transition id recv frameType endStream ;; cret tt).

Definition returned : C W wout := cret WReturned.

Definition writeData (sel : selected) (frame : Frame) : C W wout :=
  let id := Frame_Stream frame in
  s <- cget (fun c => Conn_stream c id) ;;
  match s with
  | None => cthrow (PlainError "stream does not exist")
  | Some _ =>
    err <- tryTransition id false FrameData false ;;
    match err with
    | None => startWrite sel id frame false
    | Some e => finishErr e
    end
  end.

Definition writeHeaders (sel : selected) (frame : Frame) : C W wout :=
  let id := Frame_Stream frame in
  let go release :=
    err <- tryTransition id false FrameHeaders false ;;
    match err with
    | None => startWrite sel id frame release
    | Some e => finishErr e
    end in
  s <- cget (fun c => Conn_stream c id) ;;
  match s with
  | Some _ => go false
  | None =>
    deferRelease
      (err <- ctry (idleStream true id) ;;
       match err with
       | None => go true
       | Some e => finishErr e
       end)
  end.

(** SETTINGS: [settingsCh] has room for four. *)
Definition writeSettingsFrame (ack : bool) (settings : Settings) : C W wout :=
  if ack then cthrow (PlainError "not allowed to send ACK settings frame")
  else
    ch <- cget cn_settingsCh ;;
    if zlen ch <? 4 then
      cmodify (cn_set_settingsCh (ch ++ [settings])) ;;
      cmodify (add_queue (QFrame (SettingsFrame ack settings)) true) ;;
      returned
    else cthrow (PlainError "settings pool overflow").

(** PUSH_PROMISE; [promised] is the field of the frame, if it has the Go type for it. *)
Definition writePushPromise (frame : Frame) (promised : option Z) : C W wout :=
  let id := Frame_Stream frame in
  received <- cget (fun c => is_some (cs_goAway (cn_local c))) ;;
  if received : bool then finishErr (ConnError ErrCodeProtocol)
  else
    s <- cget (fun c => Conn_stream c id) ;;
    match s with
    | None => finishErr (ConnError ErrCodeProtocol)
    | Some s =>
      if negb (writable (st_state s)) then finishErr (ConnError ErrCodeProtocol)
      else
        push <- cget (fun c => PushEnabled (cs_settings (cn_remote c))) ;;
        if negb push then finishErr (ConnError ErrCodeProtocol)
        else
          deferRelease
            (promisedStreamID <- cderef promised ;;
             err <- ctry (idleStream true promisedStreamID) ;;
             err <- (match err with
                     | None => tryTransition promisedStreamID false FramePushPromise false
                     | Some e => cret (Some e)
                     end) ;;
             match err with
             | None => cmodify (add_queue (QFrame frame) false) ;; returned
             | Some e => finishErr e
             end)
    end.

(** WINDOW_UPDATE: the receive window grows, and announces itself when it is time. *)
Definition writeWindowUpdate (streamID increment : Z) : C W wout :=
  err <-
    (if streamID =? 0 then fun c =>
       let '(e, f, fs) := fc_incrementWindow (cn_recv c) increment in
       (Ok e, add_frames fs (cn_set_recv f c))
     else
       s <- cget (fun c => Conn_stream c streamID) ;;
       match s with
       | None => cret None
       | Some s =>
         f <- cderef (st_recvFlow s) ;;
         let '(e, f, fs) := fc_incrementWindow f increment in
         cmodify (fun c => add_frames fs (upd_stream streamID (st_set_recvFlow (Some f)) c)) ;;
         cret e
       end) ;;
  match err with
  | None => returned
  | Some e => finishErr e
  end.

(** [writeFrame]; the switch is on the type of the frame.  A frame whose Go type is not the
    one the branch asserts makes it panic; for GOAWAY the model panics at once. *)
Definition writeFrame (sel : selected) (frame : Frame) : C W wout :=
  let t := Frame_Type frame in
  if t =? FrameData then writeData sel frame
  else if t =? FrameHeaders then writeHeaders sel frame
  else if t =? FramePriority then returned
  else if t =? FrameRSTStream then writeRSTStream handleErr frame ;; returned
  else if t =? FrameSettings then
    match frame with SettingsFrame ack s => writeSettingsFrame ack s | _ => cderef None end
  else if t =? FramePushPromise then
    writePushPromise frame (match frame with PushPromiseFrame _ pid _ _ => Some pid | _ => None end)
  else if t =? FramePing then
    match frame with
    | PingFrame ack _ =>
      if ack then cthrow (PlainError "not allowed to send ACK ping frame")
      else cmodify (add_queue (QFrame frame) true) ;; returned
    | _ => cderef None
    end
  else if t =? FrameGoAway then
    match frame with
    | GoAwayFrame last code debug => writeGoAway (MkGoAway last code debug) ;; returned
    | _ => cderef None
    end
  else if t =? FrameWindowUpdate then
    match frame with WindowUpdateFrame id n => writeWindowUpdate id n | _ => cderef None end
  else cmodify (add_queue (QFrame frame) false) ;; returned.

(** ** Closing *)

Definition Conn_close : C W unit :=
  closed <- cget cn_closed ;;
  if closed : bool then cthrow ErrClosed
  else
    cmodify (cn_set_closed true) ;;
    n <- cget NumActiveStreams ;;
    ids <- cget range_streams ;;
    (if 0 <? n then closeStreams ids else cret tt) ;;
    cmodify (cn_set_closeCh true) ;;
    creturn env_rwcClose.

(** [CloseTimeout] up to its wait, after the handshake or before it; [WWaits] if it then
    waits for [closeCh] or the timeout. *)
Definition CloseTimeout (handshakeComplete : bool) (timeout : Z) : C W wout :=
  closing <- cget cn_closing ;;
  if closing : bool then cret WWaits
  else
    cmodify (cn_set_closing true) ;;
    if negb handshakeComplete then Conn_close ;; returned
    else
      last <- cget LastStreamID ;;
      ignore (writeGoAway (MkGoAway last ErrCodeNo [])) ;;
      cmodify Flush ;;
      if timeout <=? 0 then Conn_close ;; returned else cret WWaits.

(** [Close], with its timeout of three seconds *)
Definition Conn_Close (handshakeComplete : bool) : C W wout := CloseTimeout handshakeComplete 3.

(** The getters *)
Definition Conn_ServerConn c : bool := cs_server (cn_local c).
Definition Conn_Settings c : Settings := cs_settings (cn_local c).
Definition Conn_RemoteSettings c : Settings := cs_settings (cn_remote c).
Definition GoAwayReceived c : bool * option goAway := (bool_decide (is_Some (cs_goAway (cn_local c))), cs_goAway (cn_local c)).
Definition GoAwaySent c : bool * option goAway := (bool_decide (is_Some (cs_goAway (cn_remote c))), cs_goAway (cn_remote c)).
Definition Conn_Closed c : bool := cn_closed c.

(** ** The body reader *)

(** [data.returnBytesLocked] *)
Definition returnBytesLocked : C W unit :=
  d <- cget cn_data ;;
  if dt_sawEOF d then creturn (dt_err d)
  else
    pad <- cget (fun c => match fr_lastPayload (cn_fr c) with Some (_, p) => p | None => 0 end) ;;
    let processed := dt_processed d + pad in
    cmodify (cn_set_data (MkData (dt_stream d) processed (dt_endStream d) true (dt_err d))) ;;
    err <- ctry (stream_returnBytes (dt_stream d) processed) ;;
    err <- (match err with
            | None => if dt_endStream d then tryTransition (dt_stream d) true FrameData true else cret None
            | Some e => cret (Some e)
            end) ;;
    cmodify (fun c => cn_set_data (MkData (dt_stream d) processed (dt_endStream d) true err) c) ;;
    creturn err.

(** [data.Read] into [k] bytes *)
Definition data_Read (k : Z) : C W (list byte) := fun c =>
  let (r, fr) := payloadRead k (cn_fr c) in
  let c := cn_set_fr fr c in
  match r with
  | Ok l =>
    let d := cn_data c in
    (Ok l, cn_set_data (MkData (dt_stream d) (dt_processed d + zlen l) (dt_endStream d) (dt_sawEOF d) (dt_err d)) c)
  | Err ErrEOF =>
    match returnBytesLocked c with
    | (Panic, c) => (Panic, c)
    | (_, c) => (Err ErrEOF, c)
    end
  | Err e => (Err e, c)
  | Panic => (Panic, c)
  end.

(** ** [readFrame] *)

(** [goto again], or the frame is returned; an error is the jump to [exit]. *)
Inductive rnext := RAgain | RReturn.

(** [c.connStream.recvFlow.consumeBytes(n)] and then [returnBytes(n)], if [n] is positive *)
Definition skipData (n : Z) : C W unit :=
  if 0 <? n then fun c =>
    match consumeBytes_conn (cn_recv c) n with
    | (Some e, f) => (Err e, cn_set_recv f c)
    | (None, f) =>
      let '(e, f, fs) := returnBytes_conn f n in
      creturn e (add_frames fs (cn_set_recv f c))
    end
  else cret tt.

(** [stream.recvFlow.consumeBytes(n)] *)
Definition stream_consumeBytes (id n : Z) : C W unit := fun c =>
  match cn_objs c !! id ≫= st_recvFlow with
  | None => (Panic, c)
  | Some f =>
    let '(e, conn, f') := consumeBytes (cn_recv c) f n in
    creturn e (upd_stream id (st_set_recvFlow (Some f')) (cn_set_recv conn c))
  end.

(** [if ce, ok := m.(ConnError); ok { err = ce }] *)
Definition orConnError (m : C W unit) (err : error) (k : C W error) : C W error :=
  e <- ctry m ;;
  match e with
  | Some (ConnError code) => cret (ConnError code)
  | _ => k
  end.

Definition readData (streamID dataLen padLen : Z) (endStream : bool) : C W rnext :=
  let n := dataLen + padLen in
  s <- cget (fun c => Conn_stream c streamID) ;;
  match s with
  | None => skipData n ;; cret RAgain
  | Some _ =>
    err <- tryTransition streamID true FrameData false ;;
    match err with
    | Some (ConnError code) => cthrow (ConnError code)
    | Some e =>
      e <- orConnError (stream_consumeBytes streamID n) e
             (orConnError (stream_returnBytes streamID n) e (cret e)) ;;
      cthrow e
    | None =>
      err <- ctry (stream_consumeBytes streamID n) ;;
      match err with
      | Some (ConnError code) => cthrow (ConnError code)
      | Some e => e <- orConnError (stream_returnBytes streamID n) e (cret e) ;; cthrow e
      | None =>
        cmodify (fun c => cn_set_lastData true (cn_set_data (MkData streamID 0 endStream false None) c)) ;;
        cret RReturn
      end
    end
  end.

Definition readHeaders (streamID : Z) (endStream : bool) : C W rnext :=
  s <- cget (fun c => Conn_stream c streamID) ;;
  (match s with None => idleStream false streamID | Some _ => cret tt end) ;;
  stream_transition streamID true FrameHeaders endStream ;;
  cret RReturn.

Definition readSettingsFrame (ack : bool) (settings : Settings) : C W rnext :=
  if ack then
    ch <- cget cn_settingsCh ;;
    match ch with
    | [] => cret RReturn
    | x :: ch => cmodify (cn_set_settingsCh ch) ;; applySettings true x ;; cret RReturn
    end
  else
    server <- cget (fun c => cs_server (cn_local c)) ;;
    if bool_decide (value settings SettingEnablePush = Some 1) && negb server then
      cthrow (ConnError ErrCodeProtocol)
    else cmodify (add_queue (QFrame (SettingsFrame true settings)) true) ;; cret RReturn.

Definition readPushPromise (streamID promisedStreamID : Z) : C W rnext :=
  s <- cget (fun c => Conn_stream c streamID) ;;
  match s with
  | None => cthrow (ConnError ErrCodeProtocol)
  | Some s =>
    if negb (readable (st_state s)) then cthrow (ConnError ErrCodeProtocol)
    else
      push <- cget (fun c => PushEnabled (cs_settings (cn_local c))) ;;
      if negb push then cthrow (ConnError ErrCodeProtocol)
      else
        idleStream true promisedStreamID ;;
        stream_transition promisedStreamID true FramePushPromise false ;;
        cret RReturn
  end.

Definition readGoAway (ga : goAway) : C W rnext :=
  cmodify (upd_side true (cs_set_goAway (Some ga))) ;;
  ids <- cget (fun c => filter (fun id => (ga_LastStreamID ga <? id) && cs_validStreamID (cn_local c) id)
                          (range_streams c)) ;;
  closeStreams ids ;;
  cmodify Flush ;;
  cret RReturn.

Definition readWindowUpdate (streamID increment : Z) : C W rnext :=
  if streamID =? 0 then fun c =>
    let (e, f) := rf_incrementWindow (cn_send c) increment in
    (creturn e ;; cret RReturn) (cn_set_send f c)
  else
    s <- cget (fun c => Conn_stream c streamID) ;;
    match s with
    | None => cret RReturn
    | Some s =>
      f <- cderef (st_sendFlow s) ;;
      let (e, f) := rf_incrementWindow f increment in
      cmodify (upd_stream streamID (st_set_sendFlow (Some f))) ;;
      creturn e ;; cret RReturn
    end.

(** The frames that are dropped after GOAWAY was sent. *)
Definition droppedAfterGoAway (f : Frame) (c : Conn W) : bool :=
  match cs_goAway (cn_remote c) with
  | Some ga => cs_validStreamID (cn_remote c) (Frame_Stream f) && (ga_LastStreamID ga <? Frame_Stream f)
  | None => false
  end.

(** What [readFrame] does with a frame. *)
Definition dispatch (f : Frame) : C W rnext :=
  dropped <- cget (droppedAfterGoAway f) ;;
  if dropped : bool then
    (match f with DataFrame _ _ n p _ => skipData (n + p) | _ => cret tt end) ;; cret RAgain
  else
    match f with
    | DataFrame id _ n p e => readData id n p e
    | HeadersFrame id _ _ _ e => readHeaders id e
    | RSTStreamFrame id _ =>
      s <- cget (fun c => Conn_stream c id) ;;
      match s with
      | None => cret RAgain
      | Some _ =>
        err <- tryTransition id true FrameRSTStream false ;;
        cret (match err with None => RReturn | Some _ => RAgain end)
      end
    | SettingsFrame ack s => readSettingsFrame ack s
    | PushPromiseFrame id pid _ _ => readPushPromise id pid
    | PingFrame ack d =>
      (if ack then cret tt else cmodify (add_queue (QFrame (PingFrame true d)) true)) ;; cret RReturn
    | GoAwayFrame last code debug => readGoAway (MkGoAway last code debug)
    | WindowUpdateFrame id n => readWindowUpdate id n
    | PriorityFrame _ _ | UnknownFrame _ _ _ _ _ => cret RReturn
    end.

(** After the label [exit] with an error: [goto again], or the error that is returned; a
    network error that is not temporary returns what [close] does, so perhaps no error. *)
Inductive exitTo := XAgain | XReturn (e : option error).

Definition readExit (e : error) : C W exitTo := fun c =>
  match e with
  | ErrEOF =>
    if goingAway c || cn_closed c then (Ok (XReturn (Some ErrClosed)), c)
    else (handleErr ErrUnexpectedEOF ;; cret (XReturn (Some ErrUnexpectedEOF))) c
  | _ =>
    match env_netError e with
    | Some true => (Ok XAgain, c)
    | Some false => (err <- ctry Conn_close ;; cret (XReturn err)) c
    | None => (handleErr e ;; cret (XReturn (Some e))) c
    end
  end.

(** [frameReader.ReadFrame] inside the connection *)
Definition conn_ReadFrame : C W Frame := fun c =>
  let (r, fr) := ReadFrame (cn_fr c) in (r, cn_set_fr fr c).

(** What [readFrame] returns without an error: a frame, or [nil]; or the bound on the rounds
    was used up. *)
Inductive readResult := GotFrame (f : Frame) | GotNil | OutOfRounds.

(** What follows the label [exit]; [k] is the code from the label [again]. *)
Definition afterExit (k : C W readResult) (e : error) : C W readResult :=
  x <- readExit e ;;
  match x with
  | XAgain => k
  | XReturn (Some e) => cthrow e
  | XReturn None => cret GotNil
  end.

(** From the label [again]. *)
Fixpoint readFrame_loop (fuel : nat) : C W readResult :=
  match fuel with
  | O => cret OutOfRounds
  | S fuel => fun c =>
    match conn_ReadFrame c with
    | (Panic, c) => (Panic, c)
    | (Err e, c) => afterExit (readFrame_loop fuel) e c
    | (Ok f, c) =>
      match dispatch f c with
      | (Ok RAgain, c) => readFrame_loop fuel c
      | (Ok RReturn, c) => (Ok (GotFrame f), c)
      | (Err e, c) => afterExit (readFrame_loop fuel) e c
      | (Panic, c) => (Panic, c)
      end
    end
  end.

Definition readFrame (fuel : nat) : C W readResult := fun c =>
  if cn_lastData c then
    match returnBytesLocked c with
    | (Ok _, c) => readFrame_loop fuel (cn_set_lastData false c)
    | (Err e, c) => afterExit (readFrame_loop fuel) e (cn_set_lastData false c)
    | (Panic, c) => (Panic, c)
    end
  else readFrame_loop fuel c.

(** ** [writeLoop] *)

(** [c.buf.Flush()] *)
Definition bufFlush (c : Conn W) : option error * Conn W :=
  let (x, e) := env_flush (fw_w (cn_fw c)) in (e, cn_set_fw (fw_set_w x (fw_err (cn_fw c)) (cn_fw c)) c).

(** [c.frameWriter.WriteFrame(frame)] *)
Definition conn_WriteFrame (f : Frame) : C W unit := fun c =>
  let (r, w) := WriteFrame env_toLower f env_pseudoOrder
                  (match f with
                   | HeadersFrame _ h _ _ _ | PushPromiseFrame _ _ h _ => env_fieldOrder h
                   | _ => []
                   end) (cn_fw c) in
  (r, cn_set_fw w c).

(** The goroutine that waits on [werr] gets the answer. *)
Definition answerWriter (id : Z) (err : option error) (rest : option Frame) (release : bool) (c : Conn W) : Conn W :=
  match err, rest with
  | None, Some f => upd_stream id (st_set_writer (WCredit f release)) c
  | _, _ => finishWrite id release c
  end.

(** [stream.writeTo]; with nobody waiting on [werr] the send blocks the write loop. *)
Definition writeTo (id : Z) : C W unit := fun c =>
  match cn_objs c !! id ≫= st_frame with
  | None => (Panic, c)
  | Some f =>
    match conn_WriteFrame f c with
    | (Panic, c) => (Panic, c)
    | (r, c) =>
      let err := match r with Err e => Some e | _ => None end in
      let c := upd_stream id (fun s => st_set_sawEOS (Frame_EndOfStream f) (st_set_lastWritten (Frame_Type f) s)) c in
      match cn_objs c !! id with
      | None => (Panic, c)
      | Some s =>
        match st_writer s with
        | WWaiting rest release =>
          let c := answerWriter id err rest release c in
          match err with
          | Some e => (Err e, c)
          | None =>
            if Frame_EndOfStream f then (stream_transition id false (Frame_Type f) true ;; cret tt) c
            else (Ok tt, c)
          end
        | _ => (Ok tt, cn_set_loop (LoopBlocked id) c)
        end
      end
    end
  end.

(** [c.goingAway() && c.NumActiveStreams() == 0 && !c.writeQueue.set()] *)
Definition shutdown (c : Conn W) : bool * Conn W :=
  if goingAway c && (NumActiveStreams c =? 0) then
    let (more, q) := wq_set (cn_queue c) in (negb more, cn_set_queue q c)
  else (false, c).

(** [c.close(); return] *)
Definition loopClose : C W unit :=
  ignore Conn_close ;; cmodify (cn_set_loop LoopDone).

(** The settings of the peer take effect before their acknowledgement is written. *)
Definition loopSettings (x : item) : C W unit :=
  match x with QFrame (SettingsFrame true s) => applySettings false s | _ => cret tt end.

(** [c.frameWriter.WriteFrame(frame)] for an item; an acknowledgement has no settings. *)
Definition loopWrite (x : item) : C W unit :=
  match x with
  | QStream id => writeTo id
  | QFrame (SettingsFrame true _) => conn_WriteFrame (SettingsFrame true [])
  | QFrame f => conn_WriteFrame f
  | QFlush => cret tt
  end.

(** [if flush && err == nil { err = c.buf.Flush() }] *)
Definition loopFlush (flush : bool) (err : option error) (c : Conn W) : option error * Conn W :=
  if flush then match err with None => bufFlush c | Some _ => (err, c) end else (err, c).

(** A SETTINGS frame that could not be written waits for no acknowledgement. *)
Definition loopForget (x : item) (c : Conn W) : Conn W :=
  match x with
  | QFrame (SettingsFrame false _) => cn_set_settingsCh (tail (cn_settingsCh c)) c
  | _ => c
  end.

(** The end of a round: the shutdown if there is nothing left, and the error. *)
Definition loopEnd (flush : bool) (x : item) (err : option error) : C W unit := fun c =>
  let (stop, c) := if flush then shutdown c else (false, c) in
  if stop then loopClose c
  else match err with None => (Ok tt, c) | Some e => handleErr e (loopForget x c) end.

(** The body of the loop for an item, after [flush := !c.writeQueue.set()]. *)
Definition loopBody (x : item) (flush : bool) : C W unit := fun c =>
  match x with
  | QFlush => let (err, c) := bufFlush c in loopEnd flush x err c
  | _ =>
    match loopSettings x c with
    | (Panic, c) => (Panic, c)
    | (Err e, c) => handleErr e c
    | (Ok _, c) =>
      match loopWrite x c with
      | (Panic, c) => (Panic, c)
      | (r, c) =>
        match cn_loop c with
        | LoopBlocked _ => (Ok tt, c)
        | _ =>
          let (err, c) := loopFlush flush (match r with Err e => Some e | _ => None end) c in
          loopEnd flush x err c
        end
      end
    end
  end.

(** One round of [writeLoop]; [None] when it waits for an item or is gone. *)
Definition writeLoop_round (c : Conn W) : option (outcome error unit * Conn W) :=
  match cn_loop c with
  | LoopHead =>
    '(x, flush, q) ← round (cn_queue c);
    Some (loopBody x flush (cn_set_queue q c))
  | _ => None
  end.

(** The case [<-c.closeCh] of the loop. *)
Definition writeLoop_closed (c : Conn W) : option (Conn W) :=
  match cn_loop c with
  | LoopHead => if cn_closeCh c then Some (cn_set_loop LoopDone c) else None
  | _ => None
  end.
End IO.
