(* ===== verification/ConnInv.v ===== *)
(** * The invariant of the connection

    [conn_ok] relates the stream table, the stream objects, the counters of active streams,
    the identifiers given out, the flow controllers and the identifier token.  This file
    proves that the operations on the table preserve it: a compare-and-swap of a stream's
    state with all its effects, [idleStream], the changes of the initial windows and
    [applySettings], and that none of them panics under it. *)

From S2P Require Import Prelude HpackEncode HpackDecode Types Settings StreamState FlowControl WriteQueue.
From S2P Require Import HttpHeader HeaderTable StreamWrite FrameWriter FrameReader ReaderAdvance Conn ConnIO.

(** ** Specification *)

(** In the map: neither idle nor closed. *)
Definition live (s : StreamState) : bool :=
  match s with StateIdle | StateClosed => false | _ => true end.

(** The moves of a stream's state that a transition or a close can make. *)
Definition legal_move (from to : StreamState) : bool :=
  match from, to with
  | StateIdle, _ => true
  | StateReservedLocal, (StateReservedLocal | StateHalfClosedRemote | StateClosed) => true
  | StateReservedRemote, (StateReservedRemote | StateHalfClosedLocal | StateClosed) => true
  | StateOpen, (StateOpen | StateHalfClosedLocal | StateHalfClosedRemote | StateClosed) => true
  | StateHalfClosedLocal, (StateHalfClosedLocal | StateClosed) => true
  | StateHalfClosedRemote, (StateHalfClosedRemote | StateClosed) => true
  | StateClosed, StateClosed => true
  | _, _ => false
  end.

(** The active streams of a store among the selected identifiers. *)
Definition nActive (sel : Z -> bool) (m : gmap Z stream) : Z :=
  zlen (filter (fun x => sel x.1 && active (st_state x.2)) (map_to_list m)).

(** The windows answer for their stream, and an idle stream has nothing to write. *)
Definition own_flow (id : Z) (s : stream) : Prop :=
  ((forall f, st_sendFlow s = Some f -> rf_id f = id) /\ (forall f, st_recvFlow s = Some f -> fc_id f = id)) /\
  (st_state s = StateIdle -> st_writer s = WIdle /\ st_frame s = None).

(** A stream object: its channel is closed exactly in the closed state, an active stream has
    a receive window, one that may be written to also a send window, and only a closed
    stream was reset. *)
Definition obj_ok (id : Z) (s : stream) : Prop :=
  st_id s = id /\ st_closed s = bool_decide (st_state s = StateClosed) /\
  (active (st_state s) = true -> is_Some (st_recvFlow s)) /\
  (writable (st_state s) = true -> is_Some (st_sendFlow s)) /\
  (st_state s <> StateClosed -> st_resetReceived s = false /\ st_resetSent s = false) /\
  own_flow id s.

Section Invariant.
Context {W : Type} `{ConnEnv W}.
Implicit Types c : Conn W.

(** The streams of a side, by their identifiers. *)
Definition owned (b : bool) c (id : Z) : bool := Bool.eqb (stream_local id c) b.

Record conn_ok c : Prop := {
  ok_sides : cs_server (cn_remote c) = negb (cs_server (cn_local c));
  ok_objs id s : cn_objs c !! id = Some s -> obj_ok id s;
  ok_ids id s : cn_objs c !! id = Some s ->
    0 < id < 2 ^ 32 - 2 /\ id < cs_nextStreamID (side (stream_local id c) c) /\
    id <= cs_lastStreamID (side (stream_local id c) c);
  ok_next b : 0 < cs_nextStreamID (side b c) /\
    stream_local (cs_nextStreamID (side b c)) c = b;
  ok_table id : id ∈ cn_streams c <-> exists s, cn_objs c !! id = Some s /\ live (st_state s) = true;
  ok_count b : cs_numStreams (side b c) = u32 (nActive (owned b c) (cn_objs c));
  ok_token : cn_idCh c = negb (cn_idState c);
  ok_data : cn_lastData c = true -> dt_sawEOF (cn_data c) = false ->
    exists s, cn_objs c !! dt_stream (cn_data c) = Some s /\ is_Some (st_recvFlow s) /\ st_state s <> StateIdle;
  ok_queue id : QStream id ∈ contents (cn_queue c) ->
    exists s, cn_objs c !! id = Some s /\ is_Some (st_frame s);
}.

(** What the effects of a transition leave alone. *)
Definition same_env c c' : Prop :=
  (forall b, cs_server (side b c') = cs_server (side b c) /\
     cs_nextStreamID (side b c') = cs_nextStreamID (side b c) /\
     cs_lastStreamID (side b c') = cs_lastStreamID (side b c) /\
     cs_settings (side b c') = cs_settings (side b c) /\
     cs_goAway (side b c') = cs_goAway (side b c)) /\
  cn_fr c' = cn_fr c /\ cn_fw c' = cn_fw c /\ cn_settingsCh c' = cn_settingsCh c /\
  cn_data c' = cn_data c /\ cn_lastData c' = cn_lastData c /\
  cn_closing c' = cn_closing c /\ cn_closed c' = cn_closed c /\ cn_closeCh c' = cn_closeCh c /\
  cn_loop c' = cn_loop c /\
  (cn_idCh c = negb (cn_idState c) -> cn_idCh c' = negb (cn_idState c')) /\
  (forall id, QStream id ∈ contents (cn_queue c') -> QStream id ∈ contents (cn_queue c)).
End Invariant.

(** ** Counting *)

Lemma nActive_insert sel m id s :
  m !! id = None -> nActive sel (<[id := s]> m) = nActive sel m + Z.b2z (sel id && active (st_state s)).
Proof.
  intros Hm. unfold nActive, zlen. rewrite (map_to_list_insert _ _ _ Hm), filter_cons. cbn [fst snd].
  destruct (sel id && active (st_state s)); destruct (decide _) as [Hd|Hd]; cbn in *; done || lia.
Qed.

Lemma nActive_replace sel m id s s' :
  m !! id = Some s ->
  nActive sel (<[id := s']> m) =
  nActive sel m - Z.b2z (sel id && active (st_state s)) + Z.b2z (sel id && active (st_state s')).
Proof.
  intros Hm. rewrite <- (insert_delete_id m id s Hm) at 2.
  rewrite <- insert_delete_eq, !nActive_insert by apply lookup_delete_eq. lia.
Qed.

Lemma nActive_nonneg sel m : 0 <= nActive sel m.
Proof. apply zlen_nonneg. Qed.

(** Distinct integers in a range are no more than the range is long. *)
Lemma NoDup_range (l : list Z) n : 0 <= n -> NoDup l -> Forall (fun x => 0 <= x < n) l -> zlen l <= n.
Proof.
  intros Hn Hd Hl. unfold zlen. assert (Hs : l ⊆+ seqZ 0 n).
  { apply NoDup_submseteq; [done|]. intros x Hx. apply elem_of_seqZ.
    rewrite Forall_forall in Hl. specialize (Hl x Hx). lia. }
  apply submseteq_length in Hs. rewrite length_seqZ in Hs. lia.
Qed.

Lemma nActive_bound sel m n :
  0 <= n -> (forall id s, m !! id = Some s -> 0 <= id < n) -> nActive sel m <= n.
Proof.
  intros Hn Hm. unfold nActive.
  set (l := filter _ _).
  transitivity (zlen (l.*1)); [unfold zlen; rewrite length_fmap; lia|]. apply NoDup_range; [done| |].
  - apply NoDup_fmap_fst.
    + intros id s1 s2 H1 H2. apply list_elem_of_filter in H1 as [_ H1]. apply list_elem_of_filter in H2 as [_ H2].
      apply elem_of_map_to_list in H1. apply elem_of_map_to_list in H2. congruence.
    + apply NoDup_filter, NoDup_map_to_list.
  - apply Forall_forall. intros id Hin. apply list_elem_of_fmap in Hin as ([id' s] & -> & Hin).
    apply list_elem_of_filter in Hin as [_ Hin]. apply elem_of_map_to_list in Hin. by apply Hm in Hin.
Qed.

(** ** The queue *)

Lemma contents_add {A} (w : writeQueue A) x b y :
  y ∈ contents (wq_add w x b) <-> y = x \/ y ∈ contents w.
Proof.
  destruct w as [cb nb [z|]], b; [..|destruct cb|destruct nb]; cbn; unfold contents; cbn; set_solver.
Qed.

Lemma contents_set {A} (w : writeQueue A) y : y ∈ contents (wq_set w).2 <-> y ∈ contents w.
Proof.
  unfold wq_set. destruct w as [[|x cb] [|x' nb] [z|]]; cbn; unfold contents; cbn; set_solver.
Qed.

Lemma contents_round {A} (w w' : writeQueue A) x b y :
  round w = Some (x, b, w') -> (y ∈ contents w' -> y ∈ contents w) /\ x ∈ contents w.
Proof.
  unfold round, wq_receive. destruct w as [cb nb [z|]]; cbn; [|done].
  destruct (wq_set (MkWQ cb nb None)) as [m w1] eqn:E. intros [= <- _ <-]. split; [|set_solver].
  intros Hy. pose proof (contents_set (MkWQ cb nb None) y) as Hs. rewrite E in Hs. apply Hs in Hy.
  unfold contents in *. cbn in *. set_solver.
Qed.

Section Effects.
Context {W : Type} `{ConnEnv W}.
Implicit Types c : Conn W.

(** ** One effect *)

Definition effObj (id : Z) (e : effect) (s s' : stream) : Prop :=
  st_id s' = st_id s /\ st_state s' = st_state s /\ st_frame s' = st_frame s /\
  st_resetReceived s' = st_resetReceived s /\ st_resetSent s' = st_resetSent s /\
  (own_flow id s -> own_flow id s') /\
  st_closed s' = (match e with ECloseCh => true | _ => st_closed s end) /\
  (is_Some (st_recvFlow s) \/ e = EInitRecvFlow -> is_Some (st_recvFlow s')) /\
  (is_Some (st_sendFlow s) \/ e = EInitSendFlow -> is_Some (st_sendFlow s')).

Definition effStreams (id : Z) (e : effect) (X : gset Z) : gset Z :=
  match e with EAddStream => {[id]} ∪ X | ERemoveStream => X ∖ {[id]} | _ => X end.

Definition effNum (own : bool) (e : effect) (n : Z) : Z :=
  match e with
  | EIncr => if own then u32 (n + 1) else n
  | EDecr => if own then u32 (n + (2 ^ 32 - 1)) else n
  | _ => n
  end.

(** What an effect on stream [id] does to the connection. *)
Definition eff (id : Z) (e : effect) c c' (s s' : stream) : Prop :=
  same_env c c' /\ cn_objs c' = <[id := s']> (cn_objs c) /\ effObj id e s s' /\
  cn_streams c' = effStreams id e (cn_streams c) /\
  forall b, cs_numStreams (side b c') = effNum (owned b c id) e (cs_numStreams (side b c)).

Lemma same_env_refl c : same_env c c.
Proof. repeat split; done. Qed.

Lemma same_env_trans c1 c2 c3 : same_env c1 c2 -> same_env c2 c3 -> same_env c1 c3.
Proof.
  intros (Hs & ? & ? & ? & ? & ? & ? & ? & ? & ? & Ht & Hq) (Hs' & ? & ? & ? & ? & ? & ? & ? & ? & ? & Ht' & Hq').
  split_and!; try congruence; [|by auto..].
  intros b. specialize (Hs b) as (? & ? & ? & ? & ?). specialize (Hs' b) as (? & ? & ? & ? & ?).
  split_and!; congruence.
Qed.

Lemma owned_env c c' b id : same_env c c' -> owned b c' id = owned b c id /\ stream_local id c' = stream_local id c.
Proof. intros [Hs _]. unfold owned, stream_local. specialize (Hs true) as [Hs _]. cbn in Hs. by rewrite Hs. Qed.

Lemma alter_Some {A} (f : A -> A) id (m : gmap Z A) s : m !! id = Some s -> alter f id m = <[id := f s]> m.
Proof.
  intros Hm. apply map_eq. intros j. destruct (decide (j = id)) as [->|Hne].
  - by rewrite lookup_alter_eq, lookup_insert_eq, Hm.
  - by rewrite lookup_alter_ne, lookup_insert_ne by done.
Qed.

Lemma add_frames_env fs c :
  same_env c (add_frames fs c) /\ cn_objs (add_frames fs c) = cn_objs c /\
  cn_streams (add_frames fs c) = cn_streams c /\ cn_recv (add_frames fs c) = cn_recv c /\
  cn_send (add_frames fs c) = cn_send c /\
  forall b, side b (add_frames fs c) = side b c.
Proof.
  revert c. induction fs as [|f fs IH]; intros c; [split; [apply same_env_refl|done]|].
  cbn [add_frames foldl]. destruct (IH (add_queue (QFrame f) true c)) as (He & Ho & Hst & Hr & Hsd & Hs).
  split_and!; try done. eapply same_env_trans; [|exact He]. repeat split; try done.
  intros id Hid. unfold add_queue in Hid. cbn [cn_queue cn_set_queue] in Hid.
  apply contents_add in Hid as [|]; [discriminate|done].
Qed.

Lemma fc_id_windowUpdate f : fc_id (fc_windowUpdate f).1.2 = fc_id f.
Proof. unfold fc_windowUpdate, fc_updateWindow. by repeat case_match; simplify_eq. Qed.

Lemma fc_id_incrementWindow f d : fc_id (fc_incrementWindow f d).1.2 = fc_id f.
Proof. unfold fc_incrementWindow. by rewrite fc_id_windowUpdate. Qed.

Lemma fc_id_incrementInitial f d : fc_id (fc_incrementInitialWindow f d).2 = fc_id f.
Proof. unfold fc_incrementInitialWindow, fc_updateWindow. by repeat case_match; simplify_eq. Qed.

Lemma fc_id_consume conn f n : fc_id (consumeBytes conn f n).2 = fc_id f.
Proof. unfold consumeBytes, consume_self. by repeat case_match; simplify_eq. Qed.

Lemma fc_id_return conn f n : fc_id (returnBytes conn f n).1.2 = fc_id f.
Proof.
  unfold returnBytes. destruct (returnBytes_conn conn n) as [[[e|] conn'] fs]; [done|].
  assert (Hs : fc_id (return_self f n).1.2 = fc_id f) by (unfold return_self; destruct (_ <? _); [done|by rewrite fc_id_windowUpdate]).
  by destruct (return_self f n) as [[e f'] fs'].
Qed.

Lemma own_flow_recv id f s : fc_id f = id -> own_flow id s -> own_flow id (st_set_recvFlow (Some f) s).
Proof. intros Hf [[Ho _] Hi]. split; [split; [done|]|done]. intros g [= <-]. done. Qed.

Lemma stream_returnBytes_eff id n c s f :
  cn_objs c !! id = Some s -> st_recvFlow s = Some f ->
  exists s', eff id EReturnConsumedIfSet c (stream_returnBytes id n c).2 s s' /\
    (stream_returnBytes id n c).1 <> Panic.
Proof.
  intros Hs Hf. unfold stream_returnBytes. rewrite Hs. cbn. rewrite Hf.
  pose proof (fc_id_return (cn_recv c) f n) as Hid. destruct (returnBytes (cn_recv c) f n) as [[[e conn] f'] fs]. cbn in Hid.
  set (c1 := upd_stream id _ _). destruct (add_frames_env fs c1) as (He & Ho & Hst & Hr & Hsd & Hsi).
  exists (st_set_recvFlow (Some f') s). split; [|by destruct e].
  assert (Hc : (creturn e (add_frames fs c1)).2 = add_frames fs c1) by (by destruct e). rewrite Hc.
  split_and!.
  - eapply same_env_trans; [|exact He]. repeat split; done.
  - rewrite Ho. by apply alter_Some.
  - split_and!; try done; try (intros [|]; done). intros Hown. apply own_flow_recv; [|done].
    rewrite Hid. by apply (proj1 Hown).
  - by rewrite Hst.
  - intros b. by rewrite Hsi.
Qed.

Lemma same_env_upd_stream id f c : same_env c (upd_stream id f c).
Proof. repeat split; done. Qed.

Lemma same_env_addNum id d c : same_env c (addNumStreams id d c).
Proof. unfold addNumStreams. destruct (stream_local id c); repeat split; try done; intros; by destruct b. Qed.

Lemma same_env_streams X c : same_env c (cn_set_streams X c).
Proof. repeat split; done. Qed.

Lemma Flush_env c :
  same_env c (Flush c) /\ cn_objs (Flush c) = cn_objs c /\ cn_streams (Flush c) = cn_streams c /\
  forall b, side b (Flush c) = side b c.
Proof.
  repeat split; try done. intros id Hid. unfold Flush, add_queue in Hid. cbn [cn_queue cn_set_queue] in Hid.
  apply contents_add in Hid as [|]; [discriminate|done].
Qed.

Lemma finishWrite_env id release c :
  same_env c (finishWrite id release c) /\
  cn_objs (finishWrite id release c) = alter (st_set_writer WIdle) id (cn_objs c) /\
  cn_streams (finishWrite id release c) = cn_streams c /\
  forall b, side b (finishWrite id release c) = side b c.
Proof.
  unfold finishWrite, releaseID. destruct release; [cbn; destruct (cn_idState c)|]; repeat split; done.
Qed.

Lemma side_addNum id d c b :
  cs_numStreams (side b (addNumStreams id d c)) =
  if owned b c id then u32 (cs_numStreams (side b c) + d) else cs_numStreams (side b c).
Proof. unfold addNumStreams, owned. by destruct (stream_local id c), b. Qed.

#[local] Hint Resolve same_env_upd_stream same_env_addNum same_env_streams same_env_refl : core.

Lemma rf_id_update f d r : rf_id (rf_updateWindow f d r).2 = rf_id f.
Proof. unfold rf_updateWindow. by repeat case_match. Qed.

Lemma rf_id_drain f : rf_id (rf_drain f) = rf_id f.
Proof. unfold rf_drain, rf_incrementWindow. rewrite rf_id_update. unfold rf_cancel. by case_match. Qed.

Lemma own_flow_drain id s : own_flow id s -> own_flow id (st_set_sendFlow (rf_drain <$> st_sendFlow s) s).
Proof.
  intros [[Ho Hr] Hi]. split; [split; [|done]|done]. intros f. cbn. intros (g & Hg & ->)%fmap_Some. rewrite rf_id_drain. by apply Ho.
Qed.

Lemma own_flow_new id w s : own_flow id s -> own_flow id (st_set_sendFlow (Some (newRemoteFlowController id w)) s).
Proof. intros [[_ Hr] Hi]. split; [split; [|done]|done]. intros f [= <-]. apply rf_id_update. Qed.

Lemma own_flow_newRecv id w s : own_flow id s -> own_flow id (st_set_recvFlow (Some (newFlowController id w)) s).
Proof. by apply own_flow_recv. Qed.

Lemma own_flow_idle id s : own_flow id s -> own_flow id (st_set_writer WIdle s).
Proof. intros [Ho Hi]. split; [done|]. intros E. split; [done|]. by apply Hi. Qed.

#[local] Hint Resolve own_flow_drain own_flow_new own_flow_idle own_flow_newRecv : core.

(** The parts of [effObj] for a change of one field. *)
Ltac obj_done := split_and!; try done; auto; intros [?|?]; done.

Lemma runEffect_eff id e c s :
  cn_objs c !! id = Some s -> (e = EDrainSendFlow -> is_Some (st_sendFlow s)) ->
  (e = ECloseCh -> st_closed s = false) ->
  exists c' s', runEffect id e c = Some c' /\ eff id e c c' s s'.
Proof.
  intros Hs Hsend Hcl. pose proof (insert_id _ _ _ Hs) as Hid.
  destruct e; cbn [runEffect].
  - eexists _, s. split; [done|]. split_and!; [done|done|obj_done|done|done].
  - eexists _, s. split; [done|]. split_and!; [done| |obj_done| |intros b; apply side_addNum];
      unfold addNumStreams; by destruct (stream_local id c).
  - eexists _, s. split; [done|]. split_and!; [done| |obj_done| |intros b; apply side_addNum];
      unfold addNumStreams; by destruct (stream_local id c).
  - eexists _, _. split; [done|]. split_and!; [done|by apply alter_Some|obj_done|done|done].
  - eexists _, _. split; [done|]. split_and!; [done|by apply alter_Some|obj_done|done|done].
  - rewrite Hs. cbn. destruct (st_writer s) as [|f r|f r]; [eexists _, s; split; [done|]..|].
    + split_and!; [done|done|obj_done|done|done].
    + split_and!; [done|done|obj_done|done|done].
    + destruct (finishWrite_env id r c) as (He & Ho & Hst & Hsd). eexists _, (st_set_writer WIdle s).
      split; [done|]. split_and!; [done|by rewrite Ho; apply alter_Some|obj_done|done|intros b; by rewrite Hsd].
  - rewrite Hs. cbn. destruct (Hsend eq_refl) as [f Hf]. rewrite Hf. cbn.
    eexists _, _. split; [done|]. split_and!; [done|by apply alter_Some| |done|done].
    split_and!; auto; cbn; rewrite ?Hf; intros [?|?]; done.
  - eexists _, _. split; [done|]. split_and!; [done|by apply alter_Some| |done|done].
    split_and!; auto; cbn; intros [?|?]; try done. by apply fmap_is_Some.
  - rewrite Hs. cbn. destruct (st_recvFlow s) as [f|] eqn:Hf.
    + destruct (stream_returnBytes_eff id (fc_consumedBytes f) c s f Hs Hf) as (s' & He & _). eauto.
    + eexists _, s. split; [done|]. split_and!; [done|done|obj_done|done|done].
  - rewrite Hs. cbn. rewrite (Hcl eq_refl). eexists _, _. split; [done|].
    split_and!; [done|by apply alter_Some|obj_done|done|done].
  - eexists _, s. split; [done|]. unfold removeStream.
    destruct (_ && _); [|split_and!; [done|done|obj_done|done|done]].
    destruct (Flush_env (cn_set_streams (cn_streams c ∖ {[id]}) c)) as (He & Ho & Hst & Hsd).
    split_and!; [by eapply same_env_trans|by rewrite Ho|obj_done|done|intros b; by rewrite Hsd].
Qed.

(** ** All effects of a compare-and-swap *)

Definition effs (id : Z) (es : list effect) c c' (s s' : stream) : Prop :=
  same_env c c' /\ cn_objs c' = <[id := s']> (cn_objs c) /\
  st_id s' = st_id s /\ st_state s' = st_state s /\ st_frame s' = st_frame s /\
  st_resetReceived s' = st_resetReceived s /\ st_resetSent s' = st_resetSent s /\
  (own_flow id s -> own_flow id s') /\
  st_closed s' = (st_closed s || bool_decide (ECloseCh ∈ es)) /\
  (is_Some (st_recvFlow s) \/ EInitRecvFlow ∈ es -> is_Some (st_recvFlow s')) /\
  (is_Some (st_sendFlow s) \/ EInitSendFlow ∈ es -> is_Some (st_sendFlow s')) /\
  cn_streams c' = foldl (fun X e => effStreams id e X) (cn_streams c) es /\
  forall b, cs_numStreams (side b c') = foldl (fun n e => effNum (owned b c id) e n) (cs_numStreams (side b c)) es.

Lemma runEffects_effs id es c s :
  cn_objs c !! id = Some s -> NoDup es -> (EDrainSendFlow ∈ es -> is_Some (st_sendFlow s)) ->
  (ECloseCh ∈ es -> st_closed s = false) ->
  exists c' s', runEffects id es c = Some c' /\ effs id es c c' s s'.
Proof.
  revert c s. induction es as [|e es IH]; intros c s Hs Hd Hdr Hcl.
  { exists c, s. split; [done|]. unfold effs. rewrite (insert_id _ _ _ Hs), bool_decide_false, orb_false_r by set_solver.
    split_and!; try done; set_solver. }
  apply NoDup_cons in Hd as [Hni Hd]. cbn [runEffects].
  destruct (runEffect_eff id e c s Hs) as (c1 & s1 & -> & He & Ho & (Hi & Hst & Hfr & Hrr & Hrs & Hof & Hc & Hrv & Hsd) & HX & Hn);
    [intros ->; set_solver..|]. cbn [mbind option_bind].
  destruct (IH c1 s1) as (c' & s' & -> & He' & Ho' & Hi' & Hst' & Hfr' & Hrr' & Hrs' & Hof' & Hc' & Hrv' & Hsd' & HX' & Hn').
  - by rewrite Ho, lookup_insert_eq.
  - done.
  - intros Hin. apply Hsd. left. set_solver.
  - intros Hin. rewrite Hc. assert (st_closed s = false) by set_solver. by destruct e.
  - exists c', s'. split; [done|]. split_and!; try congruence.
    + by eapply same_env_trans.
    + by rewrite Ho', Ho, insert_insert_eq.
    + by auto.
    + rewrite Hc', Hc. destruct e; cbn; rewrite ?orb_true_l;
        try (f_equal; apply bool_decide_ext; set_solver).
      rewrite (bool_decide_true (ECloseCh ∈ ECloseCh :: es)), orb_true_r by set_solver. done.
    + intros [Hr|Hr]; apply Hrv'; [left; apply Hrv; by left|]. apply elem_of_cons in Hr as [<-|Hr]; [left; apply Hrv; by right|by right].
    + intros [Hr|Hr]; apply Hsd'; [left; apply Hsd; by left|]. apply elem_of_cons in Hr as [<-|Hr]; [left; apply Hsd; by right|by right].
    + by rewrite HX', HX.
    + intros b. rewrite Hn', Hn. destruct (owned_env c c1 b id He) as [-> _]. done.
Qed.

Lemma u32_add x y : u32 (u32 x + y) = u32 (x + y).
Proof. unfold u32. by rewrite Z.add_mod_idemp_l. Qed.

Lemma u32_minus x y z : u32 (u32 x - y + z) = u32 (x - y + z).
Proof. replace (u32 x - y + z) with (u32 x + (z - y)) by lia. rewrite u32_add. f_equal. lia. Qed.

Lemma u32_wrap x : u32 (x + 2 ^ 32) = u32 x.
Proof. unfold u32. rewrite Z.add_mod, Z.mod_same, Z.add_0_r, Z.mod_mod by done. done. Qed.

(** The net effect of a move on the table and on the counters. *)
Lemma cas_net id own from to X n :
  legal_move from to = true -> (id ∈ X <-> live from = true) ->
  (forall j, j ∈ foldl (fun X e => effStreams id e X) X (casEffects from to) <->
     if decide (j = id) then live to = true else j ∈ X) /\
  foldl (fun n e => effNum own e n) (u32 n) (casEffects from to) =
    u32 (n - Z.b2z (own && active from) + Z.b2z (own && active to)).
Proof.
  intros Hl HX. split.
  - intros j. destruct from, to; cbn in Hl |- *; try discriminate Hl; destruct (decide (j = id)) as [->|]; set_solver.
  - destruct from, to; cbn in Hl |- *; try discriminate Hl; destruct own; cbn [andb effNum Z.b2z active];
      rewrite ?u32_add; try (f_equal; lia);
      (replace (n + (2 ^ 32 - 1)) with (n - 1 + 0 + 2 ^ 32) by lia; apply u32_wrap).
Qed.

Lemma casEffects_NoDup from to : NoDup (casEffects from to).
Proof. by apply (bool_decide_unpack _); destruct from, to; vm_compute. Qed.

Lemma cas_drain from to : EDrainSendFlow ∈ casEffects from to -> from = StateOpen.
Proof. intros Hin%(bool_decide_pack _). by destruct from, to. Qed.

Lemma cas_close from to : ECloseCh ∈ casEffects from to -> from <> StateClosed.
Proof. intros Hin%(bool_decide_pack _). by destruct from, to. Qed.

Lemma transition_legal from recv ft es to : transition_state from recv ft es = Some to -> legal_move from to = true.
Proof.
  unfold transition_state. destruct recv, from, es; cbn; repeat case_match; intros Ht; simplify_option_eq; done.
Qed.

Lemma legal_closed from : legal_move from StateClosed = true.
Proof. by destruct from. Qed.

(** ** Preservation by a change of one stream *)

Lemma conn_ok_change id s s' c c' :
  conn_ok c -> same_env c c' -> cn_objs c !! id = Some s -> cn_objs c' = <[id := s']> (cn_objs c) ->
  obj_ok id s' -> (is_Some (st_frame s) -> is_Some (st_frame s')) ->
  (is_Some (st_recvFlow s) -> is_Some (st_recvFlow s')) ->
  (st_state s <> StateIdle -> st_state s' <> StateIdle) ->
  (forall j, j ∈ cn_streams c' <-> if decide (j = id) then live (st_state s') = true else j ∈ cn_streams c) ->
  (forall b, cs_numStreams (side b c') =
     u32 (nActive (owned b c) (cn_objs c) - Z.b2z (owned b c id && active (st_state s))
          + Z.b2z (owned b c id && active (st_state s')))) ->
  conn_ok c'.
Proof.
  intros Hok Henv Hs Ho Hobj Hfr Hrv Hidle HX Hn.
  pose proof Henv as (Hside & _ & _ & _ & Hd & Hld & _ & _ & _ & _ & Ht & Hq).
  assert (Hloc : forall j, stream_local j c' = stream_local j c) by (intros j; by apply (owned_env c c' true j)).
  assert (Hown : forall b, owned b c' = owned b c) by (intros b; unfold owned, stream_local; destruct (Hside true) as [Hsv _]; cbn in Hsv; by rewrite Hsv).
  split.
  - destruct (Hside true) as [H1 _], (Hside false) as [H2 _]. cbn in *. rewrite H1, H2. apply Hok.
  - intros j t. rewrite Ho. destruct (decide (j = id)) as [->|Hne].
    + rewrite lookup_insert_eq. by intros [= <-].
    + rewrite lookup_insert_ne by done. apply Hok.
  - intros j t Hj. rewrite Hloc. destruct (Hside (stream_local j c)) as (_ & -> & -> & _).
    rewrite Ho in Hj. destruct (decide (j = id)) as [->|Hne].
    + by apply (ok_ids c Hok id s).
    + rewrite lookup_insert_ne in Hj by done. by apply (ok_ids c Hok j t).
  - intros b. destruct (Hside b) as (_ & -> & _). rewrite Hloc. apply Hok.
  - intros j. rewrite HX, Ho. destruct (decide (j = id)) as [->|Hne].
    + rewrite lookup_insert_eq. split; [by eauto|]. intros (t & [= <-] & ?). done.
    + rewrite lookup_insert_ne by done. apply Hok.
  - intros b. by rewrite Hn, Ho, Hown, (nActive_replace _ _ _ _ _ Hs).
  - by apply Ht, Hok.
  - rewrite Hd, Hld, Ho. intros Hl He. destruct (ok_data c Hok Hl He) as (t & Hl' & Hr & Hni).
    destruct (decide (dt_stream (cn_data c) = id)) as [Heq|Hne].
    + rewrite Heq in *. rewrite lookup_insert_eq. exists s'. simplify_eq. by auto.
    + rewrite lookup_insert_ne by done. by exists t.
  - intros j Hj. apply Hq in Hj. destruct (ok_queue c Hok j Hj) as (t & Hl & Hf). rewrite Ho.
    destruct (decide (j = id)) as [->|Hne].
    + rewrite lookup_insert_eq. exists s'. split; [done|]. apply Hfr. by simplify_eq.
    + rewrite lookup_insert_ne by done. by exists t.
Qed.

(** A change of a stream that keeps its state, with the table and the counters. *)
Lemma conn_ok_field id s s' c c' :
  conn_ok c -> same_env c c' -> cn_objs c !! id = Some s -> cn_objs c' = <[id := s']> (cn_objs c) ->
  st_id s' = st_id s -> st_state s' = st_state s -> st_closed s' = st_closed s ->
  (st_state s <> StateClosed -> st_resetReceived s' = st_resetReceived s /\ st_resetSent s' = st_resetSent s) ->
  (own_flow id s -> own_flow id s') ->
  (is_Some (st_frame s) -> is_Some (st_frame s')) ->
  (is_Some (st_recvFlow s) -> is_Some (st_recvFlow s')) ->
  (is_Some (st_sendFlow s) -> is_Some (st_sendFlow s')) ->
  cn_streams c' = cn_streams c -> (forall b, cs_numStreams (side b c') = cs_numStreams (side b c)) ->
  conn_ok c'.
Proof.
  intros Hok Henv Hs Ho Hi Hst Hcl Hrs Hof Hfr Hrv Hsd HX Hn.
  destruct (ok_objs c Hok id s Hs) as (Hid & Hc & Hr & Hw & Hre & Hown).
  apply (conn_ok_change id s s' c c'); try done.
  - split_and!; rewrite ?Hst; [congruence|congruence|by auto|by auto| |by auto].
    intros Hne. destruct (Hrs Hne) as [-> ->]. by apply Hre.
  - by rewrite Hst.
  - intros j. rewrite HX, Hst. destruct (decide (j = id)) as [->|]; [|done]. rewrite (ok_table c Hok id). split; [|by eauto].
    intros (t & ? & ?). by simplify_eq.
  - intros b. rewrite Hn, Hst, (ok_count c Hok b). f_equal. lia.
Qed.

(** ** A compare-and-swap of the state *)

Lemma cas_ok id from to c s :
  conn_ok c -> cn_objs c !! id = Some s -> st_state s = from -> legal_move from to = true ->
  exists c' s', compareAndSwapState id from to c = Some c' /\ conn_ok c' /\ same_env c c' /\
    cn_objs c' = <[id := s']> (cn_objs c) /\ st_state s' = to /\
    (is_Some (st_recvFlow s) -> is_Some (st_recvFlow s')) /\
    (forall j, j ∈ cn_streams c' <-> if decide (j = id) then live to = true else j ∈ cn_streams c) /\
    (forall b, cs_numStreams (side b c') =
       u32 (cs_numStreams (side b c) - Z.b2z (owned b c id && active from) + Z.b2z (owned b c id && active to))).
Proof.
  intros Hok Hs Hf Hl. destruct (ok_objs c Hok id s Hs) as (Hid & Hc & Hr & Hw & Hre & Hown).
  set (s0 := st_set_state to s). set (c0 := upd_stream id (st_set_state to) c).
  assert (Ho0 : cn_objs c0 = <[id := s0]> (cn_objs c)) by (by apply alter_Some).
  destruct (runEffects_effs id (casEffects from to) c0 s0) as
    (c' & s' & Hrun & He & Ho & Hi & Hst & Hfr & Hrr & Hrs & Hof & Hcl & Hrv & Hsd & HX & Hn).
  { by rewrite Ho0, lookup_insert_eq. }
  { apply casEffects_NoDup. }
  { intros Hin%cas_drain. apply Hw. by rewrite Hf, Hin. }
  { intros Hin%cas_close. rewrite Hf, bool_decide_false in Hc; done. }
  assert (Henv : same_env c c') by (eapply same_env_trans; [apply same_env_upd_stream|done]).
  assert (Hn' : forall b, cs_numStreams (side b c') =
    u32 (nActive (owned b c) (cn_objs c) - Z.b2z (owned b c id && active from) + Z.b2z (owned b c id && active to))).
  { intros b. rewrite Hn. change (side b c0) with (side b c). change (owned b c0 id) with (owned b c id).
    rewrite (ok_count c Hok b). apply (cas_net id _ _ _ (cn_streams c)); [done|].
    rewrite (ok_table c Hok id). split; [intros (t & ? & ?); simplify_eq; done|]. intros. exists s. by rewrite Hf. }
  exists c', s'. unfold compareAndSwapState. fold c0. split; [done|].
  assert (Ho' : cn_objs c' = <[id := s']> (cn_objs c)) by (by rewrite Ho, Ho0, insert_insert_eq).
  assert (HX' : forall j, j ∈ cn_streams c' <-> if decide (j = id) then live to = true else j ∈ cn_streams c).
  { rewrite HX. apply (cas_net id false from to (cn_streams c) 0); [done|].
    rewrite (ok_table c Hok id). split; [intros (t & ? & ?); simplify_eq; done|]. intros. exists s. by rewrite Hf. }
  split; [|split_and!; [done|done|done| |done|]; [by intros; apply Hrv; left|];
           intros b; rewrite Hn', (ok_count c Hok b), u32_minus; done].
  apply (conn_ok_change id s s' c c'); try done.
  - cbn in Hst, Hcl, Hrv, Hsd. split_and!.
    + rewrite Hi. done.
    + rewrite Hcl, Hc, Hf, Hst. destruct from, to; cbn in Hl; done.
    + rewrite Hst. intros Ha. apply Hrv. destruct from, to; cbn in Hl, Ha |- *; try done;
        first [left; apply Hr; by rewrite Hf|right; by apply (bool_decide_unpack _)].
    + rewrite Hst. intros Ha. apply Hsd. destruct from, to; cbn in Hl, Ha |- *; try done;
        first [left; apply Hw; by rewrite Hf|right; by apply (bool_decide_unpack _)].
    + rewrite Hst, Hrr, Hrs. intros Ht. apply Hre. rewrite Hf. intros ->. by destruct to.
    + apply Hof. split; [apply Hown|]. intros E. apply Hown. rewrite Hf. cbn in E. rewrite E in Hl. destruct from; by cbn in Hl.
  - rewrite Hfr. done.
  - intros. apply Hrv. by left.
  - cbn in Hst; rewrite Hst, Hf. intros Hni ->. by destruct from.
  - by rewrite Hst.
  - by rewrite Hst, Hf.
Qed.

(** ** What holds along every run *)

(** After GOAWAY was sent, no stream of the peer above its last identifier is in the map. *)
Definition goaway_ok c : Prop :=
  forall g, cs_goAway (cn_remote c) = Some g ->
  forall id, id ∈ cn_streams c -> stream_local id c = false -> id <= ga_LastStreamID g.

Definition good c : Prop := conn_ok c /\ goaway_ok c.

(** How a connection develops: identifiers and states only advance, the last identifier of
    the GOAWAY sent does not increase, after one was received no stream is created, and what
    is closed stays closed; the reader stays on its input. *)
Definition evolves c c' : Prop :=
  (forall b, cs_server (side b c') = cs_server (side b c) /\
     cs_nextStreamID (side b c) <= cs_nextStreamID (side b c')) /\
  (forall id s, cn_objs c !! id = Some s ->
     exists s', cn_objs c' !! id = Some s' /\ (rank (st_state s) <= rank (st_state s'))%nat /\
       (is_Some (st_recvFlow s) -> is_Some (st_recvFlow s'))) /\
  (forall g, cs_goAway (cn_remote c) = Some g ->
     exists g', cs_goAway (cn_remote c') = Some g' /\ ga_LastStreamID g' <= ga_LastStreamID g) /\
  (is_Some (cs_goAway (cn_local c)) -> is_Some (cs_goAway (cn_local c')) /\
     forall id, cn_objs c !! id = None -> cn_objs c' !! id = None) /\
  (cn_closed c = true -> cn_closed c' = true) /\ (cn_closeCh c = true -> cn_closeCh c' = true) /\
  reader_le (cn_fr c) (cn_fr c').

#[local] Hint Resolve reader_le_refl : core.

Lemma evolves_refl c : evolves c c.
Proof. split_and!; try done; eauto 10 with lia. Qed.

Lemma evolves_trans c1 c2 c3 : evolves c1 c2 -> evolves c2 c3 -> evolves c1 c3.
Proof.
  intros (Hs & Ho & Hg & Hr & Hc & Hh & Hfr) (Hs' & Ho' & Hg' & Hr' & Hc' & Hh' & Hfr').
  split_and!; [| | | |by auto|by auto|by eapply reader_le_trans].
  - intros b. destruct (Hs b), (Hs' b). split; [congruence|lia].
  - intros id s E1. destruct (Ho id s E1) as (s2 & E2 & ? & ?). destruct (Ho' id s2 E2) as (s3 & E3 & ? & ?).
    exists s3. split_and!; [done|lia|by auto].
  - intros g E1. destruct (Hg g E1) as (g2 & E2 & ?). destruct (Hg' g2 E2) as (g3 & E3 & ?). exists g3. split; [done|lia].
  - intros E1. destruct (Hr E1) as [E2 Hn]. destruct (Hr' E2) as [E3 Hn']. split; [done|]. by auto.
Qed.

(** A change of one stream that the environment does not notice. *)
Lemma evolves_change id s s' c c' :
  same_env c c' -> cn_objs c !! id = Some s -> cn_objs c' = <[id := s']> (cn_objs c) ->
  (rank (st_state s) <= rank (st_state s'))%nat -> (is_Some (st_recvFlow s) -> is_Some (st_recvFlow s')) ->
  evolves c c'.
Proof.
  intros (Hside & Hfr & _ & _ & _ & _ & _ & Hc & Hh & _) Hs Ho Hr Hrv.
  destruct (Hside true) as (_ & _ & _ & _ & Hg1), (Hside false) as (_ & _ & _ & _ & Hg2). cbn in Hg1, Hg2.
  split_and!; [| | | |congruence|congruence|by rewrite Hfr].
  - intros b. destruct (Hside b) as (-> & -> & _). split; [done|lia].
  - intros j t Hj. rewrite Ho. destruct (decide (j = id)) as [->|Hne].
    + rewrite lookup_insert_eq. exists s'. by simplify_eq.
    + rewrite lookup_insert_ne by done. exists t. split_and!; done || lia.
  - intros g Hg. rewrite Hg2. exists g. split; [done|lia].
  - rewrite Hg1. intros Hg. split; [done|]. intros j Hj. rewrite Ho, lookup_insert_ne; [done|]. congruence.
Qed.

(** A state with the same streams and sides. *)
Lemma evolves_same c c' :
  (forall b, cs_server (side b c') = cs_server (side b c) /\
     cs_nextStreamID (side b c') = cs_nextStreamID (side b c) /\ cs_goAway (side b c') = cs_goAway (side b c)) ->
  cn_objs c' = cn_objs c -> (cn_closed c = true -> cn_closed c' = true) ->
  (cn_closeCh c = true -> cn_closeCh c' = true) -> reader_le (cn_fr c) (cn_fr c') -> evolves c c'.
Proof.
  intros Hs Ho Hc Hh Hfr. destruct (Hs true) as (_ & _ & Hg1), (Hs false) as (_ & _ & Hg2). cbn in Hg1, Hg2.
  split_and!; [| | | |done..].
  - intros b. destruct (Hs b) as (-> & -> & _). split; [done|lia].
  - intros id s. rewrite Ho. eauto.
  - intros g. rewrite Hg2. eauto with lia.
  - rewrite Hg1, Ho. done.
Qed.
End Effects.
