(* ===== verification/ConnSafety.v ===== *)
(** * Safety of the connection's operations

    Every operation of [Conn] and [ConnIO] keeps the invariant [good] of [ConnInv] and only
    moves the connection forward ([evolves]); [fine] also says under which condition the
    operation does not panic. *)

From S2P Require Import Prelude HpackEncode HpackDecode Types Settings StreamState FlowControl WriteQueue.
From S2P Require Import HttpHeader HeaderTable StreamWrite FrameWriter FrameReader ReaderAdvance Conn ConnIO ConnInv.

Section Safety.
Context {W : Type} `{ConnEnv W}.
Implicit Types c : Conn W.
#[local] Hint Resolve reader_le_refl : core.

Local Notation "x <- m ;; k" := (cbind m (fun x => k))
  (at level 100, m at next level, right associativity).
Local Notation "m ;; k" := (cbind m (fun _ => k)) (at level 100, right associativity).

(** The outcome of an operation that starts in [c]: under [P] it is not a panic, and the
    state after it is good and later than [c]. *)
Definition fine {A} (P : Prop) c (x : outcome error A * Conn W) : Prop :=
  (P -> x.1 <> Panic) /\ good x.2 /\ evolves c x.2.

(** ** The structure of programs *)

Lemma fine_later {A} P c c' (x : outcome error A * Conn W) : evolves c c' -> fine P c' x -> fine P c x.
Proof. intros He (Hp & Hg & He'). split_and!; [done|done|by eapply evolves_trans]. Qed.

Lemma fine_weaken {A} (P Q : Prop) c (x : outcome error A * Conn W) : (Q -> P) -> fine P c x -> fine Q c x.
Proof. intros HQ (Hp & Hg & He). split_and!; auto. Qed.

Lemma fine_panic {A B} (P : Prop) c c' : fine P c (@Panic error A, c') -> fine P c (@Panic error B, c').
Proof. intros (Hp & Hg & He). split_and!; [|done..]. intros HP. by destruct (Hp HP). Qed.

Lemma fine_bind {A B} P (m : C W A) (k : A -> C W B) c :
  fine P c (m c) -> (forall a c', m c = (Ok a, c') -> good c' -> evolves c c' -> fine P c' (k a c')) ->
  fine P c (cbind m k c).
Proof.
  intros (Hp & Hg & He) Hk. unfold cbind. destruct (m c) as [[a|e|] c'] eqn:E; cbn in Hp, Hg, He.
  - eapply fine_later; [exact He|]. by apply Hk.
  - by split_and!.
  - by apply (@fine_panic A).
Qed.

Lemma fine_ret {A} P c (a : A) : good c -> fine P c (cret a c).
Proof. intros Hg. split_and!; [done|done|apply evolves_refl]. Qed.

Lemma fine_throw {A} P c e : good c -> fine P c (@cthrow W A e c).
Proof. intros Hg. split_and!; [done|done|apply evolves_refl]. Qed.

Lemma fine_return P c e : good c -> fine P c (creturn e c).
Proof. destruct e; [apply fine_throw|apply fine_ret]. Qed.

Lemma fine_get {A B} P (f : Conn W -> A) (k : A -> C W B) c : fine P c (k (f c) c) -> fine P c (cbind (cget f) k c).
Proof. done. Qed.

Lemma fine_modify P f c : good (f c) -> evolves c (f c) -> fine P c (cmodify f c).
Proof. intros Hg He. by split_and!. Qed.

Lemma fine_deref {A} P (o : option A) c : good c -> (P -> is_Some o) -> fine P c (cderef o c).
Proof.
  intros Hg Ho. destruct o as [a|]; cbn; split_and!; try done; try apply evolves_refl.
  intros HP. by destruct (Ho HP).
Qed.

Lemma fine_try P (m : C W unit) c : fine P c (m c) -> fine P c (ctry m c).
Proof. unfold ctry. intros (Hp & Hg & He). destruct (m c) as [[a|e|] c']; try by split_and!.
  by apply (@fine_panic unit). Qed.

Lemma fine_ignore P (m : C W unit) c : fine P c (m c) -> fine P c (ignore m c).
Proof. intros Hm. apply fine_bind; [by apply fine_try|]. intros e c' _ Hg _. by apply fine_ret. Qed.

(** ** Changes that the invariant does not notice *)

Definition data_ok c : Prop :=
  cn_lastData c = true -> dt_sawEOF (cn_data c) = false ->
  exists s, cn_objs c !! dt_stream (cn_data c) = Some s /\ is_Some (st_recvFlow s) /\ st_state s <> StateIdle.

Definition same_side (s s' : connState) : Prop :=
  cs_server s' = cs_server s /\ cs_nextStreamID s' = cs_nextStreamID s /\ cs_lastStreamID s' = cs_lastStreamID s /\
  cs_numStreams s' = cs_numStreams s /\ cs_goAway s' = cs_goAway s.

Definition quiet_change c c' : Prop :=
  (forall b, same_side (side b c) (side b c')) /\ cn_objs c' = cn_objs c /\ cn_streams c' = cn_streams c /\
  (cn_idCh c = negb (cn_idState c) -> cn_idCh c' = negb (cn_idState c')) /\ (data_ok c -> data_ok c') /\
  (forall id, QStream id ∈ contents (cn_queue c') -> QStream id ∈ contents (cn_queue c)) /\
  (cn_closed c = true -> cn_closed c' = true) /\ (cn_closeCh c = true -> cn_closeCh c' = true) /\
  reader_le (cn_fr c) (cn_fr c').

Lemma good_quiet c c' : good c -> quiet_change c c' -> good c' /\ evolves c c'.
Proof.
  intros [Hok Hga] (Hsd & Ho & HX & Ht & Hd & Hq & Hc & Hh & Hfr).
  destruct (Hsd true) as (E1 & E2 & E3 & E4 & E5), (Hsd false) as (F1 & F2 & F3 & F4 & F5). cbn in *.
  assert (Hloc : forall id, stream_local id c' = stream_local id c) by (intros; unfold stream_local; by rewrite E1).
  assert (Hown : forall b, owned b c' = owned b c) by (intros; unfold owned, stream_local; by rewrite E1).
  split; [split; [split|]|].
  - rewrite E1, F1. apply Hok.
  - rewrite Ho. apply Hok.
  - intros id s. rewrite Ho, Hloc. intros Hs. destruct (Hsd (stream_local id c)) as (_ & -> & -> & _). by apply (ok_ids c Hok id s).
  - intros b. rewrite Hloc. destruct (Hsd b) as (_ & -> & _). apply Hok.
  - intros id. rewrite HX, Ho. apply Hok.
  - intros b. destruct (Hsd b) as (_ & _ & _ & -> & _). rewrite Hown, Ho. apply Hok.
  - by apply Ht, Hok.
  - apply Hd. unfold data_ok. apply Hok.
  - intros id Hid. rewrite Ho. apply (ok_queue c Hok). by apply Hq.
  - intros g. rewrite F5, HX. intros Hg id. rewrite Hloc. by apply Hga.
  - apply evolves_same; [|done..]. intros b. destruct (Hsd b) as (-> & -> & _ & _ & ->). done.
Qed.

Lemma fine_quiet P f c : good c -> quiet_change c (f c) -> fine P c (cmodify f c).
Proof. intros Hg Hq. destruct (good_quiet c (f c) Hg Hq). by apply fine_modify. Qed.

Lemma fine_quiet_res {A} (P : Prop) c (x : outcome error A * Conn W) :
  good c -> x.1 <> Panic -> quiet_change c x.2 -> fine P c x.
Proof. intros Hg Hx Hq. destruct (good_quiet c x.2 Hg Hq). by split_and!. Qed.

Lemma quiet_queue c x b : (forall id, x <> QStream id) -> quiet_change c (add_queue x b c).
Proof.
  intros Hx. split_and!; try (done || by intros). intros id Hid. unfold add_queue in Hid. cbn [cn_queue cn_set_queue] in Hid.
  apply contents_add in Hid as [Hid|]; [by destruct (Hx id)|done].
Qed.

Lemma quiet_trans c1 c2 c3 : quiet_change c1 c2 -> quiet_change c2 c3 -> quiet_change c1 c3.
Proof.
  intros (Hs & Ho & HX & Ht & Hd & Hq & Hc & Hh & Hfr) (Hs' & Ho' & HX' & Ht' & Hd' & Hq' & Hc' & Hh' & Hfr').
  split_and!; try congruence; try (by auto); [|by eapply reader_le_trans].
  intros b. destruct (Hs b) as (?&?&?&?&?), (Hs' b) as (?&?&?&?&?). split_and!; congruence.
Qed.

Lemma quiet_refl c : quiet_change c c.
Proof. split_and!; auto. by intros. Qed.

Lemma quiet_frames fs c : quiet_change c (add_frames fs c).
Proof.
  revert c. induction fs as [|f fs IH]; intros c; [apply quiet_refl|].
  cbn [add_frames foldl]. eapply quiet_trans; [|apply IH]. by apply quiet_queue.
Qed.

(** A change of one stream that keeps its state. *)
Definition same_obj (id : Z) (s s' : stream) : Prop :=
  st_id s' = st_id s /\ st_state s' = st_state s /\ st_closed s' = st_closed s /\
  (st_state s <> StateClosed -> st_resetReceived s' = st_resetReceived s /\ st_resetSent s' = st_resetSent s) /\
  (own_flow id s -> own_flow id s') /\ (is_Some (st_frame s) -> is_Some (st_frame s')) /\
  (is_Some (st_recvFlow s) -> is_Some (st_recvFlow s')) /\ (is_Some (st_sendFlow s) -> is_Some (st_sendFlow s')).

Lemma same_obj_recv id s f f' :
  st_recvFlow s = Some f -> fc_id f' = fc_id f -> same_obj id s (st_set_recvFlow (Some f') s).
Proof.
  intros Hf Hi. split_and!; try done. intros Hown. apply own_flow_recv; [|done]. rewrite Hi. by apply (proj1 Hown).
Qed.

Lemma same_obj_send id s f f' :
  st_sendFlow s = Some f -> rf_id f' = rf_id f -> same_obj id s (st_set_sendFlow (Some f') s).
Proof.
  intros Hf Hi. split_and!; try done. intros [[Ho Hr] ?]. split; [split; [|done]|done]. intros g [= <-]. rewrite Hi. by apply Ho.
Qed.

Lemma good_field id s f c :
  good c -> cn_objs c !! id = Some s -> same_obj id s (f s) ->
  good (upd_stream id f c) /\ evolves c (upd_stream id f c).
Proof.
  intros [Hok Hga] Hs (Hi & Hst & Hc & Hrs & Hof & Hfr & Hrv & Hsd).
  assert (Ho : cn_objs (upd_stream id f c) = <[id := f s]> (cn_objs c)) by (by apply alter_Some).
  split; [split|].
  - apply (conn_ok_field id s (f s) c); try done.
  - exact Hga.
  - apply (evolves_change id s (f s)); try done. by rewrite Hst.
Qed.

Lemma fine_field P id s f c :
  good c -> cn_objs c !! id = Some s -> same_obj id s (f s) -> fine P c (cmodify (upd_stream id f) c).
Proof. intros Hg Hs Hf. destruct (good_field id s f c Hg Hs Hf). by apply fine_modify. Qed.

(** ** Transitions and closing *)

(** A stream of the peer above the last identifier of the GOAWAY sent is not to be added. *)
Definition admissible (id : Z) c : Prop :=
  id ∈ cn_streams c \/ stream_local id c = true \/
  forall g, cs_goAway (cn_remote c) = Some g -> id <= ga_LastStreamID g.

Lemma rank_legal from to : legal_move from to = true -> (rank from <= rank to)%nat.
Proof. destruct from, to; cbn; done || lia. Qed.

Lemma cas_good id to c s :
  good c -> cn_objs c !! id = Some s -> legal_move (st_state s) to = true -> (live to = true -> admissible id c) ->
  exists c' s', compareAndSwapState id (st_state s) to c = Some c' /\ good c' /\ evolves c c' /\ same_env c c' /\
    cn_objs c' = <[id := s']> (cn_objs c) /\ st_state s' = to /\
    (forall j, j ∈ cn_streams c' <-> if decide (j = id) then live to = true else j ∈ cn_streams c).
Proof.
  intros [Hok Hga] Hs Hl Had.
  destruct (cas_ok id (st_state s) to c s Hok Hs eq_refl Hl) as (c' & s' & Hcas & Hok' & Henv & Ho & Hst & Hrv & HX & _).
  exists c', s'. split_and!; try done.
  - split; [done|]. pose proof Henv as [Hside _]. destruct (Hside false) as (_ & _ & _ & _ & Hg). cbn in Hg.
    unfold goaway_ok. intros g. rewrite Hg. intros Hg' j. destruct (owned_env c c' true j Henv) as [_ ->].
    rewrite HX. destruct (decide (j = id)) as [->|]; [|by apply Hga].
    intros [Hin|[?|Ha]]%Had ?; [by apply Hga|congruence|by apply Ha].
  - apply (evolves_change id s s' c c'); try done. rewrite Hst. by apply rank_legal.
Qed.

(** Only a stream that is idle has to be admitted. *)
Lemma move_admissible id to c s :
  conn_ok c -> cn_objs c !! id = Some s -> (st_state s = StateIdle -> admissible id c) ->
  legal_move (st_state s) to = true -> live to = true -> admissible id c.
Proof.
  intros Hok Hs Ha Hl Ht. destruct (live (st_state s)) eqn:Hlv.
  - left. apply (ok_table c Hok). eauto.
  - destruct (st_state s) eqn:E; try done; [by apply Ha|by destruct to].
Qed.

Lemma transition_fine id recv ft es c s :
  good c -> cn_objs c !! id = Some s -> (st_state s = StateIdle -> admissible id c) ->
  fine True c (stream_transition id recv ft es c).
Proof.
  intros Hg Hs Had. unfold stream_transition. rewrite Hs.
  destruct (transition_state _ _ _ _) as [to|] eqn:Ht; [|by apply fine_throw].
  pose proof (transition_legal _ _ _ _ _ Ht) as Hl.
  destruct (cas_good id to c s Hg Hs Hl (move_admissible id to c s (proj1 Hg) Hs Had Hl))
    as (c' & s' & -> & Hg' & He & _ & Ho & Hst & _).
  destruct (bool_decide (to = StateClosed) && _) eqn:E; [|by split_and!].
  apply andb_true_iff in E as [->%bool_decide_eq_true _].
  assert (Hs' : cn_objs c' !! id = Some s') by (by rewrite Ho, lookup_insert_eq).
  destruct (good_field id s' (if recv then st_set_resetReceived true else st_set_resetSent true) c' Hg' Hs') as [Hg2 He2].
  { by destruct recv; split_and!. }
  split_and!; [done|done|by eapply evolves_trans].
Qed.

Lemma close_fine id c s : good c -> cn_objs c !! id = Some s -> fine True c (stream_close id c).
Proof.
  intros Hg Hs. unfold stream_close, clift. rewrite Hs.
  destruct (cas_good id StateClosed c s Hg Hs (legal_closed _)) as (c' & s' & -> & Hg' & He & _); [done|]. by split_and!.
Qed.

(** Closing a list of streams, with a GOAWAY just stored or not: all of them leave the map
    and nothing else does. *)
Lemma closeStreams_spec ids c :
  conn_ok c -> (forall id, id ∈ ids -> is_Some (cn_objs c !! id)) ->
  exists c', closeStreams ids c = (Ok tt, c') /\ conn_ok c' /\ same_env c c' /\
    (forall id, id ∈ cn_streams c' <-> id ∈ cn_streams c /\ id ∉ ids) /\
    (forall id, match cn_objs c !! id, cn_objs c' !! id with
       | None, None => True
       | Some s, Some s' => (rank (st_state s) <= rank (st_state s'))%nat /\
           (is_Some (st_recvFlow s) -> is_Some (st_recvFlow s')) /\
           st_state s' = (if decide (id ∈ ids) then StateClosed else st_state s)
       | _, _ => False
       end).
Proof.
  revert c. induction ids as [|i ids IH]; intros c Hok Hin.
  { exists c. split_and!; [done|done|apply same_env_refl|set_solver|]. intros id.
    destruct (cn_objs c !! id); [|done]. split_and!; done. }
  destruct (Hin i) as [s Hs]; [set_solver|]. cbn [closeStreams]. unfold cbind, stream_close, clift. rewrite Hs.
  destruct (cas_ok i (st_state s) StateClosed c s Hok Hs eq_refl (legal_closed _))
    as (c1 & s1 & -> & Hok1 & Henv & Ho & Hst & Hrv & HX & _).
  destruct (IH c1 Hok1) as (c' & -> & Hok' & Henv' & HX' & Ho').
  { intros id Hid. rewrite Ho. destruct (decide (id = i)) as [->|]; [by rewrite lookup_insert_eq|].
    rewrite lookup_insert_ne by done. apply Hin. set_solver. }
  exists c'. split_and!; [done|done|by eapply same_env_trans| |].
  - intros id. rewrite HX', HX. destruct (decide (id = i)) as [->|]; set_solver.
  - intros id. specialize (Ho' id). rewrite Ho in Ho'. destruct (decide (id = i)) as [->|Hne].
    + rewrite lookup_insert_eq in Ho'. rewrite Hs. destruct (cn_objs c' !! i) as [s'|]; [|done].
      destruct Ho' as (Hr & Hv & Hst'). rewrite Hst in Hr, Hst'. rewrite decide_True by set_solver.
      split_and!; [|by auto|by rewrite Hst'; case_decide].
      etransitivity; [|exact Hr]. by apply rank_legal, legal_closed.
    + rewrite lookup_insert_ne in Ho' by done. destruct (cn_objs c !! id), (cn_objs c' !! id); try done.
      destruct Ho' as (Hr & Hv & Hst'). split_and!; [done|done|]. rewrite Hst'.
      destruct (decide (id ∈ ids)), (decide (id ∈ i :: ids)); set_solver.
Qed.

(** ** New streams *)

Lemma even_add2 id : 0 <= id -> (Z.land (id + 2) 1 =? 0) = (Z.land id 1 =? 0).
Proof.
  intros Hid. change 1 with (Z.ones 1). rewrite !Z.land_ones by lia. change (2 ^ 1) with 2.
  replace (id + 2) with (id + 1 * 2) by lia. by rewrite Z.mod_add.
Qed.

Lemma valid_local b id c : conn_ok c -> cs_validStreamID (side b c) id = true -> 0 < id /\ stream_local id c = b.
Proof.
  intros Hok. unfold cs_validStreamID, stream_local. intros [Hv Hid]%andb_true_iff. split; [lia|].
  destruct b; cbn in Hv |- *; [done|]. rewrite (ok_sides c Hok) in Hv.
  by destruct (cs_server (cn_local c)), (Z.land id 1 =? 0).
Qed.

(** A new idle stream of a side. *)
Definition withNewStream (b : bool) (id : Z) c : Conn W :=
  upd_side b (fun s => cs_set_lastStreamID id (cs_set_nextStreamID (u32 (id + 2)) s))
    (cn_set_objs (<[id := newStream id]> (cn_objs c)) c).

(** What it leaves alone, and the side it moves on. *)
Lemma withNewStream_facts b id c :
  let c' := withNewStream b id c in
  (forall j, stream_local j c' = stream_local j c) /\ (forall b', owned b' c' = owned b' c) /\
  cn_objs c' = <[id := newStream id]> (cn_objs c) /\ cn_streams c' = cn_streams c /\
  (forall b', cs_goAway (side b' c') = cs_goAway (side b' c) /\ cs_server (side b' c') = cs_server (side b' c) /\
     cs_numStreams (side b' c') = cs_numStreams (side b' c) /\
     cs_nextStreamID (side b' c') = (if Bool.eqb b b' then u32 (id + 2) else cs_nextStreamID (side b' c)) /\
     cs_lastStreamID (side b' c') = (if Bool.eqb b b' then id else cs_lastStreamID (side b' c))) /\
  cn_data c' = cn_data c /\ cn_lastData c' = cn_lastData c /\ cn_queue c' = cn_queue c /\
  cn_idCh c' = cn_idCh c /\ cn_idState c' = cn_idState c /\ cn_closed c' = cn_closed c /\ cn_closeCh c' = cn_closeCh c /\
  cn_fr c' = cn_fr c.
Proof. destruct b; split_and!; try done; intros [|]; done. Qed.

Section NewStream.
Variables (b : bool) (id : Z) (c : Conn W).
Hypothesis Hok : conn_ok c.
Hypothesis Hid : 0 < id < 2 ^ 32 - 2.
Hypothesis Hloc : stream_local id c = b.
Hypothesis Hnext : cs_nextStreamID (side b c) <= id.

Lemma next_small : u32 (id + 2) = id + 2.
Proof. unfold u32. apply Z.mod_small. lia. Qed.

(** The identifier is new. *)
Lemma new_fresh : cn_objs c !! id = None.
Proof.
  destruct (cn_objs c !! id) eqn:E; [|done]. apply (ok_ids c Hok) in E as (_ & Hn & _). rewrite Hloc in Hn. lia.
Qed.

Lemma new_other j s : cn_objs c !! j = Some s -> cn_objs (withNewStream b id c) !! j = Some s.
Proof.
  intros Hj. destruct (withNewStream_facts b id c) as (_ & _ & -> & _). pose proof new_fresh.
  rewrite lookup_insert_ne; [done|congruence].
Qed.

Lemma new_ok : conn_ok (withNewStream b id c).
Proof.
  destruct (withNewStream_facts b id c) as (Hl & Hown & Ho & HX & Hside & Hd & Hld & Hq & Hi & His & _).
  pose proof new_fresh as Hfresh. split.
  - destruct (Hside true) as (_ & E1 & _), (Hside false) as (_ & E2 & _). cbn in E1, E2. rewrite E1, E2. apply Hok.
  - intros j t. rewrite Ho. intros [[<- <-]|[_ Hj]]%lookup_insert_Some; [by split_and!|by apply Hok].
  - intros j t. rewrite Ho, Hl. destruct (Hside (stream_local j c)) as (_ & _ & _ & -> & ->).
    intros [[<- <-]|[_ Hj]]%lookup_insert_Some.
    + rewrite Hloc, eqb_reflx, next_small. lia.
    + destruct (ok_ids c Hok j t Hj) as (? & Hn & Hla). destruct (Bool.eqb b _) eqn:Eb; [|done].
      apply eqb_prop in Eb. rewrite <- Eb in Hn, Hla. rewrite next_small. lia.
  - intros b'. rewrite Hl. destruct (Hside b') as (_ & _ & _ & -> & _). destruct (Bool.eqb b b') eqn:Eb; [|apply Hok].
    apply eqb_prop in Eb. rewrite <- Eb, next_small. split; [lia|]. rewrite <- Hloc. unfold stream_local. by rewrite even_add2 by lia.
  - intros j. rewrite HX, Ho, (ok_table c Hok). split; intros (t & Ht & Hlv).
    + exists t. rewrite lookup_insert_ne by congruence. done.
    + apply lookup_insert_Some in Ht as [[_ <-]|[_ Ht]]; [done|by exists t].
  - intros b'. destruct (Hside b') as (_ & _ & -> & _). rewrite Hown, Ho, nActive_insert by done. cbn.
    rewrite andb_false_r, Z.add_0_r. apply Hok.
  - rewrite Hi, His. apply Hok.
  - rewrite Hd, Hld. intros H1 H2. destruct (ok_data c Hok H1 H2) as (t & Ht & ?). exists t. split; [by apply new_other|done].
  - rewrite Hq. intros j Hj. destruct (ok_queue c Hok j Hj) as (t & Ht & ?). exists t. split; [by apply new_other|done].
Qed.

Lemma new_evolves : cs_goAway (cn_local c) = None -> evolves c (withNewStream b id c).
Proof.
  intros Hga. destruct (withNewStream_facts b id c) as (_ & _ & Ho & _ & Hside & _ & _ & _ & _ & _ & Hc & Hh & Hfr).
  split_and!.
  - intros b'. destruct (Hside b') as (_ & -> & _ & -> & _). split; [done|]. destruct (Bool.eqb b b') eqn:Eb; [|lia].
    apply eqb_prop in Eb. rewrite <- Eb, next_small. lia.
  - intros j t Ht. exists t. split; [by apply new_other|]. split; [lia|done].
  - destruct (Hside false) as (E & _). cbn in E. rewrite E. eauto with lia.
  - rewrite Hga. by intros [].
  - by rewrite Hc.
  - by rewrite Hh.
  - by rewrite Hfr.
Qed.
End NewStream.

(** What [idleStream] needs, and what it leaves. *)
Lemma idleStream_ok b id c :
  good c -> 0 <= id < 2 ^ 32 - 2 ->
  (exists e, idleStream b id c = (Err e, c)) \/
  (exists c', idleStream b id c = (Ok tt, c') /\ good c' /\ evolves c c' /\ stream_local id c' = b /\
     cn_objs c' !! id = Some (newStream id) /\ cs_goAway (cn_remote c') = cs_goAway (cn_remote c)).
Proof.
  intros [Hok Hga] Hr. unfold idleStream.
  destruct (is_some _) eqn:Hga0; [eauto|]. destruct (cs_validStreamID _ _) eqn:Hv; [|eauto].
  destruct (id <? _) eqn:Hlt; [eauto|]. destruct (_ <? u32 _) eqn:Hmax; [eauto|]. right. exists (withNewStream b id c). split; [done|].
  destruct (valid_local b id c Hok Hv) as [Hpos Hloc]. apply Z.ltb_ge in Hlt. assert (Hid : 0 < id < 2 ^ 32 - 2) by lia.
  destruct (withNewStream_facts b id c) as (Hl & _ & Ho & HX & Hside & _). destruct (Hside false) as (Hga' & _). cbn in Hga'.
  split_and!; [split; [by apply new_ok|]| |by rewrite Hl|by rewrite Ho, lookup_insert_eq|done].
  - intros g. rewrite Hga', HX. intros Hg j. rewrite Hl. by apply Hga.
  - apply new_evolves; try done. by destruct (cs_goAway (cn_local c)).
Qed.

Lemma idle_fine P b id c : good c -> 0 <= id < 2 ^ 32 - 2 -> fine P c (idleStream b id c).
Proof.
  intros Hg Hr. destruct (idleStream_ok b id c Hg Hr) as [[e ->]|(c' & -> & Hg' & He & _)];
    split_and!; try done. apply evolves_refl.
Qed.

(** The stream just created may be moved on: it is local, or not above the GOAWAY sent. *)
Lemma idle_admissible b id c c' :
  good c -> 0 <= id < 2 ^ 32 - 2 -> (b = true \/ forall g, cs_goAway (cn_remote c) = Some g -> id <= ga_LastStreamID g) ->
  idleStream b id c = (Ok tt, c') -> cn_objs c' !! id = Some (newStream id) /\ admissible id c'.
Proof.
  intros Hg Hr Hb Hi. destruct (idleStream_ok b id c Hg Hr) as [[e He]|(c2 & He & _ & _ & Hl & Ho & Hga)]; [congruence|].
  assert (c2 = c') by congruence. subst c2. split; [done|]. right.
  destruct Hb as [->|Hb]; [by left|]. right. by rewrite Hga.
Qed.

(** ** GOAWAY *)

Lemma valid_owned b id c : conn_ok c -> 0 < id -> cs_validStreamID (side b c) id = owned b c id.
Proof.
  intros Hok Hid. unfold cs_validStreamID, owned, stream_local.
  assert (H0 : (0 <? id) = true) by lia. rewrite H0, andb_true_r. destruct b; cbn; [by destruct (Bool.eqb _ _)|].
  rewrite (ok_sides c Hok). by destruct (cs_server (cn_local c)), (Z.land id 1 =? 0).
Qed.

Lemma range_elem c id : id ∈ range_streams c <-> id ∈ cn_streams c.
Proof. unfold range_streams. by rewrite env_range_perm, elem_of_elements. Qed.

Lemma table_pos id c : conn_ok c -> id ∈ cn_streams c -> 0 < id /\ is_Some (cn_objs c !! id).
Proof.
  intros Hok (s & Hs & _)%(ok_table c Hok). split; [|eauto]. destruct (ok_ids c Hok id s Hs) as [? _]. lia.
Qed.

(** A GOAWAY is stored on a side. *)
Definition storeGoAway (b : bool) (ga : goAway) c : Conn W := upd_side b (cs_set_goAway (Some ga)) c.

Lemma storeGoAway_ok b ga c : conn_ok c -> conn_ok (storeGoAway b ga c).
Proof.
  intros Hok. assert (Hsd : forall b', cs_server (side b' (storeGoAway b ga c)) = cs_server (side b' c) /\
    cs_nextStreamID (side b' (storeGoAway b ga c)) = cs_nextStreamID (side b' c) /\
    cs_lastStreamID (side b' (storeGoAway b ga c)) = cs_lastStreamID (side b' c) /\
    cs_numStreams (side b' (storeGoAway b ga c)) = cs_numStreams (side b' c)) by (by destruct b, b').
  assert (Hl : forall id, stream_local id (storeGoAway b ga c) = stream_local id c) by (by destruct b).
  split.
  - destruct b; apply Hok.
  - destruct b; apply Hok.
  - intros id s Hs. rewrite Hl. destruct (Hsd (stream_local id c)) as (_ & -> & -> & _). apply (ok_ids c Hok id s). by destruct b.
  - intros b'. rewrite Hl. destruct (Hsd b') as (_ & -> & _). apply Hok.
  - destruct b; apply Hok.
  - intros b'. destruct (Hsd b') as (_ & _ & _ & ->). destruct b; apply Hok.
  - destruct b; apply Hok.
  - destruct b; apply Hok.
  - destruct b; apply Hok.
Qed.

(** The streams of a side above the last identifier are closed, and no other. *)
Definition aboveLast (b : bool) (ga : goAway) c : list Z :=
  filter (fun id => (ga_LastStreamID ga <? id) && cs_validStreamID (side b c) id) (range_streams c).

Lemma aboveLast_elem b ga c id :
  conn_ok c -> id ∈ aboveLast b ga c <-> id ∈ cn_streams c /\ ga_LastStreamID ga < id /\ stream_local id c = b.
Proof.
  intros Hok. unfold aboveLast. rewrite list_elem_of_filter, range_elem. split.
  - intros [Hb Hin]. destruct (table_pos id c Hok Hin) as [Hp _].
    rewrite (valid_owned b id c Hok Hp) in Hb. unfold owned in Hb. apply Is_true_true, andb_true_iff in Hb as [? ?%eqb_prop].
    split_and!; [done|lia|done].
  - intros (Hin & Hl & <-). split; [|done]. destruct (table_pos id c Hok Hin) as [Hp _].
    rewrite (valid_owned _ id c Hok Hp). unfold owned. rewrite eqb_reflx. apply Is_true_true, andb_true_iff. split; [lia|done].
Qed.

Lemma closeAbove_spec b ga c :
  conn_ok c -> goaway_ok c -> (b = false -> forall g, cs_goAway (cn_remote c) = Some g -> ga_LastStreamID ga <= ga_LastStreamID g) ->
  let c1 := storeGoAway b ga c in
  exists c', closeStreams (aboveLast b ga c1) c1 = (Ok tt, c') /\ good c' /\ evolves c c' /\ same_env c1 c' /\
    (forall id, id ∈ cn_streams c' <-> id ∈ cn_streams c /\ ~ (ga_LastStreamID ga < id /\ stream_local id c = b)).
Proof.
  intros Hok Hga Hle c1. pose proof (storeGoAway_ok b ga c Hok) as Hok1. fold c1 in Hok1.
  assert (Hl1 : forall id, stream_local id c1 = stream_local id c) by (by destruct b).
  assert (HX1 : cn_streams c1 = cn_streams c) by (by destruct b).
  assert (Ho1 : cn_objs c1 = cn_objs c) by (by destruct b).
  destruct (closeStreams_spec (aboveLast b ga c1) c1 Hok1) as (c' & Hrun & Hok' & Henv & HX & Ho).
  { intros id (Hin & _)%aboveLast_elem; [|done]. by apply table_pos in Hin as [_ ?]. }
  assert (HX' : forall id, id ∈ cn_streams c' <-> id ∈ cn_streams c /\ ~ (ga_LastStreamID ga < id /\ stream_local id c = b)).
  { intros id. rewrite HX, (aboveLast_elem b ga c1 id Hok1), HX1, Hl1. tauto. }
  exists c'. split; [done|]. destruct (proj1 Henv true) as (E1 & E2 & _ & _ & E5), (proj1 Henv false) as (F1 & F2 & _ & _ & F5).
  pose proof Henv as (Hside & Hfr & _ & _ & _ & _ & _ & Hcl & Hch & _). cbn in E1, E2, E5, F1, F2, F5.
  assert (Hl' : forall id, stream_local id c' = stream_local id c) by (intros; unfold stream_local; rewrite E1; apply Hl1).
  split_and!; [split; [done|]| |done|done].
  - intros g. rewrite F5. intros Hg id. rewrite HX', Hl'. intros [Hin Hn] Hloc. destruct b; cbn in Hg.
    + by apply Hga.
    + injection Hg as <-. destruct (decide (ga_LastStreamID ga < id)); [by destruct Hn|lia].
  - split_and!.
    + intros b'. destruct (Hside b') as (-> & -> & _). by destruct b, b'.
    + intros id s Hs. specialize (Ho id). rewrite Ho1, Hs in Ho. destruct (cn_objs c' !! id) as [s'|]; [|done].
      destruct Ho as (? & ? & _). eauto.
    + intros g Hg. rewrite F5. destruct b; cbn; [by exists g|]. exists ga. split; [done|]. by apply Hle.
    + intros Hg. rewrite E5. split; [by destruct b|]. intros id Hn. specialize (Ho id). rewrite Ho1, Hn in Ho.
      by destruct (cn_objs c' !! id).
    + rewrite Hcl. by destruct b.
    + rewrite Hch. by destruct b.
    + rewrite Hfr. by destruct b.
Qed.

Lemma writeGoAway_ok ga c :
  good c ->
  (exists g, cs_goAway (cn_remote c) = Some g /\ ga_LastStreamID g < ga_LastStreamID ga /\
     writeGoAway ga c = (Err (PlainError "last stream ID must not increase"), c)) \/
  (exists c', writeGoAway ga c = (Ok tt, add_queue (QFrame (GoAwayFrame (ga_LastStreamID ga) (ga_ErrCode ga) (ga_DebugData ga))) true c') /\
     good c' /\ evolves c c' /\ same_env (storeGoAway false ga c) c' /\
     (forall id, id ∈ cn_streams c' <-> id ∈ cn_streams c /\ ~ (ga_LastStreamID ga < id /\ stream_local id c = false)) /\
     forall g, cs_goAway (cn_remote c) = Some g -> ga_LastStreamID ga <= ga_LastStreamID g).
Proof.
  intros [Hok Hga]. unfold writeGoAway, cbind, cget, cmodify. cbn beta iota.
  destruct (match cs_goAway (cn_remote c) with Some g => _ | None => _ end) eqn:E.
  - left. destruct (cs_goAway (cn_remote c)) as [g|]; [|done]. exists g. split_and!; [done|lia|done].
  - right. destruct (closeAbove_spec false ga c Hok Hga) as (c' & Hrun & Hg' & He & Henv & HX).
    { intros _ g Hg. rewrite Hg in E. lia. }
    exists c'. split_and!; try done; [|intros g Hg; rewrite Hg in E; lia].
    match goal with |- context [closeStreams ?l ?x] =>
      change (closeStreams l x) with (closeStreams (aboveLast false ga (storeGoAway false ga c)) (storeGoAway false ga c)) end.
    by rewrite Hrun.
Qed.

Lemma writeGoAway_fine P ga c : good c -> fine P c (writeGoAway ga c).
Proof.
  intros Hg. destruct (writeGoAway_ok ga c Hg) as [(g & _ & _ & ->)|(c' & -> & Hg' & He & _)]; [by apply fine_throw|].
  destruct (good_quiet c' _ Hg' (quiet_queue c' (QFrame (GoAwayFrame (ga_LastStreamID ga) (ga_ErrCode ga) (ga_DebugData ga))) true ltac:(done))) as [Hg2 He2].
  split_and!; [done|done|by eapply evolves_trans].
Qed.

(** ** Errors *)

Lemma Conn_stream_Some c id s : Conn_stream c id = Some s -> id ∈ cn_streams c /\ cn_objs c !! id = Some s.
Proof. unfold Conn_stream. by case_decide. Qed.

Lemma try_fine P id recv ft es c s :
  good c -> cn_objs c !! id = Some s -> (st_state s = StateIdle -> admissible id c) ->
  fine P c (tryTransition id recv ft es c).
Proof.
  intros Hg Hs Ha. apply fine_try, fine_bind; [|intros; by apply fine_ret].
  by apply (fine_weaken True), (transition_fine id recv ft es c s).
Qed.

Lemma fine_queue P x b c : good c -> (forall id, x <> QStream id) -> fine P c (cmodify (add_queue x b) c).
Proof. intros Hg Hx. apply fine_quiet; [done|by apply quiet_queue]. Qed.

Lemma writeRST_fine P onErr f c :
  (forall e c, good c -> fine P c (onErr e c)) -> good c -> fine P c (writeRSTStream onErr f c).
Proof.
  intros Hon Hg. unfold writeRSTStream. apply fine_get. destruct (Conn_stream c _) as [s|] eqn:Hs; [|by apply fine_ret].
  apply Conn_stream_Some in Hs as [Hin Hs].
  apply fine_bind; [by eapply try_fine; [done|done|left]|]. intros [e|] c' _ Hg' _; [|by apply fine_queue].
  apply fine_bind; [by apply Hon|]. intros _ c2 _ Hg2 _. by apply fine_throw.
Qed.

Lemma errGoAway_fine P code e c : good c -> fine P c (errGoAway code e c).
Proof. intros Hg. apply fine_get, fine_ignore, writeGoAway_fine, Hg. Qed.

Lemma each_fine {A} P (f : A -> C W unit) l c :
  (forall x c, good c -> fine P c (f x c)) -> good c -> fine P c (each f l c).
Proof.
  intros Hf. revert c. induction l as [|x l IH]; intros c Hg; [by apply fine_ret|].
  apply fine_bind; [by apply Hf|]. intros _ c' _ Hg' _. by apply IH.
Qed.

Lemma handleErr_rec_fine P n e c : good c -> fine P c (handleErr_rec n e c).
Proof.
  revert e c. induction n as [|n IH]; intros e c Hg; [by apply fine_ret|].
  destruct e; cbn [handleErr_rec]; try (by apply errGoAway_fine); try (by apply fine_ret).
  - apply fine_ignore, writeRST_fine; [|done]. by intros; apply IH.
  - apply each_fine; [|done]. intros x c' Hg'. apply fine_ignore, writeRST_fine; [|done]. by intros; apply IH.
Qed.

Lemma handleErr_fine P e c : good c -> fine P c (handleErr e c).
Proof. apply handleErr_rec_fine. Qed.

Lemma finishErr_fine {A} P e c : good c -> fine P c (@finishErr W _ A e c).
Proof. intros Hg. apply fine_bind; [by apply handleErr_fine|]. intros; by apply fine_throw. Qed.

(** ** Settings *)

(** The streams of a list exist. *)
Definition exist_all (ids : list Z) c : Prop := forall id, id ∈ ids -> is_Some (cn_objs c !! id).

Lemma exist_later ids c c' : evolves c c' -> exist_all ids c -> exist_all ids c'.
Proof.
  intros (_ & Ho & _) Hin id Hid. destruct (Hin id Hid) as [s Hs]. destruct (Ho id s Hs) as (s' & Hs' & _). eauto.
Qed.

Lemma exist_range c : good c -> exist_all (range_streams c) c.
Proof. intros [Hok _] id Hid%range_elem. by apply table_pos in Hid as [_ ?]. Qed.

Lemma readable_active s : readable s = true -> active s = true.
Proof. by destruct s. Qed.

Lemma recvWindow_fine P delta ids errs c :
  good c -> exist_all ids c -> fine P c (recvWindow_loop delta ids errs c).
Proof.
  revert errs c. induction ids as [|id ids IH]; intros errs c Hg Hin; [by apply fine_ret|].
  destruct (Hin id) as [s Hs]; [set_solver|]. assert (Hin' : exist_all ids c) by (intros j Hj; apply Hin; set_solver).
  cbn [recvWindow_loop]. apply fine_get. rewrite Hs. cbn [cbind cderef].
  unfold cbind at 1. cbn [cderef]. destruct (readable (st_state s)) eqn:Hr; [|by apply IH].
  destruct (ok_objs c (proj1 Hg) id s Hs) as (_ & _ & Hrv & _). destruct (Hrv (readable_active _ Hr)) as [f Hf]. rewrite Hf.
  unfold cbind at 1. cbn [cderef]. pose proof (fc_id_incrementInitial f delta) as Hi.
  destruct (fc_incrementInitialWindow f delta) as [e f']. cbn in Hi.
  apply fine_bind; [|intros _ c' _ Hg' He'; apply IH; [done|by eapply exist_later]].
  apply (fine_field P id s); [done|done|]. by apply (same_obj_recv id s f).
Qed.

Lemma errList_fine P errs c : good c -> fine P c (errList errs c).
Proof. destruct errs; [apply fine_ret|apply fine_throw]. Qed.

Lemma setInitialRecvWindow_fine P delta c : good c -> fine P c (setInitialRecvWindow delta c).
Proof.
  intros Hg. unfold setInitialRecvWindow. destruct (delta =? 0); [by apply fine_ret|]. apply fine_get.
  apply fine_bind; [by apply recvWindow_fine, exist_range|]. intros errs c' _ Hg' _. by apply errList_fine.
Qed.

Lemma rf_update_err f d r e f' :
  rf_updateWindow f d r = (Some e, f') -> rf_id f <> 0 -> e = StreamError ErrCodeFlowControl (rf_id f).
Proof.
  unfold rf_updateWindow. destruct (_ && _); [|by repeat case_match]. intros [= <- _] Hid.
  by destruct (rf_id f =? 0) eqn:E; [lia|].
Qed.

Lemma sendWindow_fine P delta ids errs c :
  good c -> exist_all ids c -> fine P c (sendWindow_loop delta ids errs c).
Proof.
  revert errs c. induction ids as [|id ids IH]; intros errs c Hg Hin; [by apply fine_ret|].
  destruct (Hin id) as [s Hs]; [set_solver|]. assert (Hin' : exist_all ids c) by (intros j Hj; apply Hin; set_solver).
  cbn [sendWindow_loop]. apply fine_get. rewrite Hs. unfold cbind at 1. cbn [cderef].
  destruct (writable (st_state s)) eqn:Hr; [|by apply IH].
  destruct (ok_objs c (proj1 Hg) id s Hs) as (Hid & _ & _ & Hw & _ & Hown). destruct (Hw Hr) as [f Hf]. rewrite Hf.
  destruct (ok_ids c (proj1 Hg) id s Hs) as [Hpos _]. pose proof (proj1 (proj1 Hown) f Hf) as Hfid.
  unfold cbind at 1. cbn [cderef]. destruct (rf_incrementInitialWindow f delta) as [e f'] eqn:Hinc.
  assert (Hf' : rf_id f' = id) by (rewrite <- Hfid; pose proof (rf_id_update f delta true) as Hi; unfold rf_incrementInitialWindow in Hinc; by rewrite Hinc in Hi).
  apply fine_bind.
  - apply (fine_field P id s); [done|done|]. apply (same_obj_send id s f); [done|congruence].
  - intros _ c' _ Hg' He'. pose proof (exist_later _ _ _ He' Hin') as Hin2.
    destruct e as [e|]; [|by apply IH].
    apply rf_update_err in Hinc; [|lia]. subst e. destruct (st_id s =? 0) eqn:E; [by apply fine_throw|by apply IH].
Qed.

Lemma setInitialSendWindow_fine P delta c : good c -> fine P c (setInitialSendWindow delta c).
Proof.
  intros Hg. unfold setInitialSendWindow. destruct (delta =? 0); [by apply fine_ret|]. apply fine_get.
  apply fine_bind; [by apply sendWindow_fine, exist_range|]. intros errs c' _ Hg' _. by apply errList_fine.
Qed.

(** An operation that leaves a part of the state alone. *)
Definition leaves {A X} (f : Conn W -> X) (m : C W A) : Prop := forall c, f (m c).2 = f c.

Lemma leaves_bind {A B X} (f : Conn W -> X) (m : C W A) (k : A -> C W B) :
  leaves f m -> (forall a, leaves f (k a)) -> leaves f (cbind m k).
Proof.
  intros Hm Hk c. unfold cbind. specialize (Hm c). destruct (m c) as [[a|e|] c']; cbn in *; [|done..].
  by rewrite <- Hm, Hk.
Qed.

Lemma leaves_get {A X} (f : Conn W -> X) (g : Conn W -> A) : leaves f (cget g).
Proof. done. Qed.

Lemma leaves_deref {A X} (f : Conn W -> X) (o : option A) : leaves f (cderef o).
Proof. by destruct o. Qed.

Definition codecs c : frameReader * frameWriter W := (cn_fr c, cn_fw c).

(** What a change of a stream leaves alone, a change of the windows does. *)
Lemma recvWindow_leaves {X} (p : Conn W -> X) delta ids errs :
  (forall id g c, p (upd_stream id g c) = p c) -> leaves p (recvWindow_loop delta ids errs).
Proof.
  intros Hp. revert errs. induction ids as [|id ids IH]; intros errs; [done|]. cbn [recvWindow_loop].
  apply leaves_bind; [apply leaves_get|]. intros s. apply leaves_bind; [apply leaves_deref|]. intros s'.
  destruct (readable _); [|apply IH]. apply leaves_bind; [apply leaves_deref|]. intros f.
  destruct (fc_incrementInitialWindow f delta). apply leaves_bind; [intros c; apply Hp|]. intros _. apply IH.
Qed.

Lemma sendWindow_leaves {X} (p : Conn W -> X) delta ids errs :
  (forall id g c, p (upd_stream id g c) = p c) -> leaves p (sendWindow_loop delta ids errs).
Proof.
  intros Hp. revert errs. induction ids as [|id ids IH]; intros errs; [done|]. cbn [sendWindow_loop].
  apply leaves_bind; [apply leaves_get|]. intros s. apply leaves_bind; [apply leaves_deref|]. intros s'.
  destruct (writable _); [|apply IH]. apply leaves_bind; [apply leaves_deref|]. intros f.
  destruct (rf_incrementInitialWindow f delta) as [[e|] f']; (apply leaves_bind; [intros c; apply Hp|]; intros _); [|apply IH].
  destruct (_ =? 0); [done|]. destruct e; try apply leaves_deref. apply IH.
Qed.

Lemma setInitialWindow_leaves {X} (p : Conn W -> X) b delta :
  (forall id g c, p (upd_stream id g c) = p c) ->
  leaves p (if b : bool then setInitialRecvWindow delta else setInitialSendWindow delta).
Proof.
  intros Hp. destruct b; unfold setInitialRecvWindow, setInitialSendWindow; (destruct (delta =? 0); [done|]);
    (apply leaves_bind; [apply leaves_get|]; intros ids; apply leaves_bind;
       [by apply recvWindow_leaves || by apply sendWindow_leaves|intros errs; by destruct errs]).
Qed.

(** The dynamic table that a HEADER_TABLE_SIZE of a side resizes can be resized to it. *)
Definition resizable (b : bool) (xs : Settings) c : Prop :=
  table_wf (if b then d_table (fr_dec (cn_fr c)) else e_table (fw_enc (cn_fw c))) /\
  Forall (fun x => s_ID x = SettingHeaderTableSize -> 0 <= s_Value x < 2 ^ 31) xs.

Lemma resizable_codecs b xs c c' : codecs c' = codecs c -> resizable b xs c -> resizable b xs c'.
Proof. unfold resizable. by intros [= -> ->]. Qed.

Lemma resizable_cons b x xs c : resizable b (x :: xs) c -> resizable b xs c.
Proof. intros [Hw Hf]. apply Forall_cons in Hf as [_ Hf]. done. Qed.

Lemma quiet_fr c fr : reader_le (cn_fr c) fr -> quiet_change c (cn_set_fr fr c).
Proof. intros. by split_and!. Qed.

Lemma quiet_fw c fw : quiet_change c (cn_set_fw fw c).
Proof. split_and!; done. Qed.

Lemma resize_ok b v c :
  resizable b [MkSetting SettingHeaderTableSize v] c ->
  exists c', (if b then d ← dec_SetMaxHeaderTableSize (fr_dec (cn_fr c)) v; Some (cn_set_fr (fr_set_dec d (cn_fr c)) c)
     else e ← enc_SetMaxHeaderTableSize (fw_enc (cn_fw c)) v;
          Some (cn_set_fw (fw_set_hpack e (fw_hpackBuf (cn_fw c)) (cn_fw c)) c)) = Some c' /\
    forall xs, Forall (fun x => s_ID x = SettingHeaderTableSize -> 0 <= s_Value x < 2 ^ 31) xs -> resizable b xs c'.
Proof.
  intros [Hwf Hv]. apply Forall_cons in Hv as [Hv _]. specialize (Hv eq_refl). cbn in Hv.
  destruct b; [unfold dec_SetMaxHeaderTableSize|unfold enc_SetMaxHeaderTableSize].
  - destruct (v <? _).
    + destruct (setMaxSize_wf _ v Hwf Hv) as (t & b & -> & Ht & _). eexists. split; [done|]. by split.
    + eexists. split; [done|]. by split.
  - destruct (setMaxSize_wf _ v Hwf Hv) as (t & b & -> & Ht & _). eexists. split; [done|]. by split.
Qed.

Lemma applySetting_fine P b l x c :
  good c -> (P -> resizable b [x] c) ->
  fine P c (applySetting b l x c) /\
  (P -> forall xs, resizable b xs c -> resizable b xs (applySetting b l x c).2).
Proof.
  intros Hg HP. unfold applySetting.
  destruct (s_ID x =? SettingEnablePush).
  { unfold cbind, cget. destruct (_ && _); (split; [by apply fine_throw || by apply fine_ret|done]). }
  destruct (s_ID x =? SettingInitialWindowSize).
  { split.
    - destruct b; [by apply setInitialRecvWindow_fine|by apply setInitialSendWindow_fine].
    - intros _ xs. by apply resizable_codecs, (setInitialWindow_leaves codecs b). }
  destruct (s_ID x =? SettingHeaderTableSize) eqn:Hid.
  { destruct x as [xid v]. cbn in Hid |- *. apply Z.eqb_eq in Hid. subst xid. unfold clift.
    match goal with |- context [match ?o with Some _ => _ | None => _ end] => destruct o as [c'|] eqn:E end.
    - split.
      + apply (fine_quiet P (fun _ => c')); [done|]. destruct b; apply bind_Some in E as (x & _ & [= <-]);
          [by apply quiet_fr|apply quiet_fw].
      + intros Hp xs [_ Hx]. destruct (resize_ok b v c (HP Hp)) as (c2 & E2 & Hr). cbn. assert (c2 = c') as <- by congruence.
        by apply Hr.
    - split; [|done]. split_and!; [|done|apply evolves_refl]. intros Hp. destruct (resize_ok b v c (HP Hp)) as (c2 & E2 & _). congruence. }
  destruct (s_ID x =? SettingMaxHeaderListSize).
  { split; [|by intros _ xs; destruct b]. apply fine_quiet; [done|]. destruct b; [by apply quiet_fr|apply quiet_fw]. }
  destruct (s_ID x =? SettingMaxFrameSize).
  { split; [|by intros _ xs; destruct b]. apply fine_quiet; [done|]. destruct b; [by apply quiet_fr|apply quiet_fw]. }
  split; [by apply fine_ret|done].
Qed.

Lemma quiet_side b f c : same_side (side b c) (f (side b c)) -> quiet_change c (upd_side b f c).
Proof. intros Hf. split_and!; try (by destruct b). intros b'. by destruct b, b'. Qed.

Lemma applySettings_loop_fine P b xs l c :
  good c -> (P -> resizable b xs c) -> fine P c (applySettings_loop b xs l c).
Proof.
  revert l c. induction xs as [|x xs IH]; intros l c Hg HP; [by apply fine_ret|]. cbn [applySettings_loop].
  assert (HP1 : P -> resizable b xs c) by (intros Hp; by apply (resizable_cons b x), HP).
  assert (HP2 : P -> resizable b [x] c) by (intros [Hw Hf]%HP; split; [done|]; apply Forall_cons in Hf as [? _]; apply Forall_cons; by split).
  destruct (known_setting _); [|by apply IH].
  destruct (applySetting_fine P b l x c Hg HP2) as [(Hn & Hg' & He) Hr].
  destruct (applySetting b l x c) as [[[]|e|] c']; cbn in Hn, Hg', He, Hr.
  - eapply fine_later; [exact He|]. apply IH; [done|]. intros Hp. by apply Hr, HP1.
  - eapply fine_later; [exact He|]. apply fine_quiet_res; [done|done|by apply quiet_side].
  - by apply (@fine_panic unit).
Qed.

Lemma applySettings_fine P b xs c : good c -> (P -> resizable b xs c) -> fine P c (applySettings b xs c).
Proof.
  intros Hg HP. apply fine_get, fine_bind; [by apply applySettings_loop_fine|].
  intros l c' _ Hg' _. apply fine_quiet; [done|by apply quiet_side].
Qed.
End Safety.
