(* ===== verification/ConnOps.v ===== *)
(** * Safety of writing, closing and the body reader

    The operations of [ConnIO] keep the invariant of the connection: [writeFrame] with the
    pieces of [stream.write], [close] and [CloseTimeout], [data.Read], and the dispatch of
    [readFrame]; with the exact conditions under which they do not panic. *)

From S2P Require Import Prelude HpackEncode HpackDecode Types Settings StreamState FlowControl WriteQueue.
From S2P Require Import HttpHeader HeaderTable StreamWrite FrameWriter FrameReader ReaderAdvance Conn ConnIO ConnInv ConnSafety.

Section Ops.
Context {W : Type} `{ConnEnv W}.
Implicit Types c : Conn W.
#[local] Hint Resolve reader_le_refl : core.

Local Notation "x <- m ;; k" := (cbind m (fun x => k))
  (at level 100, m at next level, right associativity).
Local Notation "m ;; k" := (cbind m (fun _ => k)) (at level 100, right associativity).

(** ** The writer of a stream *)

Lemma good_alter id f c :
  good c -> (forall s, cn_objs c !! id = Some s -> same_obj id s (f s)) ->
  good (upd_stream id f c) /\ evolves c (upd_stream id f c).
Proof.
  intros Hg Hf. destruct (cn_objs c !! id) as [s|] eqn:Hs; [by apply (good_field id s), Hf|].
  apply good_quiet; [done|].
  assert (Ho : cn_objs (upd_stream id f c) = cn_objs c) by (cbn; by apply alter_id; congruence).
  split_and!; try done. unfold data_ok. by rewrite Ho.
Qed.

Lemma fine_alter {A} P id f c (a : A) :
  good c -> (forall s, cn_objs c !! id = Some s -> same_obj id s (f s)) -> fine P c (Ok a, upd_stream id f c).
Proof. intros Hg Hf. destruct (good_alter id f c Hg Hf). by split_and!. Qed.

Lemma quiet_release c : quiet_change c (releaseID c).
Proof. unfold releaseID. destruct (cn_idState c); by split_and!. Qed.

Lemma finishWrite_good id r c : good c -> good (finishWrite id r c) /\ evolves c (finishWrite id r c).
Proof.
  intros Hg. destruct (good_alter id (st_set_writer WIdle) c Hg) as [Hg1 He1];
    [intros; split_and!; try done; apply own_flow_idle|].
  unfold finishWrite. destruct r; [|done].
  destruct (good_quiet _ _ Hg1 (quiet_release _)) as [Hg2 He2]. split; [done|by eapply evolves_trans].
Qed.

(** The stream exists and is not idle. *)
Definition moved (id : Z) c : Prop := exists s, cn_objs c !! id = Some s /\ st_state s <> StateIdle.

Lemma moved_later id c c' : evolves c c' -> moved id c -> moved id c'.
Proof.
  intros (_ & Ho & _) (s & Hs & Hni). destruct (Ho id s Hs) as (s' & Hs' & Hr & _). exists s'. split; [done|].
  intros E. rewrite E in Hr. destruct (st_state s); cbn in Hr; done || lia.
Qed.

(** The frame and the writer of a stream that is not idle may change. *)
Lemma busy_obj id s w (f : option Frame) :
  st_state s <> StateIdle -> (is_Some (st_frame s) -> is_Some f) -> same_obj id s (st_set_writer w (st_set_frame f s)).
Proof. intros Hni Hf. split_and!; try done. intros [Ho _]. by split. Qed.

Lemma queueStream_good id f rest r c :
  good c -> moved id c -> good (queueStream id f rest r c) /\ evolves c (queueStream id f rest r c).
Proof.
  intros Hg (s & Hs & Hni). unfold queueStream. set (g := fun s : stream => _). set (c1 := upd_stream id g c).
  destruct (good_alter id g c Hg) as [[Hok Hga] He]; [by intros t Ht; assert (t = s) as -> by congruence; apply busy_obj|]. fold c1 in Hok, Hga, He.
  assert (Hs1 : cn_objs c1 !! id = Some (g s)) by (cbn; by rewrite lookup_alter_eq, Hs).
  split; [|eapply evolves_trans; [exact He|by apply evolves_same]].
  split; [|exact Hga]. destruct Hok as [? ? ? ? ? ? ? ? Hq]. split; try done. intros j Hj.
  unfold add_queue in Hj. cbn [cn_queue cn_set_queue] in Hj. apply contents_add in Hj as [[= ->]|Hj]; [|by apply Hq].
  exists (g s). split; [done|]. by eexists.
Qed.

Lemma startWrite_fine P sel id f r c :
  good c -> moved id c -> fine P c (startWrite sel id f r c).
Proof.
  intros Hg Hid. destruct sel; cbn [startWrite]; [|by apply fine_throw..].
  apply fine_get. pose proof Hid as (s & Hs & Hni). rewrite Hs. unfold cbind at 1. cbn [cderef].
  destruct (st_sawEOS s); [by apply fine_throw|]. destruct (_ =? _).
  - apply fine_bind; [|intros; by apply fine_ret].
    destruct (queueStream_good id f None r c Hg Hid) as [Hg' He']. by apply fine_modify.
  - destruct f; try (by apply fine_throw). apply fine_bind; [|intros; by apply fine_ret].
    apply fine_alter; [done|]. intros t Ht. assert (t = s) as -> by congruence. by apply (busy_obj id s (WCredit _ r) (st_frame s)).
Qed.

Lemma deferRelease_fine P (m : C W wout) c : fine P c (m c) -> fine P c (deferRelease m c).
Proof.
  intros (Hp & Hg & He). unfold deferRelease. destruct (m c) as [[[]|e|] c']; cbn in Hp, Hg, He; try (by split_and!);
    (eapply fine_later; [exact He|]); apply fine_quiet_res; try done; apply quiet_release.
Qed.

(** ** [writeFrame] *)

Lemma is_Some_later id c c' : evolves c c' -> is_Some (cn_objs c !! id) -> is_Some (cn_objs c' !! id).
Proof. intros (_ & Ho & _) [s Hs]. destruct (Ho id s Hs) as (s' & Hs' & _). by eexists. Qed.

(** A frame that a stream sends moves it out of the idle state. *)
Lemma sent_moved id ft c c' s :
  good c -> cn_objs c !! id = Some s -> (st_state s = StateIdle -> admissible id c) -> ft <> FramePriority ->
  tryTransition id false ft false c = (Ok None, c') -> moved id c'.
Proof.
  intros Hg Hs Had Hft. unfold tryTransition, ctry, cbind, stream_transition. rewrite Hs.
  destruct (transition_state _ _ _ _) as [to|] eqn:Ht; [|done].
  pose proof (transition_legal _ _ _ _ _ Ht) as Hl.
  destruct (cas_good id to c s Hg Hs Hl (move_admissible id to c s (proj1 Hg) Hs Had Hl))
    as (c1 & s1 & -> & _ & _ & _ & Ho & Hst & _).
  assert (Hto : to <> StateIdle).
  { intros ->. destruct (st_state s); try done. revert Ht. unfold transition_state. cbn.
    assert (Hp : (ft =? FramePriority) = false) by lia. rewrite Hp. by repeat case_match. }
  intros [= <-]. unfold moved.
  assert (Hs1 : cn_objs c1 !! id = Some s1) by (by rewrite Ho, lookup_insert_eq).
  destruct (_ && _); [|exists s1; by rewrite Hst].
  exists (st_set_resetSent true s1). cbn. rewrite lookup_alter_eq, Hs1. by rewrite Hst.
Qed.

Lemma transWrite_fine P sel id ft f r c s :
  ft <> FramePriority -> good c -> cn_objs c !! id = Some s -> (st_state s = StateIdle -> admissible id c) ->
  fine P c ((err <- tryTransition id false ft false ;;
             match err with None => startWrite sel id f r | Some e => finishErr e end) c).
Proof.
  intros Hft Hg Hs Ha. apply fine_bind; [by apply (try_fine P id false ft false c s)|].
  intros [e|] c' Ht Hg' He'; [by apply finishErr_fine|]. apply startWrite_fine; [done|].
  by apply (sent_moved id ft c c' s).
Qed.

Lemma writeData_fine P sel f c : good c -> fine P c (writeData sel f c).
Proof.
  intros Hg. apply fine_get. destruct (Conn_stream c _) as [s|] eqn:Hs; [|by apply fine_throw].
  apply Conn_stream_Some in Hs as [Hin Hs]. apply (transWrite_fine P sel _ _ _ _ c s); [done|done|done|]. by left.
Qed.

(** A new local stream that is moved on at once. *)
Lemma idleThen_fine {A} P id (k : option error -> C W A) c :
  good c -> 0 <= id < 2 ^ 32 - 2 ->
  (forall c', good c' -> cn_objs c' !! id = Some (newStream id) -> admissible id c' -> fine P c' (k None c')) ->
  (forall e c', good c' -> fine P c' (k (Some e) c')) ->
  fine P c (cbind (ctry (idleStream true id)) k c).
Proof.
  intros Hg Hid Hn He. apply fine_bind; [by apply fine_try, idle_fine|]. intros [e|] c' Hrun Hg' _; [by apply He|].
  unfold ctry in Hrun. destruct (idleStream true id c) as [[[]|e|] c2] eqn:Hi; simplify_eq.
  destruct (idle_admissible true id c c' Hg Hid) as [Hs Ha]; [by left|done|]. by apply Hn.
Qed.

Lemma writeHeaders_fine P sel f c : good c -> 0 <= Frame_Stream f < 2 ^ 32 - 2 -> fine P c (writeHeaders sel f c).
Proof.
  intros Hg Hid. unfold writeHeaders. apply fine_get. destruct (Conn_stream c _) as [s|] eqn:Hs.
  - apply Conn_stream_Some in Hs as [Hin Hs]. apply (transWrite_fine P sel _ _ _ _ c s); [done|done|done|]. by left.
  - apply deferRelease_fine, idleThen_fine; [done|done| |by intros; apply finishErr_fine].
    intros c' Hg' Hs' Ha. by apply (transWrite_fine P sel _ _ _ _ c' (newStream (Frame_Stream f))).
Qed.

Lemma queued_fine P x b c : good c -> (forall id, x <> QStream id) -> fine P c ((cmodify (add_queue x b) ;; returned) c).
Proof. intros Hg Hx. apply fine_bind; [by apply fine_queue|]. intros. by apply fine_ret. Qed.

Lemma writeSettings_fine P ack xs c : good c -> fine P c (writeSettingsFrame ack xs c).
Proof.
  intros Hg. unfold writeSettingsFrame. destruct ack; [by apply fine_throw|]. apply fine_get.
  destruct (_ <? _); [|by apply fine_throw]. apply fine_bind; [by apply fine_quiet; [done|split_and!]|].
  intros _ c' _ Hg' _. by apply queued_fine.
Qed.

Lemma writePushPromise_fine P f pid c :
  good c -> (forall id, pid = Some id -> 0 <= id < 2 ^ 32 - 2) -> (P -> is_Some pid) -> fine P c (writePushPromise f pid c).
Proof.
  intros Hg Hid HP. unfold writePushPromise. apply fine_get. destruct (is_some _); [by apply finishErr_fine|].
  apply fine_get. destruct (Conn_stream c _) as [s|]; [|by apply finishErr_fine].
  destruct (negb _); [by apply finishErr_fine|]. apply fine_get. destruct (negb _); [by apply finishErr_fine|].
  apply deferRelease_fine, fine_bind; [by apply fine_deref|]. intros id c1 Hd Hg1 _.
  destruct pid as [id'|]; [|done]. assert (id' = id) as -> by (cbv in Hd; congruence).
  apply idleThen_fine; [done|by apply Hid| |].
  - intros c2 Hg2 Hs2 Ha. apply fine_bind; [by apply (try_fine P id _ _ _ c2 (newStream id))|].
    intros [e|] c3 _ Hg3 _; [by apply finishErr_fine|by apply queued_fine].
  - intros e c2 Hg2. apply fine_bind; [by apply fine_ret|]. intros [e'|] c3 _ Hg3 _; [by apply finishErr_fine|by apply queued_fine].
Qed.

(** The stream, if it is in the map, has a receive window. *)
Definition has_recv (id : Z) c : Prop := forall s, id <> 0 -> Conn_stream c id = Some s -> is_Some (st_recvFlow s).
Definition has_send (id : Z) c : Prop := forall s, id <> 0 -> Conn_stream c id = Some s -> is_Some (st_sendFlow s).

Lemma writeWindowUpdate_fine P id n c : good c -> (P -> has_recv id c) -> fine P c (writeWindowUpdate id n c).
Proof.
  intros Hg HP. unfold writeWindowUpdate. apply fine_bind; [|intros [e|] c' _ Hg' _; [by apply finishErr_fine|by apply fine_ret]].
  destruct (id =? 0) eqn:Hid.
  - destruct (fc_incrementWindow _ _) as [[e f] fs]. apply fine_quiet_res; [done|done|].
    eapply quiet_trans; [|apply quiet_frames]. by split_and!.
  - apply fine_get. destruct (Conn_stream c id) as [s|] eqn:Hs; [|by apply fine_ret].
    pose proof Hs as [_ Hs']%Conn_stream_Some.
    apply fine_bind; [apply fine_deref; [done|]; intros Hp; apply (HP Hp); [lia|done]|]. intros f c1 Hd Hg1 _.
    destruct (st_recvFlow s) as [f'|] eqn:Hf; [|done]. assert (f' = f /\ c1 = c) as [-> ->] by (cbv in Hd; split; congruence).
    pose proof (fc_id_incrementWindow f n) as Hi. destruct (fc_incrementWindow f n) as [[e f1] fs]. cbn in Hi.
    apply fine_bind; [|intros; by apply fine_ret].
    destruct (good_field id s (st_set_recvFlow (Some f1)) c Hg Hs') as [Hg2 He2]; [by apply (same_obj_recv id s f)|].
    destruct (good_quiet _ _ Hg2 (quiet_frames fs _)) as [Hg3 He3]. apply fine_modify; [done|by eapply evolves_trans].
Qed.

(** The frame is of the Go type that its frame type names. *)
Definition typed_frame (f : Frame) : Prop :=
  match f with UnknownFrame t _ _ _ _ => FrameContinuation <= t | _ => True end.

Definition write_safe (f : Frame) c : Prop :=
  typed_frame f /\ match f with WindowUpdateFrame id _ => has_recv id c | _ => True end.

Ltac type_clash :=
  cbn in *; unfold FrameContinuation, FrameSettings, FramePushPromise, FramePing, FrameGoAway, FrameWindowUpdate in *;
  first [discriminate|lia].
Ltac mistyped := apply fine_deref; [done|]; intros [Ht _]; exfalso; type_clash.

Theorem writeFrame_fine sel f c : good c -> ids_ok f -> fine (write_safe f c) c (writeFrame sel f c).
Proof.
  intros Hg [Hid Hpid]. unfold writeFrame.
  repeat (match goal with |- context [Frame_Type f =? ?t] => destruct (Frame_Type f =? t) eqn:?E end;
    [|try (by apply queued_fine)]).
  - by apply writeData_fine.
  - by apply writeHeaders_fine.
  - by apply fine_ret.
  - apply fine_bind; [apply writeRST_fine; [|done]; by intros; apply handleErr_fine|]. intros; by apply fine_ret.
  - destruct f; try (by apply writeSettings_fine); mistyped.
  - destruct f; (apply writePushPromise_fine; [done|intros ? Heq; by simplify_eq|intros [Ht _]; first [exfalso; type_clash|by eexists]]).
  - destruct f as [| | | | | |ack d| | |]; try mistyped.
    destruct ack; [by apply fine_throw|by apply queued_fine].
  - destruct f; try mistyped.
    apply fine_bind; [by apply writeGoAway_fine|]. intros; by apply fine_ret.
  - destruct f; try mistyped.
    apply writeWindowUpdate_fine; [done|]. by intros [_ ?].
Qed.

(** ** Closing *)

Lemma closeStreams_fine P ids c : good c -> exist_all ids c -> fine P c (closeStreams ids c).
Proof.
  revert c. induction ids as [|id ids IH]; intros c Hg Hin; [by apply fine_ret|].
  destruct (Hin id) as [s Hs]; [set_solver|].
  apply fine_bind; [by apply (fine_weaken True), (close_fine id c s)|]. intros _ c' _ Hg' He'.
  apply IH; [done|]. eapply exist_later; [exact He'|]. intros j Hj. apply Hin. set_solver.
Qed.

Lemma close_fine_conn P c : good c -> fine P c (Conn_close c).
Proof.
  intros Hg. apply fine_get. destruct (cn_closed c); [by apply fine_throw|].
  apply fine_bind; [apply fine_quiet; [done|by split_and!]|]. intros _ c1 _ Hg1 _. apply fine_get, fine_get.
  apply fine_bind; [destruct (0 <? _); [by apply closeStreams_fine, exist_range|by apply fine_ret]|].
  intros _ c2 _ Hg2 _. apply fine_bind; [apply fine_quiet; [done|by split_and!]|]. intros _ c3 _ Hg3 _. by apply fine_return.
Qed.

Lemma CloseTimeout_fine P h t c : good c -> fine P c (CloseTimeout h t c).
Proof.
  intros Hg. apply fine_get. destruct (cn_closing c); [by apply fine_ret|].
  apply fine_bind; [apply fine_quiet; [done|by split_and!]|]. intros _ c1 _ Hg1 _. destruct h; cbn [negb].
  - apply fine_get, fine_bind; [by apply fine_ignore, writeGoAway_fine|]. intros _ c2 _ Hg2 _.
    apply fine_bind; [apply fine_quiet; [done|by apply quiet_queue]|]. intros _ c3 _ Hg3 _.
    destruct (t <=? 0); [|by apply fine_ret]. apply fine_bind; [by apply close_fine_conn|]. intros; by apply fine_ret.
  - apply fine_bind; [by apply close_fine_conn|]. intros; by apply fine_ret.
Qed.

(** ** The bytes of DATA frames *)

Lemma stream_returnBytes_fine P id n c :
  good c -> is_Some (cn_objs c !! id) -> (P -> is_Some (cn_objs c !! id ≫= st_recvFlow)) ->
  fine P c (stream_returnBytes id n c).
Proof.
  intros Hg [s Hs] HP. unfold stream_returnBytes. rewrite Hs in *. cbn in *. destruct (st_recvFlow s) as [f|] eqn:Hf.
  - pose proof (fc_id_return (cn_recv c) f n) as Hi. destruct (returnBytes (cn_recv c) f n) as [[[e conn] f'] fs]. cbn in Hi.
    destruct (good_quiet c (cn_set_recv conn c) Hg) as [Hg1 He1]; [by split_and!|].
    destruct (good_field id s (st_set_recvFlow (Some f')) _ Hg1 Hs) as [Hg2 He2]; [by apply (same_obj_recv id s f)|].
    destruct (good_quiet _ _ Hg2 (quiet_frames fs _)) as [Hg3 He3].
    eapply fine_later; [|by apply fine_return]. eapply evolves_trans; [exact He1|]. eapply evolves_trans; [exact He2|done].
  - split_and!; [|done|apply evolves_refl]. intros Hp. by destruct (HP Hp).
Qed.

Lemma stream_consumeBytes_fine P id n c :
  good c -> is_Some (cn_objs c !! id) -> (P -> is_Some (cn_objs c !! id ≫= st_recvFlow)) ->
  fine P c (stream_consumeBytes id n c).
Proof.
  intros Hg [s Hs] HP. unfold stream_consumeBytes. rewrite Hs in *. cbn in *. destruct (st_recvFlow s) as [f|] eqn:Hf.
  - pose proof (fc_id_consume (cn_recv c) f n) as Hi. destruct (consumeBytes (cn_recv c) f n) as [[e conn] f']. cbn in Hi.
    destruct (good_quiet c (cn_set_recv conn c) Hg) as [Hg1 He1]; [by split_and!|].
    destruct (good_field id s (st_set_recvFlow (Some f')) _ Hg1 Hs) as [Hg2 He2]; [by apply (same_obj_recv id s f)|].
    eapply fine_later; [|by apply fine_return]. eapply evolves_trans; [exact He1|done].
  - split_and!; [|done|apply evolves_refl]. intros Hp. by destruct (HP Hp).
Qed.

Lemma skipData_fine P n c : good c -> fine P c (skipData n c).
Proof.
  intros Hg. unfold skipData. destruct (0 <? n); [|by apply fine_ret].
  destruct (consumeBytes_conn (cn_recv c) n) as [[e|] f]; [by apply fine_quiet_res; [..|split_and!]|].
  destruct (returnBytes_conn f n) as [[e f'] fs].
  destruct (good_quiet c (add_frames fs (cn_set_recv f' c)) Hg) as [Hg1 He1].
  { eapply quiet_trans; [|apply quiet_frames]. by split_and!. }
  eapply fine_later; [exact He1|by apply fine_return].
Qed.

Lemma recv_later id c c' : evolves c c' -> is_Some (cn_objs c !! id ≫= st_recvFlow) -> is_Some (cn_objs c' !! id ≫= st_recvFlow).
Proof.
  intros (_ & Ho & _) [f Hf]. apply bind_Some in Hf as (s & Hs & Hf). destruct (Ho id s Hs) as (s' & Hs' & _ & Hr).
  rewrite Hs'. apply Hr. by eexists.
Qed.

(** ** The body reader *)

Definition body_safe c : Prop := cn_lastData c = true \/ dt_sawEOF (cn_data c) = true.

(** The stream of the body that is read. *)
Lemma body_stream c :
  good c -> cn_lastData c = true -> dt_sawEOF (cn_data c) = false ->
  exists s, cn_objs c !! dt_stream (cn_data c) = Some s /\ is_Some (st_recvFlow s) /\ st_state s <> StateIdle.
Proof. intros [Hok _]. apply Hok. Qed.

Lemma quiet_data c d : dt_sawEOF d = true -> quiet_change c (cn_set_data d c).
Proof. intros Hd. split_and!; try done. intros _ _. cbn. congruence. Qed.

Lemma returnBytesLocked_fine c : good c -> cn_lastData c = true -> fine True c (returnBytesLocked c).
Proof.
  intros Hg Hl. unfold returnBytesLocked. apply fine_get. destruct (dt_sawEOF (cn_data c)) eqn:He; [by apply fine_return|].
  destruct (body_stream c Hg Hl He) as (s & Hs & Hrv & Hni). apply fine_get.
  apply fine_bind; [by apply fine_quiet, quiet_data|]. intros _ c1 _ Hg1 He1.
  pose proof He1 as (_ & Ho1 & _). destruct (Ho1 _ s Hs) as (s1 & Hs1 & _ & Hr1).
  apply fine_bind.
  { apply fine_try, stream_returnBytes_fine; [done|by eexists|]. intros _. rewrite Hs1. by apply Hr1. }
  intros err c2 _ Hg2 He2. pose proof (evolves_trans _ _ _ He1 He2) as (_ & Ho2 & _).
  destruct (Ho2 _ s Hs) as (s2 & Hs2 & Hrk & _).
  apply fine_bind.
  { destruct err; [by apply fine_ret|]. destruct (dt_endStream _); [|by apply fine_ret].
    apply (try_fine True _ true FrameData true c2 s2); [done|done|]. intros Hid. rewrite Hid in Hrk.
    destruct (st_state s); cbn in Hrk; try lia. done. }
  intros err' c3 _ Hg3 He3. apply fine_bind; [by apply fine_quiet, quiet_data|]. intros _ c4 _ Hg4 _. by apply fine_return.
Qed.

Lemma data_Read_fine P k c : good c -> body_safe c -> (P -> (payloadRead k (cn_fr c)).1 <> Panic) -> fine P c (data_Read k c).
Proof.
  intros Hg Hb HP. unfold data_Read. pose proof (payloadRead_le k (cn_fr c)) as Hle.
  destruct (payloadRead k (cn_fr c)) as [r fr]. cbn in HP, Hle.
  destruct (good_quiet c (cn_set_fr fr c) Hg (quiet_fr c fr Hle)) as [Hg1 He1]. set (c1 := cn_set_fr fr c) in *.
  destruct r as [l|e|].
  - eapply fine_later; [exact He1|]. apply fine_quiet_res; [done|done|]. by split_and!.
  - destruct e; try (by split_and!). eapply fine_later; [exact He1|].
    assert (Hf : fine True c1 (returnBytesLocked c1)).
    { destruct Hb as [Hb|Hb]; [by apply returnBytesLocked_fine|]. unfold returnBytesLocked. apply fine_get.
      change (cn_data c1) with (cn_data c). rewrite Hb. by apply fine_return. }
    apply (fine_weaken True P) in Hf; [|done]. destruct (returnBytesLocked c1) as [[u|e|] c2]; [..|by apply (fine_panic (A:=unit))];
      destruct Hf as (_ & ? & ?); by split_and!.
  - by split_and!.
Qed.

(** ** The frames that [readFrame] dispatches *)

(** A stream in the map was not reset, so a frame it refuses is a connection error. *)
Lemma table_refused id ft es c s e c' :
  good c -> id ∈ cn_streams c -> cn_objs c !! id = Some s -> tryTransition id true ft es c = (Ok (Some e), c') ->
  exists code, e = ConnError code.
Proof.
  intros [Hok _] (s' & Hs' & Hl)%(ok_table c Hok) Hs. assert (s' = s) as -> by congruence.
  destruct (ok_objs c Hok id s Hs) as (_ & _ & _ & _ & Hr & _).
  destruct Hr as [Hr1 Hr2]; [by intros E; rewrite E in Hl|].
  unfold tryTransition, ctry, cbind, stream_transition. rewrite Hs, Hr1, Hr2.
  destruct (transition_state _ _ _ _) as [to|]; [by destruct (compareAndSwapState id (st_state s) to c)|].
  intros [= <- _]. unfold refused. cbn [negb]. destruct (st_state s); [..|destruct (_ || _)]; by eexists.
Qed.

(** A stream that takes DATA has a receive window. *)
Lemma data_window id c s c' :
  good c -> cn_objs c !! id = Some s -> tryTransition id true FrameData false c = (Ok None, c') ->
  is_Some (cn_objs c !! id ≫= st_recvFlow).
Proof.
  intros [Hok _] Hs. destruct (ok_objs c Hok id s Hs) as (_ & _ & Hr & _).
  unfold tryTransition, ctry, cbind, stream_transition. rewrite Hs. cbn [mbind option_bind].
  destruct (transition_state _ _ _ _) as [to|] eqn:Ht; [|done]. intros _. apply Hr.
  by destruct (st_state s).
Qed.

Lemma orConnError_fine P m e k c :
  fine P c (m c) -> (forall c', good c' -> evolves c c' -> fine P c' (k c')) -> fine P c (orConnError m e k c).
Proof.
  intros Hm Hk. apply fine_bind; [by apply fine_try|]. intros [[]|] c' _ Hg' He'; try (by apply Hk). by apply fine_ret.
Qed.

Lemma readData_fine P id n p e c : good c -> fine P c (readData id n p e c).
Proof.
  intros Hg. unfold readData. apply fine_get. destruct (Conn_stream c id) as [s|] eqn:Hs.
  2: { apply fine_bind; [by apply skipData_fine|]. intros; by apply fine_ret. }
  apply Conn_stream_Some in Hs as [Hin Hs].
  apply fine_bind; [apply (try_fine P id _ _ _ c s); [done|done|by left]|]. intros [err|] c1 Ht Hg1 He1.
  { destruct (table_refused _ _ _ _ _ _ _ Hg Hin Hs Ht) as [code ->]. by apply fine_throw. }
  pose proof (data_window _ _ _ _ Hg Hs Ht) as Hw. assert (He1' := recv_later id _ _ He1 Hw).
  assert (Hid : is_Some (cn_objs c1 !! id)) by (eapply is_Some_later; [exact He1|by eexists]).
  apply fine_bind; [by apply fine_try, stream_consumeBytes_fine|]. intros [err|] c2 _ Hg2 He2.
  - destruct err; try (by apply fine_throw); (apply fine_bind; [|intros; by apply fine_throw]);
      (apply orConnError_fine; [|intros; by apply fine_ret]);
      (apply stream_returnBytes_fine; [done|by eapply is_Some_later|intros _; by apply (recv_later id c1)]).
  - apply fine_bind; [|intros; by apply fine_ret]. apply fine_quiet; [done|]. split_and!; try done.
    intros _ _ _. cbn. pose proof (recv_later id _ _ He2 He1') as [f Hf]. apply bind_Some in Hf as (s2 & Hs2 & Hf).
    exists s2. split_and!; [done|by eexists|]. intros Hidle.
    pose proof (evolves_trans _ _ _ He1 He2) as (_ & Ho & _). destruct (Ho id s Hs) as (s3 & Hs3 & Hrk & _).
    assert (s3 = s2) as -> by congruence. rewrite Hidle in Hrk. apply (ok_table c (proj1 Hg)) in Hin as (t & Ht' & Hl).
    assert (t = s) as -> by congruence. destruct (st_state s); cbn in Hrk, Hl; done || lia.
Qed.

Lemma readHeaders_fine P id e c :
  good c -> 0 <= id < 2 ^ 32 - 2 ->
  (forall g, cs_goAway (cn_remote c) = Some g -> cs_validStreamID (cn_remote c) id = true -> id <= ga_LastStreamID g) ->
  fine P c (readHeaders id e c).
Proof.
  intros Hg Hid Hlast. unfold readHeaders. apply fine_get. destruct (Conn_stream c id) as [s|] eqn:Hs.
  - apply Conn_stream_Some in Hs as [Hin Hs]. apply fine_bind; [by apply fine_ret|]. intros [] c1 [= <-] _ _.
    apply fine_bind; [|intros; by apply fine_ret]. apply (fine_weaken True); [done|]. apply (transition_fine id _ _ _ c s); [done|done|by left].
  - apply fine_bind; [by apply idle_fine|]. intros [] c1 Hi Hg1 He1.
    destruct (idle_admissible false id c c1 Hg Hid) as [Hs1 Ha]; [|done|].
    { right. intros g Hgg. apply Hlast; [done|]. unfold idleStream in Hi. cbn in Hi.
      destruct (is_some _); [done|]. by destruct (cs_validStreamID _ _). }
    apply fine_bind; [|intros; by apply fine_ret]. apply (fine_weaken True); [done|].
    by apply (transition_fine id _ _ _ c1 (newStream id)).
Qed.

Lemma readSettings_fine P ack xs c :
  good c -> (P -> ack = true -> forall x ch, cn_settingsCh c = x :: ch -> resizable true x c) ->
  fine P c (readSettingsFrame ack xs c).
Proof.
  intros Hg HP. unfold readSettingsFrame. destruct ack.
  - apply fine_get. destruct (cn_settingsCh c) as [|x ch] eqn:Hch; [by apply fine_ret|].
    apply fine_bind; [apply fine_quiet; [done|by split_and!]|]. intros [] c1 [= <-] Hg1 _.
    apply fine_bind; [|intros; by apply fine_ret]. apply applySettings_fine; [done|]. intros Hp. by apply (HP Hp eq_refl x ch).
  - apply fine_get. destruct (_ && _); [by apply fine_throw|]. apply fine_bind; [by apply fine_queue|]. intros; by apply fine_ret.
Qed.

Lemma readPushPromise_fine P id pid c : good c -> 0 <= pid < 2 ^ 32 - 2 -> fine P c (readPushPromise id pid c).
Proof.
  intros Hg Hid. unfold readPushPromise. apply fine_get. destruct (Conn_stream c id) as [s|]; [|by apply fine_throw].
  destruct (negb _); [by apply fine_throw|]. apply fine_get. destruct (negb _); [by apply fine_throw|].
  apply fine_bind; [by apply idle_fine|]. intros [] c1 Hi Hg1 _.
  destruct (idle_admissible true pid c c1 Hg Hid) as [Hs1 Ha]; [by left|done|].
  apply fine_bind; [|intros; by apply fine_ret]. apply (fine_weaken True); [done|].
  by apply (transition_fine pid _ _ _ c1 (newStream pid)).
Qed.

Lemma readGoAway_spec ga c :
  good c -> exists c', readGoAway ga c = (Ok RReturn, Flush c') /\ good c' /\ evolves c c' /\
    same_env (storeGoAway true ga c) c' /\
    (forall id, id ∈ cn_streams c' <-> id ∈ cn_streams c /\ ~ (ga_LastStreamID ga < id /\ stream_local id c = true)).
Proof.
  intros [Hok Hga]. destruct (closeAbove_spec true ga c Hok Hga) as (c' & Hrun & Hg' & He & Henv & HX); [done|].
  exists c'. split_and!; try done. unfold readGoAway, cbind, cget, cmodify. cbn beta iota.
  match goal with |- context [closeStreams ?l ?x] =>
    change (closeStreams l x) with (closeStreams (aboveLast true ga (storeGoAway true ga c)) (storeGoAway true ga c)) end.
  by rewrite Hrun.
Qed.

Lemma readGoAway_fine P ga c : good c -> fine P c (readGoAway ga c).
Proof.
  intros Hg. destruct (readGoAway_spec ga c Hg) as (c' & -> & Hg' & He & _). eapply fine_later; [exact He|].
  apply fine_quiet_res; [done|done|by apply quiet_queue].
Qed.

Lemma readWindowUpdate_fine P id n c : good c -> (P -> has_send id c) -> fine P c (readWindowUpdate id n c).
Proof.
  intros Hg HP. unfold readWindowUpdate. destruct (id =? 0) eqn:Hid.
  - destruct (rf_incrementWindow _ _) as [e f]. destruct (good_quiet c (cn_set_send f c) Hg) as [Hg1 He1]; [by split_and!|].
    eapply fine_later; [exact He1|]. apply fine_bind; [by apply fine_return|]. intros; by apply fine_ret.
  - apply fine_get. destruct (Conn_stream c id) as [s|] eqn:Hs; [|by apply fine_ret].
    pose proof Hs as [_ Hs']%Conn_stream_Some.
    apply fine_bind; [apply fine_deref; [done|]; intros Hp; apply (HP Hp); [lia|done]|]. intros f c1 Hd Hg1 _.
    destruct (st_sendFlow s) as [f'|] eqn:Hf; [|done]. assert (f' = f /\ c1 = c) as [-> ->] by (cbv in Hd; split; congruence).
    pose proof (rf_id_update f n false) as Hi. fold (rf_incrementWindow f n) in Hi.
    destruct (rf_incrementWindow f n) as [e f1]. cbn in Hi.
    apply fine_bind; [|intros _ c2 _ Hg2 _; apply fine_bind; [by apply fine_return|]; intros; by apply fine_ret].
    apply (fine_field P id s); [done|done|]. by apply (same_obj_send id s f).
Qed.

(** When the dispatch of a frame does not panic: a WINDOW_UPDATE needs a send window, and the
    acknowledgement of SETTINGS a decoder table that can be resized. *)
Definition dispatch_safe (f : Frame) c : Prop :=
  match f with
  | WindowUpdateFrame id _ => has_send id c
  | SettingsFrame true _ => forall x ch, cn_settingsCh c = x :: ch -> resizable true x c
  | _ => True
  end.

Lemma dispatch_fine f c : good c -> ids_ok f -> fine (dispatch_safe f c) c (dispatch f c).
Proof.
  intros Hg [Hid Hpid]. unfold dispatch. apply fine_get. destruct (droppedAfterGoAway f c) eqn:Hd.
  { apply fine_bind; [destruct f; (by apply skipData_fine) || (by apply fine_ret)|]. intros; by apply fine_ret. }
  destruct f as [id d n p e|id h pr p e|id pr|id code|ack xs|id pid h p|ack d|last code debug|id n|t id fl d n]; try (by apply fine_ret).
  - by apply readData_fine.
  - apply readHeaders_fine; [done|done|]. unfold droppedAfterGoAway in Hd. intros g Hgg Hv. rewrite Hgg in Hd. cbn in Hd.
    rewrite Hv in Hd. cbn in Hd. lia.
  - apply fine_get. destruct (Conn_stream c id) as [s|] eqn:Hs; [|by apply fine_ret].
    apply Conn_stream_Some in Hs as [Hin Hs]. apply fine_bind; [apply (try_fine _ id _ _ _ c s); [done|done|by left]|].
    intros; by apply fine_ret.
  - apply readSettings_fine; [done|]. intros Hp ->. exact Hp.
  - by apply readPushPromise_fine.
  - apply fine_bind; [destruct ack; [by apply fine_ret|by apply fine_queue]|]. intros; by apply fine_ret.
  - by apply readGoAway_fine.
  - by apply readWindowUpdate_fine.
Qed.
End Ops.
