(* ===== verification/ConnRun.v ===== *)
(** * Safety of the read loop, the write loop and waiting writers

    The rounds of [readFrame] and [writeLoop], the steps of writers that wait for credit and
    the allocation of identifiers keep the invariant of the connection. *)

From S2P Require Import Prelude HpackEncode HpackDecode Types Settings StreamState FlowControl WriteQueue.
From S2P Require Import HttpHeader HeaderTable StreamWrite FrameWriter FrameReader ReaderAdvance Conn ConnIO ConnInv ConnSafety ConnOps.

Section Run.
Context {W : Type} `{ConnEnv W}.
Implicit Types c : Conn W.
#[local] Hint Resolve reader_le_refl : core.

Local Notation "x <- m ;; k" := (cbind m (fun x => k))
  (at level 100, m at next level, right associativity).
Local Notation "m ;; k" := (cbind m (fun _ => k)) (at level 100, right associativity).

(** ** Reading *)

Lemma readExit_fine P e c : good c -> fine P c (readExit e c).
Proof.
  intros Hg. assert (Hd : forall e', fine P c ((handleErr e' ;; cret (XReturn (Some e'))) c)).
  { intros e'. apply fine_bind; [by apply handleErr_fine|]. intros; by apply fine_ret. }
  assert (Hn : fine P c (match env_netError e with
    | Some true => (Ok XAgain, c)
    | Some false => (err <- ctry Conn_close ;; cret (XReturn err)) c
    | None => (handleErr e ;; cret (XReturn (Some e))) c end)).
  { destruct (env_netError e) as [[]|]; [by apply fine_ret| |apply Hd].
    apply fine_bind; [by apply fine_try, close_fine_conn|]. intros; by apply fine_ret. }
  unfold readExit. destruct e; try exact Hn. destruct (_ || _); [by apply fine_ret|apply Hd].
Qed.

Lemma afterExit_fine P k e c :
  good c -> (forall c', good c' -> evolves c c' -> fine P c' (k c')) -> fine P c (afterExit k e c).
Proof.
  intros Hg Hk. apply fine_bind; [by apply readExit_fine|].
  intros [|[e'|]] c' _ Hg' He'; [by apply Hk|by apply fine_throw|by apply fine_ret].
Qed.

Lemma fr_later c c' : evolves c c' -> fr_ok (cn_fr c) -> fr_ok (cn_fr c').
Proof. intros (_ & _ & _ & _ & _ & _ & Hr & _). exact Hr. Qed.

Lemma readFrame_loop_fine fuel c : good c -> fr_ok (cn_fr c) -> fine False c (readFrame_loop fuel c).
Proof.
  revert c. induction fuel as [|fuel IH]; intros c Hg Hr; [by apply fine_ret|]. cbn [readFrame_loop].
  unfold conn_ReadFrame. destruct (ReadFrame_le (cn_fr c)) as [Hle Hids].
  destruct (ReadFrame (cn_fr c)) as [x fr]. cbn in Hle, Hids.
  destruct (good_quiet c (cn_set_fr fr c) Hg (quiet_fr c fr Hle)) as [Hg1 He1]. set (c1 := cn_set_fr fr c) in *.
  assert (Hr1 : fr_ok (cn_fr c1)) by (by apply (fr_later c)).
  assert (Hex : forall e c2, good c2 -> evolves c1 c2 -> fine False c2 (afterExit (readFrame_loop fuel) e c2)).
  { intros e c2 Hg2 He2. apply afterExit_fine; [done|]. intros c3 Hg3 He3. apply IH; [done|].
    by apply (fr_later c2), (fr_later c1). }
  eapply fine_later; [exact He1|]. destruct x as [f|e|].
  - pose proof (dispatch_fine f c1 Hg1 (ids_read_ok f (Hids Hr f eq_refl))) as (_ & Hg2 & He2).
    destruct (dispatch f c1) as [[[]|e|] c2]; cbn in Hg2, He2.
    + eapply fine_later; [exact He2|]. apply IH; [done|]. by apply (fr_later c1).
    + by split_and!.
    + eapply fine_later; [exact He2|]. apply Hex; done.
    + by split_and!.
  - by apply Hex, evolves_refl.
  - split_and!; [done|done|apply evolves_refl].
Qed.

Lemma quiet_lastData c : quiet_change c (cn_set_lastData false c).
Proof. by split_and!. Qed.

Lemma readFrame_fine fuel c : good c -> fr_ok (cn_fr c) -> fine False c (readFrame fuel c).
Proof.
  intros Hg Hr. unfold readFrame. destruct (cn_lastData c) eqn:Hl; [|by apply readFrame_loop_fine].
  destruct (returnBytesLocked_fine c Hg Hl) as (_ & Hg1 & He1).
  destruct (returnBytesLocked c) as [[[]|e|] c1]; cbn in Hg1, He1; [..|by split_and!];
    (eapply fine_later; [exact He1|]); destruct (good_quiet _ _ Hg1 (quiet_lastData c1)) as [Hg2 He2];
    (eapply fine_later; [exact He2|]).
  - apply readFrame_loop_fine; [done|]. by apply (fr_later c1), (fr_later c).
  - apply afterExit_fine; [done|]. intros c3 Hg3 He3. apply readFrame_loop_fine; [done|].
    by apply (fr_later _ _ He3), (fr_later c1), (fr_later c).
Qed.

(** ** Writers that wait for credit *)

Lemma rf_receive_id f w p : rf_receive f = Some (w, p) -> rf_id p = rf_id f.
Proof. unfold rf_receive. destruct (rf_winCh f); [|done]. by intros [= _ <-]. Qed.

Lemma rf_incr_id f d : rf_id (rf_incrementWindow f d).2 = rf_id f.
Proof. apply rf_id_update. Qed.

Lemma allocate_id conn f n m x : allocateBytes (MkCredit conn f [] 0) n = (inr m, x) -> rf_id (cr_stream x) = rf_id f.
Proof.
  unfold allocateBytes. destruct (n <=? 0); [by intros [= _ <-]|]. cbn [wait].
  destruct (rf_receive (rf_incrementWindow f 0).2) as [[sw p]|] eqn:E; [|done].
  apply rf_receive_id in E. rewrite rf_incr_id in E. cbn [wait].
  destruct (rf_receive (rf_incrementWindow conn 0).2) as [[cw q]|]; [|done]. intros [= _ <-]. cbn.
  destruct (_ <? sw); [by rewrite rf_incr_id|done].
Qed.

Lemma allocateNow_good id n c m c' :
  good c -> is_Some (cn_objs c !! id) -> allocateNow id n c = Some (m, c') -> good c' /\ evolves c c'.
Proof.
  intros Hg [s Hs]. unfold allocateNow. destruct (n <=? 0); [intros [= _ <-]; split; [done|apply evolves_refl]|].
  rewrite Hs. cbn. destruct (st_sendFlow s) as [f|] eqn:Hf; [|done]. cbn.
  destruct (allocateBytes _ _) as [[e|k] x] eqn:Ha; [done|]. intros [= _ <-]. apply allocate_id in Ha.
  destruct (good_quiet c (cn_set_send (cr_conn x) c) Hg) as [Hg1 He1]; [by split_and!|].
  destruct (good_field id s (st_set_sendFlow (Some (cr_stream x))) _ Hg1 Hs) as [Hg2 He2].
  { by apply (same_obj_send id s f). }
  split; [done|]. eapply evolves_trans; [exact He1|done].
Qed.

Lemma creditStep_good id c c' : good c -> creditStep id c = Some c' -> good c' /\ evolves c c'.
Proof.
  intros Hg. unfold creditStep. destruct (cn_objs c !! id) as [s|] eqn:Hs; [|done]. cbn.
  destruct (st_writer s) as [|f r|] eqn:Hw; try done.
  destruct (allocateNow id (frame_len f) c) as [[m c1]|] eqn:Ha; [|done]. cbn.
  destruct (splitChunk f m) as [chunk rest]. intros [= <-].
  destruct (allocateNow_good id _ c m c1 Hg ltac:(by eexists) Ha) as [Hg1 He1].
  assert (Hm : moved id c).
  { exists s. split; [done|]. intros E. destruct (ok_objs c (proj1 Hg) id s Hs) as (_ & _ & _ & _ & _ & _ & Hi).
    apply Hi in E as [E _]. congruence. }
  destruct (queueStream_good id chunk rest r c1 Hg1 (moved_later id _ _ He1 Hm)) as [Hg2 He2].
  split; [done|by eapply evolves_trans].
Qed.

Lemma creditClosed_good id c c' : good c -> creditClosed id c = Some c' -> good c' /\ evolves c c'.
Proof.
  intros Hg. unfold creditClosed. destruct (cn_objs c !! id) as [s|]; [|done]. cbn.
  destruct (st_writer s); try done. destruct (_ || _); [|done]. intros [= <-]. by apply finishWrite_good.
Qed.

(** ** The write loop *)

Lemma WriteFrame_fine f c : good c -> fine False c (conn_WriteFrame f c).
Proof.
  intros Hg. unfold conn_WriteFrame. destruct (WriteFrame _ _ _ _ _) as [r w].
  destruct (good_quiet c (cn_set_fw w c) Hg (quiet_fw c w)). by split_and!.
Qed.

(** A stream with a frame to send is not idle. *)
Lemma frame_moved id c s : good c -> cn_objs c !! id = Some s -> is_Some (st_frame s) -> moved id c.
Proof.
  intros [Hok _] Hs [f Hf]. exists s. split; [done|]. intros E.
  destruct (ok_objs c Hok id s Hs) as (_ & _ & _ & _ & _ & _ & Hi). apply Hi in E as [_ E]. congruence.
Qed.

Lemma moved_transition P id recv ft es c : good c -> moved id c -> fine P c (stream_transition id recv ft es c).
Proof.
  intros Hg (s & Hs & Hni). apply (fine_weaken True); [done|]. by apply (transition_fine id recv ft es c s).
Qed.

Lemma answerWriter_good id err rest r c : good c -> moved id c -> good (answerWriter id err rest r c) /\ evolves c (answerWriter id err rest r c).
Proof.
  intros Hg (s & Hs & Hni). unfold answerWriter. destruct err; [by apply finishWrite_good|].
  destruct rest as [f|]; [|by apply finishWrite_good]. apply good_alter; [done|]. intros t Ht.
  assert (t = s) as -> by congruence. by apply (busy_obj id s (WCredit f r) (st_frame s)).
Qed.

Lemma written_obj id s e l : same_obj id s (st_set_sawEOS e (st_set_lastWritten l s)).
Proof. by split_and!. Qed.

Lemma writeTo_fine id c : good c -> fine False c (writeTo id c).
Proof.
  intros Hg. unfold writeTo. destruct (cn_objs c !! id) as [s|] eqn:Hs; cbn [mbind option_bind]; [|split_and!; [done|done|apply evolves_refl]].
  destruct (st_frame s) as [f|] eqn:Hf; [|split_and!; [done|done|apply evolves_refl]].
  assert (Hm : moved id c) by (by apply (frame_moved id c s); [..|by eexists]).
  destruct (WriteFrame_fine f c Hg) as (_ & Hg1 & He1). destruct (conn_WriteFrame f c) as [r c1]. cbn in Hg1, He1.
  destruct (good_alter id (fun s => st_set_sawEOS (Frame_EndOfStream f) (st_set_lastWritten (Frame_Type f) s)) c1 Hg1)
    as [Hg2 He2]; [by intros; apply written_obj|]. set (c2 := upd_stream id _ c1) in *.
  assert (Hm2 : moved id c2) by (by apply (moved_later id c1), (moved_later id c)).
  eapply fine_later; [exact He1|]. destruct r as [[]|e|]; [| |split_and!; [done|done|apply evolves_refl]];
    (eapply fine_later; [exact He2|]); cbv zeta; fold c2; pose proof Hm2 as (s2 & Hs2 & _); rewrite Hs2;
    (destruct (st_writer s2) as [|f0 r0|rest rel]; [by apply fine_quiet_res; [..|split_and!]..|]).
  - destruct (answerWriter_good id None rest rel c2 Hg2 Hm2) as [Hg3 He3]. eapply fine_later; [exact He3|].
    destruct (Frame_EndOfStream f); [|by apply fine_ret].
    apply fine_bind; [|intros; by apply fine_ret]. apply moved_transition; [done|by apply (moved_later id c2)].
  - destruct (answerWriter_good id (Some e) rest rel c2 Hg2 Hm2) as [Hg3 He3]. by split_and!.
Qed.

Lemma quiet_shutdown c b c' : shutdown c = (b, c') -> quiet_change c c'.
Proof.
  unfold shutdown. destruct (_ && _); [|intros [= _ <-]; apply quiet_refl].
  pose proof (contents_set (cn_queue c)) as Hq. destruct (wq_set (cn_queue c)) as [more q]. intros [= _ <-].
  split_and!; try done. intros id Hid. by apply Hq.
Qed.

Lemma quiet_flush c e c' : bufFlush c = (e, c') -> quiet_change c c'.
Proof. unfold bufFlush. destruct (env_flush _) as [x e']. intros [= _ <-]. apply quiet_fw. Qed.

Lemma loopClose_fine P c : good c -> fine P c (loopClose c).
Proof.
  intros Hg. apply fine_bind; [by apply fine_ignore, close_fine_conn|]. intros _ c' _ Hg' _.
  apply fine_quiet; [done|by split_and!].
Qed.

Lemma quiet_forget x c : quiet_change c (loopForget x c).
Proof. destruct x as [f|id|]; [|apply quiet_refl..]. destruct f as [| | | |[] ?| | | | |]; try apply quiet_refl. by split_and!. Qed.

Lemma loopEnd_fine P flush x err c : good c -> fine P c (loopEnd flush x err c).
Proof.
  intros Hg. unfold loopEnd. destruct (if flush then shutdown c else (false, c)) as [stop c2] eqn:E.
  assert (Hq : quiet_change c c2) by (destruct flush; [by eapply quiet_shutdown|simplify_eq; apply quiet_refl]).
  destruct (good_quiet _ _ Hg Hq) as [Hg2 He2]. eapply fine_later; [exact He2|].
  destruct stop; [by apply loopClose_fine|]. destruct err as [e|]; [|by apply fine_ret].
  destruct (good_quiet _ _ Hg2 (quiet_forget x c2)) as [Hg3 He3]. eapply fine_later; [exact He3|by apply handleErr_fine].
Qed.

Lemma quiet_loopFlush flush err c err' c' : loopFlush flush err c = (err', c') -> quiet_change c c'.
Proof.
  unfold loopFlush. destruct flush; [|intros [= _ <-]; apply quiet_refl].
  destruct err; [intros [= _ <-]; apply quiet_refl|apply quiet_flush].
Qed.

Lemma loopWrite_fine x c : good c -> fine False c (loopWrite x c).
Proof.
  intros Hg. destruct x as [f|id|]; [|by apply writeTo_fine|by apply fine_ret].
  destruct f as [| | | |[] ?| | | | |]; by apply WriteFrame_fine.
Qed.

Lemma loopSettings_fine x c : good c -> fine False c (loopSettings x c).
Proof.
  intros Hg. destruct x as [f|id|]; [|by apply fine_ret..]. destruct f as [| | | |[] ?| | | | |]; try (by apply fine_ret).
  by apply applySettings_fine.
Qed.

Lemma flushEnd_fine flush x err c :
  good c -> fine False c (let (err, c) := loopFlush flush err c in loopEnd flush x err c).
Proof.
  intros Hg. destruct (loopFlush flush err c) as [err' c'] eqn:E. apply quiet_loopFlush in E.
  destruct (good_quiet _ _ Hg E) as [Hg' He']. eapply fine_later; [exact He'|by apply loopEnd_fine].
Qed.

Lemma loopItem_fine x flush c : x <> QFlush -> good c -> fine False c (loopBody x flush c).
Proof.
  intros Hx Hg. assert (Heq : loopBody x flush c =
    match loopSettings x c with
    | (Panic, c) => (Panic, c)
    | (Err e, c) => handleErr e c
    | (Ok _, c) =>
      match loopWrite x c with
      | (Panic, c) => (Panic, c)
      | (r, c) =>
        match cn_loop c with
        | LoopBlocked _ => (Ok tt, c)
        | _ => let (err, c) := loopFlush flush (match r with Err e => Some e | _ => None end) c in loopEnd flush x err c
        end
      end
    end) by (by destruct x).
  rewrite Heq. clear Heq. destruct (loopSettings_fine x c Hg) as (_ & Hg1 & He1).
  destruct (loopSettings x c) as [[u|e|] c1]; cbn in Hg1, He1; [| |by split_and!];
    (eapply fine_later; [exact He1|]); [|by apply handleErr_fine].
  destruct (loopWrite_fine x c1 Hg1) as (_ & Hg2 & He2). destruct (loopWrite x c1) as [r c2]. cbn in Hg2, He2.
  eapply fine_later; [exact He2|]. destruct r as [[]|e|]; [| |split_and!; [done|done|apply evolves_refl]];
    (destruct (cn_loop c2); [by apply flushEnd_fine|by apply fine_ret|by apply flushEnd_fine]).
Qed.

Lemma loopBody_fine x flush c : good c -> fine False c (loopBody x flush c).
Proof.
  intros Hg. destruct x as [f|id|]; [by apply loopItem_fine..|]. cbn [loopBody].
  destruct (bufFlush c) as [err c1] eqn:E. apply quiet_flush in E.
  destruct (good_quiet _ _ Hg E) as [Hg1 He1]. eapply fine_later; [exact He1|by apply loopEnd_fine].
Qed.

Lemma loop_good c r c' : good c -> writeLoop_round c = Some (r, c') -> good c' /\ evolves c c'.
Proof.
  intros Hg. unfold writeLoop_round. destruct (cn_loop c); try done.
  destruct (round (cn_queue c)) as [[[x flush] q]|] eqn:Hr; [|done]. cbn. intros Hb.
  destruct (good_quiet c (cn_set_queue q c) Hg) as [Hg1 He1].
  { split_and!; try done. intros id. apply (contents_round _ _ _ _ _ Hr). }
  destruct (loopBody_fine x flush _ Hg1) as (_ & Hg2 & He2). injection Hb as Hb. rewrite Hb in Hg2, He2.
  split; [exact Hg2|eapply evolves_trans; [exact He1|exact He2]].
Qed.

(** ** Every step *)

Lemma NextStreamID_good sel c r c' : good c -> NextStreamID sel c = Some (r, c') -> good c' /\ evolves c c'.
Proof.
  intros Hg. destruct sel; cbn; [destruct (cn_closeCh c)|destruct (cn_idCh c) eqn:Hi|destruct (cn_closeCh c)]; try done; intros [= _ <-].
  - split; [done|apply evolves_refl].
  - apply good_quiet; [done|]. by split_and!.
  - split; [done|apply evolves_refl].
  - apply good_quiet; [done|apply quiet_release].
Qed.

Lemma newConn_good server fr (w : W) : good (newConn server fr w).
Proof.
  split; [|by destruct server].
  split; try done.
  - intros b; destruct server, b; vm_compute; split; done.
  - intros id. split; [intros Hin; by apply elem_of_empty in Hin|]. by intros (s & ? & _).
  - intros b; by destruct server, b.
  - intros id Hid. unfold contents in Hid. cbn in Hid. by apply not_elem_of_nil in Hid.
Qed.
End Run.
