(* ===== verification/Upgrade.v ===== *)
(** * HTTP/1.1 headers, the upgrade's settings and TLS configuration
      ([src/util.go], [src/server.go], [src/client.go])

    The parts of the handshake that compute: [splitHeader] and [containsValue] on the headers
    of the upgrade, [addHeader] and [requestToHeader], the payload of HTTP2-Settings with its
    base64 encoding, [joinHostPort], [badCipher] and [initTLSConfig].

    A header of [net/http] is a Go map; it is the list of its entries in the order in which
    Go ranges over it.  [strings.EqualFold] and [strings.TrimSpace] fold and trim by Unicode;
    they are parameters, with what is documented of them as hypotheses. *)

From S2P Require Import Prelude HpackDecode Types Settings HttpHeader FrameWriter FrameReader FrameRoundtrip.

(** ** Strings *)

(** [strings.Split(s, sep)] for a separator of one byte *)
Fixpoint splitByte (sep : Z) (s : gostring) : list gostring :=
  match s with
  | [] => [[]]
  | b :: s =>
    if bz b =? sep then [] :: splitByte sep s
    else match splitByte sep s with
         | x :: l => (b :: x) :: l
         | [] => [[b]]
         end
  end.

(** [strings.IndexByte] and [strings.LastIndexByte] *)
Fixpoint indexByte (s : gostring) (x : Z) : Z :=
  match s with
  | [] => -1
  | b :: s => if bz b =? x then 0 else let i := indexByte s x in if i <? 0 then -1 else i + 1
  end.

Fixpoint lastIndexByte (s : gostring) (x : Z) : Z :=
  match s with
  | [] => -1
  | b :: s => let i := lastIndexByte s x in if 0 <=? i then i + 1 else if bz b =? x then 0 else -1
  end.

Definition joinHostPort (host port : gostring) : gostring :=
  let i := lastIndexByte host 58 in
  if (i <? 0) || (i <? lastIndexByte host 93) then host ++ str ":" ++ port else host.

(** ** Headers of HTTP/1.1 *)

Definition httpHeader : Type := list (gostring * list gostring).

Section Headers.
Variable equalFold : gostring -> gostring -> bool.
Variable trimSpace : gostring -> gostring.
Variable unicodeToLower : gostring -> gostring.

Definition splitHeader (header : httpHeader) (key : gostring) : list gostring :=
  match List.find (fun kv => equalFold key kv.1) header with
  | None => []
  | Some (_, vs) => vs ≫= (fun vv => trimSpace <$> splitByte 44 vv)
  end.

Definition containsValue (header : httpHeader) (key : gostring) (vals : list gostring) : bool :=
  match splitHeader header key with
  | [] => false
  | ss => forallb (fun v => existsb (equalFold v) ss) vals
  end.

(** [h.Add(k, v)] for each value; [None] is a panic *)
Fixpoint addValues (h : Header) (k : gostring) (vv : list gostring) : option Header :=
  match vv with
  | [] => Some h
  | v :: vv => h ← Header_Add unicodeToLower h k v; addValues h k vv
  end.

Fixpoint addCookies (h : Header) (k : gostring) (vv : list gostring) : option Header :=
  match vv with
  | [] => Some h
  | v :: vv =>
    h ← addValues h k (if 0 <? indexByte v 59 then trimSpace <$> splitByte 59 v else [v]);
    addCookies h k vv
  end.

(** An error leaves the header as it is; the callers drop it. *)
Fixpoint addHeader (header : httpHeader) (h : Header) : outcome error Header :=
  match header with
  | [] => Ok h
  | (k, vv) :: header =>
    let k := CanonicalHTTP2HeaderKey unicodeToLower k in
    if badHeader k then addHeader header h
    else if bool_decide (k = str "cookie") then
      match addCookies h k vv with Some h => addHeader header h | None => Panic end
    else
      let go := match addValues h k vv with Some h => addHeader header h | None => Panic end in
      if bool_decide (k = str "te") && negb (zlen vv =? 1) then
        match vv with
        | [] => Panic
        | v :: _ => if bool_decide (ToLower unicodeToLower v = str "trailers") then go else Err MalformedError
        end
      else go
  end.

(** The parts of [http.Request] that are used; [rq_RequestURI] is [URL.RequestURI()]. *)
Record request := MkRequest {
  rq_Method : gostring;
  rq_Scheme : gostring;
  rq_Host : gostring;
  rq_RequestURI : gostring;
  rq_Fragment : gostring;
  rq_Header : httpHeader;
  rq_ContentLength : Z;
  rq_Body : option (list byte);
}.

(** The scheme that the port of the host stands for. *)
Definition portScheme (host : gostring) : gostring :=
  let i := lastIndexByte host 58 in
  if (0 <=? i) && (lastIndexByte host 93 <? i) then
    let port := drop (Z.to_nat i) host in
    if bool_decide (port ∈ [str ":http"; str ":80"]) then str "http"
    else if bool_decide (port ∈ [str ":https"; str ":443"]) then str "https"
    else []
  else [].

(** The setters are applied to a map that exists. *)
Definition set_pseudo (k v : gostring) (m : gmap gostring (list gostring)) := <[k := [v]]> m.

(** The pseudo header fields; [None] is the error. *)
Definition pseudoFields (req : request) (skipVerify : bool) : option (gmap gostring (list gostring)) :=
  if bool_decide (rq_Method req = str "CONNECT") then Some ∅
  else
    let m := set_pseudo (str ":method") (rq_Method req) ∅ in
    let scheme := match rq_Scheme req with [] => portScheme (rq_Host req) | s => s end in
    m ← (match scheme with
         | [] => if skipVerify then Some m else None
         | _ => Some (set_pseudo (str ":scheme") scheme m)
         end);
    match rq_RequestURI req with
    | [] => if skipVerify then Some (set_pseudo (str ":path") (str "/") m) else None
    | path => Some (set_pseudo (str ":path")
                (path ++ match rq_Fragment req with [] => [] | f => str "#" ++ f end) m)
    end.

Definition requestToHeader (req : request) (skipVerify : bool) : outcome error Header :=
  match pseudoFields req skipVerify with
  | None => Err MalformedError
  | Some m => addHeader (rq_Header req) (Some (set_pseudo (str ":authority") (rq_Host req) m))
  end.
End Headers.

(** ** Base64 as in [base64.URLEncoding] *)

Definition b64char (v : Z) : byte :=
  if v <? 26 then zb (65 + v) else if v <? 52 then zb (97 + (v - 26)) else if v <? 62 then zb (48 + (v - 52))
  else if v =? 62 then zb 45 else zb 95.

Definition b64value (b : byte) : option Z :=
  let c := bz b in
  if (65 <=? c) && (c <=? 90) then Some (c - 65)
  else if (97 <=? c) && (c <=? 122) then Some (c - 97 + 26)
  else if (48 <=? c) && (c <=? 57) then Some (c - 48 + 52)
  else if c =? 45 then Some 62 else if c =? 95 then Some 63 else None.

Fixpoint b64encode (l : list byte) : list byte :=
  match l with
  | x :: y :: z :: l =>
    let v := bz x * 65536 + bz y * 256 + bz z in
    b64char (v / 262144) :: b64char (v / 4096 mod 64) :: b64char (v / 64 mod 64) :: b64char (v mod 64) :: b64encode l
  | [x; y] =>
    let v := bz x * 65536 + bz y * 256 in
    [b64char (v / 262144); b64char (v / 4096 mod 64); b64char (v / 64 mod 64); zb 61]
  | [x] => let v := bz x * 65536 in [b64char (v / 262144); b64char (v / 4096 mod 64); zb 61; zb 61]
  | [] => []
  end.

(** The decoder skips line breaks, and padding is only at the end. *)
Definition b64strip (l : list byte) : list byte := filter (fun b => bz b <> 10 /\ bz b <> 13) l.

Fixpoint b64quads (l : list byte) : option (list byte) :=
  match l with
  | [] => Some []
  | a :: b :: c :: d :: l =>
    va ← b64value a; vb ← b64value b;
    if bz c =? 61 then
      if (bz d =? 61) && bool_decide (l = []) then Some [zb (va * 4 + vb / 16)] else None
    else
      vc ← b64value c;
      if bz d =? 61 then
        if bool_decide (l = []) then Some [zb (va * 4 + vb / 16); zb (vb * 16 + vc / 4)] else None
      else
        vd ← b64value d;
        rest ← b64quads l;
        Some (zb (va * 4 + vb / 16) :: zb (vb * 16 + vc / 4) :: zb (vc * 64 + vd) :: rest)
  | _ => None
  end.

Definition b64decode (l : list byte) : option (list byte) := b64quads (b64strip l).

(** ** The HTTP2-Settings header field *)

(** What [clientUpgrade] sends for the initial settings. *)
Definition settingsPayload (s : Settings) : list byte := s ≫= (fun x => be16 (s_ID x) ++ be32 (s_Value x)).
Definition encodedSettings (s : Settings) : gostring := match s with [] => [] | _ => b64encode (settingsPayload s) end.

(** The loop of [serverUpgrade] over the payload; [None] is a refused value.  A payload of a
    whole number of settings is never too short for the slices. *)
Fixpoint parseSettings (n : nat) (payload : list byte) (s : Settings) : option Settings :=
  match n with
  | O => Some s
  | S n =>
    id ← uint16 payload; v ← uint32 (drop 2 payload); s ← SetValue s id v;
    parseSettings n (drop (Z.to_nat settingLen) payload) s
  end.

Definition decodeSettings (field : gostring) : option Settings :=
  payload ← b64decode field;
  if zlen payload mod settingLen =? 0 then parseSettings (Z.to_nat (zlen payload / settingLen)) payload [] else None.

(** ** TLS *)

(** The cipher suites of [crypto/tls] that are named. *)
Definition TLS_ECDHE_RSA_WITH_AES_128_GCM_SHA256 : Z := 0xc02f.

Definition badCiphers : list Z :=
  [0x0005; 0x000a; 0x002f; 0x0035; 0xc007; 0xc009; 0xc00a; 0xc011; 0xc012; 0xc013; 0xc014].

Definition badCipher (cipher : Z) : bool := existsb (Z.eqb cipher) badCiphers.

Definition ProtocolTLS : gostring := str "h2".
Definition ProtocolTCP : gostring := str "h2c".

(** [tls.Config].  What the code only copies, functions, pools, caches and certificates, is
    the identity of the object, 0 for nil. *)
Record tlsConfig := MkTLSConfig {
  tc_Rand : Z;
  tc_Time : Z;
  tc_Certificates : list Z;
  tc_NameToCertificate : Z;
  tc_GetCertificate : Z;
  tc_RootCAs : Z;
  tc_NextProtos : list gostring;
  tc_ServerName : gostring;
  tc_ClientAuth : Z;
  tc_ClientCAs : Z;
  tc_InsecureSkipVerify : bool;
  tc_CipherSuites : option (list Z);
  tc_PreferServerCipherSuites : bool;
  tc_SessionTicketsDisabled : bool;
  tc_SessionTicketKey : list byte;
  tc_ClientSessionCache : Z;
  tc_MinVersion : Z;
  tc_MaxVersion : Z;
  tc_CurvePreferences : list Z;
}.

(** [SessionTicketKey] is an array of 32 bytes. *)
Definition noTicketKey : list byte := replicate 32 Byte.x00.

(** [&tls.Config{}] *)
Definition emptyTLSConfig : tlsConfig :=
  MkTLSConfig 0 0 [] 0 0 0 [] [] 0 0 false None false false noTicketKey 0 0 0 [].

Definition tc_set_NextProtos (x : list gostring) (c : tlsConfig) : tlsConfig :=
  MkTLSConfig (tc_Rand c) (tc_Time c) (tc_Certificates c) (tc_NameToCertificate c) (tc_GetCertificate c) (tc_RootCAs c)
    x (tc_ServerName c) (tc_ClientAuth c) (tc_ClientCAs c) (tc_InsecureSkipVerify c) (tc_CipherSuites c)
    (tc_PreferServerCipherSuites c) (tc_SessionTicketsDisabled c) (tc_SessionTicketKey c) (tc_ClientSessionCache c)
    (tc_MinVersion c) (tc_MaxVersion c) (tc_CurvePreferences c).
Definition tc_set_ServerName (x : gostring) (c : tlsConfig) : tlsConfig :=
  MkTLSConfig (tc_Rand c) (tc_Time c) (tc_Certificates c) (tc_NameToCertificate c) (tc_GetCertificate c) (tc_RootCAs c)
    (tc_NextProtos c) x (tc_ClientAuth c) (tc_ClientCAs c) (tc_InsecureSkipVerify c) (tc_CipherSuites c)
    (tc_PreferServerCipherSuites c) (tc_SessionTicketsDisabled c) (tc_SessionTicketKey c) (tc_ClientSessionCache c)
    (tc_MinVersion c) (tc_MaxVersion c) (tc_CurvePreferences c).
Definition tc_set_Certificates (x : list Z) (c : tlsConfig) : tlsConfig :=
  MkTLSConfig (tc_Rand c) (tc_Time c) x (tc_NameToCertificate c) (tc_GetCertificate c) (tc_RootCAs c)
    (tc_NextProtos c) (tc_ServerName c) (tc_ClientAuth c) (tc_ClientCAs c) (tc_InsecureSkipVerify c) (tc_CipherSuites c)
    (tc_PreferServerCipherSuites c) (tc_SessionTicketsDisabled c) (tc_SessionTicketKey c) (tc_ClientSessionCache c)
    (tc_MinVersion c) (tc_MaxVersion c) (tc_CurvePreferences c).
Definition tc_set_CipherSuites (x : option (list Z)) (prefer : bool) (c : tlsConfig) : tlsConfig :=
  MkTLSConfig (tc_Rand c) (tc_Time c) (tc_Certificates c) (tc_NameToCertificate c) (tc_GetCertificate c) (tc_RootCAs c)
    (tc_NextProtos c) (tc_ServerName c) (tc_ClientAuth c) (tc_ClientCAs c) (tc_InsecureSkipVerify c) x
    prefer (tc_SessionTicketsDisabled c) (tc_SessionTicketKey c) (tc_ClientSessionCache c)
    (tc_MinVersion c) (tc_MaxVersion c) (tc_CurvePreferences c).

(** The copy of the server has every field. *)
Definition cloneTLSConfig (cfg : option tlsConfig) : tlsConfig :=
  match cfg with
  | None => emptyTLSConfig
  | Some c =>
    MkTLSConfig (tc_Rand c) (tc_Time c) (tc_Certificates c) (tc_NameToCertificate c) (tc_GetCertificate c) (tc_RootCAs c)
      (tc_NextProtos c) (tc_ServerName c) (tc_ClientAuth c) (tc_ClientCAs c) (tc_InsecureSkipVerify c) (tc_CipherSuites c)
      (tc_PreferServerCipherSuites c) (tc_SessionTicketsDisabled c) (tc_SessionTicketKey c) (tc_ClientSessionCache c)
      (tc_MinVersion c) (tc_MaxVersion c) (tc_CurvePreferences c)
  end.

(** The copy of the client leaves out the fields for session tickets. *)
Definition cloneTLSClientConfig (cfg : option tlsConfig) : tlsConfig :=
  match cfg with
  | None => emptyTLSConfig
  | Some c =>
    MkTLSConfig (tc_Rand c) (tc_Time c) (tc_Certificates c) (tc_NameToCertificate c) (tc_GetCertificate c) (tc_RootCAs c)
      (tc_NextProtos c) (tc_ServerName c) (tc_ClientAuth c) (tc_ClientCAs c) (tc_InsecureSkipVerify c) (tc_CipherSuites c)
      (tc_PreferServerCipherSuites c) false noTicketKey (tc_ClientSessionCache c)
      (tc_MinVersion c) (tc_MaxVersion c) (tc_CurvePreferences c)
  end.

(** The loop: the required suite first, then the good ones, then the bad ones. *)
Definition orderCiphers (suites : list Z) : list Z :=
  let others := filter (fun s => s <> TLS_ECDHE_RSA_WITH_AES_128_GCM_SHA256) suites in
  TLS_ECDHE_RSA_WITH_AES_128_GCM_SHA256 :: filter (fun s => badCipher s = false) others
    ++ filter (fun s => badCipher s = true) others.

Definition addProtocol (protos : list gostring) : list gostring :=
  if bool_decide (ProtocolTLS ∈ protos) then protos else protos ++ [ProtocolTLS].

Definition initTLSConfig (cfg : option tlsConfig) : tlsConfig :=
  let c := default emptyTLSConfig cfg in
  tc_set_NextProtos (addProtocol (tc_NextProtos c)) (tc_set_CipherSuites (orderCiphers <$> tc_CipherSuites c) true c).

(** ** Lemmas *)

Lemma b64value_char v : 0 <= v < 64 -> b64value (b64char v) = Some v.
Proof.
  intros Hv. assert (Hall : forallb (fun n => bool_decide (b64value (b64char (Z.of_nat n)) = Some (Z.of_nat n))) (seq 0 64) = true)
    by (vm_compute; reflexivity).
  rewrite forallb_forall in Hall. specialize (Hall (Z.to_nat v)). rewrite bool_decide_eq_true, Z2Nat.id in Hall by lia.
  apply Hall. apply in_seq. lia.
Qed.

(** The characters of the alphabet are neither line breaks nor padding. *)
Lemma b64char_plain v : 0 <= v < 64 -> bz (b64char v) <> 10 /\ bz (b64char v) <> 13 /\ bz (b64char v) <> 61.
Proof.
  intros Hv. assert (Hall : forallb (fun n => let c := bz (b64char (Z.of_nat n)) in
    negb (c =? 10) && negb (c =? 13) && negb (c =? 61)) (seq 0 64) = true) by (vm_compute; reflexivity).
  rewrite forallb_forall in Hall. specialize (Hall (Z.to_nat v)). rewrite Z2Nat.id in Hall by lia.
  assert (Hin : In (Z.to_nat v) (seq 0 64)) by (apply in_seq; lia). specialize (Hall Hin). cbn beta zeta in Hall. lia.
Qed.

(** The four values of three bytes, and the bytes back from them. *)
Lemma quad_values x y z :
  0 <= x < 256 -> 0 <= y < 256 -> 0 <= z < 256 ->
  let v := x * 65536 + y * 256 + z in
  (0 <= v / 262144 < 64 /\ 0 <= v / 4096 mod 64 < 64 /\ 0 <= v / 64 mod 64 < 64 /\ 0 <= v mod 64 < 64) /\
  v / 262144 * 4 + v / 4096 mod 64 / 16 = x /\
  (v / 4096 mod 64 * 16 + v / 64 mod 64 / 4) mod 256 = y /\
  (v / 64 mod 64 * 64 + v mod 64) mod 256 = z.
Proof.
  intros Hx Hy Hz v.
  assert (E1 : v / 262144 = x / 4) by (subst v; Z.div_mod_to_equations; lia).
  assert (E2 : v / 4096 mod 64 = x mod 4 * 16 + y / 16) by (subst v; Z.div_mod_to_equations; lia).
  assert (E3 : v / 64 mod 64 = y mod 16 * 4 + z / 64) by (subst v; Z.div_mod_to_equations; lia).
  assert (E4 : v mod 64 = z mod 64) by (subst v; Z.div_mod_to_equations; lia).
  rewrite E1, E2, E3, E4. clear E1 E2 E3 E4 v. split_and!; Z.div_mod_to_equations; lia.
Qed.

Lemma b64char_eq v c : 0 <= v < 64 -> c = 61 -> (bz (b64char v) =? c) = false.
Proof. intros Hv ->. destruct (b64char_plain v Hv) as (_ & _ & Hne). by apply Z.eqb_neq. Qed.

(** What holds of the alphabet and of the padding holds of an encoding. *)
Lemma b64_forall (P : byte -> Prop) l :
  (forall v, 0 <= v < 64 -> P (b64char v)) -> P (zb 61) -> Forall P (b64encode l).
Proof.
  intros Hp Hpad. revert l. fix IH 1. intros [|x [|y [|z l]]]; cbn [b64encode]; [constructor|..].
  - pose proof (quad_values (bz x) 0 0 (bz_range x) ltac:(lia) ltac:(lia)) as [(? & ? & ? & ?) _].
    rewrite Z.mul_0_l, !Z.add_0_r in *. repeat (apply Forall_cons; split; [by auto|]). constructor.
  - pose proof (quad_values (bz x) (bz y) 0 (bz_range x) (bz_range y) ltac:(lia)) as [(? & ? & ? & ?) _].
    rewrite !Z.add_0_r in *. repeat (apply Forall_cons; split; [by auto|]). constructor.
  - destruct (quad_values (bz x) (bz y) (bz z) (bz_range x) (bz_range y) (bz_range z)) as [(? & ? & ? & ?) _].
    repeat (apply Forall_cons; split; [by auto|]). apply IH.
Qed.

Lemma b64_plain l : Forall (fun b => bz b <> 10 /\ bz b <> 13) (b64encode l).
Proof. apply b64_forall; [by intros v (? & ? & _)%b64char_plain|split; vm_compute; done]. Qed.

Lemma zb_back w x : w mod 256 = bz x -> zb w = x.
Proof. intros E. apply bz_inj. by rewrite bz_zb. Qed.

Lemma b64_quads l : b64quads (b64encode l) = Some l.
Proof.
  revert l. fix IH 1. intros [|x [|y [|z l]]]; cbn [b64encode]; [done|..].
  - pose proof (quad_values (bz x) 0 0 (bz_range x) ltac:(lia) ltac:(lia)) as [(? & ? & ? & ?) (E1 & _)].
    rewrite Z.mul_0_l, !Z.add_0_r in *. cbn [b64quads]. rewrite !b64value_char by done. cbn [mbind option_bind].
    change (bz (zb 61) =? 61) with true. cbn [andb]. rewrite bool_decide_true by done.
    rewrite (zb_back _ x); [done|]. rewrite E1. apply Z.mod_small, bz_range.
  - pose proof (quad_values (bz x) (bz y) 0 (bz_range x) (bz_range y) ltac:(lia)) as [(? & ? & ? & ?) (E1 & E2 & _)].
    rewrite !Z.add_0_r in *. cbn [b64quads]. rewrite !b64value_char by done. cbn [mbind option_bind].
    rewrite b64char_eq by done. change (bz (zb 61) =? 61) with true. rewrite bool_decide_true by done.
    rewrite (zb_back _ x) by (rewrite E1; apply Z.mod_small, bz_range). by rewrite (zb_back _ y).
  - destruct (quad_values (bz x) (bz y) (bz z) (bz_range x) (bz_range y) (bz_range z)) as [(? & ? & ? & ?) (E1 & E2 & E3)].
    cbn [b64quads]. rewrite !b64value_char by done. cbn [mbind option_bind]. rewrite !b64char_eq by done.
    rewrite (IH l). cbn [mbind option_bind]. rewrite (zb_back _ x) by (rewrite E1; apply Z.mod_small, bz_range).
    by rewrite (zb_back _ y), (zb_back _ z).
Qed.

Lemma filter_id {A} (P : A -> Prop) `{!forall x, Decision (P x)} l : Forall P l -> filter P l = l.
Proof. induction 1 as [|x l Hx _ IH]; [done|]. by rewrite filter_cons_True, IH. Qed.

Lemma b64_roundtrip l : b64decode (b64encode l) = Some l.
Proof.
  unfold b64decode, b64strip. rewrite filter_id by (apply b64_plain). apply b64_quads.
Qed.

Lemma parseSettings_ok s2 s1 rest :
  settings_wf (s1 ++ s2) -> Forall setting_ok s2 ->
  parseSettings (length s2) (settingsPayload s2 ++ rest) s1 = Some (s1 ++ s2).
Proof.
  revert s1. induction s2 as [|x s2 IH]; intros s1 Hwf Hok; [cbn; by rewrite app_nil_r|].
  apply Forall_cons in Hok as [[Hid Hv] Hok]. cbn [length parseSettings].
  change (settingsPayload (x :: s2) ++ rest) with ((be16 (s_ID x) ++ be32 (s_Value x) ++ settingsPayload s2) ++ rest).
  rewrite <- !app_assoc, uint16_be16 by done. cbn [mbind option_bind].
  change (drop 2 (be16 (s_ID x) ++ be32 (s_Value x) ++ settingsPayload s2 ++ rest))
    with (be32 (s_Value x) ++ settingsPayload s2 ++ rest).
  rewrite uint32_be32 by done. cbn [mbind option_bind].
  rewrite (SetValue_append s1 x s2 Hwf). cbn [mbind option_bind].
  change (drop (Z.to_nat settingLen) (be16 (s_ID x) ++ be32 (s_Value x) ++ settingsPayload s2 ++ rest))
    with (settingsPayload s2 ++ rest).
  rewrite (IH (s1 ++ [x])); rewrite <- ?app_assoc; done.
Qed.

(** ** The header of a request *)

Section Clean.
Variable trimSpace : gostring -> gostring.
Variable u : gostring -> gostring.
Hypothesis ToLower_idem : forall s, ToLower u (ToLower u s) = ToLower u s.

(** A header without connection-specific fields. *)
Definition header_clean (h : Header) : Prop := forall k, badHeader k = true -> values h k = [].

Lemma Add_clean h k v h' : badHeader (ToLower u k) = false -> header_clean h -> Header_Add u h k v = Some h' -> header_clean h'.
Proof.
  intros Hk Hc. unfold Header_Add. destruct k as [|c k]; [done|]. destruct (bz c =? 58); [intros [= <-]; exact Hc|].
  unfold Header_put. destruct h as [m|]; [|done]. cbn [mbind option_bind]. rewrite Canonical_ToLower. intros Heq%(inj Some). subst h'. intros j Hj.
  rewrite values_insert. destruct (decide (_ = _)) as [E|E]; [|by apply Hc].
  by rewrite E, Hk in Hj || rewrite <- E, Hk in Hj.
Qed.

Lemma addValues_clean vv h k h' :
  badHeader (ToLower u k) = false -> header_clean h -> addValues u h k vv = Some h' -> header_clean h'.
Proof.
  intros Hk. revert h. induction vv as [|v vv IH]; intros h Hc; [intros [= <-]; exact Hc|]. cbn.
  destruct (Header_Add u h k v) as [h1|] eqn:E; [|done]. cbn. apply IH. by apply (Add_clean h k v).
Qed.

Lemma addCookies_clean vv h k h' :
  badHeader (ToLower u k) = false -> header_clean h -> addCookies trimSpace u h k vv = Some h' -> header_clean h'.
Proof.
  intros Hk. revert h. induction vv as [|v vv IH]; intros h Hc; [intros [= <-]; exact Hc|]. cbn.
  destruct (addValues u h k _) as [h1|] eqn:E; [|done]. cbn. apply IH. by eapply addValues_clean.
Qed.

Lemma addHeader_clean hdr h h' : header_clean h -> addHeader trimSpace u hdr h = Ok h' -> header_clean h'.
Proof.
  revert h. induction hdr as [|[k vv] hdr IH]; intros h Hc; [intros [= <-]; exact Hc|]. cbn [addHeader].
  rewrite Canonical_ToLower. destruct (badHeader (ToLower u k)) eqn:Hk; [by apply IH|].
  assert (Hk' : badHeader (ToLower u (ToLower u k)) = false) by (by rewrite ToLower_idem).
  assert (Hgo : match addValues u h (ToLower u k) vv with Some h => addHeader trimSpace u hdr h | None => Panic end = Ok h' -> header_clean h').
  { destruct (addValues _ _ _ _) as [h1|] eqn:E; [|done]. apply IH. by eapply addValues_clean. }
  case_bool_decide.
  - destruct (addCookies _ _ _ _ _) as [h1|] eqn:E; [|done]. apply IH. by eapply addCookies_clean.
  - destruct (_ && _); [|exact Hgo]. destruct vv as [|v vv']; [done|]. case_bool_decide; [exact Hgo|done].
Qed.

Lemma pseudo_clean k v m : badHeader k = false -> header_clean (Some m) -> header_clean (Some (set_pseudo k v m)).
Proof.
  intros Hk Hc j Hj. unfold set_pseudo. rewrite values_insert. destruct (decide (_ = _)) as [E|E]; [|by apply Hc].
  by rewrite E, Hk in Hj || rewrite <- E, Hk in Hj.
Qed.

Lemma pseudoFields_clean req sv m : pseudoFields req sv = Some m -> header_clean (Some m).
Proof.
  assert (H0 : header_clean (Some ∅)) by done.
  unfold pseudoFields. case_bool_decide; [intros [= <-]; exact H0|].
  pose proof (pseudo_clean (str ":method") (rq_Method req) ∅ eq_refl H0) as H1.
  set (m1 := set_pseudo _ _ ∅) in *.
  set (sch := match rq_Scheme req with [] => _ | s => s end).
  destruct (match sch with [] => _ | _ => _ end) as [m2|] eqn:E; [|done]. cbn [mbind option_bind].
  assert (H2 : header_clean (Some m2)).
  { destruct sch; [destruct sv; [by injection E as <-|done]|]. injection E as <-. by apply pseudo_clean. }
  destruct (rq_RequestURI req); [destruct sv; [|done]|]; intros [= <-]; by apply pseudo_clean.
Qed.
End Clean.

(** ** Properties *)

(** The settings that a client puts into the HTTP2-Settings field of its upgrade request are
    the settings that the server reads from it. *)
Lemma roundtrip_settings s :
  settings_wf s -> Forall setting_ok s -> decodeSettings (encodedSettings s) = Some s.
Proof.
  intros Hwf Hok. destruct s as [|x s]; [done|]. unfold encodedSettings, decodeSettings.
  rewrite b64_roundtrip. cbn [mbind option_bind].
  change (settingsPayload (x :: s)) with ((x :: s) ≫= encodeSetting) at 1 2. rewrite settings_len.
  change settingLen with 6. rewrite (Z.mul_comm 6), Z.mod_mul, Z.div_mul by done. cbn [Z.eqb].
  unfold zlen. rewrite Nat2Z.id.
  rewrite <- (app_nil_r (settingsPayload (x :: s))). by rewrite (parseSettings_ok (x :: s) []).
Qed.

(** The header made from a request has none of the connection-specific fields of
    HTTP/1.1, whatever the case of their names in the request. *)
Theorem request_header_clean trimSpace u req skipVerify h :
  (forall s, ToLower u (ToLower u s) = ToLower u s) ->
  requestToHeader trimSpace u req skipVerify = Ok h ->
  forall k, badHeader k = true -> values h k = [].
Proof.
  intros Hu. unfold requestToHeader. destruct (pseudoFields req skipVerify) as [m|] eqn:E; [|done].
  apply addHeader_clean; [done|]. apply pseudo_clean; [done|]. by apply pseudoFields_clean in E.
Qed.

Definition sample_request : request :=
  MkRequest (str "GET") [] (str "a:80") (str "/x") [] [(str "Host", [str "a"]); (str "Cookie", [str "b; c"])] 0 None.

Definition sample_header : Header :=
  match requestToHeader (drop 0) id sample_request true with Ok h => h | _ => None end.

Lemma sample_header_ok : requestToHeader (drop 0) id sample_request true = Ok sample_header.
Proof.
  unfold sample_header.
  assert (E : match requestToHeader (drop 0) id sample_request true with Ok _ => true | _ => false end = true)
    by (vm_compute; reflexivity).
  by destruct (requestToHeader (drop 0) id sample_request true).
Qed.

Lemma request_header_clean_witness : values sample_header (str "host") = [].
Proof.
  apply (request_header_clean (drop 0) id sample_request true sample_header).
  - intros s. unfold ToLower, id. destruct (is_ascii s) eqn:E; [|by rewrite E].
    by rewrite is_ascii_lower, map_lower_idem.
  - exact sample_header_ok.
  - vm_compute. reflexivity.
Defined.

(** [initTLSConfig] offers "h2" and keeps the protocols that were there; of a list of
    cipher suites it puts the required one first, then the others that HTTP/2 allows, then
    those it prohibits, each group in its old order, and loses none. *)
Theorem initTLSConfig_spec cfg :
  let c := initTLSConfig cfg in
  let old := default emptyTLSConfig cfg in
  tc_PreferServerCipherSuites c = true /\ ProtocolTLS ∈ tc_NextProtos c /\ tc_NextProtos old `prefix_of` tc_NextProtos c /\
  match tc_CipherSuites old with
  | None => tc_CipherSuites c = None
  | Some l => exists good bad,
      tc_CipherSuites c = Some (TLS_ECDHE_RSA_WITH_AES_128_GCM_SHA256 :: good ++ bad) /\
      good `sublist_of` l /\ bad `sublist_of` l /\
      good ++ bad ≡ₚ filter (fun s => s <> TLS_ECDHE_RSA_WITH_AES_128_GCM_SHA256) l /\
      Forall (fun s => badCipher s = false) good /\ Forall (fun s => badCipher s = true) bad
  end.
Proof.
  intros c old. split_and!; [done|..].
  - unfold c, initTLSConfig, addProtocol. cbn. case_bool_decide; [done|]. set_solver.
  - unfold c, initTLSConfig, addProtocol. cbn. fold old. case_bool_decide; [done|]. by apply prefix_app_r.
  - unfold c, initTLSConfig. fold old. cbn. destruct (tc_CipherSuites old) as [l|]; [|done]. cbn. unfold orderCiphers.
    set (others := filter _ l). exists (filter (fun s => badCipher s = false) others), (filter (fun s => badCipher s = true) others).
    split_and!; [done|by transitivity others; apply sublist_filter..| | |].
    + generalize others; clear; intros others. induction others as [|x l IH]; [done|]. rewrite !filter_cons. destruct (badCipher x) eqn:E.
      * rewrite decide_False, decide_True by congruence. by rewrite <- Permutation_middle, IH.
      * rewrite decide_True, decide_False by congruence. cbn. by rewrite IH.
    + apply Forall_forall. intros s Hs. by apply list_elem_of_filter in Hs as [? _].
    + apply Forall_forall. intros s Hs. by apply list_elem_of_filter in Hs as [? _].
Qed.

(** [addHeader] lets a single TE value pass that is not "trailers", and panics on a TE
    field without values. *)
Theorem te_check_misses trimSpace u h :
  addHeader trimSpace u [(str "te", [str "gzip"])] (Some h) =
    Ok (Some (<[str "te" := values (Some h) (str "te") ++ [str "gzip"]]> h)) /\
  addHeader trimSpace u [(str "te", [])] (Some h) = Panic.
Proof.
  assert (Hc : CanonicalHTTP2HeaderKey u (str "te") = str "te") by (by apply Canonical_valid).
  split; cbn [addHeader]; rewrite Hc; vm_compute (badHeader _); cbn [addValues].
  - rewrite bool_decide_false by done. rewrite andb_false_r.
    unfold Header_Add. change (str "te") with (zb 116 :: str "e") at 1. cbn [mbind option_bind].
    change (bz (zb 116) =? 58) with false. rewrite Hc. done.
  - rewrite bool_decide_false by done. by rewrite bool_decide_true.
Qed.
