(* ===== verification/Handshake.v ===== *)
(** * The handshake ([src/server.go], [src/client.go], [src/conn.go])

    [serverHandshake] and [clientHandshake] with the upgrade from HTTP/1.1, [Handshake], and
    the public [WriteFrame] and [ReadFrame] that run it first.  What the transport and
    [net/http] give is in the class [HttpEnv]: the state of a TLS connection, the request or
    response that is read off the buffer and the rest of the input (behind a chunked body,
    which the server closes at once), whether the upgrade request could be written, the texts
    of errors, and the Unicode functions of [Upgrade].  The handshake timeout abandons a
    handshake that keeps running: [handshakeTimedOut] is what [Handshake] does then, in the
    state that the handshake has got to. *)

From S2P Require Import Prelude HpackEncode HpackDecode Types Settings StreamState FlowControl WriteQueue.
From S2P Require Import HttpHeader HeaderTable StreamWrite FrameWriter FrameReader ReaderAdvance Conn ConnIO ConnInv ConnSafety ConnOps ConnRun Upgrade.

(** ** The environment *)

Record tlsState := MkTLSState {
  ts_handshakeErr : option error;
  ts_Protocol : gostring;
  ts_Mutual : bool;
  ts_Version : Z;
  ts_CipherSuite : Z;
}.

Record response := MkResponse { rs_StatusCode : Z; rs_Header : httpHeader; rs_Body : list byte }.

Class HttpEnv := {
  http_equalFold : gostring -> gostring -> bool;
  http_trimSpace : gostring -> gostring;
  http_readRequest : list byte -> (error + request) * list byte;
  http_readResponse : list byte -> (error + response) * list byte;
  http_newRequest : error + request;
  http_write : request -> option error;
  http_settingsError : gostring -> list byte;
  http_readRequest_rest l : (http_readRequest l).2 `suffix_of` l;
  http_readResponse_rest l : (http_readResponse l).2 `suffix_of` l;
}.

(** [c.config], what [c.rwc] is, and the request given to [ClientConn]. *)
Record config := MkConfig {
  cf_InitialSettings : Settings;
  cf_HandshakeTimeout : Z;
  cf_AllowLowTLSVersion : bool;
  cf_tls : option tlsState;
  cf_upgrade : option request;
}.

Definition ClientPreface : list byte :=
  str "PRI * HTTP/2.0" ++ [zb 13; zb 10; zb 13; zb 10] ++ str "SM" ++ [zb 13; zb 10; zb 13; zb 10].

Definition crlf : list byte := [zb 13; zb 10].

Definition VersionTLS12 : Z := 0x0303.

Definition StatusBadRequest : Z := 400.
Definition StatusMethodNotAllowed : Z := 405.
Definition StatusSwitchingProtocols : Z := 101.

Definition errBadConnPreface : error := PlainError "http2: bad connection preface".

Section Handshake.
Context {W : Type} `{ConnEnv W} `{HttpEnv}.
Implicit Types c : Conn W.

Local Notation "x <- m ;; k" := (cbind m (fun x => k))
  (at level 100, m at next level, right associativity).
Local Notation "m ;; k" := (cbind m (fun _ => k)) (at level 100, right associativity).

Local Notation contains := (containsValue http_equalFold http_trimSpace).
Local Notation split := (splitHeader http_equalFold http_trimSpace).

(** [c.buf.Write(b)] *)
Definition rawWrite (b : list byte) : C W (option error) := fun c =>
  let (x, e) := sink_write (fw_w (cn_fw c)) b in
  (Ok e, cn_set_fw (fw_set_w x (fw_err (cn_fw c)) (cn_fw c)) c).

(** [c.buf.Flush()] with its error ignored *)
Definition rawFlush : C W unit := fun c => (Ok tt, (bufFlush c).2).

(** [c.idleStream(1)] with its error ignored; a nil stream makes the transition panic. *)
Definition upgradeStream (recv : bool) : C W unit :=
  err <- ctry (idleStream (negb recv) 1) ;;
  match err with
  | Some _ => cderef None
  | None => _ <- tryTransition 1 recv FrameHeaders true ;; cret tt
  end.

(** ** The server *)

Definition badUpgrade : gostring := str "bad upgrade request".

(** Why the value of HTTP2-Settings is refused: the text of the error of [DecodeString] or of
    [SetValue], or the default when its length is not a number of settings. *)
Definition settingsReason (v : gostring) : gostring :=
  match b64decode v with
  | Some payload => if zlen payload mod settingLen =? 0 then http_settingsError v else badUpgrade
  | None => http_settingsError v
  end.

(** The checks of the upgrade request, up to the settings: the settings of the peer, or the
    status and the reason of the response. *)
Definition upgradeRequest (req : request) : Z * gostring + Settings :=
  if negb (bool_decide (rq_Method req = str "GET")) then inl (StatusMethodNotAllowed, badUpgrade)
  else if negb (contains (rq_Header req) (str "Upgrade") [ProtocolTCP]) then inl (StatusBadRequest, badUpgrade)
  else if negb (contains (rq_Header req) (str "Connection") [str "Upgrade"; str "HTTP2-Settings"]) then
    inl (StatusBadRequest, badUpgrade)
  else match split (rq_Header req) (str "HTTP2-Settings") with
       | [v] => match decodeSettings v with Some s => inr s | None => inl (StatusBadRequest, settingsReason v) end
       | _ => inl (StatusBadRequest, badUpgrade)
       end.

Definition statusText (status : Z) : gostring :=
  if status =? StatusMethodNotAllowed then str "405 Method Not Allowed" else str "400 Bad Request".

(** The label [fail] *)
Definition refuseUpgrade (status : Z) (reason : list byte) : C W (list Frame) :=
  rawWrite (str "HTTP/1.1 " ++ statusText status ++ crlf) ;;
  rawWrite crlf ;;
  rawWrite reason ;;
  rawFlush ;;
  cthrow HandshakeError.

(** The frames that stand for the upgrade request; an error of [requestToHeader] is ignored
    and leaves a nil header. *)
Definition upgradeFrames (req : request) : outcome error (list Frame) :=
  let h := requestToHeader http_trimSpace env_toLower req true in
  let frames h :=
    let endStream := rq_ContentLength req <=? 0 in
    HeadersFrame 1 h noPriority 0 endStream ::
    (if endStream then [] else [DataFrame 1 (rq_Body req) (rq_ContentLength req) 0 true]) in
  match h with
  | Ok h => Ok (frames h)
  | Err _ => Ok (frames None)
  | Panic => Panic
  end.

(** [serverUpgrade]: the frames for [ReadFrame] *)
Definition serverUpgrade (req : request) (hijacked : bool) : C W (list Frame) :=
  match upgradeRequest req with
  | inl (status, reason) => refuseUpgrade status reason
  | inr settings =>
    err <- ctry (applySettings false settings) ;;
    match err with
    | Some e => refuseUpgrade StatusBadRequest (env_errText e)
    | None =>
      upgradeStream true ;;
      frames <- (if hijacked then cret [] else fun c => (upgradeFrames req, c)) ;;
      rawWrite (str "HTTP/1.1 101 Switching Protocols" ++ crlf) ;;
      rawWrite (str "Connection: Upgrade" ++ crlf) ;;
      rawWrite (str "Upgrade: h2c" ++ crlf ++ crlf) ;;
      rawFlush ;;
      cret frames
    end
  end.

(** [http.ReadRequest(c.buf.Reader)] *)
Definition readRequest : C W request := fun c =>
  let (r, rest) := http_readRequest (fr_in (cn_fr c)) in
  (match r with inl e => Err e | inr req => Ok req end, cn_set_fr (fr_set_in rest (cn_fr c)) c).

Definition tlsServer (cfg : config) (t : tlsState) : C W unit :=
  match ts_handshakeErr t with
  | Some _ => cthrow HandshakeError
  | None =>
    if negb (bool_decide (ts_Protocol t = ProtocolTLS)) then cthrow HandshakeError
    else if negb (cf_AllowLowTLSVersion cfg) && (ts_Version t <? VersionTLS12) then
      cthrow (ConnError ErrCodeInadequateSecurity)
    else if (VersionTLS12 <=? ts_Version t) && badCipher (ts_CipherSuite t) then
      cthrow (ConnError ErrCodeInadequateSecurity)
    else cret tt
  end.

(** [c.buf.Peek(len(ClientPreface))], the comparison and [Discard] *)
Definition checkPreface : C W unit := fun c =>
  let n := length ClientPreface in
  let input := fr_in (cn_fr c) in
  if (length input <? n)%nat then (Err (fr_end (cn_fr c)), c)
  else if bool_decide (take n input = ClientPreface) then
    (Ok tt, cn_set_fr (fr_set_in (drop n input) (cn_fr c)) c)
  else (Err errBadConnPreface, c).

(** The first frame has to be SETTINGS without ACK; [GotNil] is no such frame either. *)
Definition firstFrame (fuel : nat) (bad : error) : C W unit :=
  r <- readFrame fuel ;;
  match r with
  | GotFrame (SettingsFrame false _) => cret tt
  | OutOfRounds => cderef None
  | _ => cthrow bad
  end.

(** A server connection has no [upgradeFunc]: nothing sets it. *)
Definition serverHandshake (fuel : nat) (cfg : config) : C W (list Frame) :=
  frames <- (match cf_tls cfg with
             | Some t => tlsServer cfg t ;; cret []
             | None => req <- readRequest ;; serverUpgrade req false
             end) ;;
  writeFrame GotToken (SettingsFrame false (cf_InitialSettings cfg)) ;;
  checkPreface ;;
  firstFrame fuel (PlainError "first received frame was not SETTINGS") ;;
  cret frames.

(** ** The client *)

(** [header[key] = values] *)
Fixpoint putHeader (header : httpHeader) (key : gostring) (vs : list gostring) : httpHeader :=
  match header with
  | [] => [(key, vs)]
  | (k, vv) :: header => if bool_decide (k = key) then (k, vs) :: header else (k, vv) :: putHeader header key vs
  end.

(** [header[key]] *)
Definition headerValues (header : httpHeader) (key : gostring) : list gostring :=
  default [] (snd <$> List.find (fun kv => bool_decide (kv.1 = key)) header).

(** [if !containsValue(header, "Connection", v)] it is added. *)
Definition addConnection (v : gostring) (header : httpHeader) : httpHeader :=
  if contains header (str "Connection") [v] then header
  else putHeader header (str "Connection") (headerValues header (str "Connection") ++ [v]).

(** The header of the upgrade request; [None] if it has more than one HTTP2-Settings. *)
Definition upgradeHeader (settings : Settings) (header : httpHeader) : option httpHeader :=
  let header := putHeader header (str "Upgrade") [ProtocolTCP] in
  let header := addConnection (str "HTTP2-Settings") (addConnection (str "Upgrade") header) in
  match split header (str "HTTP2-Settings") with
  | [] => Some (putHeader header (str "HTTP2-Settings") [encodedSettings settings])
  | [_] => Some header
  | _ => None
  end.

Definition setHeader (req : request) (header : httpHeader) : request :=
  MkRequest (rq_Method req) (rq_Scheme req) (rq_Host req) (rq_RequestURI req) (rq_Fragment req) header
    (rq_ContentLength req) (rq_Body req).

(** [http.ReadResponse(c.buf.Reader, req)] *)
Definition readResponse : C W response := fun c =>
  let (r, rest) := http_readResponse (fr_in (cn_fr c)) in
  (match r with inl e => Err HandshakeError | inr res => Ok res end, cn_set_fr (fr_set_in rest (cn_fr c)) c).

Definition upgraded (res : response) : bool :=
  (rs_StatusCode res =? StatusSwitchingProtocols) && contains (rs_Header res) (str "Upgrade") [ProtocolTCP] &&
  contains (rs_Header res) (str "Connection") [str "Upgrade"].

Definition clientUpgrade (settings : Settings) (req : option request) : C W unit :=
  match (match req with Some r => inr r | None => http_newRequest end) with
  | inl _ => cthrow HandshakeError
  | inr req =>
    if negb (bool_decide (rq_Method req = str "GET")) then cthrow HandshakeError
    else
      match upgradeHeader settings (rq_Header req) with
      | None => cthrow HandshakeError
      | Some header =>
        match http_write (setHeader req header) with
        | Some _ => cthrow HandshakeError
        | None =>
          upgradeStream false ;;
          res <- readResponse ;;
          if upgraded res then cret tt else cthrow HandshakeError
        end
      end
  end.

Definition tlsClient (t : tlsState) : C W unit :=
  match ts_handshakeErr t with
  | Some _ => cthrow HandshakeError
  | None =>
    if negb (ts_Mutual t) || negb (bool_decide (ts_Protocol t = ProtocolTLS)) then cthrow HandshakeError else cret tt
  end.

Definition clientHandshake (fuel : nat) (cfg : config) : C W (list Frame) :=
  (match cf_tls cfg with
   | Some t => tlsClient t
   | None => clientUpgrade (cf_InitialSettings cfg) (cf_upgrade cfg)
   end) ;;
  err <- rawWrite ClientPreface ;;
  creturn err ;;
  writeFrame GotToken (SettingsFrame false (cf_InitialSettings cfg)) ;;
  firstFrame fuel errBadConnPreface ;;
  cret [].

(** ** [Handshake], [WriteFrame] and [ReadFrame] *)

Record hsState := MkHS { hs_err : option error; hs_complete : bool; hs_frames : list Frame }.

Definition newHS : hsState := MkHS None false [].

(** The error that is handled; the one that is kept and returned is the original. *)
Definition prefaceError (e : error) : error :=
  match e with
  | PlainError t => if String.eqb t "http2: bad connection preface" then ConnError ErrCodeProtocol else e
  | _ => e
  end.

Definition Handshake (fuel : nat) (cfg : config) (h : hsState) : C W hsState := fun c =>
  match hs_err h with
  | Some e => (Ok h, c)
  | None =>
    if hs_complete h then (Ok h, c)
    else
      match (if cs_server (cn_local c) then serverHandshake fuel cfg c else clientHandshake fuel cfg c) with
      | (Ok frames, c) => (Ok (MkHS None true frames), c)
      | (Err HandshakeError, c) => (ignore Conn_close ;; cret (MkHS (Some HandshakeError) false [])) c
      | (Err e, c) => (handleErr (prefaceError e) ;; cret (MkHS (Some e) false [])) c
      | (Panic, c) => (Panic, c)
      end
  end.

(** [Handshake] when the timer of [HandshakeTimeout] is first *)
Definition handshakeTimedOut (h : hsState) : C W hsState :=
  match hs_err h with
  | Some e => cret h
  | None =>
    if hs_complete h then cret h
    else ignore Conn_close ;; cret (MkHS (Some HandshakeError) false [])
  end.

(** [WriteFrame] for a frame that is not nil *)
Definition WriteFrame_public (fuel : nat) (cfg : config) (sel : selected) (f : Frame) (h : hsState) : C W (hsState * option wout) :=
  closed <- cget cn_closed ;;
  if closed : bool then cthrow ErrClosed
  else
    h <- Handshake fuel cfg h ;;
    match hs_err h with
    | Some e => cret (h, None)
    | None => r <- writeFrame sel f ;; cret (h, Some r)
    end.

(** [ReadFrame]; the frames of the upgrade come first.  The body of the upgrade request,
    which the next call closes, is an object of [net/http]. *)
Definition ReadFrame_public (fuel : nat) (cfg : config) (h : hsState) : C W (hsState * option readResult) :=
  h <- Handshake fuel cfg h ;;
  match hs_err h with
  | Some e => cret (h, None)
  | None =>
    match hs_frames h with
    | f :: fs => cret (MkHS (hs_err h) (hs_complete h) fs, Some (GotFrame f))
    | [] => r <- readFrame fuel ;; cret (h, Some r)
    end
  end.
End Handshake.

(** ** The invariant *)

Section Safe.
Context {W : Type} `{ConnEnv W} `{HttpEnv}.
Implicit Types c : Conn W.
#[local] Hint Resolve reader_le_refl : core.

(** What no setting changes. *)
Lemma applySettings_leaves {X} (p : Conn W -> X) b xs :
  (forall id g c, p (upd_stream id g c) = p c) -> (forall r c, p (cn_set_fr r c) = p c) ->
  (forall w c, p (cn_set_fw w c) = p c) ->
  (forall s n c, p (upd_side b (cs_set_settings s) c) = p c /\
     p (upd_side b (fun x => cs_set_settingsCap n (cs_set_settings s x)) c) = p c) -> leaves p (applySettings b xs).
Proof.
  intros H1 H2 H3 H4.
  assert (Hone : forall l x, leaves p (applySetting b l x)).
  { intros l x. unfold applySetting. destruct (_ =? SettingEnablePush).
    { apply leaves_bind; [apply leaves_get|]. intros sv. by destruct (_ && _). }
    destruct (_ =? SettingInitialWindowSize); [by apply (setInitialWindow_leaves p b)|].
    destruct (_ =? SettingHeaderTableSize).
    { intros c. unfold clift. destruct b; [destruct (dec_SetMaxHeaderTableSize _ _)|destruct (enc_SetMaxHeaderTableSize _ _)]; cbn; done || apply H2 || apply H3. }
    destruct (_ =? SettingMaxHeaderListSize); [intros c; destruct b; [apply H2|apply H3]|].
    destruct (_ =? SettingMaxFrameSize); [intros c; destruct b; [apply H2|apply H3]|done]. }
  assert (Hloop : forall l, leaves p (applySettings_loop b xs l)).
  { induction xs as [|x xs IH]; intros l c; [done|]. cbn [applySettings_loop]. destruct (known_setting _); [|apply IH].
    specialize (Hone l x c). destruct (applySetting b l x c) as [[[]|e|] c1]; cbn in Hone |- *.
    - by rewrite IH.
    - by rewrite (proj1 (H4 _ 0 _)).
    - done. }
  apply leaves_bind; [apply leaves_get|]. intros l. apply leaves_bind; [apply Hloop|]. intros l' c. apply H4.
Qed.

Lemma settings_goaway xs : leaves (fun c => cs_goAway (cn_remote c)) (@applySettings W _ false xs).
Proof. by apply applySettings_leaves. Qed.

Lemma rawWrite_fine P b c : good c -> fine P c (rawWrite b c).
Proof. intros Hg. unfold rawWrite. destruct (sink_write _ _). apply fine_quiet_res; [done|done|apply quiet_fw]. Qed.

Lemma rawFlush_fine P c : good c -> fine P c (rawFlush c).
Proof.
  intros Hg. unfold rawFlush. destruct (bufFlush c) as [e c'] eqn:E. apply fine_quiet_res; [done|done|]. by eapply quiet_flush.
Qed.

Lemma upgradeStream_fine (recv : bool) c :
  good c -> (recv = true -> cs_goAway (cn_remote c) = None) -> fine False c (upgradeStream recv c).
Proof.
  intros Hg Hga. unfold upgradeStream. apply fine_bind; [by apply fine_try, idle_fine|].
  intros [e|] c1 Hrun Hg1 _; [by apply fine_deref|]. unfold ctry in Hrun.
  destruct (idleStream (negb recv) 1 c) as [[[]|e|] c2] eqn:Hi; simplify_eq.
  destruct (idle_admissible (negb recv) 1 c c1 Hg) as [Hs Ha]; [lia| |done|].
  { destruct recv; [right|by left]. intros g. by rewrite Hga. }
  apply fine_bind; [by apply (try_fine False 1 _ _ _ c1 (newStream 1))|]. intros; by apply fine_ret.
Qed.

Lemma refuse_fine st reason c : good c -> fine False c (refuseUpgrade st reason c).
Proof.
  intros Hg. do 3 (apply fine_bind; [by apply rawWrite_fine|]; intros ? ? _ ? _).
  apply fine_bind; [by apply rawFlush_fine|]. intros; by apply fine_throw.
Qed.

Lemma serverUpgrade_fine req hj c : good c -> cs_goAway (cn_remote c) = None -> fine False c (serverUpgrade req hj c).
Proof.
  intros Hg Hga. unfold serverUpgrade. destruct (upgradeRequest req) as [[st reason]|xs]; [by apply refuse_fine|].
  pose proof (settings_goaway xs c) as Hl. cbn beta in Hl.
  apply fine_bind; [by apply fine_try, applySettings_fine|]. intros [e|] c1 Hrun Hg1 _; [by apply refuse_fine|].
  unfold ctry in Hrun. destruct (applySettings false xs c) as [[[]|e|] c2]; simplify_eq. cbn in Hl.
  apply fine_bind; [apply upgradeStream_fine; [done|by rewrite Hl]|]. intros _ c2 _ Hg2 _.
  apply fine_bind; [destruct hj; [by apply fine_ret|split_and!; [done|done|apply evolves_refl]]|].
  intros fs c3 _ Hg3 _. do 3 (apply fine_bind; [by apply rawWrite_fine|]; intros ? ? _ ? _).
  apply fine_bind; [by apply rawFlush_fine|]. intros; by apply fine_ret.
Qed.

Lemma suffix_le r l : l `suffix_of` fr_in r -> reader_le r (fr_set_in l r).
Proof. intros Hl. by split_and!. Qed.

Lemma readRequest_fine c : good c -> fine False c (readRequest c) /\ cs_goAway (cn_remote (readRequest c).2) = cs_goAway (cn_remote c).
Proof.
  intros Hg. unfold readRequest. pose proof (http_readRequest_rest (fr_in (cn_fr c))) as Hr.
  destruct (http_readRequest _) as [r rest]. split; [|done].
  destruct (good_quiet c (cn_set_fr (fr_set_in rest (cn_fr c)) c) Hg (quiet_fr c _ (suffix_le _ _ Hr))). by split_and!.
Qed.

Lemma readResponse_fine c : good c -> fine False c (readResponse c).
Proof.
  intros Hg. unfold readResponse. pose proof (http_readResponse_rest (fr_in (cn_fr c))) as Hr.
  destruct (http_readResponse _) as [r rest].
  destruct (good_quiet c (cn_set_fr (fr_set_in rest (cn_fr c)) c) Hg (quiet_fr c _ (suffix_le _ _ Hr))). by split_and!.
Qed.

Lemma tlsServer_same cfg t c : exists r, tlsServer cfg t c = (r, c).
Proof. unfold tlsServer. destruct (ts_handshakeErr t); [by eexists|]. repeat case_match; by eexists. Qed.

Lemma fine_same {A} P c (r : outcome error A) : good c -> (P -> r <> Panic) -> fine P c (r, c).
Proof. intros Hg Hr. split_and!; [done|done|apply evolves_refl]. Qed.

Lemma checkPreface_fine P c : good c -> fine P c (checkPreface c).
Proof.
  intros Hg. unfold checkPreface. destruct (_ <? _)%nat; [by apply fine_same|]. case_bool_decide; [|by apply fine_same].
  apply fine_quiet_res; [done|done|]. apply quiet_fr, suffix_le, suffix_drop.
Qed.

Lemma firstFrame_fine fuel bad c : good c -> fr_ok (cn_fr c) -> fine False c (firstFrame fuel bad c).
Proof.
  intros Hg Hr. apply fine_bind; [by apply readFrame_fine|].
  intros [f| |] c' _ Hg' _; [|by apply fine_throw|by apply fine_deref].
  destruct f as [| | | |[]| | | | |]; (by apply fine_throw) || (by apply fine_ret).
Qed.

Lemma sendSettings_fine xs c : good c -> fine False c (writeFrame GotToken (SettingsFrame false xs) c).
Proof. intros Hg. apply (fine_weaken (write_safe (SettingsFrame false xs) c)); [done|]. by apply writeFrame_fine. Qed.

Lemma serverHandshake_fine fuel cfg c :
  good c -> fr_ok (cn_fr c) -> (cf_tls cfg = None -> cs_goAway (cn_remote c) = None) -> fine False c (serverHandshake fuel cfg c).
Proof.
  intros Hg Hr Hga. apply fine_bind.
  { destruct (cf_tls cfg) as [t|].
    - destruct (tlsServer_same cfg t c) as [r E]. unfold cbind. rewrite E. destruct r; by apply fine_same.
    - destruct (readRequest_fine c Hg) as [Hf Hsame]. apply fine_bind; [done|]. intros req c1 Hrun Hg1 _.
      rewrite Hrun in Hsame. cbn in Hsame. apply serverUpgrade_fine; [done|rewrite Hsame; by apply Hga]. }
  intros frames c1 _ Hg1 He1. pose proof (fr_later _ _ He1 Hr) as Hr1.
  apply fine_bind; [by apply sendSettings_fine|]. intros _ c2 _ Hg2 He2.
  apply fine_bind; [by apply checkPreface_fine|]. intros _ c3 _ Hg3 He3.
  apply fine_bind; [apply firstFrame_fine; [done|by apply (fr_later c2), (fr_later c1)]|]. intros; by apply fine_ret.
Qed.

Lemma clientUpgrade_fine xs req c : good c -> fine False c (clientUpgrade xs req c).
Proof.
  intros Hg. unfold clientUpgrade. destruct (match req with Some _ => _ | None => _ end) as [e|r]; [by apply fine_throw|].
  destruct (negb _); [by apply fine_throw|]. destruct (upgradeHeader _ _) as [hd|]; [|by apply fine_throw].
  destruct (http_write _); [by apply fine_throw|]. apply fine_bind; [by apply upgradeStream_fine|]. intros _ c1 _ Hg1 _.
  apply fine_bind; [by apply readResponse_fine|]. intros res c2 _ Hg2 _. destruct (upgraded res); [by apply fine_ret|by apply fine_throw].
Qed.

Lemma clientHandshake_fine fuel cfg c : good c -> fr_ok (cn_fr c) -> fine False c (clientHandshake fuel cfg c).
Proof.
  intros Hg Hr. apply fine_bind.
  { destruct (cf_tls cfg) as [t|]; [|by apply clientUpgrade_fine]. unfold tlsClient. destruct (ts_handshakeErr t); [by apply fine_throw|].
    destruct (_ || _); [by apply fine_throw|by apply fine_ret]. }
  intros _ c1 _ Hg1 He1. apply fine_bind; [by apply rawWrite_fine|]. intros e c2 _ Hg2 He2.
  apply fine_bind; [by apply fine_return|]. intros _ c3 _ Hg3 He3. apply fine_bind; [by apply sendSettings_fine|].
  intros _ c4 _ Hg4 He4. apply fine_bind; [apply firstFrame_fine; [done|]|intros; by apply fine_ret].
  by apply (fr_later c3), (fr_later c2), (fr_later c1), (fr_later c).
Qed.

(** A server takes an upgrade request before it sends a GOAWAY: it writes nothing before. *)
Definition upgrade_first (cfg : config) c : Prop :=
  cs_server (cn_local c) = true -> cf_tls cfg = None -> cs_goAway (cn_remote c) = None.

Lemma Handshake_fine fuel cfg h c :
  good c -> fr_ok (cn_fr c) -> upgrade_first cfg c -> fine False c (Handshake fuel cfg h c).
Proof.
  intros Hg Hr Hga. unfold Handshake. destruct (hs_err h); [by apply fine_ret|]. destruct (hs_complete h); [by apply fine_ret|].
  assert (Hf : fine False c (if cs_server (cn_local c) then serverHandshake fuel cfg c else clientHandshake fuel cfg c))
    by (destruct (cs_server _) eqn:E; [apply serverHandshake_fine; [done|done|by apply Hga]|by apply clientHandshake_fine]).
  destruct (if cs_server _ then _ else _) as [[frames|e|] c1]; destruct Hf as (_ & Hg1 & He1); cbn in Hg1, He1.
  - by split_and!.
  - assert (Hd : fine False c ((cbind (handleErr (prefaceError e)) (fun _ => cret (MkHS (Some e) false []))) c1)).
    { eapply fine_later; [exact He1|]. apply fine_bind; [by apply handleErr_fine|]. intros; by apply fine_ret. }
    destruct e; try exact Hd. eapply fine_later; [exact He1|].
    apply fine_bind; [by apply fine_ignore, close_fine_conn|]. intros; by apply fine_ret.
  - by split_and!.
Qed.
End Safe.

(** An environment for examples: no HTTP/1.1 is read or written. *)
#[global] Instance no_http : HttpEnv.
Proof.
  refine {| http_equalFold a b := bool_decide (map lower_byte a = map lower_byte b); http_trimSpace s := s;
            http_readRequest l := (inl ErrEOF, l); http_readResponse l := (inl ErrEOF, l);
            http_newRequest := inl ErrEOF; http_write _ := None; http_settingsError _ := [] |}; done.
Defined.
