(* ===== verification/ConnSystem.v ===== *)
(** * The connection as a system

    [conn_step] is the union of everything the goroutines of a connection can do, each
    operation as one step; [reachable] are the states of its runs from [newConn], in any
    order of the operations.  The invariant holds in all of them. *)

From S2P Require Import Prelude HpackEncode HpackDecode Types Settings StreamState FlowControl WriteQueue.
From S2P Require Import HttpHeader HeaderTable StreamWrite FrameWriter FrameReader ReaderAdvance Conn ConnIO ConnInv ConnSafety ConnOps ConnRun Upgrade Handshake.

Section Steps.
Context {W : Type} `{ConnEnv W} `{HttpEnv}.
Implicit Types c : Conn W.

(** One operation of a goroutine, up to its end or its next wait.  The conditions: a frame
    that is written has identifiers other than the two largest 32-bit numbers, which
    [writeFrame] does not check ([wide_id_wraps] in [ConnTheorems] is what happens otherwise);
    a body is read only when a DATA frame has given one out ([body_safe]); and a server takes
    an upgrade request before it has sent a GOAWAY, as it writes nothing before. *)
Inductive conn_step c : Conn W -> Prop :=
| step_write sel f :
    ids_ok f -> can_select sel (Frame_Stream f) c = true -> conn_step c (writeFrame sel f c).2
| step_credit id c' : creditStep id c = Some c' -> conn_step c c'
| step_creditClosed id c' : creditClosed id c = Some c' -> conn_step c c'
| step_loop r c' : writeLoop_round c = Some (r, c') -> conn_step c c'
| step_loopClosed c' : writeLoop_closed c = Some c' -> conn_step c c'
| step_read fuel : conn_step c (readFrame fuel c).2
| step_body k : body_safe c -> conn_step c (data_Read k c).2
| step_nextID sel r c' : NextStreamID sel c = Some (r, c') -> conn_step c c'
| step_flush : conn_step c (Flush c)
| step_close h timeout : conn_step c (CloseTimeout h timeout c).2
| step_closeNow : conn_step c (Conn_close c).2
| step_handleErr e : conn_step c (handleErr e c).2
| step_handshake fuel cfg h :
    upgrade_first cfg c -> conn_step c (Handshake fuel cfg h c).2.

Definition steps : Conn W -> Conn W -> Prop := rtc conn_step.

(** The states that a connection over any input and sink can reach. *)
Definition reachable (server : bool) c : Prop :=
  exists input e stale bufSize w, steps (newConn server (newFrameReader input e stale bufSize) w) c.
End Steps.

Section System.
Context {W : Type} `{ConnEnv W} `{HttpEnv}.
Implicit Types c : Conn W.
#[local] Hint Resolve reader_le_refl : core.

Lemma conn_step_good c c' : good c -> fr_ok (cn_fr c) -> conn_step c c' -> good c' /\ evolves c c'.
Proof.
  intros Hg Hr. destruct 1 as [sel f Hids _|id c' Hs|id c' Hs|r c' Hs|c' Hs|fuel|k Hb|ic r c' Hs| |h t| |e|fuel cfg h Hga].
  - by destruct (writeFrame_fine sel f c Hg Hids) as (_ & ? & ?).
  - by apply (creditStep_good id).
  - by apply (creditClosed_good id).
  - by apply (loop_good c r).
  - unfold writeLoop_closed in Hs. destruct (cn_loop c); try done. destruct (cn_closeCh c) eqn:Hc; [|done].
    injection Hs as <-. apply good_quiet; [done|by split_and!].
  - by destruct (readFrame_fine fuel c Hg Hr) as (_ & ? & ?).
  - by destruct (data_Read_fine False k c Hg Hb ltac:(done)) as (_ & ? & ?).
  - by apply (NextStreamID_good ic c r).
  - apply good_quiet; [done|by apply quiet_queue].
  - by destruct (CloseTimeout_fine True h t c Hg) as (_ & ? & ?).
  - by destruct (close_fine_conn True c Hg) as (_ & ? & ?).
  - by destruct (handleErr_fine True e c Hg) as (_ & ? & ?).
  - by destruct (Handshake_fine fuel cfg h c Hg Hr Hga) as (_ & ? & ?).
Qed.

Lemma steps_good c c' : good c -> fr_ok (cn_fr c) -> steps c c' -> good c' /\ evolves c c'.
Proof.
  intros Hg Hr Hs. revert Hg Hr. induction Hs as [c|c1 c2 c3 Hst Hs IH]; intros Hg Hr; [split; [done|apply evolves_refl]|].
  destruct (conn_step_good c1 c2 Hg Hr Hst) as [Hg2 He2].
  destruct (IH Hg2 (fr_later _ _ He2 Hr)) as [Hg3 He3]. split; [done|by eapply evolves_trans].
Qed.


Lemma reachable_good server c : reachable server c -> good c /\ fr_ok (cn_fr c).
Proof.
  intros (input & e & stale & n & w & Hs). set (c0 := newConn server _ w) in Hs.
  assert (Hr0 : fr_ok (cn_fr c0)) by (split; [done|intros f [=]]).
  destruct (steps_good c0 c (newConn_good server _ w) Hr0 Hs) as [Hg He]. split; [done|by apply (fr_later c0)].
Qed.

Lemma reachable_server server c : reachable server c -> cs_server (cn_local c) = server.
Proof.
  intros (input & e & stale & n & w & Hs). set (c0 := newConn server _ w) in Hs.
  assert (Hr0 : fr_ok (cn_fr c0)) by (split; [done|intros f [=]]).
  destruct (steps_good c0 c (newConn_good server _ w) Hr0 Hs) as [_ [Hside _]]. apply (Hside true).
Qed.

(** Fewer than 2 ^ 32 - 1 streams can be active, so the counters do not wrap around. *)
Lemma count_bound b c : conn_ok c -> 0 <= nActive (owned b c) (cn_objs c) <= 2 ^ 32 - 2.
Proof.
  intros Hok. split; [apply nActive_nonneg|]. apply nActive_bound; [done|]. intros id s Hs.
  destruct (ok_ids c Hok id s Hs) as [? _]. lia.
Qed.

Lemma count_exact b c : conn_ok c -> cs_numStreams (side b c) = nActive (owned b c) (cn_objs c).
Proof. intros Hok. rewrite (ok_count c Hok). pose proof (count_bound b c Hok). apply u32_small. lia. Qed.
End System.

