(* ===== verification/ConnLoop.v ===== *)
(** * Who moves the write loop

    Only the rounds of [writeLoop] change where its goroutine is: every other operation of a
    connection leaves it.  So a loop that is blocked in the send of an answer stays blocked,
    in every continuation of the run. *)

From S2P Require Import Prelude HpackEncode HpackDecode Types Settings StreamState FlowControl WriteQueue.
From S2P Require Import HttpHeader HeaderTable StreamWrite FrameWriter FrameReader ReaderAdvance Conn ConnIO ConnInv ConnSafety ConnOps ConnRun Upgrade Handshake ConnSystem.

Create HintDb loop.

Section Loop.
Context {W : Type} `{ConnEnv W} `{HttpEnv}.
Implicit Types c : Conn W.

Local Notation keeps m := (leaves (@cn_loop W) m).

(** ** The table and the transitions *)

Lemma upd_side_loop b f c : cn_loop (upd_side b f c) = cn_loop c.
Proof. by destruct b. Qed.

Lemma add_frames_loop fs c : cn_loop (add_frames fs c) = cn_loop c.
Proof. unfold add_frames. revert c. induction fs as [|f fs IH]; intros c; [done|]. cbn. by rewrite IH. Qed.

Lemma releaseID_loop c : cn_loop (releaseID c) = cn_loop c.
Proof. unfold releaseID. by destruct (cn_idState c). Qed.

Lemma finishWrite_loop id release c : cn_loop (finishWrite id release c) = cn_loop c.
Proof. unfold finishWrite. destruct release; [by rewrite releaseID_loop|done]. Qed.

Lemma removeStream_loop id c : cn_loop (removeStream id c) = cn_loop c.
Proof. unfold removeStream. by destruct (_ && _). Qed.

Lemma creturn_loop e : keeps (creturn e).
Proof. by destruct e. Qed.

Lemma stream_returnBytes_loop id n : keeps (stream_returnBytes id n).
Proof.
  intros c. unfold stream_returnBytes. destruct (cn_objs c !! id ≫= st_recvFlow); [|done].
  destruct (returnBytes _ _ _) as [[[e ?] ?] fs]. rewrite creturn_loop. by rewrite add_frames_loop.
Qed.

Lemma runEffect_loop id e c c' : runEffect id e c = Some c' -> cn_loop c' = cn_loop c.
Proof.
  destruct e; cbn [runEffect]; intros Hr; simplify_option_eq; try done.
  - unfold addNumStreams. apply upd_side_loop.
  - unfold addNumStreams. apply upd_side_loop.
  - case_match; [done|done|apply finishWrite_loop].
  - case_match; simplify_eq; [apply stream_returnBytes_loop|done].
  - by case_match; simplify_eq.
  - apply removeStream_loop.
Qed.

Lemma runEffects_loop id es c c' : runEffects id es c = Some c' -> cn_loop c' = cn_loop c.
Proof.
  revert c. induction es as [|e es IH]; intros c; cbn [runEffects]; [by intros [= <-]|].
  destruct (runEffect id e c) as [c1|] eqn:He; [|done]. intros Hr. rewrite (IH c1 Hr). by eapply runEffect_loop.
Qed.

Lemma cas_loop id from to c c' : compareAndSwapState id from to c = Some c' -> cn_loop c' = cn_loop c.
Proof. intros Hc. by apply runEffects_loop in Hc. Qed.

Lemma stream_transition_loop id recv t e : keeps (stream_transition id recv t e).
Proof.
  intros c. unfold stream_transition. destruct (cn_objs c !! id) as [s|]; [|done].
  destruct (transition_state _ _ _ _) as [to|]; [|done].
  destruct (compareAndSwapState _ _ _ c) as [c1|] eqn:Hc; [|done]. cbn.
  destruct (_ && _); cbn; by rewrite <- (cas_loop _ _ _ _ _ Hc).
Qed.

Lemma stream_close_loop id : keeps (stream_close id).
Proof.
  intros c. unfold stream_close, clift. destruct (cn_objs c !! id) as [s|]; [|done].
  destruct (compareAndSwapState _ _ _ c) eqn:Hc; [|done]. by apply cas_loop in Hc.
Qed.

Lemma closeStreams_loop ids : keeps (closeStreams ids).
Proof. induction ids as [|id ids IH]; [done|]. apply leaves_bind; [apply stream_close_loop|]. by intros _. Qed.

Lemma idleStream_loop b id : keeps (idleStream b id).
Proof. intros c. unfold idleStream. repeat (case_match; [done|]). cbn. by rewrite upd_side_loop. Qed.

Lemma applySettings_loop' b xs : keeps (applySettings b xs).
Proof. apply applySettings_leaves; try done. intros. by rewrite !upd_side_loop. Qed.

Lemma ctry_loop (m : C W unit) : keeps m -> keeps (ctry m).
Proof. intros Hm c. unfold ctry. specialize (Hm c). by destruct (m c) as [[?|?|] ?]. Qed.

Lemma modify_loop f : (forall c, cn_loop (f c) = cn_loop c) -> keeps (cmodify f).
Proof. intros Hf c. apply Hf. Qed.

Lemma deref_loop {A} (o : option A) : keeps (cderef o).
Proof. by destruct o. Qed.

Lemma deferRelease_loop m : keeps m -> keeps (deferRelease m).
Proof.
  intros Hm c. unfold deferRelease. specialize (Hm c). destruct (m c) as [[[]|e|] c1]; cbn in Hm |- *; rewrite ?releaseID_loop; done.
Qed.
Lemma ignore_loop m : keeps m -> keeps (ignore m).
Proof. intros Hm. unfold ignore. apply leaves_bind; [by apply ctry_loop|done]. Qed.
(** Goals about a computation are split along its binds and cases. *)
Local Ltac keeps :=
  repeat first [ done | solve [auto with loop] | apply leaves_bind; [|intros ?] | apply ctry_loop | apply ignore_loop | apply deferRelease_loop | case_match ].

#[local] Hint Resolve creturn_loop stream_returnBytes_loop stream_transition_loop stream_close_loop
  closeStreams_loop idleStream_loop applySettings_loop' modify_loop deref_loop leaves_get : loop.
#[local] Hint Resolve upd_side_loop add_frames_loop releaseID_loop finishWrite_loop : loop.

(** ** Writing *)

Lemma try_loop id recv t e : keeps (tryTransition id recv t e).
Proof. apply ctry_loop. keeps. Qed.

#[local] Hint Resolve try_loop : loop.

Lemma writeGoAway_loop ga : keeps (writeGoAway ga).
Proof. unfold writeGoAway. keeps. Qed.

Lemma writeRST_loop onErr f : (forall e, keeps (onErr e)) -> keeps (writeRSTStream onErr f).
Proof. intros Ho. unfold writeRSTStream. keeps. Qed.
#[local] Hint Resolve writeGoAway_loop writeRST_loop : loop.

Lemma each_loop {A} (f : A -> C W unit) l : (forall x, keeps (f x)) -> keeps (each f l).
Proof. intros Hf. induction l as [|x l IH]; [done|]. cbn [each]. keeps. Qed.
#[local] Hint Resolve each_loop : loop.

Lemma handleErr_rec_loop n e : keeps (handleErr_rec n e).
Proof. revert e. induction n as [|n IH]; intros e; [done|]. cbn [handleErr_rec]. unfold errGoAway.
  keeps; apply each_loop; intros ?; keeps.
Qed.

Lemma handleErr_loop e : keeps (handleErr e).
Proof. apply handleErr_rec_loop. Qed.
#[local] Hint Resolve handleErr_loop : loop.

Lemma finishErr_loop {A} e : keeps (finishErr (A := A) e).
Proof. unfold finishErr. keeps. Qed.
#[local] Hint Resolve finishErr_loop : loop.

Lemma startWrite_loop sel id f release : keeps (startWrite sel id f release).
Proof. unfold startWrite. keeps. Qed.

#[local] Hint Resolve startWrite_loop : loop.

Lemma writeWindowUpdate_loop id n : keeps (writeWindowUpdate id n).
Proof.
  unfold writeWindowUpdate. apply leaves_bind; [|intros ?; keeps]. case_match.
  - intros c. destruct (fc_incrementWindow _ _) as [[e f] fs]. cbn. by rewrite add_frames_loop.
  - apply leaves_bind; [keeps|intros [s|]; [|done]]. apply leaves_bind; [keeps|intros f].
    destruct (fc_incrementWindow _ _) as [[e f'] fs]. apply leaves_bind; [|intros ?; keeps]. apply modify_loop. intros c.
    by rewrite add_frames_loop.
Qed.
#[local] Hint Resolve writeWindowUpdate_loop : loop.

Lemma writeFrame_loop sel f : keeps (writeFrame sel f).
Proof.
  unfold writeFrame, writeData, writeHeaders, writeSettingsFrame, writePushPromise. keeps.
Qed.

Lemma close_loop : keeps Conn_close.
Proof. unfold Conn_close. keeps. Qed.
#[local] Hint Resolve writeFrame_loop close_loop : loop.

Lemma CloseTimeout_loop h t : keeps (CloseTimeout h t).
Proof. unfold CloseTimeout. keeps. Qed.

Lemma allocateNow_loop id n c m c' : allocateNow id n c = Some (m, c') -> cn_loop c' = cn_loop c.
Proof.
  unfold allocateNow. destruct (n <=? 0); [by intros [= <- <-]|]. destruct (cn_objs c !! id ≫= st_sendFlow); [|done]. cbn.
  destruct (allocateBytes _ _) as [[e|k] x]; [done|]. by intros [= <- <-].
Qed.

Lemma creditStep_loop id c c' : creditStep id c = Some c' -> cn_loop c' = cn_loop c.
Proof.
  unfold creditStep. destruct (cn_objs c !! id) as [s|]; [|done]. cbn. destruct (st_writer s); try done.
  destruct (allocateNow _ _ c) as [[m c1]|] eqn:Ha; [|done]. cbn. destruct (splitChunk _ _). intros [= <-].
  by apply allocateNow_loop in Ha.
Qed.

Lemma creditClosed_loop id c c' : creditClosed id c = Some c' -> cn_loop c' = cn_loop c.
Proof.
  unfold creditClosed. destruct (cn_objs c !! id) as [s|]; [|done]. cbn. destruct (st_writer s); try done.
  destruct (_ || _); [|done]. intros [= <-]. apply finishWrite_loop.
Qed.

(** ** Reading *)

Lemma returnBytesLocked_loop : keeps returnBytesLocked.
Proof. unfold returnBytesLocked. keeps. Qed.

Lemma data_Read_loop k : keeps (data_Read k).
Proof.
  intros c. unfold data_Read. destruct (payloadRead k _) as [r fr]. pose proof (returnBytesLocked_loop (cn_set_fr fr c)) as Hl.
  destruct r as [l|e|]; [done| |done]. destruct e; try done. by destruct (returnBytesLocked _) as [[?|?|] ?].
Qed.

Lemma skipData_loop n : keeps (skipData n).
Proof.
  unfold skipData. destruct (0 <? n); [|done]. intros c. destruct (consumeBytes_conn _ _) as [[e|] f]; [done|].
  destruct (returnBytes_conn f n) as [[e f'] fs]. rewrite creturn_loop. by rewrite add_frames_loop.
Qed.

Lemma consume_loop id n : keeps (stream_consumeBytes id n).
Proof.
  intros c. unfold stream_consumeBytes. destruct (cn_objs c !! id ≫= st_recvFlow); [|done].
  destruct (consumeBytes _ _ _) as [[e ?] ?]. by rewrite creturn_loop.
Qed.

Lemma orConnError_loop m e k : keeps m -> keeps k -> keeps (orConnError m e k).
Proof. intros Hm Hk. unfold orConnError. keeps. Qed.
#[local] Hint Resolve returnBytesLocked_loop skipData_loop consume_loop orConnError_loop : loop.

Lemma readWindowUpdate_loop id n : keeps (readWindowUpdate id n).
Proof.
  unfold readWindowUpdate. case_match.
  - intros c. destruct (rf_incrementWindow _ _) as [e f]. by destruct e.
  - keeps.
Qed.
#[local] Hint Resolve readWindowUpdate_loop : loop.

Lemma dispatch_loop f : keeps (dispatch f).
Proof. unfold dispatch, readData, readHeaders, readSettingsFrame, readPushPromise, readGoAway. keeps. Qed.

Lemma readExit_loop e : keeps (readExit e).
Proof.
  assert (Hk : forall e (x : exitTo), keeps (cbind (handleErr e) (fun _ => cret x))) by (intros; keeps).
  assert (Hc : keeps (cbind (ctry Conn_close) (fun err => cret (XReturn err)))) by keeps.
  intros c. unfold readExit. destruct e; (case_match; [done|apply Hk]) || (destruct (env_netError _) as [[]|]; [done|apply Hc|apply Hk]).
Qed.
#[local] Hint Resolve readExit_loop : loop.

Lemma afterExit_loop k e : keeps k -> keeps (afterExit k e).
Proof. intros Hk. unfold afterExit. keeps. Qed.

Lemma readFrame_loop_loop fuel : keeps (readFrame_loop fuel).
Proof.
  induction fuel as [|fuel IH]; [done|]. intros c. cbn [readFrame_loop]. unfold conn_ReadFrame.
  destruct (ReadFrame (cn_fr c)) as [[f|e|] fr]; [|by rewrite (afterExit_loop _ _ IH)|done].
  pose proof (dispatch_loop f (cn_set_fr fr c)) as Hd. destruct (dispatch f _) as [[[]|e|] c1]; cbn in Hd |- *.
  - by rewrite IH.
  - done.
  - by rewrite (afterExit_loop _ _ IH).
  - done.
Qed.

Lemma readFrame_loop' fuel : keeps (readFrame fuel).
Proof.
  intros c. unfold readFrame. destruct (cn_lastData c); [|apply readFrame_loop_loop].
  pose proof (returnBytesLocked_loop c) as Hl. destruct (returnBytesLocked c) as [[[]|e|] c1]; cbn in Hl |- *.
  - by rewrite readFrame_loop_loop.
  - by rewrite (afterExit_loop _ _ (readFrame_loop_loop fuel)).
  - done.
Qed.
#[local] Hint Resolve readFrame_loop' : loop.

(** ** The handshake *)

Lemma rawWrite_loop b : keeps (rawWrite b).
Proof. intros c. unfold rawWrite. by destruct (sink_write _ _). Qed.

Lemma rawFlush_loop : keeps rawFlush.
Proof. intros c. unfold rawFlush, bufFlush. by destruct (env_flush _). Qed.

Lemma upgradeStream_loop recv : keeps (upgradeStream recv).
Proof. unfold upgradeStream. keeps. Qed.

Lemma checkPreface_loop : keeps checkPreface.
Proof. intros c. unfold checkPreface. by repeat case_match. Qed.

Lemma readRequest_loop : keeps readRequest.
Proof. intros c. unfold readRequest. by destruct (http_readRequest _). Qed.

Lemma readResponse_loop : keeps readResponse.
Proof. intros c. unfold readResponse. by destruct (http_readResponse _). Qed.
#[local] Hint Resolve rawWrite_loop rawFlush_loop upgradeStream_loop checkPreface_loop readRequest_loop readResponse_loop : loop.

Lemma serverHandshake_loop fuel cfg : keeps (serverHandshake fuel cfg).
Proof. unfold serverHandshake, tlsServer, serverUpgrade, refuseUpgrade, firstFrame. keeps. Qed.

Lemma clientHandshake_loop fuel cfg : keeps (clientHandshake fuel cfg).
Proof. unfold clientHandshake, tlsClient, clientUpgrade, firstFrame. keeps. Qed.

Lemma Handshake_loop fuel cfg h : keeps (Handshake fuel cfg h).
Proof.
  assert (Hk : forall e (x : hsState), keeps (cbind (handleErr e) (fun _ => cret x))) by (intros; keeps).
  assert (Hc : forall x : hsState, keeps (cbind (ignore Conn_close) (fun _ => cret x))) by (intros; keeps).
  intros c. unfold Handshake. destruct (hs_err h); [done|]. destruct (hs_complete h); [done|].
  assert (Hr : cn_loop (if cs_server (cn_local c) then serverHandshake fuel cfg c else clientHandshake fuel cfg c).2 = cn_loop c)
    by (destruct (cs_server _); [apply serverHandshake_loop|apply clientHandshake_loop]).
  destruct (if cs_server _ then _ else _) as [[frames|e|] c1]; cbn in Hr; [done| |done].
  rewrite <- Hr. destruct e; apply Hk || apply Hc.
Qed.

(** ** Steps *)

Lemma blocked_step c c' id : cn_loop c = LoopBlocked id -> conn_step c c' -> cn_loop c' = LoopBlocked id.
Proof.
  intros Hb. destruct 1 as [sel f _ _|j c' Hs|j c' Hs|r c' Hs|c' Hs|fuel|k _|ic r c' Hs| |h t| |e|fuel cfg h _]; rewrite <- Hb.
  - apply writeFrame_loop.
  - by eapply creditStep_loop.
  - by eapply creditClosed_loop.
  - unfold writeLoop_round in Hs. by rewrite Hb in Hs.
  - unfold writeLoop_closed in Hs. by rewrite Hb in Hs.
  - apply readFrame_loop'.
  - apply data_Read_loop.
  - destruct ic; cbn in Hs; case_match; try done; injection Hs as _ <-; try done. apply releaseID_loop.
  - done.
  - apply CloseTimeout_loop.
  - apply close_loop.
  - apply handleErr_loop.
  - apply Handshake_loop.
Qed.

(** A loop that is blocked stays so whatever the other goroutines do. *)
Lemma blocked_for_ever c c' id : cn_loop c = LoopBlocked id -> steps c c' -> cn_loop c' = LoopBlocked id.
Proof. intros Hb Hs. revert Hb. induction Hs as [|c1 c2 c3 Hst _ IH]; [done|]. intros Hb. by eapply IH, blocked_step. Qed.
End Loop.
