(* ===== verification/ConnTheorems.v ===== *)
(** * What the connection guarantees

    Theorems about every connection and every order of its operations: the invariant of the
    stream table, its evolution, the panics that remain, GOAWAY, closing, new streams and
    identifiers, the termination of [readFrame]; and the runs that show where the code does
    not do what it means to. *)

From S2P Require Import Prelude HpackEncode HpackDecode Types Settings StreamState FlowControl WriteQueue.
From S2P Require Import HttpHeader HeaderTable StreamWrite FrameWriter FrameReader ReaderAdvance Conn ConnIO ConnInv ConnSafety ConnOps ConnRun Upgrade Handshake ConnSystem ConnLoop.

(** ** Sample connections *)

Definition bytes (l : list Z) : list byte := map zb l.

(** HEADERS on stream 1 with GET and http, without END_STREAM. *)
Definition sample_headers : list byte := bytes [0; 0; 2; 1; 4; 0; 0; 0; 1; 0x82; 0x86].

(** DATA of three bytes on stream 1. *)
Definition sample_data : list byte := bytes [0; 0; 3; 0; 0; 0; 0; 0; 1; 97; 98; 99].

(** RST_STREAM on stream 1. *)
Definition sample_rst : list byte := bytes [0; 0; 4; 3; 0; 0; 0; 0; 1; 0; 0; 0; 8].

(** WINDOW_UPDATE of one byte on stream 2. *)
Definition sample_update : list byte := bytes [0; 0; 4; 8; 0; 0; 0; 0; 2; 0; 0; 0; 1].

Definition sample_conn (input : list byte) : Conn (list byte) :=
  newConn true (newFrameReader input ErrEOF [] 4096) [].

Definition after_read (input : list byte) : Conn (list byte) := (readFrame 8 (sample_conn input)).2.

Lemma after_read_reachable input : reachable true (after_read input).
Proof. exists input, ErrEOF, [], 4096, []. eapply rtc_l; [apply (step_read _ 8)|apply rtc_refl]. Qed.

(** C1: in every state that a connection can reach, in whatever order its reads, writes,
    write rounds, closes, handshakes and timers happen, as long as the frames that are written
    do not name one of the two largest 32-bit identifiers (for which the code's counter wraps
    around, [wide_id_wraps]), a body is read only when one was given out, and a server takes an
    upgrade request before it has sent a GOAWAY, the invariant holds: the map holds exactly the
    streams that are neither idle nor closed, every active stream has the flow controllers it
    needs, identifiers lie below the next one of their side, no stream of the peer above the
    last identifier of a GOAWAY that was sent is in the map; and the counter of each side is
    exactly the number of its active streams. *)
Theorem reachable_invariant {W} `{ConnEnv W} `{HttpEnv} server (c : Conn W) :
  reachable server c ->
  conn_ok c /\ goaway_ok c /\ forall b, cs_numStreams (side b c) = nActive (owned b c) (cn_objs c).
Proof.
  intros Hr. destruct (reachable_good server c Hr) as [[Hok Hga] _]. split_and!; [done|done|].
  intros b. by apply count_exact.
Qed.

Lemma reachable_invariant_witness :
  cs_numStreams (cn_remote (after_read sample_headers)) = 1 /\
  conn_ok (after_read sample_headers) /\ goaway_ok (after_read sample_headers) /\
  forall b, cs_numStreams (side b (after_read sample_headers)) =
    nActive (owned b (after_read sample_headers)) (cn_objs (after_read sample_headers)).
Proof.
  split; [vm_compute; reflexivity|].
  exact (reachable_invariant true (after_read sample_headers) (after_read_reachable sample_headers)).
Defined.

(** C2: along every run of a connection, under the same conditions on what is written and when
    the handshake runs, streams only advance in their life cycle and are never forgotten, the
    next identifiers do not decrease, the last identifier of the GOAWAY sent never increases,
    after a GOAWAY was received no stream is created, and a closed connection stays closed. *)
Theorem run_evolves {W} `{ConnEnv W} `{HttpEnv} server (c c' : Conn W) : reachable server c -> steps c c' -> evolves c c'.
Proof.
  intros Hr Hs. destruct (reachable_good server c Hr) as [Hg Hfr]. by apply (steps_good c c' Hg Hfr Hs).
Qed.

Lemma run_evolves_witness :
  evolves (after_read sample_headers) (readFrame 1 (after_read sample_headers)).2.
Proof.
  apply (run_evolves true); [apply after_read_reachable|].
  eapply rtc_l; [apply (step_read _ 1)|apply rtc_refl].
Defined.

(** ** Panics *)

(** C11: in a reachable state, handling a frame that was read panics at most in two cases: a
    WINDOW_UPDATE for a stream in the map that has no send window, and the acknowledgement of
    SETTINGS when the decoder's table cannot be resized. *)
Theorem dispatch_no_panic {W} `{ConnEnv W} `{HttpEnv} server f (c : Conn W) :
  reachable server c -> ids_ok f ->
  match f with
  | WindowUpdateFrame id _ => has_send id c
  | SettingsFrame true _ => forall x ch, cn_settingsCh c = x :: ch -> resizable true x c
  | _ => True
  end -> (dispatch f c).1 <> Panic.
Proof.
  intros Hr Hi Hs. destruct (reachable_good server c Hr) as [Hg _]. by apply (dispatch_fine f c Hg Hi).
Qed.

Lemma dispatch_no_panic_witness :
  (dispatch (RSTStreamFrame 1 8) (after_read sample_headers)).1 <> Panic.
Proof. apply (dispatch_no_panic true); [apply after_read_reachable|by repeat split|exact I]. Defined.



(** A server that got a request promises stream 2, and the client answers with a
    WINDOW_UPDATE for it. *)
Definition request_update : Conn (list byte) := after_read (sample_headers ++ sample_update).
Definition promised : Conn (list byte) := (writeFrame GotToken (PushPromiseFrame 1 2 None 0) request_update).2.

Lemma promised_reachable : reachable true promised.
Proof.
  exists (sample_headers ++ sample_update), ErrEOF, [], 4096, []. eapply rtc_l; [apply (step_read _ 8)|].
  eapply rtc_l; [apply (step_write _ GotToken (PushPromiseFrame 1 2 None 0)); [by repeat split|]|apply rtc_refl].
  vm_compute. reflexivity.
Qed.

(** A server that has promised a stream panics when the client sends the WINDOW_UPDATE
    for it that RFC 7540, section 5.1, allows on a reserved stream. *)
Theorem window_update_panics : reachable true promised /\ (readFrame 8 promised).1 = Panic.
Proof. split; [apply promised_reachable|]. vm_compute. reflexivity. Qed.

(** ** The write loop *)

(** A response is queued on stream 1, and then the stream is reset. *)
Definition reset_request : Conn (list byte) := after_read (sample_headers ++ sample_rst).
Definition response_queued : Conn (list byte) :=
  (writeFrame GotToken (HeadersFrame 1 None noPriority 0 false) reset_request).2.
Definition reset_received : Conn (list byte) := (readFrame 8 response_queued).2.

Lemma reset_received_reachable : reachable true reset_received.
Proof.
  exists (sample_headers ++ sample_rst), ErrEOF, [], 4096, [].
  apply (rtc_l _ _ reset_request); [exact (step_read _ 8)|]. apply (rtc_l _ _ response_queued).
  - unfold response_queued. apply (step_write reset_request GotToken (HeadersFrame 1 None noPriority 0 false)); [by repeat split|].
    vm_compute. reflexivity.
  - unfold reset_received. apply rtc_once, step_read.
Qed.

(** When a stream is reset while its frame is queued, the writer is told and returns,
    and the write loop then blocks in the send of its answer, for ever: in no continuation of
    the run, not even after the connection was closed, is there another round of it. *)
Theorem write_loop_blocks :
  reachable true reset_received /\
  exists r c, writeLoop_round reset_received = Some (r, c) /\
    forall c', steps c c' -> cn_loop c' = LoopBlocked 1 /\ writeLoop_round c' = None /\ writeLoop_closed c' = None.
Proof.
  split; [apply reset_received_reachable|].
  assert (He : match writeLoop_round reset_received with
               | Some (_, c) => cn_loop c = LoopBlocked 1
               | None => False
               end) by (vm_compute; reflexivity).
  destruct (writeLoop_round reset_received) as [[r c]|]; [|done]. exists r, c. split; [done|]. intros c' Hs.
  pose proof (blocked_for_ever c c' 1 He Hs) as Hb.
  split_and!; [done|unfold writeLoop_round; by rewrite Hb|unfold writeLoop_closed; by rewrite Hb].
Qed.

(** ** New streams *)

(** What [idleStream] does on every branch, with the counter replaced by what it counts. *)
Lemma idleStream_cases {W} `{ConnEnv W} `{HttpEnv} server b id (c : Conn W) :
  reachable server c -> 0 <= id < 2 ^ 32 - 2 ->
  idleStream b id c =
    if is_some (cs_goAway (cn_local c)) || negb (owned b c id && (0 <? id)) || (id <? cs_nextStreamID (side b c))
    then (Err (ConnError ErrCodeProtocol), c)
    else if MaxConcurrentStreams (cs_settings (side b c)) <? nActive (owned b c) (cn_objs c) + 1
    then (Err (ConnError ErrCodeRefusedStream), c)
    else (Ok tt, upd_side b (fun s => cs_set_lastStreamID id (cs_set_nextStreamID (id + 2) s))
                   (cn_set_objs (<[id := newStream id]> (cn_objs c)) c)).
Proof.
  intros Hr Hid. destruct (reachable_good server c Hr) as [[Hok _] _]. unfold idleStream.
  assert (Hv : cs_validStreamID (side b c) id = owned b c id && (0 <? id)).
  { destruct (0 <? id) eqn:Hp; [rewrite (valid_owned b id c Hok) by lia; by rewrite andb_true_r|].
    unfold cs_validStreamID. by rewrite Hp, !andb_false_r. }
  assert (Hn : u32 (cs_numStreams (side b c) + 1) = nActive (owned b c) (cn_objs c) + 1).
  { rewrite (count_exact b c Hok). pose proof (count_bound b c Hok). apply u32_small. lia. }
  rewrite Hv, Hn. assert (Hu : u32 (id + 2) = id + 2) by (apply u32_small; lia). rewrite Hu.
  destruct (is_some _); [done|]. destruct (owned b c id && (0 <? id)); [|done]. by destruct (id <? _).
Qed.

(** C21: stream identifiers are never reused, and the limit on streams holds when one is
    created.  Along every run, once a stream object with identifier j exists, in whatever state
    it is, [idleStream] of its side refuses every identifier up to j as a protocol error and
    changes nothing, in every later state; and when [idleStream] creates a stream, its identifier
    has the parity of the side, was never used before, lies above every stream that side ever
    had, no GOAWAY was received, and the side has fewer active streams than its setting allows. *)
Theorem stream_ids_fresh {W} `{ConnEnv W} `{HttpEnv} server (c c2 : Conn W) :
  reachable server c -> steps c c2 ->
  (forall j s k, cn_objs c !! j = Some s -> 0 <= k <= j -> idleStream (stream_local j c) k c2 = (Err (ConnError ErrCodeProtocol), c2)) /\
  (forall b id c3, 0 <= id < 2 ^ 32 - 2 -> idleStream b id c2 = (Ok tt, c3) ->
     cn_objs c !! id = None /\ cn_objs c2 !! id = None /\ cn_objs c3 !! id = Some (newStream id) /\ stream_local id c2 = b /\
     (forall j s, cn_objs c2 !! j = Some s -> stream_local j c2 = b -> j < id) /\
     cs_goAway (cn_local c2) = None /\ nActive (owned b c2) (cn_objs c2) < MaxConcurrentStreams (cs_settings (side b c2))).
Proof.
  intros Hr Hs. destruct (reachable_good server c Hr) as [[Hok Hga] Hfr].
  destruct (steps_good c c2 (conj Hok Hga) Hfr Hs) as [[Hok2 _] (Hside & Hobjs & _)].
  assert (Hr2 : reachable server c2) by (destruct Hr as (i & e & st & n & w & Hr); exists i, e, st, n, w; unfold steps in *; by etrans). split.
  - intros j s k Hj Hk. destruct (ok_ids c Hok j s Hj) as (Hb & Hlt & _). destruct (Hside (stream_local j c)) as [_ Hle].
    rewrite (idleStream_cases server _ _ c2 Hr2) by lia.
    destruct (Z.ltb_spec k (cs_nextStreamID (side (stream_local j c) c2))); [by rewrite orb_true_r|lia].
  - intros b id c3 Hid. rewrite (idleStream_cases server _ _ c2 Hr2) by done.
    destruct (cs_goAway (cn_local c2)) eqn:Hg; [done|]. destruct (owned b c2 id) eqn:Ho; [|done].
    destruct (Z.ltb_spec 0 id); [|done]. destruct (Z.ltb_spec id (cs_nextStreamID (side b c2))) as [|Hge]; [done|]. cbn [is_some orb andb negb].
    destruct (Z.ltb_spec (MaxConcurrentStreams (cs_settings (side b c2))) (nActive (owned b c2) (cn_objs c2) + 1)); [done|]. intros [= <-].
    assert (Hloc : stream_local id c2 = b) by (by apply eqb_prop in Ho).
    assert (Habove : forall j s, cn_objs c2 !! j = Some s -> stream_local j c2 = b -> j < id).
    { intros j s Hj Hl. destruct (ok_ids c2 Hok2 j s Hj) as (_ & Hlt & _). rewrite Hl in Hlt. lia. }
    assert (Hnone : cn_objs c2 !! id = None).
    { destruct (cn_objs c2 !! id) as [t|] eqn:E; [|done]. specialize (Habove id t E Hloc). lia. }
    split_and!; try done; [|destruct b; cbn; by rewrite lookup_insert_eq|lia].
    destruct (cn_objs c !! id) as [t|] eqn:E; [|done]. destruct (Hobjs id t E) as (t' & Ht' & _). congruence.
Qed.

Lemma stream_ids_fresh_witness :
  idleStream false 1 (after_read sample_headers) = (Err (ConnError ErrCodeProtocol), after_read sample_headers) /\
  exists c3, idleStream false 3 (after_read sample_headers) = (Ok tt, c3) /\ cn_objs c3 !! 3 = Some (newStream 3).
Proof.
  destruct (stream_ids_fresh true (after_read sample_headers) (after_read sample_headers) (after_read_reachable _) (rtc_refl _ _))
    as [Hused Hfresh]. split.
  - set (s := default (newStream 1) (cn_objs (after_read sample_headers) !! (1 : Z))).
    exact (Hused 1 s 1 ltac:(vm_compute; reflexivity) ltac:(lia)).
  - assert (E : (idleStream false 3 (after_read sample_headers)).1 = Ok tt) by (vm_compute; reflexivity).
    exists (idleStream false 3 (after_read sample_headers)).2.
    assert (E2 : idleStream false 3 (after_read sample_headers) = (Ok tt, (idleStream false 3 (after_read sample_headers)).2))
      by (rewrite <- E; apply surjective_pairing).
    split; [exact E2|]. apply (Hfresh false 3 _ ltac:(lia) E2).
Defined.

(** Why identifiers are bounded: nothing in [writeFrame] checks them, and after the largest
    32-bit number the next identifier of a client wraps around to 1, below the stream that is
    then in the map, so that identifiers are given out and accepted a second time. *)
Theorem wide_id_wraps :
  let c := (writeFrame GotToken (HeadersFrame (2 ^ 32 - 1) None noPriority 0 false)
              (newConn (W := list byte) false (newFrameReader [] ErrEOF [] 4096) [])).2 in
  2 ^ 32 - 1 ∈ cn_streams c /\ cs_nextStreamID (cn_local c) = 1 /\ (idleStream true 1 c).1 = Ok tt.
Proof. split_and!; [apply (bool_decide_unpack _)| |]; vm_compute; reflexivity. Qed.

Lemma idleStream_opens {W} `{ConnEnv W} id (c : Conn W) :
  conn_ok c -> cs_nextStreamID (cn_local c) <= id < 2 ^ 32 - 2 -> stream_local id c = true -> cs_goAway (cn_local c) = None ->
  nActive (owned true c) (cn_objs c) < MaxConcurrentStreams (cs_settings (cn_local c)) -> (idleStream true id c).1 = Ok tt.
Proof.
  intros Hok Hid Hloc Hga Hmax. destruct (ok_next c Hok true) as [Hpos _]. cbn in Hpos. unfold idleStream. rewrite Hga. cbn.
  assert (Hv : cs_validStreamID (cn_local c) id = true).
  { change (cn_local c) with (side true c). rewrite (valid_owned true id c Hok) by lia. unfold owned. by rewrite Hloc. }
  rewrite Hv. cbn. destruct (Z.ltb_spec id (cs_nextStreamID (cn_local c))); [lia|].
  pose proof (count_exact true c Hok) as Hcnt. cbn in Hcnt. rewrite Hcnt.
  pose proof (count_bound true c Hok). rewrite u32_small by lia. by destruct (Z.ltb_spec (MaxConcurrentStreams (cs_settings (cn_local c))) (nActive (owned true c) (cn_objs c) + 1)); [lia|].
Qed.


Definition with_id : Conn (list byte) := cn_set_idState true (cn_set_idCh false (after_read sample_headers)).

Lemma with_id_reachable : reachable true with_id.
Proof.
  exists sample_headers, ErrEOF, [], 4096, []. eapply rtc_l; [apply (step_read _ 8)|].
  eapply rtc_l; [eapply (step_nextID _ CaseToken); vm_compute; reflexivity|apply rtc_refl].
Qed.


(** ** GOAWAY *)

(** C7: writing a GOAWAY whose last stream identifier is above the one sent before is an error
    and changes nothing.  If it is not above, or none was sent, the GOAWAY is accepted: it is
    stored, exactly the peer's streams above its last identifier leave the map, and the frame
    is queued as a control frame; later frames for such streams are dropped, with only the
    bytes of DATA accounted for, and handling them never changes the map. *)
Theorem goaway_sent {W} `{ConnEnv W} `{HttpEnv} server last code debug sel (c : Conn W) :
  reachable server c ->
  let above := exists g, cs_goAway (cn_remote c) = Some g /\ ga_LastStreamID g < last in
  (above -> writeFrame sel (GoAwayFrame last code debug) c = (Err (PlainError "last stream ID must not increase"), c)) /\
  (~ above -> exists c1, let c' := add_queue (QFrame (GoAwayFrame last code debug)) true c1 in
    writeFrame sel (GoAwayFrame last code debug) c = (Ok WReturned, c') /\
    cs_goAway (cn_remote c') = Some (MkGoAway last code debug) /\
    (forall id, id ∈ cn_streams c' <-> id ∈ cn_streams c /\ ~ (last < id /\ stream_local id c = false)) /\
    (forall f, cs_validStreamID (cn_remote c') (Frame_Stream f) = true -> last < Frame_Stream f ->
       (dispatch f c').1 <> Ok RReturn /\ cn_streams (dispatch f c').2 = cn_streams c' /\
       cn_objs (dispatch f c').2 = cn_objs c')).
Proof.
  intros Hr above. destruct (reachable_good server c Hr) as [Hg _].
  change (writeFrame sel (GoAwayFrame last code debug)) with
    (cbind (writeGoAway (MkGoAway last code debug)) (fun _ => @returned W)). unfold cbind.
  destruct (writeGoAway_ok (MkGoAway last code debug) c Hg) as [(g & Hga & Hlt & ->)|(c' & -> & _ & _ & Henv & HX & Hle)].
  - split; [done|]. intros []. by exists g.
  - split; [intros (g & Hg1 & Hlt); specialize (Hle g Hg1); cbn in Hle; lia|]. intros _.
    exists c'. destruct (proj1 Henv false) as (_ & _ & _ & _ & Hga). cbn in Hga. split_and!; [done|done|done|].
    set (c2 := add_queue _ true c'). assert (Hga2 : cs_goAway (cn_remote c2) = Some (MkGoAway last code debug)) by done.
    clearbody c2. intros f Hv Hl. unfold dispatch, cbind, cget, droppedAfterGoAway. rewrite Hga2, Hv. cbn [ga_LastStreamID].
    assert (Hb : (last <? Frame_Stream f) = true) by lia. rewrite Hb. cbn [andb].
    destruct f; try done. unfold skipData. destruct (0 <? _); [|done].
    destruct (consumeBytes_conn _ _) as [[e|] f1]; [done|]. destruct (returnBytes_conn f1 _) as [[e f2] fs].
    destruct (add_frames_env fs (cn_set_recv f2 c2)) as (_ & Ho & Hst & _).
    destruct e; cbn; split_and!; congruence || done.
Qed.

(** The connection after a GOAWAY with last identifier 0. *)
Definition went_away : Conn (list byte) := (writeFrame GotToken (GoAwayFrame 0 0 []) (after_read sample_headers)).2.

Lemma went_away_reachable : reachable true went_away.
Proof.
  exists sample_headers, ErrEOF, [], 4096, []. eapply rtc_l; [apply (step_read _ 8)|].
  eapply rtc_l; [apply (step_write _ GotToken (GoAwayFrame 0 0 [])); [by repeat split|]|apply rtc_refl].
  vm_compute. reflexivity.
Qed.

Lemma goaway_sent_witness :
  (exists c', writeFrame GotToken (GoAwayFrame 0 0 []) (after_read sample_headers) = (Ok WReturned, c') /\ 1 ∉ cn_streams c') /\
  (writeFrame GotToken (GoAwayFrame 1 0 []) went_away).1 = Err (PlainError "last stream ID must not increase").
Proof.
  split.
  - destruct (goaway_sent true 0 0 [] GotToken (after_read sample_headers) (after_read_reachable _)) as [_ Hs].
    destruct Hs as (c' & Hw & _ & HX & _); [intros (g & Hg & _); revert Hg; vm_compute; discriminate|].
    eexists. split; [exact Hw|]. rewrite HX. intros [_ Hn]. apply Hn. split; [lia|vm_compute; reflexivity].
  - destruct (goaway_sent true 1 0 [] GotToken went_away went_away_reachable) as [Hs _]. rewrite Hs; [done|].
    exists (MkGoAway 0 0 []). split; [vm_compute; reflexivity|reflexivity].
Defined.

(** C8: a GOAWAY that is received is stored, exactly the local streams above its last
    identifier leave the map, and a flush is queued; from then on, in every later state, no
    HEADERS or PUSH_PROMISE can create a stream on either side. *)
Theorem goaway_received {W} `{ConnEnv W} `{HttpEnv} server ga (c : Conn W) :
  reachable server c ->
  exists c1, let c' := Flush c1 in
    readGoAway ga c = (Ok RReturn, c') /\
    cs_goAway (cn_local c') = Some ga /\
    (forall id, id ∈ cn_streams c' <-> id ∈ cn_streams c /\ ~ (ga_LastStreamID ga < id /\ stream_local id c = true)) /\
    (forall c2, evolves c' c2 -> forall b id, idleStream b id c2 = (Err (ConnError ErrCodeProtocol), c2)).
Proof.
  intros Hr. destruct (reachable_good server c Hr) as [Hg _].
  destruct (readGoAway_spec ga c Hg) as (c' & Hrun & _ & _ & Henv & HX). exists c'.
  destruct (proj1 Henv true) as (_ & _ & _ & _ & Hga). cbn in Hga. split_and!; [done|done|done|].
  intros c2 (_ & _ & _ & Hev & _) b id. destruct Hev as [[g Hg2] _]; [by eexists|].
  unfold idleStream. by rewrite Hg2.
Qed.

Lemma goaway_received_witness :
  exists c', readGoAway (MkGoAway 0 0 []) (after_read sample_headers) = (Ok RReturn, c') /\ 1 ∈ cn_streams c'.
Proof.
  destruct (goaway_received true (MkGoAway 0 0 []) (after_read sample_headers) (after_read_reachable _))
    as (c' & Hrun & _ & HX & _).
  eexists. split; [exact Hrun|]. rewrite HX. split; [apply (bool_decide_unpack _); vm_compute; reflexivity|].
  intros [_ Hl]. revert Hl. vm_compute. done.
Defined.

(** ** Closing *)

Section Close.
Context {W : Type} `{ConnEnv W} `{HttpEnv}.
Implicit Types c : Conn W.

Definition everyone (_ : Z) : bool := true.

Lemma nActive_split c m : nActive (owned true c) m + nActive (owned false c) m = nActive everyone m.
Proof.
  unfold nActive, zlen. induction (map_to_list m) as [|[id s] l IH]; [done|].
  rewrite !filter_cons. cbn [fst snd]. cbn [fst snd] in IH.
  assert (Ho : owned false c id = negb (owned true c id)) by (unfold owned; by destruct (stream_local id c)).
  rewrite Ho. destruct (owned true c id), (active (st_state s)); repeat case_decide; try done; cbn [length] in *; lia.
Qed.

Lemma NumActive_exact c : conn_ok c -> NumActiveStreams c = nActive everyone (cn_objs c).
Proof.
  intros Hok. unfold NumActiveStreams. pose proof (count_exact true c Hok) as H1. pose proof (count_exact false c Hok) as H2.
  cbn in H1, H2. rewrite H1, H2, nActive_split. apply u32_small. split; [apply nActive_nonneg|].
  apply Z.le_lt_trans with (2 ^ 32 - 2); [|done]. apply nActive_bound; [done|]. intros id s Hs.
  destruct (ok_ids c Hok id s Hs) as [? _]. lia.
Qed.

Lemma nActive_none sel m : (forall id s, m !! id = Some s -> active (st_state s) = false) -> nActive sel m = 0.
Proof.
  intros Hm. unfold nActive, zlen. destruct (filter _ _) as [|[id s] l] eqn:E; [done|].
  assert (Hin : (id, s) ∈ (id, s) :: l) by left. rewrite <- E in Hin.
  apply list_elem_of_filter in Hin as [Hb Hin%elem_of_map_to_list]. cbn in Hb. by rewrite (Hm id s Hin), andb_false_r in Hb.
Qed.

Lemma nActive_zero m : nActive everyone m = 0 -> forall id s, m !! id = Some s -> active (st_state s) = false.
Proof.
  intros Hz id s Hs. destruct (active (st_state s)) eqn:E; [|done].
  assert (Hin : (id, s) ∈ filter (fun x => everyone x.1 && active (st_state x.2)) (map_to_list m)).
  { apply list_elem_of_filter. split; [cbn; by rewrite E|by apply elem_of_map_to_list]. }
  unfold nActive, zlen in Hz. destruct (filter _ _); [by apply not_elem_of_nil in Hin|]. cbn in Hz. lia.
Qed.
End Close.

(** C17: the first [close] of a connection closes every active stream, wakes whoever waits
    for the connection to close, and returns what closing the transport returns; after it no
    stream is active, and a second [close] returns [ErrClosed] and changes nothing. *)
Theorem close_once {W} `{ConnEnv W} `{HttpEnv} server (c : Conn W) :
  reachable server c -> cn_closed c = false ->
  exists c', Conn_close c = creturn env_rwcClose c' /\ cn_closed c' = true /\ cn_closeCh c' = true /\
    NumActiveStreams c' = 0 /\ (forall id s, cn_objs c' !! id = Some s -> active (st_state s) = false) /\
    Conn_close c' = (Err ErrClosed, c').
Proof.
  intros Hr Hc. destruct (reachable_good server c Hr) as [Hg _].
  assert (Hg0 : good (cn_set_closed true c)) by (apply (good_quiet c _ Hg); split_and!; try done; apply reader_le_refl).
  unfold Conn_close, cbind, cget, cmodify. rewrite Hc. set (c0 := cn_set_closed true c) in *.
  assert (Hend : exists c2, (if 0 <? NumActiveStreams c0 then closeStreams (range_streams c0) else cret tt) c0 = (Ok tt, c2) /\
    cn_closed c2 = true /\ conn_ok c2 /\ forall id s, cn_objs c2 !! id = Some s -> active (st_state s) = false).
  { destruct (0 <? NumActiveStreams c0) eqn:En.
    - destruct (closeStreams_spec (range_streams c0) c0 (proj1 Hg0) (exist_range c0 Hg0)) as (c2 & -> & Hok2 & Henv & HX & _).
      exists c2. split_and!; [done|by destruct Henv as (_ & _ & _ & _ & _ & _ & _ & -> & _)|done|].
      intros id s Hs. destruct (active (st_state s)) eqn:Ha; [|done].
      assert (Hin : id ∈ cn_streams c2) by (apply (ok_table c2 Hok2); exists s; split; [done|by destruct (st_state s)]).
      apply HX in Hin as [Hin Hnot]. destruct Hnot. by apply range_elem.
    - exists c0. split_and!; [done|done|apply Hg0|]. apply nActive_zero. rewrite <- (NumActive_exact c0) by apply Hg0.
      assert (0 <= NumActiveStreams c0) by (apply Z.mod_pos_bound; done). lia. }
  destruct Hend as (c2 & -> & Hcl & Hok2 & Hna). exists (cn_set_closeCh true c2). split_and!; try done.
  - change (NumActiveStreams (cn_set_closeCh true c2)) with (NumActiveStreams c2).
    rewrite (NumActive_exact c2 Hok2). by apply nActive_none.
  - cbn. by rewrite Hcl.
Qed.

Lemma close_once_witness :
  exists c', Conn_close (after_read sample_headers) = (Ok tt, c') /\ NumActiveStreams c' = 0.
Proof.
  destruct (close_once true (after_read sample_headers) (after_read_reachable _)) as (c' & Hrun & _ & _ & Hn & _).
  - vm_compute. reflexivity.
  - exists c'. split; [exact Hrun|exact Hn].
Defined.

(** ** The read loop terminates *)

Section Terminate.
Context {W : Type} `{ConnEnv W} `{HttpEnv}.
Implicit Types c : Conn W.

Lemma readExit_stops e c c' : readExit e c = (Ok XAgain, c') -> env_netError e = Some true.
Proof.
  unfold readExit. destruct e; try (destruct (_ || _); [done|]; unfold cbind; by destruct (handleErr _ c) as [[]]);
    destruct (env_netError _) as [[]|]; try done; unfold cbind; try (by destruct (ctry _ c) as [[]]);
    by destruct (handleErr _ c) as [[]].
Qed.

Lemma shorter_later c c' : evolves c c' -> (length (fr_in (cn_fr c')) <= length (fr_in (cn_fr c)))%nat /\ fr_end (cn_fr c') = fr_end (cn_fr c).
Proof. intros (_ & _ & _ & _ & _ & _ & _ & He & Hs%suffix_length). done. Qed.

Lemma close_nil c c' : Conn_close c = (Ok tt, c') -> env_rwcClose = None.
Proof.
  unfold Conn_close, cbind, cget, cmodify. destruct (cn_closed c); [done|]. destruct (if 0 <? _ then _ else _) as [[[]|e|] c1]; try done.
  by destruct env_rwcClose.
Qed.

(** A nil frame with a nil error: after a network error, when closing succeeds. *)
Lemma readExit_nil e c c' : readExit e c = (Ok (XReturn None), c') -> env_netError e = Some false /\ env_rwcClose = None.
Proof.
  assert (Hh : forall e', cbind (handleErr e') (fun _ => cret (XReturn (Some e'))) c = (Ok (XReturn None), c') -> False)
    by (intros e'; unfold cbind; by destruct (handleErr e' c) as [[]]).
  assert (Hn : match env_netError e with
    | Some true => (Ok XAgain, c)
    | Some false => cbind (ctry Conn_close) (fun err => cret (XReturn err)) c
    | None => cbind (handleErr e) (fun _ => cret (XReturn (Some e))) c
    end = (Ok (XReturn None), c') -> env_netError e = Some false /\ env_rwcClose = None).
  { destruct (env_netError e) as [[]|]; [done| |intros []%Hh]. unfold cbind, ctry.
    destruct (Conn_close c) as [[[]|x|] c1] eqn:E; try done. intros _. split; [done|]. by eapply close_nil. }
  unfold readExit. destruct e; try exact Hn. destruct (_ || _); [done|]. intros []%Hh.
Qed.

(** An error that reading from the input, handling a frame or returning the bytes of the body
    before it gives in a state. *)
Definition raised (e : error) c : Prop :=
  (ReadFrame (cn_fr c)).1 = Err e \/ (exists f, ids_ok f /\ (dispatch f c).1 = Err e) \/ (returnBytesLocked c).1 = Err e.

(** How a call of [readFrame] ends: with a frame; with an error; with a nil frame and a nil
    error, only if a network error that is not temporary was raised and the transport closed
    without an error; or with a panic, only of the frame reader or where handling a frame is
    not safe ([dispatch_safe]). *)
Definition returns c (x : outcome error readResult) : Prop :=
  match x with
  | Ok (GotFrame _) | Err _ => True
  | Ok GotNil => env_rwcClose = None /\ exists c' e, good c' /\ evolves c c' /\ raised e c' /\ env_netError e = Some false
  | Ok OutOfRounds => False
  | Panic => exists c', good c' /\ evolves c c' /\
      ((ReadFrame (cn_fr c')).1 = Panic \/ exists f, ids_ok f /\ (dispatch f c').1 = Panic /\ ~ dispatch_safe f c')
  end.

Lemma returns_later c c' x : evolves c c' -> returns c' x -> returns c x.
Proof.
  intros He. destruct x as [[| |]|e|]; try done.
  - intros (Hc & c2 & e & Hg & He2 & Hp). split; [done|]. exists c2, e. split_and!; [done|by eapply evolves_trans|apply Hp..].
  - intros (c2 & Hg & He2 & Hp). exists c2. split_and!; [done|by eapply evolves_trans|done].
Qed.

Lemma afterExit_ends k k' e c0 c :
  good c0 -> raised e c0 -> evolves c0 c -> good c -> (forall c', good c' -> evolves c c' -> env_netError e = Some true -> k' c' = k c' /\ returns c' (k c').1) ->
  afterExit k' e c = afterExit k e c /\ returns c0 (afterExit k e c).1.
Proof.
  intros Hg0 Hr0 He0 Hg Hk. unfold afterExit, cbind. destruct (readExit_fine True e c Hg) as (Hn & Hg' & He').
  destruct (readExit e c) as [[[|[e'|]]|e'|] c'] eqn:E; cbn in Hn, Hg', He'; try done.
  - destruct (Hk c' Hg' He') as [Heq Hret]; [by apply readExit_stops in E|]. split; [done|]. eapply returns_later; [exact He0|]. by eapply returns_later.
  - split; [done|]. apply readExit_nil in E as [Hnet Hcl]. split; [done|]. exists c0, e. split_and!; [done|apply evolves_refl|done..].
  - by destruct Hn.
Qed.

Lemma loop_ends fuel fuel' c :
  good c -> fr_ok (cn_fr c) -> env_netError (fr_end (cn_fr c)) <> Some true ->
  (length (fr_in (cn_fr c)) < fuel)%nat -> (fuel <= fuel')%nat ->
  readFrame_loop fuel' c = readFrame_loop fuel c /\ returns c (readFrame_loop fuel c).1.
Proof.
  revert fuel' c. induction fuel as [|fuel IH]; intros [|fuel'] c Hg Hfr Hne Hlen Hle'; try lia. cbn [readFrame_loop]. unfold conn_ReadFrame.
  destruct (ReadFrame_le (cn_fr c)) as [Hle Hids]. pose proof (ReadFrame_progress (cn_fr c)) as Hpr.
  destruct (ReadFrame (cn_fr c)) as [x fr] eqn:Hread. cbn in Hle, Hids.
  destruct (good_quiet c (cn_set_fr fr c) Hg (quiet_fr c fr Hle)) as [Hg1 He1]. set (c1 := cn_set_fr fr c) in *.
  destruct Hpr as [[r' [= -> _]]|Hlt].
  { destruct (afterExit_ends (readFrame_loop fuel) (readFrame_loop fuel') (fr_end (cn_fr c)) c c1 Hg) as [Heq Hr]; [by left; rewrite Hread|done..]. }
  cbn in Hlt.
  assert (Hnext : forall c2, good c2 -> evolves c1 c2 ->
    readFrame_loop fuel' c2 = readFrame_loop fuel c2 /\ returns c2 (readFrame_loop fuel c2).1).
  { intros c2 Hg2 He2. destruct (shorter_later _ _ (evolves_trans _ _ _ He1 He2)) as [_ Hend].
    destruct (shorter_later _ _ He2) as [Hl2 _]. cbn in Hl2.
    apply IH; [done|by apply (fr_later c1), (fr_later c)|by rewrite Hend|lia|lia]. }
  destruct x as [f|e|].
  - pose proof (ids_read_ok f (Hids Hfr f eq_refl)) as Hf. destruct (dispatch_fine f c1 Hg1 Hf) as (Hnp & Hg2 & He2).
    destruct (dispatch f c1) as [[[]|e|] c2] eqn:Hd; cbn in Hnp, Hg2, He2.
    + destruct (Hnext c2 Hg2 He2) as [Heq Hr]. split; [done|]. eapply returns_later; [exact He1|]. by eapply returns_later.
    + done.
    + destruct (afterExit_ends (readFrame_loop fuel) (readFrame_loop fuel') e c1 c2 Hg1) as [Heq Hr];
        [by right; left; exists f; rewrite Hd|done|done|by intros c3 Hg3 He3 _; apply Hnext; [|eapply evolves_trans]|].
      split; [done|by eapply returns_later].
    + split; [done|]. exists c1. split_and!; [done|done|]. right. exists f. split_and!; [done|by rewrite Hd|]. intros Hs. by apply Hnp.
  - destruct (afterExit_ends (readFrame_loop fuel) (readFrame_loop fuel') e c c1 Hg) as [Heq Hr]; [by left; rewrite Hread|by auto..].
  - split; [done|]. exists c. split_and!; [done|apply evolves_refl|]. left. by rewrite Hread.
Qed.
End Terminate.


