(* ===== verification/ConnSettings.v ===== *)
(** * Settings of a connection: what [applySettings] achieves

    The value of [applySettings] as a function of the settings it is given, and the change
    of every stream's window by a new initial window size. *)

From S2P Require Import Prelude HpackEncode HpackDecode Types Settings StreamState FlowControl WriteQueue.
From S2P Require Import HttpHeader HeaderTable StreamWrite FrameWriter FrameReader ReaderAdvance Conn ConnIO ConnInv ConnSafety ConnOps ConnRun Upgrade Handshake ConnSystem ConnTheorems.

(** ** Specification *)

(** A setting is recorded if it is known and its value is valid. *)
Definition record_setting (s : Settings) (x : setting) : Settings :=
  if known_setting (s_ID x) then default s (SetValue s (s_ID x) (s_Value x)) else s.

(** The last value given for an identifier. *)
Definition chosen (id : Z) (old : Z) (xs : Settings) : Z :=
  foldl (fun v x => if s_ID x =? id then s_Value x else v) old xs.

(** The streams whose windows an initial window size of a side concerns: those that may still
    receive DATA, for the local side, and those that may still send it, for the peer's. *)
Definition concerned (b : bool) (s : stream) : bool :=
  if b then readable (st_state s) else writable (st_state s).

(** The credit in a window: what the peer may send, or what may be sent, in the channel too. *)
Definition window_of (b : bool) (s : stream) : option Z :=
  if b then fc_win <$> st_recvFlow s else rf_total <$> st_sendFlow s.

(** The part of the window that the overflow check of the code looks at, and whether it
    exceeds 2^31-1 after the move. *)
Definition overflows (b : bool) (d : Z) (s : stream) : bool :=
  match (if b then fc_win <$> st_recvFlow s else rf_win <$> st_sendFlow s) with
  | Some w => (0 <? d) && (2147483647 <? w + d)
  | None => false
  end.

(** A stream before and after its window moved by [d]: by exactly [d], unless that overflows. *)
Definition moved (b : bool) (d : Z) (s s' : stream) : Prop :=
  window_of b s' = (if concerned b s && negb (overflows b d s) then Z.add d <$> window_of b s else window_of b s) /\
  window_of (negb b) s' = window_of (negb b) s /\ st_state s' = st_state s.

(** The streams of a list that are answered with FLOW_CONTROL_ERROR. *)
Definition overflowing (b : bool) (d : Z) (m : gmap Z stream) (ids : list Z) : list (Z * Z) :=
  omap (fun id => s ← m !! id; if concerned b s && overflows b d s then Some (ErrCodeFlowControl, id) else None) ids.

(** What the code makes of a stream. *)
Definition move_window (b : bool) (delta : Z) (s : stream) : stream :=
  if b then
    if readable (st_state s) then
      st_set_recvFlow ((fun f => (fc_incrementInitialWindow f delta).2) <$> st_recvFlow s) s
    else s
  else if writable (st_state s) then
    st_set_sendFlow ((fun f => (rf_incrementInitialWindow f delta).2) <$> st_sendFlow s) s
  else s.

Section Apply.
Context {W : Type} `{ConnEnv W}.
Implicit Types c : Conn W.

(** The limits that a side's settings impose: on the reader for the local side, on the
    writer for the peer's. *)
Definition limits (b : bool) c : Z * Z :=
  if b then (fr_maxFrameSize (cn_fr c), fr_maxHeaderListSize (cn_fr c))
  else (fw_maxFrameSize (cn_fw c), fw_maxHeaderListSize (cn_fw c)).

Definition limits_after (x : setting) (l : Z * Z) : Z * Z :=
  (if s_ID x =? SettingMaxFrameSize then s_Value x else l.1,
   if s_ID x =? SettingMaxHeaderListSize then s_Value x else l.2).

(** Both sides' settings, and the limits of the other side. *)
Definition others (b : bool) c : Settings * Settings * (Z * Z) :=
  (cs_settings (cn_local c), cs_settings (cn_remote c), limits (negb b) c).

Lemma slice_cur id v l : sl_cur (slice_set id v l) = default (sl_cur l) (SetValue (sl_cur l) id v).
Proof. unfold slice_set, SetValue. destruct (valid_setting id v); [|done]. by repeat case_match. Qed.

Lemma applySetting_result b l x c c' :
  applySetting b l x c = (Ok tt, c') -> limits b c' = limits_after x (limits b c) /\ others b c' = others b c.
Proof.
  unfold applySetting, limits_after. destruct (s_ID x =? SettingEnablePush) eqn:E1.
  { unfold cbind, cget. destruct (_ && _); [done|]. intros [= <-]. apply Z.eqb_eq in E1. rewrite E1. cbn. by destruct (limits b c). }
  destruct (s_ID x =? SettingInitialWindowSize) eqn:E2.
  { intros Hw. apply Z.eqb_eq in E2. rewrite E2. cbn.
    pose proof (setInitialWindow_leaves (fun c => (limits b c, others b c)) b (s_Value x - InitialWindowSize (sl_cur l))) as Hl.
    specialize (Hl ltac:(by destruct b) c). cbn beta in Hl. rewrite Hw in Hl. injection Hl as H1 H2 H3 H4. cbn in H1.
    unfold others. rewrite H1, H2, H3, H4. by destruct (limits b c). }
  destruct (s_ID x =? SettingHeaderTableSize) eqn:E3.
  { apply Z.eqb_eq in E3. rewrite E3. cbn. unfold clift. destruct b.
    - destruct (dec_SetMaxHeaderTableSize _ _); cbn; [|done]. by intros [= <-].
    - destruct (enc_SetMaxHeaderTableSize _ _); cbn; [|done]. by intros [= <-]. }
  destruct (s_ID x =? SettingMaxHeaderListSize) eqn:E4.
  { apply Z.eqb_eq in E4. rewrite E4. cbn. intros [= <-]. by destruct b. }
  destruct (s_ID x =? SettingMaxFrameSize) eqn:E5.
  { intros [= <-]. by destruct b. }
  intros [= <-]. by destruct (limits b c).
Qed.

Lemma unknown_limits x l : known_setting (s_ID x) = false -> limits_after x l = l.
Proof.
  unfold known_setting, limits_after. cbn. intros Hk. destruct l as [l1 l2]. cbn.
  destruct (s_ID x =? SettingMaxFrameSize) eqn:E1; [apply Z.eqb_eq in E1; by rewrite E1 in Hk|].
  destruct (s_ID x =? SettingMaxHeaderListSize) eqn:E2; [apply Z.eqb_eq in E2; by rewrite E2 in Hk|]. done.
Qed.

Lemma applySettings_loop_result b xs l c l' c' :
  applySettings_loop b xs l c = (Ok l', c') ->
  sl_cur l' = foldl record_setting (sl_cur l) xs /\
  limits b c' = foldl (fun v x => limits_after x v) (limits b c) xs /\ others b c' = others b c.
Proof.
  revert l c. induction xs as [|x xs IH]; intros l c; cbn [applySettings_loop foldl]; [by intros [= -> ->]|].
  unfold record_setting at 2. destruct (known_setting (s_ID x)) eqn:Hk; [|rewrite (unknown_limits x) by done; apply IH].
  destruct (applySetting b l x c) as [[[]|e|] c1] eqn:Ha; try done. intros Hl%IH.
  apply applySetting_result in Ha as [Hlim Hoth]. rewrite slice_cur, Hlim, Hoth in Hl. exact Hl.
Qed.

Lemma limits_fold xs l :
  foldl (fun v x => limits_after x v) l xs =
  (chosen SettingMaxFrameSize l.1 xs, chosen SettingMaxHeaderListSize l.2 xs).
Proof. revert l. induction xs as [|x xs IH]; intros [l1 l2]; [done|]. cbn. by rewrite IH. Qed.

(** ** Windows *)

(** The streams of a list are changed, one after the other. *)
Definition changed (g : stream -> stream) (ids : list Z) (m m' : gmap Z stream) : Prop :=
  forall id, m' !! id = if decide (id ∈ ids) then g <$> m !! id else m !! id.

Lemma changed_nil g m : changed g [] m m.
Proof. intros id. by rewrite decide_False by set_solver. Qed.

Lemma changed_cons g i ids s m m1 m' :
  i ∉ ids -> m !! i = Some s -> m1 = <[i := g s]> m -> changed g ids m1 m' -> changed g (i :: ids) m m'.
Proof.
  intros Hni Hs -> Hc id. rewrite Hc. destruct (decide (id = i)) as [->|Hne].
  - rewrite (decide_False (P := i ∈ ids)) by done. rewrite decide_True by set_solver. by rewrite lookup_insert_eq, Hs.
  - rewrite lookup_insert_ne by done. destruct (decide (id ∈ ids)), (decide (id ∈ i :: ids)); set_solver.
Qed.

Lemma fc_move f d :
  fc_id f <> 0 ->
  is_some (fc_incrementInitialWindow f d).1 = (0 <? d) && (2147483647 <? fc_win f + d) /\
  fc_win (fc_incrementInitialWindow f d).2 = (if (0 <? d) && (2147483647 <? fc_win f + d) then fc_win f else d + fc_win f).
Proof.
  intros Hid. unfold fc_incrementInitialWindow, fc_updateWindow, maxInitialWindowSize. destruct (Z.eqb_spec (fc_id f) 0); [done|].
  assert (He : (2 ^ 31 - 1 - d <? fc_win f) = (2147483647 <? fc_win f + d)) by (zcases; lia). rewrite He.
  destruct (_ && _); cbn; [done|]. split; [done|lia].
Qed.

Lemma rf_move f d :
  is_some (rf_incrementInitialWindow f d).1 = (0 <? d) && (2147483647 <? rf_win f + d) /\
  rf_total (rf_incrementInitialWindow f d).2 = (if (0 <? d) && (2147483647 <? rf_win f + d) then rf_total f else d + rf_total f).
Proof.
  unfold rf_incrementInitialWindow, rf_updateWindow, maxInitialWindowSize.
  assert (He : (2 ^ 31 - 1 - d <? rf_win f) = (2147483647 <? rf_win f + d)) by (zcases; lia). rewrite He.
  destruct (_ && _); [done|]. unfold rf_total. destruct f as [i w [n|]]; cbn -[Z.add Z.leb]; destruct (_ <=? 0); cbn -[Z.add]; (split; [done|lia]).
Qed.

Lemma move_window_moved b d id s :
  obj_ok id s -> 0 < id -> moved b d s (move_window b d s).
Proof.
  intros (_ & _ & _ & _ & _ & ((_ & Hrid) & _)) Hid. unfold moved, move_window, concerned, overflows. destruct b; cbn.
  - destruct (readable (st_state s)); [|done]. cbn. destruct (st_recvFlow s) as [f|]; cbn; [|done].
    destruct (fc_move f d) as [_ Hw]; [rewrite (Hrid f eq_refl); lia|]. rewrite Hw. by destruct (_ && _).
  - destruct (writable (st_state s)); [|done]. cbn. destruct (st_sendFlow s) as [f|]; cbn; [|done].
    destruct (rf_move f d) as [_ Hw]. rewrite Hw. by destruct (_ && _).
Qed.

Lemma recv_loop_objs delta m ids errs c :
  good c -> NoDup ids -> exist_all ids c -> (forall j, j ∈ ids -> cn_objs c !! j = m !! j) ->
  exists c', recvWindow_loop delta ids errs c = (Ok (errs ++ overflowing true delta m ids), c') /\
    changed (move_window true delta) ids (cn_objs c) (cn_objs c').
Proof.
  revert errs c. induction ids as [|i ids IH]; intros errs c Hg Hd Hin Hm.
  { exists c. split; [by rewrite app_nil_r|apply changed_nil]. }
  apply NoDup_cons in Hd as [Hni Hd]. destruct (Hin i) as [s Hs]; [set_solver|].
  assert (Hin' : exist_all ids c) by (intros j Hj; apply Hin; set_solver).
  assert (Hms : m !! i = Some s) by (rewrite <- Hm by set_solver; done).
  cbn [recvWindow_loop overflowing omap list_omap]. rewrite Hms. cbn [mbind option_bind]. unfold concerned, overflows.
  unfold cbind, cget, cmodify, cderef. rewrite Hs. cbn beta iota.
  destruct (readable (st_state s)) eqn:Hr.
  - destruct (ok_objs c (proj1 Hg) i s Hs) as (_ & _ & Hrv & _ & _ & ((_ & Hrid) & _)). destruct (Hrv (readable_active _ Hr)) as [f Hf]. rewrite Hf.
    destruct (ok_ids c (proj1 Hg) i s Hs) as [Hpos _].
    destruct (fc_move f delta) as [He _]; [rewrite (Hrid f Hf); lia|]. cbn [fmap option_fmap option_map].
    destruct (fc_incrementInitialWindow f delta) as [e f'] eqn:Hinc. cbn [fst] in He. rewrite <- He.
    pose proof (fc_id_incrementInitial f delta) as Hi. rewrite Hinc in Hi. cbn in Hi.
    destruct (good_field i s (st_set_recvFlow (Some f')) c Hg Hs) as [Hg1 He1]; [by apply (same_obj_recv i s f)|].
    destruct (IH (if is_some e then errs ++ [(ErrCodeFlowControl, i)] else errs) _ Hg1 Hd (exist_later _ _ _ He1 Hin'))
      as (c' & Hrun & Hc); [intros j Hj; cbn; rewrite lookup_alter_ne by set_solver; apply Hm; set_solver|].
    rewrite Hrun. exists c'. split; [destruct e; cbn [is_some andb]; by rewrite <- ?app_assoc|].
    eapply changed_cons; [done|exact Hs| |exact Hc]. unfold move_window. rewrite Hr, Hf. cbn. rewrite Hinc. by apply alter_Some.
  - destruct (IH errs c Hg Hd Hin') as (c' & -> & Hc); [intros j Hj; apply Hm; set_solver|]. exists c'. split; [done|].
    eapply changed_cons; [done|exact Hs| |exact Hc]. unfold move_window. rewrite Hr. by rewrite insert_id.
Qed.

Lemma send_loop_objs delta m ids errs c :
  good c -> NoDup ids -> exist_all ids c -> (forall j, j ∈ ids -> cn_objs c !! j = m !! j) ->
  exists c', sendWindow_loop delta ids errs c = (Ok (errs ++ overflowing false delta m ids), c') /\
    changed (move_window false delta) ids (cn_objs c) (cn_objs c').
Proof.
  revert errs c. induction ids as [|i ids IH]; intros errs c Hg Hd Hin Hm.
  { exists c. split; [by rewrite app_nil_r|apply changed_nil]. }
  apply NoDup_cons in Hd as [Hni Hd]. destruct (Hin i) as [s Hs]; [set_solver|].
  assert (Hin' : exist_all ids c) by (intros j Hj; apply Hin; set_solver).
  assert (Hms : m !! i = Some s) by (rewrite <- Hm by set_solver; done).
  cbn [sendWindow_loop overflowing omap list_omap]. rewrite Hms. cbn [mbind option_bind]. unfold concerned, overflows.
  unfold cbind, cget, cmodify. rewrite Hs. cbn [cderef].
  destruct (writable (st_state s)) eqn:Hr.
  - destruct (ok_objs c (proj1 Hg) i s Hs) as (Hid & _ & _ & Hw & _ & Hown). destruct (Hw Hr) as [f Hf]. rewrite Hf.
    pose proof (proj1 (proj1 Hown) f Hf) as Hfid. destruct (ok_ids c (proj1 Hg) i s Hs) as [Hpos _]. cbn [cderef].
    destruct (rf_move f delta) as [He _]. cbn [fmap option_fmap option_map].
    pose proof (rf_id_update f delta true) as Hi. fold (rf_incrementInitialWindow f delta) in Hi.
    destruct (rf_incrementInitialWindow f delta) as [e f'] eqn:Hinc. cbn [fst snd] in He, Hi. rewrite <- He.
    destruct (good_field i s (st_set_sendFlow (Some f')) c Hg Hs) as [Hg1 He1]; [by apply (same_obj_send i s f)|].
    assert (Hfin : forall errs1, exists c', sendWindow_loop delta ids errs1 (upd_stream i (st_set_sendFlow (Some f')) c) =
        (Ok (errs1 ++ overflowing false delta m ids), c') /\ changed (move_window false delta) (i :: ids) (cn_objs c) (cn_objs c')).
    { intros errs1. destruct (IH errs1 _ Hg1 Hd (exist_later _ _ _ He1 Hin')) as (c' & -> & Hc).
      { intros j Hj. cbn. rewrite lookup_alter_ne by set_solver. apply Hm. set_solver. }
      exists c'. split; [done|].
      eapply changed_cons; [done|exact Hs| |exact Hc]. unfold move_window. rewrite Hr, Hf. cbn. rewrite Hinc. by apply alter_Some. }
    destruct e as [e|]; [|apply Hfin]. apply rf_update_err in Hinc; [|lia]. subst e.
    assert (Hz : (st_id s =? 0) = false) by lia. rewrite Hz. cbn [is_some andb]. rewrite Hfid.
    destruct (Hfin (errs ++ [(ErrCodeFlowControl, i)])) as (c' & -> & Hc). exists c'. by rewrite <- app_assoc.
  - destruct (IH errs c Hg Hd Hin') as (c' & -> & Hc); [intros j Hj; apply Hm; set_solver|]. exists c'. split; [done|].
    eapply changed_cons; [done|exact Hs| |exact Hc]. unfold move_window. rewrite Hr. by rewrite insert_id.
Qed.

Lemma range_NoDup c : NoDup (range_streams c).
Proof. unfold range_streams. rewrite env_range_perm. apply NoDup_elements. Qed.
End Apply.

(** C25: [applySettings] that succeeds records exactly the known settings with valid values,
    in order, on its side; the limits of the frame reader (local settings) or of the frame
    writer (the peer's) become the last values given; the other side's settings and limits
    do not change. *)
Theorem applySettings_result {W} `{ConnEnv W} b xs (c c' : Conn W) :
  applySettings b xs c = (Ok tt, c') ->
  cs_settings (side b c') = foldl record_setting (cs_settings (side b c)) xs /\
  cs_settings (side (negb b) c') = cs_settings (side (negb b) c) /\
  limits b c' = (chosen SettingMaxFrameSize (limits b c).1 xs, chosen SettingMaxHeaderListSize (limits b c).2 xs) /\
  limits (negb b) c' = limits (negb b) c.
Proof.
  unfold applySettings, cbind, cget, cmodify.
  destruct (applySettings_loop b xs _ c) as [[l|e|] c1] eqn:Hl; try done. intros [= <-].
  apply applySettings_loop_result in Hl as (Hcur & Hlim & Hoth). cbn in Hcur. injection Hoth as H1 H2 H3.
  rewrite limits_fold in Hlim. destruct b; cbn in *; split_and!; congruence.
Qed.

Lemma applySettings_result_witness :
  exists c', applySettings false [MkSetting SettingMaxFrameSize 20000] (after_read sample_headers) = (Ok tt, c') /\
    cs_settings (cn_remote c') = [MkSetting SettingMaxFrameSize 20000] /\ fw_maxFrameSize (cn_fw c') = 20000.
Proof.
  set (r := applySettings false [MkSetting SettingMaxFrameSize 20000] (after_read sample_headers)).
  assert (H1 : r.1 = Ok tt) by (vm_compute; reflexivity). exists r.2.
  assert (Hr : r = (Ok tt, r.2)) by (rewrite <- H1; apply surjective_pairing). split; [exact Hr|].
  destruct (applySettings_result false _ _ _ Hr) as (Hs & _ & Hl & _). split.
  - etransitivity; [exact Hs|]. vm_compute. reflexivity.
  - apply (f_equal fst) in Hl. etransitivity; [exact Hl|]. vm_compute. reflexivity.
Defined.

Section Windows.
Context {W : Type} `{ConnEnv W}.
Implicit Types c : Conn W.

Lemma setInitial_objs (b : bool) delta c :
  good c ->
  exists c', (if b then setInitialRecvWindow delta else setInitialSendWindow delta) c =
      (match overflowing b delta (cn_objs c) (range_streams c) with [] => Ok tt | l => Err (StreamErrorList l) end, c') /\
    (forall id, cn_objs c' !! id = None <-> cn_objs c !! id = None) /\
    forall id s, cn_objs c !! id = Some s -> exists s', cn_objs c' !! id = Some s' /\
      if decide (id ∈ cn_streams c) then moved b delta s s' else s' = s.
Proof.
  intros Hg. destruct (Z.eqb_spec delta 0) as [->|Hd].
  - exists c. split_and!; [|done|].
    + assert (Hno : overflowing b 0 (cn_objs c) (range_streams c) = []).
      { unfold overflowing. induction (range_streams c) as [|i ids IH]; [done|]. cbn. destruct (cn_objs c !! i) as [s|]; [|done]. cbn.
        unfold overflows. destruct (if b then _ else _); cbn; by rewrite ?andb_false_r. }
      rewrite Hno. by destruct b.
    + intros id s Hs. exists s. split; [done|]. case_decide; [|done]. unfold moved, overflows.
      split_and!; try done. destruct (concerned b s && _); [|done]. by destruct (window_of b s).
  - assert (Hx : forall m', changed (move_window b delta) (range_streams c) (cn_objs c) m' ->
      (forall id, m' !! id = None <-> cn_objs c !! id = None) /\
      forall id s, cn_objs c !! id = Some s -> exists s', m' !! id = Some s' /\
        if decide (id ∈ cn_streams c) then moved b delta s s' else s' = s).
    { intros m' Hc. split; intros id.
      - rewrite Hc. case_decide; [|done]. by rewrite fmap_None.
      - intros s Hs. rewrite Hc, Hs. destruct (decide (id ∈ range_streams c)) as [Hi|Hi]; rewrite range_elem in Hi.
        + eexists. split; [done|]. rewrite decide_True by done. apply (move_window_moved b delta id).
          * by apply (ok_objs c (proj1 Hg)).
          * destruct (ok_ids c (proj1 Hg) id s Hs) as [? _]. lia.
        + eexists. split; [done|]. by rewrite decide_False. }
    apply Z.eqb_neq in Hd. destruct b; unfold setInitialRecvWindow, setInitialSendWindow, cbind, cget; rewrite Hd.
    + destruct (recv_loop_objs delta (cn_objs c) (range_streams c) [] c Hg (range_NoDup c) (exist_range c Hg)) as (c' & -> & Hc); [done|].
      exists c'. split; [by destruct (overflowing _ _ _ _)|by apply Hx].
    + destruct (send_loop_objs delta (cn_objs c) (range_streams c) [] c Hg (range_NoDup c) (exist_range c Hg)) as (c' & -> & Hc); [done|].
      exists c'. split; [by destruct (overflowing _ _ _ _)|by apply Hx].
Qed.
End Windows.

(** C26: a new SETTINGS_INITIAL_WINDOW_SIZE moves the windows by its difference to the old one.
    When [applySettings] gets this setting, with the valid value v, for a side, each stream in
    the map that may still receive (local settings) or send (the peer's) has exactly v minus
    the old value of that side more credit in that window, negative differences included, once,
    whatever the order of the map; a stream whose window would overflow, in the part that the
    code checks (for the send window without the credit in its channel), keeps its credit; the
    credit in the other window, the states and the streams outside the map do not change.  It
    fails with FLOW_CONTROL_ERROR for exactly the streams that overflow, and otherwise v is
    the side's initial window size from then on. *)
Theorem initial_window_moves {W} `{ConnEnv W} `{HttpEnv} server (b : bool) v (c : Conn W) :
  reachable server c -> 0 <= v <= maxInitialWindowSize ->
  let d := v - InitialWindowSize (cs_settings (side b c)) in
  exists (r : outcome error unit) c', applySettings b [MkSetting SettingInitialWindowSize v] c = (r, c') /\
    match overflowing b d (cn_objs c) (range_streams c) with
    | [] => r = Ok tt /\ InitialWindowSize (cs_settings (side b c')) = v
    | l => r = Err (StreamErrorList l)
    end /\
    (forall id, cn_objs c' !! id = None <-> cn_objs c !! id = None) /\
    forall id s, cn_objs c !! id = Some s -> exists s', cn_objs c' !! id = Some s' /\
      if decide (id ∈ cn_streams c) then moved b d s s' else s' = s.
Proof.
  intros Hr Hv d. destruct (reachable_good server c Hr) as [Hg _].
  destruct (setInitial_objs b d c Hg) as (c1 & Hrun & Hnone & Hobjs).
  unfold applySettings, cbind, cget, cmodify. cbn [applySettings_loop]. change (known_setting _) with true. cbv iota.
  unfold applySetting. cbn [s_ID s_Value]. change (SettingInitialWindowSize =? SettingEnablePush) with false.
  change (SettingInitialWindowSize =? SettingInitialWindowSize) with true. cbv iota. cbn [sl_cur]. fold d. rewrite Hrun.
  destruct (overflowing b d (cn_objs c) (range_streams c)) as [|x l].
  - eexists _, _. split; [reflexivity|]. split_and!; [done| |destruct b; exact Hnone|destruct b; exact Hobjs].
    assert (Hval : valid_setting SettingInitialWindowSize v = true) by (unfold valid_setting; cbn [Z.eqb Pos.eqb SettingInitialWindowSize SettingEnablePush]; lia).
    match goal with |- context [upd_side b ?g ?x] => assert (Hs : cs_settings (side b (upd_side b g x)) = put_setting (cs_settings (side b c)) SettingInitialWindowSize v) end.
    { destruct b; cbn [side upd_side cs_settings cs_set_settings cs_set_settingsCap cn_set_local cn_set_remote cn_local cn_remote]; rewrite slice_cur; cbn [sl_cur]; unfold SetValue; by rewrite Hval. }
    rewrite Hs. unfold InitialWindowSize, Value. by rewrite value_put.
  - eexists _, _. split; [reflexivity|]. split_and!; [done|destruct b; exact Hnone|destruct b; exact Hobjs].
Qed.

Lemma initial_window_moves_witness :
  exists c' s', applySettings false [MkSetting SettingInitialWindowSize 100] (after_read sample_headers) = (Ok tt, c') /\
    cn_objs c' !! (1 : Z) = Some s' /\ window_of false s' = Some 100 /\ window_of true s' = Some 65535.
Proof.
  destruct (initial_window_moves true false 100 (after_read sample_headers) (after_read_reachable _)) as (r & c' & Hrun & Hr & _ & Hobjs).
  - vm_compute. split; discriminate.
  - assert (Hno : overflowing false (100 - InitialWindowSize (cs_settings (side false (after_read sample_headers))))
      (cn_objs (after_read sample_headers)) (range_streams (after_read sample_headers)) = []) by (vm_compute; reflexivity).
    rewrite Hno in Hr. destruct Hr as [-> _].
    set (s := default (newStream 1) (cn_objs (after_read sample_headers) !! (1 : Z))).
    destruct (Hobjs 1 s ltac:(vm_compute; reflexivity)) as (s' & Hs' & Hm). exists c', s'. split; [exact Hrun|]. split; [exact Hs'|].
    rewrite decide_True in Hm by (apply (bool_decide_unpack _); vm_compute; reflexivity).
    destruct Hm as (H1 & H2 & _). rewrite H1. change (negb false) with true in H2. rewrite H2. vm_compute. split; reflexivity.
Defined.
