(* ===== verification/HandshakeTheorems.v ===== *)
(** * What the handshake guarantees

    The order of the two prefaces, the answer to a bad preface, and that a server accepts
    the upgrade request a client makes, with the client's settings. *)

From S2P Require Import Prelude HpackEncode HpackDecode Types Settings StreamState FlowControl WriteQueue.
From S2P Require Import HttpHeader HeaderTable HpackSync StreamWrite FrameWriter FrameReader FrameRoundtrip ReaderAdvance Conn ConnIO ConnInv ConnSafety ConnOps ConnRun Upgrade Handshake ConnSystem ConnTheorems ConnSettings.

(** ** The prefaces *)

Section Preface.
Context {W : Type} `{ConnEnv W} `{HttpEnv}.
Implicit Types c : Conn W.

(** The settings are queued, and wait for their acknowledgement. *)
Definition announced_settings (xs : Settings) c : Conn W :=
  add_queue (QFrame (SettingsFrame false xs)) true (cn_set_settingsCh (cn_settingsCh c ++ [xs]) c).

Lemma sendSettings_run xs c :
  zlen (cn_settingsCh c) < 4 ->
  writeFrame GotToken (SettingsFrame false xs) c = (Ok WReturned, announced_settings xs c).
Proof.
  intros Hl. change (writeFrame GotToken (SettingsFrame false xs) c) with (writeSettingsFrame false xs c).
  unfold writeSettingsFrame, cbind, cget, cmodify. assert (Hb : (zlen (cn_settingsCh c) <? 4) = true) by lia. by rewrite Hb.
Qed.

(** The input is moved on. *)
Definition at_input (l : list byte) c : Conn W := cn_set_fr (fr_set_in l (cn_fr c)) c.

Lemma checkPreface_run c c' :
  checkPreface c = (Ok tt, c') -> exists rest, fr_in (cn_fr c) = ClientPreface ++ rest /\ c' = at_input rest c.
Proof.
  unfold checkPreface. destruct (_ <? _)%nat; [done|]. case_bool_decide as E; [|done]. intros [= <-].
  eexists. split; [|done]. by rewrite <- E, take_drop.
Qed.

Lemma firstFrame_run fuel bad c c' :
  firstFrame fuel bad c = (Ok tt, c') -> exists s, readFrame fuel c = (Ok (GotFrame (SettingsFrame false s)), c').
Proof.
  unfold firstFrame, cbind. destruct (readFrame fuel c) as [[[f| |]|e|] c1]; try done.
  destruct f as [| | | |[] s| | | | |]; try done. intros [= <-]. by exists s.
Qed.
End Preface.

(** C35: a TLS server's handshake succeeds only if HTTP/2 was negotiated with a version and
    a cipher suite it accepts, the input starts with the client preface, and the first frame
    that [readFrame] returns after it is SETTINGS without ACK (frames that [readFrame] drops,
    RST_STREAM and DATA for unknown streams, may come before it: [settings_not_first]); its own
    SETTINGS were queued before anything was read. *)
Theorem server_handshake_order {W} `{ConnEnv W} `{HttpEnv} fuel cfg t (c c' : Conn W) frames :
  cf_tls cfg = Some t -> zlen (cn_settingsCh c) < 4 -> serverHandshake fuel cfg c = (Ok frames, c') ->
  frames = [] /\ ts_Protocol t = ProtocolTLS /\
  (VersionTLS12 <= ts_Version t \/ cf_AllowLowTLSVersion cfg = true) /\
  (VersionTLS12 <= ts_Version t -> badCipher (ts_CipherSuite t) = false) /\
  exists rest s, fr_in (cn_fr c) = ClientPreface ++ rest /\
    readFrame fuel (at_input rest (announced_settings (cf_InitialSettings cfg) c)) =
      (Ok (GotFrame (SettingsFrame false s)), c').
Proof.
  intros Ht Hl. unfold serverHandshake. rewrite Ht. unfold cbind at 1 2. unfold tlsServer.
  destruct (ts_handshakeErr t); [done|]. case_bool_decide as Hp; [|done]. cbn [negb].
  destruct (negb (cf_AllowLowTLSVersion cfg) && (ts_Version t <? VersionTLS12)) eqn:Hv; [done|].
  destruct ((VersionTLS12 <=? ts_Version t) && badCipher (ts_CipherSuite t)) eqn:Hc; [done|]. cbn [cret].
  unfold cbind at 1. rewrite sendSettings_run by done. unfold cbind at 1.
  destruct (checkPreface _) as [[[]|e|] c1] eqn:Hck; try done.
  apply checkPreface_run in Hck as (rest & Hin & ->). unfold cbind at 1.
  destruct (firstFrame _ _ _) as [[[]|e|] c2] eqn:Hf; try done. intros [= <- <-].
  apply firstFrame_run in Hf as [s Hs]. split_and!; [done|done| | |by exists rest, s].
  - destruct (cf_AllowLowTLSVersion cfg); [by right|left]. cbn in Hv. lia.
  - intros Hge. destruct (badCipher _); [|done]. lia.
Qed.

Definition tls_ok : tlsState := MkTLSState None ProtocolTLS true 0x0303 0xc02f.
Definition tls_config : config := MkConfig [] 0 false (Some tls_ok) None.

(** The client preface and an empty SETTINGS frame. *)
Definition good_input : list byte := ClientPreface ++ bytes [0; 0; 0; 4; 0; 0; 0; 0; 0].

Lemma server_handshake_order_witness :
  exists rest s, fr_in (cn_fr (sample_conn good_input)) = ClientPreface ++ rest /\
    readFrame 8 (at_input rest (announced_settings [] (sample_conn good_input))) =
      (Ok (GotFrame (SettingsFrame false s)), (serverHandshake 8 tls_config (sample_conn good_input)).2).
Proof.
  set (r := serverHandshake 8 tls_config (sample_conn good_input)).
  assert (H1 : r.1 = Ok []) by (vm_compute; reflexivity).
  assert (Hr : r = (Ok [], r.2)) by (rewrite <- H1; apply surjective_pairing).
  destruct (server_handshake_order 8 tls_config tls_ok (sample_conn good_input) r.2 [] eq_refl ltac:(vm_compute; reflexivity) Hr)
    as (_ & _ & _ & _ & rest & s & Hin & Hread).
  exists rest, s. split; [exact Hin|exact Hread].
Defined.

(** The handshake does not insist that SETTINGS is the first frame: with an RST_STREAM for a
    stream that does not exist between the preface and SETTINGS it succeeds, where RFC 7540,
    section 3.5, and the text of the error ask for SETTINGS first. *)
Theorem settings_not_first :
  (serverHandshake 8 tls_config (sample_conn (ClientPreface ++ sample_rst ++ bytes [0; 0; 0; 4; 0; 0; 0; 0; 0]))).1 = Ok [].
Proof. vm_compute. reflexivity. Qed.

(** When the input of a TLS server does not start with the client preface, the
    handshake fails with the preface error, a GOAWAY with PROTOCOL_ERROR is queued, and every
    later call of [Handshake] returns the same error and changes nothing. *)
Theorem bad_preface_refused {W} `{ConnEnv W} `{HttpEnv} fuel fuel' cfg t (c : Conn W) :
  reachable true c -> cs_goAway (cn_remote c) = None -> zlen (cn_settingsCh c) < 4 ->
  cf_tls cfg = Some t -> tlsServer cfg t c = (Ok tt, c) ->
  (length ClientPreface <= length (fr_in (cn_fr c)))%nat -> take (length ClientPreface) (fr_in (cn_fr c)) <> ClientPreface ->
  exists h c', Handshake fuel cfg newHS c = (Ok h, c') /\ hs_err h = Some errBadConnPreface /\ hs_complete h = false /\
    (exists last debug, QFrame (GoAwayFrame last ErrCodeProtocol debug) ∈ contents (cn_queue c')) /\
    forall c2 : Conn W, Handshake fuel' cfg h c2 = (Ok h, c2).
Proof.
  intros Hr Hga Hl Ht Htls Hlen Hne. pose proof (reachable_server true c Hr) as Hsv. destruct (reachable_good true c Hr) as [Hg _].
  unfold Handshake. cbn [hs_err hs_complete newHS]. rewrite Hsv. unfold serverHandshake. rewrite Ht.
  unfold cbind at 1 2. rewrite Htls. cbn [cret]. unfold cbind at 1. rewrite sendSettings_run by done.
  set (c1 := announced_settings (cf_InitialSettings cfg) c).
  assert (Hg1 : good c1).
  { destruct (sendSettings_fine (cf_InitialSettings cfg) c Hg) as (_ & Hg1 & _). rewrite sendSettings_run in Hg1 by done. exact Hg1. }
  assert (Hck : checkPreface c1 = (Err errBadConnPreface, c1)).
  { unfold checkPreface. change (fr_in (cn_fr c1)) with (fr_in (cn_fr c)).
    rewrite (proj2 (Nat.ltb_ge _ _)) by done. by rewrite bool_decide_false. }
  unfold cbind at 1. rewrite Hck. cbv iota.
  change (handleErr (prefaceError errBadConnPreface)) with
    (@errGoAway W _ ErrCodeProtocol (ConnError ErrCodeProtocol)).
  unfold errGoAway, ignore, ctry, cbind, cget.
  destruct (writeGoAway_ok (MkGoAway (LastStreamID c1) ErrCodeProtocol (env_errText (ConnError ErrCodeProtocol))) c1 Hg1)
    as [(g & Hg2 & _)|(c2 & -> & _)]; [change (cs_goAway (cn_remote c1)) with (cs_goAway (cn_remote c)) in Hg2; congruence|].
  eexists _, _. split; [reflexivity|]. split_and!; [done|done| |done].
  eexists _, _. unfold add_queue. cbn [cn_queue cn_set_queue]. apply contents_add. by left.
Qed.

Definition bad_input : list byte := replicate 24 (zb 71).

Lemma bad_preface_refused_witness :
  exists h c', Handshake 8 tls_config newHS (sample_conn bad_input) = (Ok h, c') /\ hs_err h = Some errBadConnPreface.
Proof.
  destruct (bad_preface_refused 8 8 tls_config tls_ok (sample_conn bad_input)) as (h & c' & Hrun & He & _).
  - exists bad_input, ErrEOF, [], 4096, []. apply rtc_refl.
  - reflexivity.
  - vm_compute. reflexivity.
  - reflexivity.
  - vm_compute. reflexivity.
  - vm_compute. lia.
  - vm_compute. discriminate.
  - exists h, c'. split; [exact Hrun|exact He].
Defined.

(** ** The upgrade *)

(** The bytes of a token of a header: visible, and no comma. *)
Definition token (s : gostring) : Prop := Forall (fun b => 33 <= bz b <= 126 /\ bz b <> 44) s.

Lemma b64char_token v : 0 <= v < 64 -> 33 <= bz (b64char v) <= 126 /\ bz (b64char v) <> 44.
Proof.
  intros Hv. assert (Hall : forallb (fun n => let c := bz (b64char (Z.of_nat n)) in
    (33 <=? c) && (c <=? 126) && negb (c =? 44)) (seq 0 64) = true) by (vm_compute; reflexivity).
  rewrite forallb_forall in Hall. specialize (Hall (Z.to_nat v)). rewrite Z2Nat.id in Hall by lia.
  assert (Hin : In (Z.to_nat v) (seq 0 64)) by (apply in_seq; lia). specialize (Hall Hin). cbn beta zeta in Hall. lia.
Qed.

Lemma b64_token l : token (b64encode l).
Proof. apply b64_forall; [apply b64char_token|vm_compute; split; [split|]; discriminate]. Qed.

Lemma splitByte_token s : token s -> splitByte 44 s = [s].
Proof.
  induction 1 as [|b s [_ Hb] _ IH]; [done|]. cbn. apply Z.eqb_neq in Hb. by rewrite Hb, IH.
Qed.

Section Agree.
Context `{HttpEnv}.
(** [strings.EqualFold] on ASCII strings, and [strings.TrimSpace] on a string without spaces. *)
Hypothesis fold_ascii : forall s t, is_ascii s = true -> is_ascii t = true ->
  http_equalFold s t = bool_decide (map lower_byte s = map lower_byte t).
Hypothesis trim_token : forall s, token s -> http_trimSpace s = s.

Definition names : list gostring := [str "Upgrade"; str "Connection"; str "HTTP2-Settings"].

(** None of the three header fields. *)
Definition unrelated (hdr : httpHeader) : Prop :=
  forall n kv, n ∈ names -> kv ∈ hdr -> http_equalFold n kv.1 = false.

Lemma names_fold n m : n ∈ names -> m ∈ names -> http_equalFold n m = bool_decide (n = m).
Proof.
  intros Hn Hm. unfold names in Hn, Hm. rewrite !elem_of_cons in Hn, Hm.
  destruct Hn as [->|[->|[->|Hn]]]; [..|by apply not_elem_of_nil in Hn];
    (destruct Hm as [->|[->|[->|Hm]]]; [..|by apply not_elem_of_nil in Hm]); by rewrite fold_ascii.
Qed.

Lemma find_skip {A} (f : A -> bool) l1 l2 : (forall x, x ∈ l1 -> f x = false) -> List.find f (l1 ++ l2) = List.find f l2.
Proof.
  induction l1 as [|x l1 IH]; intros Hf; [done|]. cbn. rewrite Hf by left. apply IH. intros y Hy. apply Hf. by right.
Qed.

Lemma put_skip hdr l n vs : n ∈ names -> unrelated hdr -> putHeader (hdr ++ l) n vs = hdr ++ putHeader l n vs.
Proof.
  intros Hn Hu. induction hdr as [|[k vv] hdr IH]; [done|]. cbn.
  assert (Hk : http_equalFold n k = false) by (apply (Hu n (k, vv)); [done|left]).
  rewrite bool_decide_false; [|intros ->; rewrite (names_fold n n), bool_decide_true in Hk; done].
  rewrite IH; [done|]. intros m kv Hm Hkv. apply Hu; [done|by right].
Qed.

Lemma split_skip hdr l n : n ∈ names -> unrelated hdr ->
  splitHeader http_equalFold http_trimSpace (hdr ++ l) n = splitHeader http_equalFold http_trimSpace l n.
Proof. intros Hn Hu. unfold splitHeader. rewrite find_skip; [done|]. intros kv Hkv. by apply Hu. Qed.

Lemma values_skip hdr l n : n ∈ names -> unrelated hdr -> headerValues (hdr ++ l) n = headerValues l n.
Proof.
  intros Hn Hu. unfold headerValues. rewrite find_skip; [done|]. intros [k vv] Hkv. apply bool_decide_false. cbn. intros ->.
  pose proof (Hu n (n, vv) Hn Hkv) as Hf. cbn in Hf. by rewrite (names_fold n n), bool_decide_true in Hf.
Qed.

(** The fields of the upgrade, with tokens as values. *)
Definition upgrade_fields (l : httpHeader) : Prop := Forall (fun kv => kv.1 ∈ names /\ Forall token kv.2) l.

Lemma split_tokens vs : Forall token vs -> vs ≫= (fun vv => http_trimSpace <$> splitByte 44 vv) = vs.
Proof.
  induction 1 as [|v vs Hv _ IH]; [done|]. rewrite bind_cons, splitByte_token by done. cbn. by rewrite trim_token, IH.
Qed.

Lemma split_fields l n : n ∈ names -> upgrade_fields l ->
  splitHeader http_equalFold http_trimSpace l n = headerValues l n.
Proof.
  intros Hn. unfold splitHeader, headerValues. induction 1 as [|[k vs] l [Hk Hvs] _ IH]; [done|]. cbn in Hk, Hvs |- *.
  rewrite (names_fold n k) by done. rewrite (bool_decide_ext (n = k) (k = n)) by (split; congruence).
  case_bool_decide; [by apply split_tokens|exact IH].
Qed.

Lemma contains_fields hdr l n vals ss : n ∈ names -> unrelated hdr -> upgrade_fields l -> headerValues l n = ss -> ss <> [] ->
  containsValue http_equalFold http_trimSpace (hdr ++ l) n vals = forallb (fun v => existsb (http_equalFold v) ss) vals.
Proof.
  intros Hn Hu Hl Hv Hne. unfold containsValue. rewrite split_skip, split_fields, Hv by done. by destruct ss.
Qed.

Lemma name1 : str "Upgrade" ∈ names.
Proof. left. Qed.
Lemma name2 : str "Connection" ∈ names.
Proof. right. left. Qed.
Lemma name3 : str "HTTP2-Settings" ∈ names.
Proof. right. right. left. Qed.

(** The header that a client makes from one without these fields. *)
Definition client_fields (s : Settings) : httpHeader :=
  [(str "Upgrade", [ProtocolTCP]); (str "Connection", [str "Upgrade"; str "HTTP2-Settings"]);
   (str "HTTP2-Settings", [encodedSettings s])].

Lemma ascii_token s : forallb (fun b => (33 <=? bz b) && (bz b <=? 126) && negb (bz b =? 44)) s = true -> token s.
Proof.
  intros Hs. apply Forall_forall. intros b Hb%list_elem_of_In. rewrite forallb_forall in Hs. specialize (Hs b Hb). lia.
Qed.

Lemma client_fields_ok s : upgrade_fields (client_fields s).
Proof.
  pose proof name1. pose proof name2. pose proof name3.
  assert (token ProtocolTCP) by (apply ascii_token; vm_compute; reflexivity).
  assert (token (str "Upgrade")) by (apply ascii_token; vm_compute; reflexivity).
  assert (token (str "HTTP2-Settings")) by (apply ascii_token; vm_compute; reflexivity).
  assert (token (encodedSettings s)) by (destruct s; [constructor|apply b64_token]).
  unfold upgrade_fields, client_fields. rewrite !Forall_cons. cbn [fst snd]. rewrite !Forall_cons.
  repeat match goal with |- _ /\ _ => split end; assumption || apply Forall_nil_2.
Qed.

Lemma fields_take l k : upgrade_fields l -> upgrade_fields (take k l).
Proof. apply Forall_take. Qed.

(** The first two fields are there once the Connection options were added. *)
Lemma addConnections_run s hdr :
  unrelated hdr ->
  addConnection (str "HTTP2-Settings") (addConnection (str "Upgrade") (putHeader hdr (str "Upgrade") [ProtocolTCP])) =
  hdr ++ take 2 (client_fields s).
Proof.
  intros Hu. pose proof name1 as N1. pose proof name2 as N2. pose proof name3 as N3.
  pose proof (client_fields_ok s) as Hok.
  assert (H1 : putHeader hdr (str "Upgrade") [ProtocolTCP] = hdr ++ take 1 (client_fields s)).
  { rewrite <- (app_nil_r hdr) at 1. by rewrite put_skip. }
  assert (H2 : addConnection (str "Upgrade") (hdr ++ take 1 (client_fields s)) =
    hdr ++ [(str "Upgrade", [ProtocolTCP]); (str "Connection", [str "Upgrade"])]).
  { unfold addConnection, containsValue. rewrite split_skip, split_fields by (done || by apply fields_take).
    change (headerValues (take 1 (client_fields s)) (str "Connection")) with (@nil gostring).
    rewrite values_skip, put_skip by done. reflexivity. }
  rewrite H1, H2. unfold addConnection.
  set (l := [(str "Upgrade", [ProtocolTCP]); (str "Connection", [str "Upgrade"])]).
  assert (Hl : upgrade_fields l).
  { destruct (Forall_cons_1 _ _ _ Hok) as [HU Hok']. destruct (Forall_cons_1 _ _ _ Hok') as [[HC Hv] _].
    unfold l, upgrade_fields. rewrite !Forall_cons. split_and!; [apply HU|apply HU|done| |apply Forall_nil_2].
    cbn in Hv |- *. apply Forall_cons in Hv as [Hv _]. apply Forall_cons. split; [exact Hv|apply Forall_nil_2]. }
  rewrite (contains_fields hdr l (str "Connection") _ [str "Upgrade"] N2 Hu Hl) by done.
  cbn [forallb existsb]. rewrite (names_fold (str "HTTP2-Settings") (str "Upgrade")) by done.
  rewrite bool_decide_false by done. cbn [orb andb]. rewrite values_skip, put_skip by done. reflexivity.
Qed.

Lemma upgradeHeader_run s hdr : unrelated hdr -> upgradeHeader s hdr = Some (hdr ++ client_fields s).
Proof.
  intros Hu. pose proof name3 as N3. pose proof (client_fields_ok s) as Hok.
  unfold upgradeHeader. cbv zeta. rewrite (addConnections_run s hdr Hu).
  rewrite split_skip, split_fields by (done || by apply fields_take).
  change (headerValues (take 2 (client_fields s)) (str "HTTP2-Settings")) with (@nil gostring).
  by rewrite put_skip.
Qed.

Lemma server_reads s hdr req :
  settings_wf s -> Forall setting_ok s -> unrelated hdr -> rq_Method req = str "GET" -> rq_Header req = hdr ++ client_fields s ->
  upgradeRequest req = inr s.
Proof.
  intros Hwf Hset Hu Hm Hh. pose proof name1 as N1. pose proof name2 as N2. pose proof name3 as N3.
  pose proof (client_fields_ok s) as Hok. unfold upgradeRequest. rewrite Hm, bool_decide_true by done. cbn [negb]. rewrite Hh.
  rewrite (contains_fields hdr _ (str "Upgrade") _ [ProtocolTCP] N1 Hu Hok) by done.
  rewrite (contains_fields hdr _ (str "Connection") _ [str "Upgrade"; str "HTTP2-Settings"] N2 Hu Hok) by done.
  cbn [forallb existsb]. rewrite (names_fold (str "Upgrade") (str "Upgrade")), (names_fold (str "HTTP2-Settings") (str "HTTP2-Settings")) by done.
  rewrite (names_fold (str "HTTP2-Settings") (str "Upgrade")) by done.
  rewrite (fold_ascii ProtocolTCP ProtocolTCP) by done. rewrite !bool_decide_true by done. rewrite orb_true_r. cbn [orb andb negb].
  rewrite split_skip, split_fields by done.
  change (headerValues (client_fields s) (str "HTTP2-Settings")) with [encodedSettings s].
  cbv beta iota. by rewrite roundtrip_settings.
Qed.
End Agree.

(** ** The upgrade on the server *)

(** The settings of a client that the server can apply to a new connection: no ENABLE_PUSH of
    1, which [applySettings] refuses, room for a stream, without which the server panics, and
    tables that fit. *)
Definition upgradable (s : Settings) : Prop :=
  value s SettingEnablePush <> Some 1 /\ 1 <= MaxConcurrentStreams s /\
  Forall (fun x => s_ID x = SettingHeaderTableSize -> 0 <= s_Value x < 2 ^ 31) s.

Definition known (x : setting) : bool := known_setting (s_ID x).

Lemma record_known s1 s2 :
  settings_wf (s1 ++ s2) -> foldl record_setting (List.filter known s1) s2 = List.filter known (s1 ++ s2).
Proof.
  revert s1. induction s2 as [|x s2 IH]; intros s1 Hwf; [by rewrite app_nil_r|]. cbn [foldl].
  assert (Hf : record_setting (List.filter known s1) x = List.filter known (s1 ++ [x])).
  { rewrite List.filter_app. unfold record_setting. cbn [List.filter]. change (known_setting (s_ID x)) with (known x).
    destruct (known x); [|by rewrite app_nil_r].
    rewrite (SetValue_append (List.filter known s1) x []); [done|]. destruct Hwf as [Hnd Hval]. split.
    - rewrite map_app in Hnd |- *. apply NoDup_app in Hnd as (Hnd1 & Hd & Hnd2). apply NoDup_app. split_and!.
      + clear -Hnd1. induction s1 as [|y s1 IH]; [constructor|]. cbn [map] in Hnd1. apply NoDup_cons in Hnd1 as [Hy Hnd1].
        cbn [List.filter]. destruct (known y); [|by apply IH]. cbn [map]. apply NoDup_cons. split; [|by apply IH]. intros (z & Hz & Hin)%list_elem_of_In%in_map_iff. apply filter_In in Hin as [Hin _].
        apply Hy, list_elem_of_In, in_map_iff. eauto.
      + intros z (y & <- & Hin)%list_elem_of_In%in_map_iff Hz. apply filter_In in Hin as [Hin _]. cbn in Hz. apply list_elem_of_singleton in Hz.
        apply (Hd (s_ID y)); [apply list_elem_of_In, in_map_iff; eauto|]. rewrite Hz. by left.
      + constructor; [by apply not_elem_of_nil|constructor].
    - apply Forall_app in Hval as [Hv1 [Hvx _]%Forall_cons]. apply Forall_app. split; [|by apply Forall_singleton].
      apply Forall_forall. intros y [Hin _]%list_elem_of_In%filter_In. rewrite Forall_forall in Hv1. by apply Hv1, list_elem_of_In. }
  rewrite Hf, IH by (by rewrite <- app_assoc). by rewrite <- app_assoc.
Qed.

Lemma value_known s id : known_setting id = true -> value (List.filter known s) id = value s id.
Proof.
  intros Hk. induction s as [|x s IH]; [done|]. cbn [List.filter value]. destruct (known x) eqn:E; cbn [value]; [by rewrite IH|].
  destruct (Z.eqb_spec (s_ID x) id) as [Hx|]; [|done]. unfold known in E. rewrite Hx in E. congruence.
Qed.

Section ServerUpgrade.
Context {W : Type} `{ConnEnv W} `{HttpEnv}.
Implicit Types c : Conn W.

(** What the peer's settings leave alone. *)
Definition table_of c := (cn_streams c, cn_objs c, cn_local c, cn_remote c).

Lemma applySetting_fresh l x c :
  good c -> cn_streams c = ∅ -> cs_server (cn_remote c) = false -> resizable false [x] c -> (s_ID x = SettingEnablePush -> s_Value x <> 1) ->
  exists c', applySetting false l x c = (Ok tt, c') /\ table_of c' = table_of c.
Proof.
  intros Hg Hst Hsv Hres Hpush. unfold applySetting. destruct (Z.eqb_spec (s_ID x) SettingEnablePush) as [E1|_].
  { unfold cbind, cget. cbn [side]. rewrite Hsv. destruct (Z.eqb_spec (s_Value x) 1); [by destruct (Hpush E1)|]. by exists c. }
  destruct (s_ID x =? SettingInitialWindowSize).
  { exists c. split; [|done]. unfold setInitialSendWindow. destruct (_ =? 0); [done|]. unfold cbind, cget.
    assert (range_streams c = []) as ->; [|done]. apply Permutation_nil_r. unfold range_streams. by rewrite env_range_perm, Hst. }
  destruct (Z.eqb_spec (s_ID x) SettingHeaderTableSize) as [E3|_].
  { unfold clift. destruct x as [xid v]. cbn in E3. subst xid. cbn [s_Value]. destruct (resize_ok false v c Hres) as (c' & E & _). rewrite E.
    exists c'. split; [done|]. apply bind_Some in E as (e & _ & [= <-]). done. }
  destruct (s_ID x =? SettingMaxHeaderListSize); [by eexists|]. destruct (s_ID x =? SettingMaxFrameSize); by eexists.
Qed.

Lemma applySettings_fresh xs l c :
  good c -> cn_streams c = ∅ -> cs_server (cn_remote c) = false -> resizable false xs c ->
  Forall (fun x => s_ID x = SettingEnablePush -> s_Value x <> 1) xs ->
  exists l' c', applySettings_loop false xs l c = (Ok l', c') /\ table_of c' = table_of c.
Proof.
  revert l c. induction xs as [|x xs IH]; intros l c Hg Hst Hsv Hres Hp; [by eexists _, _|]. cbn [applySettings_loop].
  apply Forall_cons in Hp as [Hpx Hp]. pose proof (resizable_cons _ _ _ _ Hres) as Hres'.
  destruct (known_setting (s_ID x)); [|by apply IH].
  assert (Hresx : resizable false [x] c).
  { destruct Hres as [Hw Hf]. split; [done|]. apply Forall_cons in Hf as [? _]. by apply Forall_singleton. }
  destruct (applySetting_fresh l x c Hg Hst Hsv Hresx Hpx) as (c1 & Hrun & Ht).
  destruct (applySetting_fine True false l x c Hg (fun _ => Hresx)) as [(_ & Hg1 & _) Hr]. rewrite Hrun in Hg1, Hr |- *. cbn in Hg1, Hr.
  injection Ht as T1 T2 T3 T4.
  destruct (IH (slice_set (s_ID x) (s_Value x) l) c1 Hg1) as (l' & c' & Hrun' & Ht'); [by rewrite T1|by rewrite T4|by apply Hr|done|].
  exists l', c'. split; [done|]. rewrite Ht'. unfold table_of. by rewrite T1, T2, T3, T4.
Qed.

Lemma value_push s : settings_wf s -> value s SettingEnablePush <> Some 1 -> Forall (fun x => s_ID x = SettingEnablePush -> s_Value x <> 1) s.
Proof.
  intros [Hnd _] Hv. induction s as [|x s IH]; [constructor|]. cbn in Hnd, Hv. apply NoDup_cons in Hnd as [Hx Hnd].
  destruct (Z.eqb_spec (s_ID x) SettingEnablePush) as [E|E].
  - constructor; [intros _ Hx1; by rewrite Hx1 in Hv|]. apply Forall_forall. intros y Hy Ey. destruct Hx. rewrite E, <- Ey.
    apply list_elem_of_In, in_map_iff. exists y. split; [done|by apply list_elem_of_In].
  - constructor; [done|by apply IH].
Qed.

(** The stream of the upgrade request, on a connection without streams. *)
Lemma upgradeStream_run c :
  good c -> cs_goAway (cn_local c) = None -> cs_goAway (cn_remote c) = None -> cs_server (cn_remote c) = false ->
  cs_nextStreamID (cn_remote c) = 1 -> cs_numStreams (cn_remote c) = 0 -> 1 <= MaxConcurrentStreams (cs_settings (cn_remote c)) ->
  exists c' s1, upgradeStream true c = (Ok tt, c') /\ good c' /\ cn_objs c' !! 1 = Some s1 /\ st_state s1 = StateHalfClosedRemote /\
    1 ∈ cn_streams c' /\ cs_settings (cn_remote c') = cs_settings (cn_remote c).
Proof.
  intros Hg Hgl Hgr Hsv Hn Hnum Hmax.
  assert (Hi : exists c1, idleStream false 1 c = (Ok tt, c1) /\ cs_settings (cn_remote c1) = cs_settings (cn_remote c)).
  { unfold idleStream. cbn [side]. rewrite Hgl, Hn, Hnum. unfold cs_validStreamID. rewrite Hsv. cbn [is_some Z.land Bool.eqb negb].
    change (u32 (0 + 1)) with 1. destruct (Z.ltb_spec (MaxConcurrentStreams (cs_settings (cn_remote c))) 1); [lia|]. eexists. split; [reflexivity|done]. }
  destruct Hi as (c1 & Hi & Hset).
  destruct (idleStream_ok false 1 c Hg ltac:(lia)) as [[e He]|(c2 & He & Hg1 & _ & Hloc & Hobj & Hga)]; [congruence|].
  assert (c2 = c1) by congruence. subst c2.
  destruct (idle_admissible false 1 c c1 Hg ltac:(lia)) as [_ Ha]; [right; intros g; by rewrite Hgr|done|].
  destruct (cas_good 1 StateHalfClosedRemote c1 (newStream 1) Hg1 Hobj eq_refl (fun _ => Ha)) as (c2 & s1 & Hcas & Hg2 & _ & Henv & Ho & Hst & HX).
  assert (Htr : stream_transition 1 true FrameHeaders true c1 = (Ok StateHalfClosedRemote, c2)).
  { unfold stream_transition. rewrite Hobj. cbv zeta.
    change (transition_state (st_state (newStream 1)) true FrameHeaders true) with (Some StateHalfClosedRemote). cbv iota beta.
    by rewrite Hcas. }
  exists c2, s1. unfold upgradeStream, cbind at 1, ctry at 1. cbn [negb]. rewrite Hi.
  unfold cbind, tryTransition, ctry, cbind. rewrite Htr.
  split_and!; [done|done|by rewrite Ho, lookup_insert_eq|done|by apply HX; rewrite decide_True|].
  destruct (proj1 Henv false) as (_ & _ & _ & Hs & _). cbn in Hs. congruence.
Qed.

Lemma rawWrite_run b c : exists e fw, rawWrite b c = (Ok e, cn_set_fw fw c).
Proof. unfold rawWrite. destruct (sink_write _ _). by eexists _, _. Qed.

Lemma rawFlush_run c : exists fw, rawFlush c = (Ok tt, cn_set_fw fw c).
Proof. unfold rawFlush, bufFlush. destruct (env_flush _). by eexists. Qed.

Lemma serverUpgrade_run req s fr (w : W) frames :
  upgradeRequest req = inr s -> settings_wf s -> upgradable s -> upgradeFrames req = Ok frames ->
  exists c' s1, serverUpgrade req false (newConn true fr w) = (Ok frames, c') /\ good c' /\
    (forall id, known_setting id = true -> Value (cs_settings (cn_remote c')) id = Value s id) /\
    cn_objs c' !! 1 = Some s1 /\ st_state s1 = StateHalfClosedRemote /\ 1 ∈ cn_streams c'.
Proof.
  intros Hreq Hwf (Hpush & Hmax & Htab) Hfr. set (c := newConn true fr w). pose proof (newConn_good true fr w) as Hg. fold c in Hg.
  assert (Hres : resizable false s c) by (split; [|done]; apply (sync_new (E := Empty_set) defaultHeaderTableSize tt); vm_compute; intuition congruence).
  destruct (applySettings_fresh s (MkSlice [] (cs_settingsCap (cn_remote c)) true []) c Hg eq_refl eq_refl Hres (value_push s Hwf Hpush)) as (l & c1 & Hrun & Ht).
  set (c2 := upd_side false (fun x => cs_set_settingsCap (sl_cap l) (cs_set_settings (sl_cur l) x)) c1).
  assert (Happ : applySettings false s c = (Ok tt, c2)).
  { unfold applySettings, cbind, cget, cmodify. change (cs_settings (side false c)) with (@nil setting). cbn [side]. by rewrite Hrun. }
  destruct (applySettings_result false s c c2 Happ) as (Hset & _). change (cs_settings (side false c)) with (List.filter known []) in Hset.
  rewrite (record_known [] s Hwf) in Hset. cbn [app side] in Hset.
  destruct (applySettings_fine True false s c Hg (fun _ => Hres)) as (_ & Hg2 & _). rewrite Happ in Hg2. cbn in Hg2.
  assert (Hval : forall id, known_setting id = true -> Value (cs_settings (cn_remote c2)) id = Value s id)
    by (intros id Hk; unfold Value; by rewrite Hset, value_known).
  injection Ht as T1 T2 T3 T4.
  destruct (upgradeStream_run c2 Hg2) as (c3 & s1 & Hup & Hg3 & Hobj & Hst & Hin & Hset3); try (cbn; by rewrite ?T3, ?T4).
  { unfold MaxConcurrentStreams. rewrite Hval by done. done. }
  unfold serverUpgrade. rewrite Hreq. unfold cbind at 1, ctry at 1. rewrite Happ. unfold cbind at 1. rewrite Hup. unfold cbind at 1. rewrite Hfr.
  destruct (rawWrite_run (str "HTTP/1.1 101 Switching Protocols" ++ crlf) c3) as (e1 & w1 & E1). unfold cbind at 1. rewrite E1.
  destruct (rawWrite_run (str "Connection: Upgrade" ++ crlf) (cn_set_fw w1 c3)) as (e2 & w2 & E2). unfold cbind at 1. rewrite E2.
  unfold cbind at 1. match goal with |- context [rawWrite ?b ?x] => destruct (rawWrite_run b x) as (e3 & w3 & E3) end. rewrite E3.
  unfold cbind at 1. match goal with |- context [rawFlush ?x] => destruct (rawFlush_run x) as (w4 & E4) end. rewrite E4. cbn [cret].
  eexists _, s1. split; [reflexivity|]. split_and!; [|cbn; by rewrite Hset3|done|done|done].
  apply (good_quiet c3 _ Hg3). by apply (quiet_fw c3).
Qed.
End ServerUpgrade.

(** C34: an upgrade from HTTP/1.1 goes through.  The header that a client, with well-formed
    initial settings, makes out of that of any GET request without the three fields of the upgrade passes the server's checks and the
    server decodes exactly the client's initial settings from it.  If these do not set
    ENABLE_PUSH to 1, allow at least one stream and announce a table below 2^31 bytes, and the
    request converts to frames, a new server connection takes the upgrade: every setting it
    knows has from then on the client's value or its default, stream 1 is in the map,
    half-closed by the client, and the application reads the frames of the request. *)
Theorem upgrade_agrees {W} `{ConnEnv W} `{HttpEnv} s req fr (w : W) :
  (forall a b, is_ascii a = true -> is_ascii b = true ->
     http_equalFold a b = bool_decide (map lower_byte a = map lower_byte b)) ->
  (forall t, token t -> http_trimSpace t = t) ->
  settings_wf s -> Forall setting_ok s -> rq_Method req = str "GET" -> unrelated (rq_Header req) ->
  exists hdr, upgradeHeader s (rq_Header req) = Some hdr /\ upgradeRequest (setHeader req hdr) = inr s /\
    forall frames, upgradable s -> upgradeFrames (setHeader req hdr) = Ok frames ->
      exists c' s1, serverUpgrade (setHeader req hdr) false (newConn true fr w) = (Ok frames, c') /\ good c' /\
        (forall id, known_setting id = true -> Value (cs_settings (cn_remote c')) id = Value s id) /\
        cn_objs c' !! 1 = Some s1 /\ st_state s1 = StateHalfClosedRemote /\ 1 ∈ cn_streams c'.
Proof.
  intros Hf Ht Hwf Hset Hm Hu. exists (rq_Header req ++ client_fields s).
  assert (Hreq : upgradeRequest (setHeader req (rq_Header req ++ client_fields s)) = inr s) by (by apply (server_reads Hf Ht s (rq_Header req))).
  split_and!; [by apply upgradeHeader_run|done|]. intros frames Hup Hfr. by apply serverUpgrade_run.
Qed.

Definition plain_request : request := MkRequest (str "GET") [] (str "a") (str "/") [] [(str "Accept", [str "a"])] 0 None.

Lemma upgrade_agrees_witness :
  exists hdr frames c', upgradeHeader [MkSetting SettingMaxFrameSize 20000] [(str "Accept", [str "a"])] = Some hdr /\
    serverUpgrade (W := list byte) (setHeader plain_request hdr) false (newConn true (newFrameReader [] ErrEOF [] 4096) []) = (Ok frames, c') /\
    MaxFrameSize (cs_settings (cn_remote c')) = 20000 /\ 1 ∈ cn_streams c'.
Proof.
  destruct (upgrade_agrees [MkSetting SettingMaxFrameSize 20000] plain_request (newFrameReader [] ErrEOF [] 4096) ([] : list byte))
    as (hdr & Hh & _ & Hup).
  - reflexivity.
  - reflexivity.
  - split; [apply (bool_decide_unpack _); vm_compute; reflexivity|repeat constructor].
  - repeat constructor; vm_compute; discriminate || reflexivity.
  - reflexivity.
  - intros n kv Hn Hkv. cbn in Hkv. apply list_elem_of_singleton in Hkv as ->. unfold names in Hn. rewrite !elem_of_cons in Hn.
    destruct Hn as [->|[->|[->|Hn]]]; [vm_compute; reflexivity..|by apply not_elem_of_nil in Hn].
  - assert (Hhdr : hdr = [(str "Accept", [str "a"])] ++ client_fields [MkSetting SettingMaxFrameSize 20000]).
    { assert (E : upgradeHeader [MkSetting SettingMaxFrameSize 20000] (rq_Header plain_request) =
        Some ([(str "Accept", [str "a"])] ++ client_fields [MkSetting SettingMaxFrameSize 20000])) by (vm_compute; reflexivity). congruence. }
    set (o := upgradeFrames (setHeader plain_request hdr)).
    assert (Ho : match o with Ok _ => true | _ => false end = true) by (unfold o; rewrite Hhdr; vm_compute; reflexivity).
    destruct o as [frames| |] eqn:Eo; [|discriminate..].
    destruct (Hup frames) as (c' & s1 & Hrun & _ & Hv & _ & _ & Hin).
    + split; [vm_compute; discriminate|]. split; [vm_compute; discriminate|]. repeat constructor; vm_compute; discriminate.
    + exact Eo.
    + exists hdr, frames, c'. split; [exact Hh|]. split; [exact Hrun|]. split; [|exact Hin].
      unfold MaxFrameSize. rewrite Hv by reflexivity. reflexivity.
Defined.

(** A client that announces SETTINGS_MAX_CONCURRENT_STREAMS = 0 in its upgrade, which
    RFC 7540 allows, makes the server panic: the stream of the upgrade request is counted
    against that limit, is refused, and is used although it is nil. *)
Theorem upgrade_zero_streams_panics :
  let req := MkRequest (str "GET") [] [] (str "/") [] (client_fields [MkSetting SettingMaxConcurrentStreams 0]) 0 None in
  upgradeRequest req = inr [MkSetting SettingMaxConcurrentStreams 0] /\
  (serverUpgrade req false (sample_conn [])).1 = Panic.
Proof. split; vm_compute; reflexivity. Qed.
