(* ===== verification/HandshakePair.v ===== *)
(** * The two handshakes against each other ([src/server.go], [src/client.go])

    [HandshakeTheorems] says what a handshake demands; here is that the two ends meet it: over
    a TLS connection on which HTTP/2 was negotiated, what one end writes makes the handshake
    of the other succeed. *)

From S2P Require Import Prelude HpackEncode HpackDecode Types Settings StreamState FlowControl WriteQueue.
From S2P Require Import HttpHeader HeaderTable StreamWrite FrameWriter FrameReader FrameRoundtrip ReaderAdvance Conn ConnIO ConnInv ConnSafety ConnOps ConnRun Upgrade Handshake ConnSystem ConnTheorems HandshakeTheorems.

(** The TLS states that the two ends accept. *)
Definition server_accepts (cfg : config) (t : tlsState) : Prop :=
  ts_handshakeErr t = None /\ ts_Protocol t = ProtocolTLS /\
  (cf_AllowLowTLSVersion cfg = true \/ VersionTLS12 <= ts_Version t) /\
  (VersionTLS12 <= ts_Version t -> badCipher (ts_CipherSuite t) = false).

Definition client_accepts (t : tlsState) : Prop :=
  ts_handshakeErr t = None /\ ts_Mutual t = true /\ ts_Protocol t = ProtocolTLS.

(** Settings that fit in one frame of the size every peer accepts. *)
Definition announceable (s : Settings) : Prop :=
  settings_wf s /\ Forall setting_ok s /\ settingLen * zlen s <= defaultMaxFrameSize.

(** The bytes of a SETTINGS frame are what the frame writer of the other end writes for it. *)
Definition writes_settings {W} `{Sink W} (s : Settings) (bytes : list byte) : Prop :=
  exists u po o (w w' : frameWriter W), WriteFrame u (SettingsFrame false s) po o w = (Ok tt, w') /\
    sink_out (fw_w w') = sink_out (fw_w w) ++ bytes.

Lemma writes_settings_encode {W} `{Sink W} s bytes :
  announceable s -> writes_settings (W := W) s bytes -> bytes = encode (SettingsFrame false s).
Proof.
  intros (Hwf & Hok & Hl) (u & po & o & w & w' & Hw & Ho).
  pose proof (control_written u (SettingsFrame false s) po o w w' (conj Hwf Hok) Hw) as Hc. unfold out in Hc.
  rewrite Hc in Ho; [by apply app_inv_head in Ho|]. cbn [encode]. rewrite zlen_app, settings_len.
  change (zlen (frameHeader _ _ _ _)) with 9. unfold settingLen, defaultMaxFrameSize, maxFrameSizeLowerBound in Hl. lia.
Qed.

Section Pair.
Context {W : Type} `{ConnEnv W} `{HttpEnv}.
Implicit Types c : Conn W.

(** The first frame of the peer is read and its acknowledgement queued. *)
Lemma firstFrame_ok fuel bad c s rest :
  announceable s -> ready (cn_fr c) (encode (SettingsFrame false s) ++ rest) -> fr_maxFrameSize (cn_fr c) = defaultMaxFrameSize ->
  cn_lastData c = false -> cs_goAway (cn_remote c) = None ->
  (cs_server (cn_local c) = true \/ value s SettingEnablePush <> Some 1) ->
  exists r, firstFrame (S fuel) bad c = (Ok tt, add_queue (QFrame (SettingsFrame true s)) true (cn_set_fr r c)) /\
    took (cn_fr c) r rest.
Proof.
  intros (Hwf & Hok & Hl) Hr Hm Hld Hga Hpush. unfold settingLen, defaultMaxFrameSize, maxFrameSizeLowerBound in *.
  assert (Hlen : zlen (encode (SettingsFrame false s)) = 9 + 6 * zlen s).
  { cbn [encode]. rewrite zlen_app, settings_len. change (zlen (frameHeader _ _ _ _)) with 9. lia. }
  destruct (control_read (SettingsFrame false s) (cn_fr c) rest (conj Hwf Hok) Hr ltac:(lia) ltac:(lia)) as (r & Hread & Ht).
  exists r. split; [|done]. unfold firstFrame, cbind, readFrame. rewrite Hld. cbn [readFrame_loop].
  unfold conn_ReadFrame. rewrite Hread. unfold dispatch, cbind, cget, droppedAfterGoAway.
  change (cs_goAway (cn_remote (cn_set_fr r c))) with (cs_goAway (cn_remote c)). rewrite Hga. cbv iota.
  unfold readSettingsFrame, cbind, cget, cmodify. change (cs_server (cn_local (cn_set_fr r c))) with (cs_server (cn_local c)).
  assert (Hp : bool_decide (value s SettingEnablePush = Some 1) && negb (cs_server (cn_local c)) = false).
  { destruct Hpush as [->|Hp]; [by rewrite andb_false_r|by rewrite bool_decide_false]. }
  by rewrite Hp.
Qed.

Lemma tlsServer_ok cfg t c : server_accepts cfg t -> tlsServer cfg t c = (Ok tt, c).
Proof.
  intros (He & Hp & Hv & Hc). unfold tlsServer. rewrite He, bool_decide_true by done. cbn [negb].
  assert (H1 : negb (cf_AllowLowTLSVersion cfg) && (ts_Version t <? VersionTLS12) = false).
  { destruct Hv as [->|Hv]; [done|]. rewrite (proj2 (Z.ltb_ge _ _) Hv). by rewrite andb_false_r. }
  rewrite H1. destruct (Z.leb_spec VersionTLS12 (ts_Version t)) as [Hle|]; [|done]. by rewrite (Hc Hle).
Qed.

Definition fresh (server : bool) (input : list byte) (e : error) (stale : list byte) (bufSize : Z) (w : W) : Conn W :=
  newConn server (newFrameReader input e stale bufSize) w.

Lemma server_handshake_succeeds fuel cfg t cs rest e stale bufSize (w : W) :
  cf_tls cfg = Some t -> server_accepts cfg t -> announceable cs ->
  let c := fresh true (ClientPreface ++ encode (SettingsFrame false cs) ++ rest) e stale bufSize w in
  exists c', Handshake (S fuel) cfg newHS c = (Ok (MkHS None true []), c') /\ ready (cn_fr c') rest /\
    contents (cn_queue c') = [QFrame (SettingsFrame false (cf_InitialSettings cfg)); QFrame (SettingsFrame true cs)] /\
    cn_settingsCh c' = [cf_InitialSettings cfg] /\ sink_out (fw_w (cn_fw c')) = sink_out w.
Proof.
  intros Ht Hacc Hcs c. unfold Handshake. cbn [hs_err hs_complete newHS]. change (cs_server (cn_local c)) with true. cbv iota.
  unfold serverHandshake. rewrite Ht. unfold cbind at 1 2. rewrite tlsServer_ok by done. cbn [cret].
  unfold cbind at 1. rewrite sendSettings_run by done. set (c1 := announced_settings _ c). unfold cbind at 1.
  set (tl := encode (SettingsFrame false cs) ++ rest).
  assert (Hck : checkPreface c1 = (Ok tt, at_input tl c1)).
  { unfold checkPreface. change (fr_in (cn_fr c1)) with (ClientPreface ++ tl).
    rewrite (proj2 (Nat.ltb_ge _ _)) by (rewrite length_app; lia). by rewrite bool_decide_true, drop_app_length by apply take_app_length. }
  rewrite Hck. unfold cbind at 1.
  destruct (firstFrame_ok fuel (PlainError "first received frame was not SETTINGS") (at_input tl c1) cs rest) as (r & Hf & Hr);
    [done| |done|done|done|by left|].
  { split; [done|]. by exists []. }
  rewrite Hf. cbn [cret]. eexists. split; [reflexivity|]. split; [apply Hr|]. by split_and!.
Qed.

Lemma client_handshake_succeeds fuel cfg t ss rest e stale bufSize (w w1 : W) :
  cf_tls cfg = Some t -> client_accepts t -> announceable ss -> value ss SettingEnablePush <> Some 1 ->
  sink_write w ClientPreface = (w1, None) ->
  let c := fresh false (encode (SettingsFrame false ss) ++ rest) e stale bufSize w in
  exists c', Handshake (S fuel) cfg newHS c = (Ok (MkHS None true []), c') /\ ready (cn_fr c') rest /\
    contents (cn_queue c') = [QFrame (SettingsFrame false (cf_InitialSettings cfg)); QFrame (SettingsFrame true ss)] /\
    cn_settingsCh c' = [cf_InitialSettings cfg] /\ sink_out (fw_w (cn_fw c')) = sink_out w ++ ClientPreface.
Proof.
  intros Ht (A1 & A2 & A3) Hss Hpush Hw c. unfold Handshake. cbn [hs_err hs_complete newHS].
  change (cs_server (cn_local c)) with false. cbv iota. unfold clientHandshake. rewrite Ht. unfold cbind at 1. unfold tlsClient.
  rewrite A1, A2, bool_decide_true by done. cbn [negb orb cret]. unfold cbind at 1, rawWrite.
  change (fw_w (cn_fw c)) with w. rewrite Hw. unfold cbind at 1. cbn [creturn]. set (c0 := cn_set_fw _ c).
  unfold cbind at 1. change (cret tt c0) with (@Ok error unit tt, c0). cbv iota beta.
  rewrite sendSettings_run by done. set (c1 := announced_settings _ c0). unfold cbind at 1.
  destruct (firstFrame_ok fuel errBadConnPreface c1 ss rest) as (r & Hf & Hr); [done| |done|done|done|by right|].
  { split; [done|]. by exists []. }
  rewrite Hf. cbn [cret]. eexists. split; [reflexivity|]. split; [apply Hr|]. split_and!; [done|done|].
  cbn. by apply sink_write_ok.
Qed.
End Pair.

(** C18: the two handshakes meet.  Over a TLS connection that both ends accept, with
    well-formed settings on both sides that fit in a frame, a server that does not announce
    ENABLE_PUSH = 1 and a transport that takes the preface, the preface and the SETTINGS frame
    that the client writes make the server's handshake succeed, and the SETTINGS frame that the
    server writes makes the client's succeed; each then has its own SETTINGS and the
    acknowledgement of the peer's in its queue, in this order, waits for one acknowledgement,
    and its reader stands at what follows. *)
Theorem handshakes_meet {W} `{ConnEnv W} `{HttpEnv} fuel ccfg scfg ct st cb sb crest srest e stale bufSize (w w1 sw : W) :
  cf_tls ccfg = Some ct -> client_accepts ct -> cf_tls scfg = Some st -> server_accepts scfg st ->
  announceable (cf_InitialSettings ccfg) -> announceable (cf_InitialSettings scfg) ->
  value (cf_InitialSettings scfg) SettingEnablePush <> Some 1 -> sink_write w ClientPreface = (w1, None) ->
  writes_settings (W := W) (cf_InitialSettings ccfg) cb -> writes_settings (W := W) (cf_InitialSettings scfg) sb ->
  (exists c, Handshake (S fuel) ccfg newHS (fresh false (sb ++ crest) e stale bufSize w) = (Ok (MkHS None true []), c) /\
     ready (cn_fr c) crest /\ sink_out (fw_w (cn_fw c)) = sink_out w ++ ClientPreface /\
     contents (cn_queue c) = [QFrame (SettingsFrame false (cf_InitialSettings ccfg)); QFrame (SettingsFrame true (cf_InitialSettings scfg))] /\
     cn_settingsCh c = [cf_InitialSettings ccfg]) /\
  (exists c, Handshake (S fuel) scfg newHS (fresh true (ClientPreface ++ cb ++ srest) e stale bufSize sw) = (Ok (MkHS None true []), c) /\
     ready (cn_fr c) srest /\ sink_out (fw_w (cn_fw c)) = sink_out sw /\
     contents (cn_queue c) = [QFrame (SettingsFrame false (cf_InitialSettings scfg)); QFrame (SettingsFrame true (cf_InitialSettings ccfg))] /\
     cn_settingsCh c = [cf_InitialSettings scfg]).
Proof.
  intros Hct Hca Hst Hsa Hc Hs Hpush Hw Hcb Hsb. apply writes_settings_encode in Hcb as ->, Hsb as ->; [|done..]. split.
  - destruct (client_handshake_succeeds fuel ccfg ct _ crest e stale bufSize w w1 Hct Hca Hs Hpush Hw) as (c & ? & ? & ? & ? & ?).
    by exists c.
  - destruct (server_handshake_succeeds fuel scfg st _ srest e stale bufSize sw Hst Hsa Hc) as (c & ? & ? & ? & ? & ?). by exists c.
Qed.

Definition client_config : config := MkConfig [MkSetting SettingMaxFrameSize 32768; MkSetting SettingEnablePush 0] 0 false (Some tls_ok) None.
Definition server_config : config := MkConfig [MkSetting SettingMaxConcurrentStreams 100] 0 false (Some tls_ok) None.

(** What a new frame writer writes for some settings. *)
Definition settings_bytes (s : Settings) : list byte :=
  fw_w (WriteFrame (W := list byte) id (SettingsFrame false s) [] [] (newFrameWriter [])).2.

Lemma handshakes_meet_witness :
  (exists c : Conn (list byte), Handshake 1 client_config newHS
     (fresh false (settings_bytes (cf_InitialSettings server_config) ++ str "more") ErrEOF [] 4096 []) = (Ok (MkHS None true []), c)) /\
  exists c : Conn (list byte), Handshake 1 server_config newHS
     (fresh true (ClientPreface ++ settings_bytes (cf_InitialSettings client_config) ++ str "rest") ErrEOF [] 4096 []) = (Ok (MkHS None true []), c).
Proof.
  assert (Hann : forall s, bool_decide (NoDup (map s_ID s)) && forallb (fun x => valid_setting (s_ID x) (s_Value x)) s &&
            bool_decide (Forall (fun x => 0 <= s_ID x < 2 ^ 16 /\ 0 <= s_Value x < 2 ^ 32) s) && (settingLen * zlen s <=? defaultMaxFrameSize) = true ->
            announceable s).
  { intros s [[[H1 H2]%andb_prop H3]%andb_prop H4]%andb_prop. unfold announceable, settings_wf.
    apply bool_decide_eq_true in H1, H3. apply Z.leb_le in H4. split_and!; [done| |done|done].
    apply Forall_forall. intros x Hx. rewrite forallb_forall in H2. apply H2. by apply list_elem_of_In. }
  assert (Hwr : forall s, (WriteFrame (W := list byte) id (SettingsFrame false s) [] [] (newFrameWriter [])).1 = Ok tt ->
            writes_settings (W := list byte) s (settings_bytes s)).
  { intros s Hs. exists id, [], [], (newFrameWriter []), (WriteFrame (W := list byte) id (SettingsFrame false s) [] [] (newFrameWriter [])).2.
    split; [|reflexivity]. rewrite <- Hs. apply surjective_pairing. }
  destruct (handshakes_meet 0 client_config server_config tls_ok tls_ok (settings_bytes (cf_InitialSettings client_config))
    (settings_bytes (cf_InitialSettings server_config)) (str "more") (str "rest") ErrEOF [] 4096 [] ClientPreface [])
    as [(c & Hc & _) (c2 & Hc2 & _)].
  - reflexivity.
  - split; [reflexivity|]. split; reflexivity.
  - reflexivity.
  - split; [reflexivity|]. split; [reflexivity|]. split; [right; vm_compute; discriminate|reflexivity].
  - apply Hann. vm_compute. reflexivity.
  - apply Hann. vm_compute. reflexivity.
  - vm_compute. discriminate.
  - reflexivity.
  - apply Hwr. vm_compute. reflexivity.
  - apply Hwr. vm_compute. reflexivity.
  - split; [exists c; exact Hc|exists c2; exact Hc2].
Defined.
