(* ===== verification/BodyRead.v ===== *)
(** * DATA from the wire to the application ([src/conn.go], [src/read.go], [src/flow_control.go])

    [readFrame] takes a DATA frame's bytes off the windows and leaves its payload to the body
    reader [data]; the application reads the body, and what it has read goes back to the
    windows when it meets the end.  Here the whole cycle is put together. *)

From S2P Require Import Prelude HpackEncode HpackDecode Types Settings StreamState FlowControl WriteQueue.
From S2P Require Import HttpHeader HeaderTable StreamWrite FrameWriter FrameReader FrameRoundtrip ReaderAdvance Conn ConnIO ConnInv ConnSafety ConnTheorems.

(** ** Reading a body *)

Section Body.
Context {W : Type} `{ConnEnv W}.
Implicit Types c : Conn W.

(** Calls of [data.Read] with buffers of the given sizes, up to the end of the body. *)
Fixpoint readBody (sizes : list Z) : C W (list byte) := fun c =>
  match sizes with
  | [] => (Ok [], c)
  | k :: sizes =>
    match data_Read k c with
    | (Ok l, c) =>
      match readBody sizes c with
      | (Ok l', c) => (Ok (l ++ l'), c)
      | x => x
      end
    | (Err ErrEOF, c) => (Ok [], c)
    | (Err e, c) => (Err e, c)
    | (Panic, c) => (Panic, c)
    end
  end.

(** The connection with [l] bytes of payload and then [p] of padding before it, of which [q]
    bytes were read. *)
Definition reading (input : list byte) (n p id q : Z) (e : bool) c : Conn W :=
  cn_set_data (MkData id q e false None) (cn_set_fr (fr_set_in input (fr_set_last (Some (n, p)) (cn_fr c))) c).

Lemma readBody_run sizes c d tail p id q e :
  Forall (fun k => 0 < k) sizes -> (length d < length sizes)%nat ->
  (returnBytesLocked (reading tail 0 p id (q + zlen d) e c)).1 <> Panic ->
  readBody sizes (reading (d ++ tail) (zlen d) p id q e c) =
    (Ok d, (returnBytesLocked (reading tail 0 p id (q + zlen d) e c)).2).
Proof.
  intros Hpos. revert d q. induction Hpos as [|k sizes Hk Hpos IH]; intros d q Hlen Hp; [cbn in Hlen; lia|].
  cbn [readBody]. unfold data_Read at 1, payloadRead.
  set (c0 := reading (d ++ tail) (zlen d) p id q e c). change (fr_lastPayload (cn_fr c0)) with (Some (zlen d, p)).
  change (fr_in (cn_fr c0)) with (d ++ tail). destruct (Z.eqb_spec k 0); [lia|]. cbv iota. pose proof (zlen_nonneg d).
  destruct (Z.leb_spec (zlen d) 0) as [Hz|Hz].
  { assert (d = []) as -> by (destruct d; [done|rewrite zlen_cons in *; pose proof (zlen_nonneg d); lia]).
    change (zlen []) with 0 in *. rewrite Z.add_0_r in *. unfold c0. cbn [app] in *.
    replace (cn_set_fr (cn_fr (reading tail 0 p id q e c)) (reading tail 0 p id q e c)) with (reading tail 0 p id q e c) by (by destruct c).
    by destruct (returnBytesLocked (reading tail 0 p id q e c)) as [[[]|x|] c']. }
  set (m := Z.min k (zlen d)). assert (Hm : 0 < m <= zlen d) by lia.
  assert (Htk : take (Z.to_nat m) (d ++ tail) = take (Z.to_nat m) d) by (apply take_app_le; unfold zlen in *; lia).
  rewrite Htk. set (l := take (Z.to_nat m) d). set (d' := drop (Z.to_nat m) d).
  assert (Hl : zlen l = m) by (unfold l, zlen in *; rewrite length_take; lia).
  assert (Hd' : zlen d' = zlen d - m) by (unfold d', zlen in *; rewrite length_drop; lia).
  assert (Hcat : l ++ d' = d) by apply take_drop.
  destruct l as [|b0 l0] eqn:El; [change (zlen []) with 0 in Hl; lia|]. rewrite <- El in *.
  assert (Hdrop : drop (length l) (d ++ tail) = d' ++ tail) by (by rewrite <- Hcat at 1; rewrite <- app_assoc, drop_app_length).
  assert (Hlen' : (length d' < length sizes)%nat) by (unfold zlen in *; cbn in Hlen; lia).
  specialize (IH d' (q + zlen l) Hlen').
  replace (q + zlen l + zlen d') with (q + zlen d) in IH by lia. specialize (IH Hp).
  cbv zeta. match goal with |- context [readBody sizes ?x] => replace x with (reading (d' ++ tail) (zlen d') p id (q + zlen l) e c) end.
  - rewrite IH. by rewrite Hcat.
  - unfold c0, reading. rewrite Hd', <- Hl. cbn. rewrite Hdrop. by destruct c as [? ? ? ? ? ? ? [] ? ? ? ? ? ? ? ? ? ?].
Qed.

(** DATA on an open stream, and the END_STREAM that follows its body. *)
Lemma transition_open id (e : bool) c s :
  cn_objs c !! id = Some s -> st_state s = StateOpen ->
  tryTransition id true FrameData e c = (Ok None, upd_stream id (st_set_state (if e then StateHalfClosedRemote else StateOpen)) c).
Proof. intros Hs Hst. unfold tryTransition, ctry, cbind, stream_transition. rewrite Hs, Hst. by destruct e. Qed.

Lemma add_frames_keep fs c : cn_recv (add_frames fs c) = cn_recv c /\ cn_objs (add_frames fs c) = cn_objs c /\ cn_fr (add_frames fs c) = cn_fr c.
Proof. revert c. induction fs as [|x fs IH]; intros c; [done|]. exact (IH (add_queue (QFrame x) true c)). Qed.

Lemma add_frames_queue fs c c' : cn_queue c = cn_queue c' -> cn_queue (add_frames fs c) = cn_queue (add_frames fs c').
Proof.
  revert c c'. induction fs as [|x fs IH]; intros c c' Hq; [done|]. apply (IH (add_queue (QFrame x) true c) (add_queue (QFrame x) true c')).
  cbn. by rewrite Hq.
Qed.

(** The bytes of a body that was read go back to both windows. *)
Lemma returnBytesLocked_run c tail p id n e s f1 conn2 f2 fs :
  cn_objs c !! id = Some s -> st_state s = StateOpen -> st_recvFlow s = Some f1 ->
  returnBytes (cn_recv c) f1 (n + p) = (None, conn2, f2, fs) ->
  exists c' s', returnBytesLocked (reading tail 0 p id n e c) = (Ok tt, c') /\
    cn_recv c' = conn2 /\ cn_objs c' !! id = Some s' /\ st_recvFlow s' = Some f2 /\
    st_state s' = (if e then StateHalfClosedRemote else StateOpen) /\ cn_fr c' = cn_fr (reading tail 0 p id n e c) /\
    cn_queue c' = cn_queue (add_frames fs c) /\ dt_sawEOF (cn_data c') = true.
Proof.
  intros Hs Hst Hf Hret. unfold returnBytesLocked. unfold cbind at 1, cget at 1. cbn [cn_data reading cn_set_data dt_sawEOF].
  unfold cbind at 1, cget at 1. change (fr_lastPayload (cn_fr (reading tail 0 p id n e c))) with (Some (0, p)).
  cbn [dt_processed dt_stream dt_endStream dt_err]. unfold cbind at 1, cmodify at 1.
  set (c0 := cn_set_data _ (reading tail 0 p id n e c)). unfold cbind at 1, ctry, stream_returnBytes.
  change (cn_objs c0) with (cn_objs c). rewrite Hs. cbn [mbind option_bind]. rewrite Hf. change (cn_recv c0) with (cn_recv c). rewrite Hret.
  cbn [creturn cret]. set (c1 := upd_stream id (st_set_recvFlow (Some f2)) (cn_set_recv conn2 c0)).
  destruct (add_frames_keep fs c1) as (K1 & K2 & K3). pose proof (add_frames_queue fs c1 c eq_refl) as K4. set (c2 := add_frames fs c1) in *.
  assert (Hs1 : cn_objs c2 !! id = Some (st_set_recvFlow (Some f2) s)).
  { rewrite K2. unfold c1, upd_stream. cbn. change (cn_objs c0) with (cn_objs c). by rewrite lookup_alter_eq, Hs. }
  destruct e.
  - unfold cbind at 1. rewrite (transition_open id true c2 _ Hs1 Hst). unfold cbind, cmodify, creturn, cret. eexists _, _. split; [reflexivity|].
    split_and!; [exact K1|cbn; by rewrite lookup_alter_eq, Hs1|done|done|exact K3|exact K4|done].
  - unfold cbind, cmodify, cret. eexists _, _. split; [reflexivity|].
    split_and!; [exact K1|exact Hs1|done|exact Hst|exact K3|exact K4|done].
Qed.
End Body.

(** A window whose accounts are in order and that a frame of [n] bytes fits. *)
Definition roomy (n : Z) (f : flowController) : Prop :=
  fc_inv f /\ 0 < fc_winUpperBound f /\ - maxInitialWindowSize <= fc_winLowerBound f /\ fc_winLowerBound f <= fc_win f - n.

(** A window [f'] after a frame of [n] bytes was taken off [f] and given back: the bytes that
    were outstanding before are those that still are; and either what is processed is above
    the threshold, the window is smaller by the frame and nothing is announced, or the window
    is filled up and a WINDOW_UPDATE announces exactly what it was filled up by. *)
Definition settled (n : Z) (f f' : flowController) (fs : list Frame) : Prop :=
  let d := fc_winUpperBound f - (fc_processedWin f - n) in
  fc_consumedBytes f' = fc_consumedBytes f /\ fc_winUpperBound f' = fc_winUpperBound f /\
  (threshold f < fc_processedWin f - n /\ fc_win f' = fc_win f - n /\ fs = [] \/
   fc_processedWin f - n <= threshold f /\ fc_win f' = fc_win f - n + d /\ 0 < d /\ fs = [WindowUpdateFrame (fc_id f) d]).

Lemma cycle_self f n :
  roomy n f -> 0 <= n ->
  exists f1 f2 fs, (if n <=? 0 then (None, f) else consume_self f n) = (None, f1) /\ return_self f1 n = (None, f2, fs) /\ settled n f f2 fs.
Proof.
  intros ([Hw Hu] & Hub & Hlb & Hn) H0.
  set (f1 := MkFC (fc_id f) (fc_win f - n) (fc_winLowerBound f) (fc_winUpperBound f) (fc_processedWin f)).
  assert (Hc : (if n <=? 0 then (None, f) else consume_self f n) = (None, f1)).
  { destruct (Z.leb_spec n 0) as [Hz|Hz].
    - assert (n = 0) as -> by lia. unfold f1. rewrite Z.sub_0_r. by destruct f.
    - unfold consume_self. fold f1. cbn [fc_win fc_winLowerBound f1]. by destruct (Z.ltb_spec (fc_win f - n) (fc_winLowerBound f)); [lia|]. }
  exists f1. rewrite Hc. unfold return_self. cbn [fc_processedWin fc_win f1].
  destruct (Z.ltb_spec (fc_processedWin f - n) (fc_win f - n)); [lia|].
  set (f2 := MkFC _ _ _ _ (fc_processedWin f - n)). pose proof (threshold_lt f Hub) as Ht.
  unfold fc_windowUpdate, settled. change (threshold f2) with (threshold f). cbn [fc_winUpperBound fc_processedWin f1 f2].
  destruct (Z.leb_spec (fc_winUpperBound f) 0); [lia|].
  destruct (Z.ltb_spec (threshold f) (fc_processedWin f - n)) as [Hlt|Hge].
  { exists f2, []. unfold fc_consumedBytes. cbn. split_and!; [done|done|lia|done|]. by left. }
  unfold fc_updateWindow. cbn [fc_win f1 f2]. set (d := fc_winUpperBound f - (fc_processedWin f - n)).
  assert (Hd : 0 < d) by lia. unfold maxInitialWindowSize in *.
  destruct (Z.ltb_spec (2 ^ 31 - 1 - d) (fc_win f - n)); [lia|]. rewrite andb_false_r.
  eexists _, _. split; [done|]. split; [done|]. unfold fc_consumedBytes. cbn. split_and!; [lia|done|]. right.
  split_and!; [done|done|done|]. by rewrite u32_small by lia.
Qed.

Lemma cycle conn s n :
  roomy n conn -> roomy n s -> 0 <= n ->
  exists conn1 s1 conn2 s2 fc fs, consumeBytes conn s n = (None, conn1, s1) /\ returnBytes conn1 s1 n = (None, conn2, s2, fc ++ fs) /\
    settled n conn conn2 fc /\ settled n s s2 fs.
Proof.
  intros Hc Hs Hn. destruct (cycle_self conn n Hc Hn) as (conn1 & conn2 & fc & Hc1 & Hc2 & Hset).
  destruct (cycle_self s n Hs Hn) as (s1 & s2 & fs & Hs1 & Hs2 & Hset').
  exists conn1, s1, conn2, s2, fc, fs. unfold consumeBytes, consumeBytes_conn, returnBytes, returnBytes_conn. rewrite Hc2, Hs2.
  split_and!; [|done..]. destruct (n <=? 0); [by simplify_eq|]. by rewrite Hc1, Hs1.
Qed.


(** A server connection with an open stream, and five bytes of DATA with padding to come. *)
Definition bodyConn : Conn (list byte) :=
  (readFrame 8 (sample_conn (sample_headers ++ encodePiece 1 (str "hello", 3, false) ++ str "rest"))).2.

