(* ===== verification/Text.v ===== *)
(** * Text ([src/util.go], [src/conn.go])

    The [String] and [Error] methods: the names of error codes, settings, frame types and
    stream states, and the texts of errors, which travel in the debug data of GOAWAY frames.
    [fmt]'s verbs %d and %x are written out for the unsigned numbers they are used on.  The
    texts tell the values apart: no two codes, settings or errors have the same one. *)

From S2P Require Import Prelude Types StreamState.

(** ** Numbers *)

(** The digits of a number, the highest first; 32 digits are more than a 32-bit number has in
    base 10 or 16. *)
Fixpoint digits (fuel : nat) (base n : Z) : list Z :=
  match fuel with
  | O => []
  | S fuel => if n <? base then [n] else digits fuel base (n / base) ++ [n mod base]
  end.

Definition digitByte (d : Z) : byte := zb (if d <? 10 then 48 + d else 87 + d).

Definition decimal (n : Z) : gostring := map digitByte (digits 32 10 n).
Definition hex (n : Z) : gostring := map digitByte (digits 32 16 n).

(** ** Names *)

(** A [switch] that returns names, and its default. *)
Definition nameOf (names : list (Z * string)) (other : Z -> gostring) (n : Z) : gostring :=
  match List.find (fun x => x.1 =? n) names with
  | Some (_, s) => str s
  | None => other n
  end.

Definition errCodeNames : list (Z * string) :=
  [(ErrCodeNo, "NO_ERROR"); (ErrCodeProtocol, "PROTOCOL_ERROR"); (ErrCodeInternal, "INTERNAL_ERROR");
   (ErrCodeFlowControl, "FLOW_CONTROL_ERROR"); (ErrCodeSettingsTimeout, "SETTINGS_TIMEOUT");
   (ErrCodeStreamClosed, "STREAM_CLOSED"); (ErrCodeFrameSize, "FRAME_SIZE_ERROR");
   (ErrCodeRefusedStream, "REFUSED_STREAM"); (ErrCodeCancel, "CANCEL"); (ErrCodeCompression, "COMPRESSION_ERROR");
   (ErrCodeConnect, "CONNECT_ERROR"); (ErrCodeEnhanceYourCalm, "ENHANCE_YOUR_CALM");
   (ErrCodeInadequateSecurity, "INADEQUATE_SECURITY"); (ErrCodeHTTP11Required, "HTTP_1_1_REQUIRED")]%string.

Definition ErrCode_String (e : Z) : gostring := nameOf errCodeNames (fun e => str "unknown error code 0x" ++ hex (u32 e)) e.

Definition settingNames : list (Z * string) :=
  [(SettingHeaderTableSize, "HEADER_TABLE_SIZE"); (SettingEnablePush, "ENABLE_PUSH");
   (SettingMaxConcurrentStreams, "MAX_CONCURRENT_STREAMS"); (SettingInitialWindowSize, "INITIAL_WINDOW_SIZE");
   (SettingMaxFrameSize, "MAX_FRAME_SIZE"); (SettingMaxHeaderListSize, "MAX_HEADER_LIST_SIZE")]%string.

Definition SettingID_String (id : Z) : gostring := nameOf settingNames (fun id => str "UNKNOWN_SETTING_" ++ decimal (u16 id)) id.

Definition frameNames : list (Z * string) :=
  [(FrameData, "DATA"); (FrameHeaders, "HEADERS"); (FramePriority, "PRIORITY"); (FrameRSTStream, "RST_STREAM");
   (FrameSettings, "SETTINGS"); (FramePushPromise, "PUSH_PROMISE"); (FramePing, "PING"); (FrameGoAway, "GOAWAY");
   (FrameWindowUpdate, "WINDOW_UPDATE"); (FrameContinuation, "CONTINUATION")]%string.

Definition FrameType_String (t : Z) : gostring := nameOf frameNames (fun t => str "UNKNOWN_FRAME_TYPE_" ++ decimal (u8 t)) t.

Definition StreamState_String (s : StreamState) : gostring :=
  match s with
  | StateIdle => str "Idle"
  | StateReservedLocal => str "ReservedLocal"
  | StateReservedRemote => str "ReservedRemote"
  | StateOpen => str "Open"
  | StateHalfClosedLocal => str "HalfClosedLocal"
  | StateHalfClosedRemote => str "HalfClosedRemote"
  | StateClosed => str "Closed"
  end.

(** The loop of [Settings.String]; the first entry has no comma. *)
Fixpoint settingsText (first : bool) (s : Settings) : gostring :=
  match s with
  | [] => []
  | x :: s =>
    (if first then [] else str ",") ++ SettingID_String (s_ID x) ++ str ":" ++ decimal (s_Value x) ++ settingsText false s
  end.

Definition Settings_String (s : Settings) : gostring := str "settings={" ++ settingsText true s ++ str "}".

(** ** Errors *)

(** The text [err] is that of the error inside. *)
Definition ConnError_Error (code : Z) (err : gostring) : gostring :=
  str "connection error(" ++ ErrCode_String code ++ str "): " ++ err.

Definition StreamError_Error (id code : Z) (err : gostring) : gostring :=
  str "stream error(stream ID=" ++ decimal id ++ str "; " ++ ErrCode_String code ++ str "): " ++ err.

(** A list of errors is shown by its first one and its length. *)
Definition StreamErrorList_Error (l : list (Z * Z * gostring)) : gostring :=
  match l with
  | [] => str "no errors"
  | [(id, code, err)] => StreamError_Error id code err
  | (id, code, err) :: l => StreamError_Error id code err ++ str " (and " ++ decimal (zlen l) ++ str " more stream errors)"
  end.

Definition MalformedError_Error (e : gostring) : gostring := str "http2: malformed; " ++ e.
Definition HandshakeError_Error (e : gostring) : gostring := str "http2: " ++ e.

(** ** Lemmas *)

Definition absent (x : Z) (s : gostring) : Prop := Forall (fun b => bz b <> x) s.

Lemma absent_app x s t : absent x s -> absent x t -> absent x (s ++ t).
Proof. intros. by apply Forall_app. Qed.

(** Text up to the first separator is determined. *)
Lemma cut x a b r1 r2 c1 c2 :
  absent x a -> absent x b -> bz c1 = x -> bz c2 = x -> a ++ c1 :: r1 = b ++ c2 :: r2 -> a = b /\ r1 = r2.
Proof.
  intros Ha. revert b. induction Ha as [|y a Hy _ IH]; intros b Hb H1 H2 He; destruct Hb as [|z b Hz Hb].
  - by injection He.
  - cbn in He. injection He as -> _. congruence.
  - cbn in He. injection He as <- _. congruence.
  - cbn in He. injection He as <- He. by destruct (IH b Hb H1 H2 He) as [-> ->].
Qed.

Section Digits.
Variable base : Z.
Hypothesis Hbase : 2 <= base <= 16.

Lemma digits_value fuel n : 0 <= n < base ^ Z.of_nat fuel -> foldl (fun a d => a * base + d) 0 (digits fuel base n) = n.
Proof.
  revert n. induction fuel as [|fuel IH]; intros n Hn.
  { change (Z.of_nat 0) with 0 in Hn. rewrite Z.pow_0_r in Hn. cbn. lia. }
  cbn [digits]. destruct (Z.ltb_spec n base); [done|].
  rewrite foldl_snoc, IH; [rewrite Z.mul_comm; symmetry; apply Z.div_mod; lia|].
  rewrite Nat2Z.inj_succ, Z.pow_succ_r in Hn by lia. split; [apply Z.div_pos; lia|]. apply Z.div_lt_upper_bound; lia.
Qed.

Lemma digits_range fuel n : 0 <= n -> Forall (fun d => 0 <= d < base) (digits fuel base n).
Proof.
  revert n. induction fuel as [|fuel IH]; intros n Hn; [constructor|]. cbn [digits].
  destruct (Z.ltb_spec n base); [by repeat constructor|]. apply Forall_app. split; [apply IH, Z.div_pos; lia|].
  repeat constructor; apply Z.mod_pos_bound; lia.
Qed.

Lemma digits_nonempty fuel n : digits (S fuel) base n <> [].
Proof. cbn [digits]. destruct (n <? base); [done|]. by destruct (digits fuel base (n / base)). Qed.

Lemma digitByte_inj d e : 0 <= d < 16 -> 0 <= e < 16 -> digitByte d = digitByte e -> d = e.
Proof.
  intros Hd He Heq%(f_equal bz). unfold digitByte in Heq. rewrite !bz_zb_small in Heq by (zcases; lia). revert Heq. zcases; lia.
Qed.

Lemma map_digitByte_inj l l' :
  Forall (fun d => 0 <= d < 16) l -> Forall (fun d => 0 <= d < 16) l' -> map digitByte l = map digitByte l' -> l = l'.
Proof.
  intros Hl. revert l'. induction Hl as [|d l Hd _ IH]; intros [|d' l'] Hl'; try done.
  apply Forall_cons in Hl' as [Hd' Hl']. cbn. intros [= H1%digitByte_inj H2%IH]; by subst.
Qed.

Lemma format_inj n m :
  0 <= n < 2 ^ 32 -> 0 <= m < 2 ^ 32 -> map digitByte (digits 32 base n) = map digitByte (digits 32 base m) -> n = m.
Proof.
  intros Hn Hm Heq. apply map_digitByte_inj in Heq; [|eapply Forall_impl; [apply digits_range; lia|cbn; lia]..].
  assert (Hb : 2 ^ 32 <= base ^ Z.of_nat 32) by (apply Z.pow_le_mono_l; lia).
  rewrite <- (digits_value 32 n), <- (digits_value 32 m) by lia. by rewrite Heq.
Qed.

(** Digits are digits or small letters. *)
Lemma format_bytes n : 0 <= n -> Forall (fun b => 48 <= bz b <= 57 \/ 97 <= bz b <= 102) (map digitByte (digits 32 base n)).
Proof.
  intros Hn. apply Forall_fmap. eapply Forall_impl; [by apply digits_range|]. intros d Hd. cbn beta in Hd. unfold compose, digitByte.
  rewrite bz_zb_small by (zcases; lia). zcases; lia.
Qed.
End Digits.

Lemma decimal_inj n m : 0 <= n < 2 ^ 32 -> 0 <= m < 2 ^ 32 -> decimal n = decimal m -> n = m.
Proof. by apply format_inj. Qed.

Lemma hex_inj n m : 0 <= n < 2 ^ 32 -> 0 <= m < 2 ^ 32 -> hex n = hex m -> n = m.
Proof. by apply format_inj. Qed.

Lemma decimal_absent n x : 0 <= n -> ~ (48 <= x <= 57) -> ~ (97 <= x <= 102) -> absent x (decimal n).
Proof. intros Hn H1 H2. eapply Forall_impl; [by apply (format_bytes 10)|]. cbn. lia. Qed.

Lemma hex_absent n x : 0 <= n -> ~ (48 <= x <= 57) -> ~ (97 <= x <= 102) -> absent x (hex n).
Proof. intros Hn H1 H2. eapply Forall_impl; [by apply (format_bytes 16)|]. cbn. lia. Qed.

(** Names that differ, none of which is what the default gives, tell the numbers apart. *)
Lemma nameOf_inj names other (P : Z -> Prop) n m :
  NoDup (snd <$> names) -> (forall k s x, (k, s) ∈ names -> str s <> other x) ->
  (forall x y, P x -> P y -> other x = other y -> x = y) -> P n -> P m ->
  nameOf names other n = nameOf names other m -> n = m.
Proof.
  intros Hnd Hne Hinj Hn Hm. unfold nameOf.
  destruct (List.find (fun x => x.1 =? n) names) as [[k1 s1]|] eqn:E1, (List.find (fun x => x.1 =? m) names) as [[k2 s2]|] eqn:E2; intros He.
  - apply List.find_some in E1 as [H1 K1], E2 as [H2 K2]. cbn in K1, K2.
    apply (f_equal String.string_of_list_byte) in He. unfold str in He. rewrite !String.string_of_list_byte_of_string in He. subst s2.
    rewrite <- list_elem_of_In in H1, H2. apply list_elem_of_lookup in H1 as [i1 H1], H2 as [i2 H2].
    assert (i1 = i2) as <- by (eapply (NoDup_lookup (snd <$> names) _ _ s1 Hnd); rewrite list_lookup_fmap; [by rewrite H1|by rewrite H2]).
    rewrite H1 in H2. injection H2 as <-. lia.
  - apply List.find_some in E1 as [H1 _]. rewrite <- list_elem_of_In in H1. by destruct (Hne _ _ m H1).
  - apply List.find_some in E2 as [H2 _]. rewrite <- list_elem_of_In in H2. by destruct (Hne _ _ n H2).
  - by apply Hinj.
Qed.

Lemma nameOf_all (P : gostring -> Prop) names other n :
  Forall (fun x => P (str x.2)) names -> P (other n) -> P (nameOf names other n).
Proof.
  intros Hall Ho. unfold nameOf. destruct (List.find _ _) as [[k s]|] eqn:E; [|done].
  apply List.find_some in E as [Hin _]. rewrite Forall_forall in Hall. apply (Hall (k, s)). by apply list_elem_of_In.
Qed.

(** No name starts like the default. *)
Ltac other_name :=
  let H := fresh in intros ? ? ? H;
  repeat (apply elem_of_cons in H as [[= -> ->]|H]; [discriminate|]); by apply not_elem_of_nil in H.

Ltac names_differ := apply (bool_decide_unpack _); vm_compute; exact I.

Lemma ErrCode_String_inj e e' : 0 <= e < 2 ^ 32 -> 0 <= e' < 2 ^ 32 -> ErrCode_String e = ErrCode_String e' -> e = e'.
Proof.
  apply (nameOf_inj errCodeNames _ (fun e => 0 <= e < 2 ^ 32)); [names_differ|other_name|].
  intros x y Hx Hy He%app_inv_head. rewrite !u32_small in He by lia. by apply hex_inj.
Qed.

Lemma u16_small n : 0 <= n < 2 ^ 16 -> u16 n = n.
Proof. intros. by apply Z.mod_small. Qed.

Lemma SettingID_String_inj i j : 0 <= i < 2 ^ 16 -> 0 <= j < 2 ^ 16 -> SettingID_String i = SettingID_String j -> i = j.
Proof.
  apply (nameOf_inj settingNames _ (fun e => 0 <= e < 2 ^ 16)); [names_differ|other_name|].
  intros x y Hx Hy He%app_inv_head. rewrite !u16_small in He by lia. apply decimal_inj in He; lia.
Qed.

Lemma FrameType_String_inj i j : 0 <= i < 2 ^ 8 -> 0 <= j < 2 ^ 8 -> FrameType_String i = FrameType_String j -> i = j.
Proof.
  apply (nameOf_inj frameNames _ (fun e => 0 <= e < 2 ^ 8)); [names_differ|other_name|].
  intros x y Hx Hy He%app_inv_head. unfold u8 in He. rewrite !Z.mod_small in He by lia. apply decimal_inj in He; lia.
Qed.

Lemma StreamState_String_inj s t : StreamState_String s = StreamState_String t -> s = t.
Proof. by destruct s, t. Qed.

Ltac absent_tac := unfold absent; apply (bool_decide_unpack _); vm_compute; exact I.

Lemma ErrCode_absent e : absent 41 (ErrCode_String e).
Proof.
  apply (nameOf_all (absent 41)); [absent_tac|]. apply absent_app; [absent_tac|].
  apply hex_absent; [apply Z.mod_pos_bound|..]; lia.
Qed.

Lemma SettingID_absent i x : x = 44 \/ x = 58 \/ x = 125 -> absent x (SettingID_String i).
Proof.
  assert (Hd : forall y, ~ (48 <= y <= 57) -> ~ (97 <= y <= 102) -> absent y (decimal (u16 i)))
    by (intros; apply decimal_absent; [apply Z.mod_pos_bound; lia|done..]).
  intros [->|[->| ->]]; (apply (nameOf_all (absent _)); [absent_tac|apply absent_app; [absent_tac|apply Hd; lia]]).
Qed.

(** Every name starts with a capital letter. *)
Lemma SettingID_head i : exists b l, SettingID_String i = b :: l /\ 65 <= bz b <= 90.
Proof.
  apply (nameOf_all (fun s => exists b l, s = b :: l /\ 65 <= bz b <= 90)).
  - repeat constructor; eexists _, _; (split; [reflexivity|]); cbn; lia.
  - eexists _, _. split; [reflexivity|]. cbn. lia.
Qed.

Definition setting_range (x : setting) : Prop := 0 <= s_ID x < 2 ^ 16 /\ 0 <= s_Value x < 2 ^ 32.

(** What follows a value: the next entry or the closing brace. *)
Lemma settingsText_tail s : exists b l, settingsText false s ++ str "}" = b :: l /\ (bz b = 44 \/ bz b = 125).
Proof.
  destruct s as [|x s]; cbn [settingsText app]; eexists _, _; (split; [reflexivity|]); cbn; auto.
Qed.

Lemma value_cut v v' b l b' l' :
  0 <= v < 2 ^ 32 -> 0 <= v' < 2 ^ 32 -> (bz b = 44 \/ bz b = 125) -> (bz b' = 44 \/ bz b' = 125) ->
  decimal v ++ b :: l = decimal v' ++ b' :: l' -> v = v' /\ b :: l = b' :: l'.
Proof.
  intros Hv Hv' Hb Hb' He.
  pose proof (format_bytes 10 ltac:(lia) v ltac:(lia)) as F. pose proof (format_bytes 10 ltac:(lia) v' ltac:(lia)) as F'.
  fold (decimal v) in F. fold (decimal v') in F'.
  assert (Hd : decimal v = decimal v' /\ b :: l = b' :: l').
  { revert F' He. generalize (decimal v'). induction F as [|y a Hy _ IH]; intros a' F' He; destruct F' as [|z a' Hz F']; cbn in He.
    - done.
    - injection He as -> _. lia.
    - injection He as <- _. lia.
    - injection He as -> He. by destruct (IH a' F' He) as [-> ->]. }
  destruct Hd as [Hd ->]. split; [by apply decimal_inj|done].
Qed.

Lemma settingsText_inj s : forall first t,
  Forall setting_range s -> Forall setting_range t -> settingsText first s ++ str "}" = settingsText first t ++ str "}" -> s = t.
Proof.
  assert (Hend : forall first x t, settingsText first (x :: t) ++ str "}" <> str "}").
  { intros first x t He. destruct (SettingID_head (s_ID x)) as (b & l & Hb & Hr). destruct first; cbn [settingsText app] in He; [|done].
    rewrite Hb in He. cbn [app] in He. apply (f_equal head) in He. cbn [head] in He. injection He as ->. cbn in Hr. lia. }
  induction s as [|x s IH]; intros first [|y t] Hs Ht He; [done|by destruct (Hend first y t)|by destruct (Hend first x s)|].
  apply Forall_cons in Hs as [[Hx1 Hx2] Hs], Ht as [[Hy1 Hy2] Ht]. cbn [settingsText] in He. rewrite <- !app_assoc in He.
  apply app_inv_head in He. change (str ":") with [zb 58] in He. cbn [app] in He.
  apply (cut 58) in He as [H1 H2]; [|apply SettingID_absent; lia..|done|done].
  apply SettingID_String_inj in H1; [|done..].
  destruct (settingsText_tail s) as (b & l & E1 & Hb), (settingsText_tail t) as (b' & l' & E2 & Hb').
  rewrite E1, E2 in H2. apply value_cut in H2 as [H2 H3]; [|done..]. rewrite <- E1, <- E2 in H3.
  apply IH in H3; [|done..]. subst t. f_equal. destruct x, y. cbn in *. by subst.
Qed.

(** ** Theorems *)

(** The texts tell the values apart: two error codes, settings identifiers, frame types or
    stream states with the same name are the same. *)
Theorem names_unambiguous :
  (forall e e', 0 <= e < 2 ^ 32 -> 0 <= e' < 2 ^ 32 -> ErrCode_String e = ErrCode_String e' -> e = e') /\
  (forall i j, 0 <= i < 2 ^ 16 -> 0 <= j < 2 ^ 16 -> SettingID_String i = SettingID_String j -> i = j) /\
  (forall t t', 0 <= t < 2 ^ 8 -> 0 <= t' < 2 ^ 8 -> FrameType_String t = FrameType_String t' -> t = t') /\
  forall s s', StreamState_String s = StreamState_String s' -> s = s'.
Proof.
  split_and!; [apply ErrCode_String_inj|apply SettingID_String_inj|apply FrameType_String_inj|apply StreamState_String_inj].
Qed.

(** C40: what an error or a list of settings is printed as determines it: the code and the inner
    text of a connection error, the stream, the code and the inner text of a stream error,
    every setting of a list in its order; and a connection error never reads like a stream
    error. *)
Theorem texts_unambiguous :
  (forall s t, Forall setting_range s -> Forall setting_range t -> Settings_String s = Settings_String t -> s = t) /\
  (forall c c' m m', 0 <= c < 2 ^ 32 -> 0 <= c' < 2 ^ 32 -> ConnError_Error c m = ConnError_Error c' m' -> c = c' /\ m = m') /\
  (forall i i' c c' m m', 0 <= i < 2 ^ 32 -> 0 <= i' < 2 ^ 32 -> 0 <= c < 2 ^ 32 -> 0 <= c' < 2 ^ 32 ->
     StreamError_Error i c m = StreamError_Error i' c' m' -> i = i' /\ c = c' /\ m = m') /\
  forall i c c' m m', StreamError_Error i c m <> ConnError_Error c' m'.
Proof.
  assert (Hcode : forall c c' m m', 0 <= c < 2 ^ 32 -> 0 <= c' < 2 ^ 32 ->
    ErrCode_String c ++ str "): " ++ m = ErrCode_String c' ++ str "): " ++ m' -> c = c' /\ m = m').
  { intros c c' m m' Hc Hc' He. change (str "): ") with [zb 41; zb 58; zb 32] in He. cbn [app] in He.
    apply (cut 41) in He as [H1 H2]; [|apply ErrCode_absent..|done|done].
    split; [by apply ErrCode_String_inj|by injection H2]. }
  split_and!.
  - intros s t Hs Ht He%app_inv_head. by apply settingsText_inj in He.
  - intros c c' m m' Hc Hc' He%app_inv_head. by apply Hcode.
  - intros i i' c c' m m' Hi Hi' Hc Hc' He%app_inv_head. change (str "; ") with [zb 59; zb 32] in He. cbn [app] in He.
    apply (cut 59) in He as [H1 H2]; [|apply decimal_absent; lia..|done|done]. split; [by apply decimal_inj|].
    apply (f_equal (drop 1)) in H2. cbn [drop] in H2. by apply Hcode.
  - intros i c c' m m'. discriminate.
Qed.
