(* ===== verification/Dial.v ===== *)
(** * Dialling and listening ([src/client.go], [src/server.go], [src/conn.go])

    [Dialer.Dial] for "h2" and "h2c" with [dialTCP], [ClientConn], [ServerConn], [Serve],
    [ListenAndServe] and [ListenAndServeTLS], around [newConn] and [Handshake].  What [net]
    and [crypto/tls] give is in the class [NetEnv]: a dialled connection, the state a TLS
    handshake leaves with a configuration, the check of the peer's name, a key pair, a
    listener.  [net.SplitHostPort] is modelled as Go has it.  A handler is a goroutine of the
    application: what is handed to it is the result. *)

From Stdlib Require Import Sorting.Sorted.
From S2P Require Import Prelude HpackEncode HpackDecode Types Settings StreamState FlowControl WriteQueue Text.
From S2P Require Import HttpHeader HeaderTable StreamWrite FrameWriter FrameReader ReaderAdvance Conn ConnIO ConnInv ConnSafety ConnOps ConnRun Upgrade Handshake ConnSystem.

(** ** Addresses *)

Inductive addrError := missingPort | tooManyColons | missingBracket | unexpectedOpen | unexpectedClose.

(** [net.SplitHostPort]; ':' is 58, '[' is 91 and ']' is 93. *)
Definition SplitHostPort (hostport : gostring) : addrError + gostring * gostring :=
  let i := lastIndexByte hostport 58 in
  if i <? 0 then inl missingPort
  else
    let finish host j k :=
      if 0 <=? indexByte (drop j hostport) 91 then inl unexpectedOpen
      else if 0 <=? indexByte (drop k hostport) 93 then inl unexpectedClose
      else inr (host, drop (Z.to_nat (i + 1)) hostport) in
    if bool_decide (bz <$> head hostport = Some 91) then
      let e := indexByte hostport 93 in
      if e <? 0 then inl missingBracket
      else if e + 1 =? zlen hostport then inl missingPort
      else if e + 1 =? i then
        finish (drop 1 (take (Z.to_nat e) hostport)) 1%nat (Z.to_nat (e + 1))
      else if bool_decide (bz <$> hostport !! Z.to_nat (e + 1) = Some 58) then inl tooManyColons
      else inl missingPort
    else
      let host := take (Z.to_nat i) hostport in
      if 0 <=? indexByte host 58 then inl tooManyColons else finish host 0%nat 0%nat.

(** ** Configuration and transport *)

(** [Config]; the size of the write buffer decides when the sink is written to. *)
Record Config := MkConf {
  co_InitialSettings : Settings;
  co_HandshakeTimeout : Z;
  co_AllowLowTLSVersion : bool;
  co_ReadBufSize : Z;
  co_WriteBufSize : Z;
}.

Definition defaultConfig : Config := MkConf [] 0 false 0 0.

Definition defaultBufSize : Z := 4096.

(** The size of the read buffer that [newConn] uses. *)
Definition readBufSize (cfg : Config) : Z :=
  let n := if co_ReadBufSize cfg <=? 0 then defaultBufSize else co_ReadBufSize cfg in
  if n <? zlen ClientPreface then zlen ClientPreface else n.

(** What the other end of a raw connection sends, and where written bytes go. *)
Record transport (W : Type) := MkTransport {
  tr_out : W;
  tr_in : list byte;
  tr_end : error;
  tr_stale : list byte;
}.
Arguments MkTransport {W} _ _ _ _.
Arguments tr_out {W} _.
Arguments tr_in {W} _.
Arguments tr_end {W} _.
Arguments tr_stale {W} _.

(** What an address, a key pair or a configuration gives. *)
Class NetEnv (W : Type) := {
  net_Dial : gostring -> error + transport W;
  net_addrError : addrError -> error;
  net_Listen : gostring -> error + list (error + transport W);
  tls_Client : transport W -> tlsConfig -> transport W * tlsState;
  tls_Server : transport W -> tlsConfig -> transport W * tlsState;
  tls_VerifyHostname : transport W -> tlsConfig -> gostring -> option error;
  tls_LoadX509KeyPair : gostring -> gostring -> error + Z;
}.

Record Dialer (W : Type) := MkDialer {
  d_DialTCP : option (gostring -> error + transport W);
  d_DialTLS : option (gostring -> error + transport W * option tlsState);
  d_Config : option Config;
  d_TLSClientConfig : option tlsConfig;
}.
Arguments MkDialer {W} _ _ _ _.
Arguments d_DialTCP {W} _.
Arguments d_DialTLS {W} _.
Arguments d_Config {W} _.
Arguments d_TLSClientConfig {W} _.

Section Dial.
Context {W : Type} `{ConnEnv W} `{HttpEnv} `{NetEnv W}.

(** A connection, with the part of its configuration that the handshake uses. *)
Record connection := MkConnection { cx_config : config; cx_conn : Conn W; cx_hs : hsState }.

Definition open (server : bool) (tr : transport W) (tls : option tlsState) (cfg : option Config) (req : option request) : connection :=
  let cfg := default defaultConfig cfg in
  MkConnection (MkConfig (co_InitialSettings cfg) (co_HandshakeTimeout cfg) (co_AllowLowTLSVersion cfg) tls req)
    (newConn server (newFrameReader (tr_in tr) (tr_end tr) (tr_stale tr) (readBufSize cfg)) (tr_out tr)) newHS.

Definition ClientConn (tr : transport W) (tls : option tlsState) (cfg : option Config) (req : option request) : connection :=
  open false tr tls cfg req.

Definition ServerConn (tr : transport W) (tls : option tlsState) (cfg : option Config) : connection := open true tr tls cfg None.

(** ** [Dial] *)

(** What [Dial] returns; a panic of the handshake is one of [Dial]. *)
Inductive dialResult := Dialed (conn : option connection) (err : option error) | DialPanic.

Definition dialTCP (d : Dialer W) (addr : gostring) : error + transport W :=
  match d_DialTCP d with Some dial => dial addr | None => net_Dial addr end.

(** [conn.Handshake()] and what is done with its error.  With a handshake timeout, the timer may
    fire first: [timer] is the state that the handshake has got to when it does. *)
Definition handshaked (fuel : nat) (timer : option (Conn W)) (x : connection) (k : connection -> option error -> dialResult) : dialResult :=
  match (match timer with
         | Some c => if 0 <? cf_HandshakeTimeout (cx_config x) then handshakeTimedOut (cx_hs x) c
                     else Handshake fuel (cx_config x) (cx_hs x) (cx_conn x)
         | None => Handshake fuel (cx_config x) (cx_hs x) (cx_conn x)
         end) with
  | (Ok h, c) => k (MkConnection (cx_config x) c h) (hs_err h)
  | (Err e, c) => k (MkConnection (cx_config x) c (cx_hs x)) (Some e)
  | (Panic, _) => DialPanic
  end.

(** [return conn, conn.Handshake()] *)
Definition connect (fuel : nat) (timer : option (Conn W)) (x : connection) : dialResult :=
  handshaked fuel timer x (fun x e => Dialed (Some x) e).

(** [conn.close()] with its error ignored *)
Definition closeConn (x : connection) : connection := MkConnection (cx_config x) (Conn_close (cx_conn x)).2 (cx_hs x).

(** The address of a plain connection; the host of the request stands in for a missing one. *)
Definition dialAddress (address : gostring) (req : option (request * gostring)) : gostring :=
  match address, req with
  | [], Some (r, urlHost) => if bool_decide (rq_Host r = []) then urlHost else rq_Host r
  | _, _ => address
  end.

(** The configuration for [tls.Client]. *)
Definition clientTLSConfig (cfg : option tlsConfig) (address : gostring) : error + tlsConfig :=
  let config := cloneTLSClientConfig cfg in
  let config := tc_set_NextProtos (addProtocol (tc_NextProtos config)) config in
  if bool_decide (tc_ServerName config = []) then
    match SplitHostPort address with
    | inl e => inl (net_addrError e)
    | inr (host, _) => inr (tc_set_ServerName host config)
    end
  else inr config.

(** After the handshake: the name of the peer, and the connection is closed on an error. *)
Definition verifyPeer (tc : transport W) (config : tlsConfig) (x : connection) (err : option error) : dialResult :=
  let err := match err with
             | None => if tc_InsecureSkipVerify config then None else tls_VerifyHostname tc config (tc_ServerName config)
             | Some e => Some e
             end in
  Dialed (Some (match err with Some _ => closeConn x | None => x end)) err.

(** The request comes with the host of its URL. *)
Definition Dial (fuel : nat) (timer : option (Conn W)) (d : option (Dialer W)) (protocol address : gostring)
    (req : option (request * gostring)) : dialResult :=
  let d := default (MkDialer None None None None) d in
  if bool_decide (protocol = ProtocolTCP) then
    let address := joinHostPort (dialAddress address req) (str "http") in
    match dialTCP d address with
    | inl e => Dialed None (Some e)
    | inr tr => connect fuel timer (ClientConn tr None (d_Config d) (fst <$> req))
    end
  else if bool_decide (protocol = ProtocolTLS) then
    let address := joinHostPort address (str "https") in
    match d_DialTLS d with
    | Some dialTLS =>
      match dialTLS address with
      | inl e => Dialed None (Some e)
      | inr (tr, tls) => connect fuel timer (ClientConn tr tls (d_Config d) None)
      end
    | None =>
      match clientTLSConfig (d_TLSClientConfig d) address with
      | inl e => Dialed None (Some e)
      | inr config =>
        match dialTCP d address with
        | inl e => Dialed None (Some e)
        | inr tr =>
          let (tc, tls) := tls_Client tr config in
          handshaked fuel timer (ClientConn tc (Some tls) (d_Config d) None) (verifyPeer tc config)
        end
      end
    end
  else Dialed None (Some (PlainError "http2: bad protocol")).

(** ** [Server] *)

Record Server := MkServer { sv_Addr : gostring; sv_Handler : bool; sv_Config : option Config; sv_TLSConfig : option tlsConfig }.

(** The accept loop over what the listener gives: the connections handed to the handler and
    the error that ends it; without an error the loop still waits. *)
Fixpoint Serve (s : Server) (accepts : list (error + transport W * option tlsState)) : list connection * option error :=
  match accepts with
  | [] => ([], None)
  | inl e :: _ => ([], Some e)
  | inr (rwc, tls) :: accepts =>
    let (conns, err) := Serve s accepts in (ServerConn rwc tls (sv_Config s) :: conns, err)
  end.

Definition orAddr (addr default : gostring) : gostring := match addr with [] => default | _ => addr end.

Definition errNoHandler : error := PlainError "Handler must be non-nil".

Definition ListenAndServe (s : Server) : list connection * option error :=
  if negb (sv_Handler s) then ([], Some errNoHandler)
  else
    match net_Listen (orAddr (sv_Addr s) (str ":http")) with
    | inl e => ([], Some e)
    | inr accepts => Serve s (map (fun a => match a with inl e => inl e | inr tr => inr (tr, None) end) accepts)
    end.

(** The configuration for [tls.NewListener]. *)
Definition serverTLSConfig (s : Server) (certFile keyFile : gostring) : error + tlsConfig :=
  let config := initTLSConfig (Some (cloneTLSConfig (sv_TLSConfig s))) in
  if bool_decide (tc_Certificates config = []) || negb (bool_decide (certFile = [])) || negb (bool_decide (keyFile = [])) then
    match tls_LoadX509KeyPair certFile keyFile with
    | inl e => inl e
    | inr cert => inr (tc_set_Certificates [cert] config)
    end
  else inr config.

Definition ListenAndServeTLS (s : Server) (certFile keyFile : gostring) : list connection * option error :=
  if negb (sv_Handler s) then ([], Some errNoHandler)
  else
    match serverTLSConfig s certFile keyFile with
    | inl e => ([], Some e)
    | inr config =>
      match net_Listen (orAddr (sv_Addr s) (str ":https")) with
      | inl e => ([], Some e)
      | inr accepts =>
        Serve s (map (fun a => match a with
                               | inl e => inl e
                               | inr tr => let (tc, tls) := tls_Server tr config in inr (tc, Some tls)
                               end) accepts)
      end
    end.
End Dial.
Arguments connection W : clear implicits.
Arguments dialResult W : clear implicits.

(** ** Lemmas *)

Section Facts.
Context {W : Type} `{ConnEnv W} `{HttpEnv} `{NetEnv W}.
Implicit Types x : connection W.

Lemma close_closes (c : Conn W) : good c -> cn_closed (Conn_close c).2 = true.
Proof.
  intros Hg. unfold Conn_close, cbind, cget, cmodify. destruct (cn_closed c) eqn:Hc; [done|]. set (c0 := cn_set_closed true c).
  assert (Hg0 : good c0) by (apply (good_quiet c _ Hg); split_and!; try done; apply reader_le_refl).
  destruct (0 <? NumActiveStreams c0); [|by unfold cret, creturn; destruct env_rwcClose].
  destruct (closeStreams_spec (range_streams c0) c0 (proj1 Hg0) (exist_range c0 Hg0)) as (c2 & -> & _ & Henv & _).
  unfold creturn. destruct Henv as (_ & _ & _ & _ & _ & _ & _ & Hcl & _). by destruct env_rwcClose.
Qed.

(** A connection that was just opened. *)
Lemma open_ok server (tr : transport W) tls cfg req :
  let x := open server tr tls cfg req in
  good (cx_conn x) /\ fr_ok (cn_fr (cx_conn x)) /\ cs_goAway (cn_remote (cx_conn x)) = None /\
  cs_server (cn_local (cx_conn x)) = server.
Proof. intros x. split_and!; [apply newConn_good|split; [done|by intros f [=]]|done|done]. Qed.

(** A handshake that succeeds got past the check of the TLS state. *)
Lemma client_handshake_tls fuel cfg t h (c c' : Conn W) :
  cs_server (cn_local c) = false -> cf_tls cfg = Some t -> Handshake fuel cfg newHS c = (Ok h, c') -> hs_err h = None ->
  ts_handshakeErr t = None /\ ts_Mutual t = true /\ ts_Protocol t = ProtocolTLS /\ hs_complete h = true.
Proof.
  intros Hs Ht Hh Hn. unfold Handshake in Hh. cbn [hs_err hs_complete newHS] in Hh. rewrite Hs in Hh.
  destruct (clientHandshake fuel cfg c) as [[frames|e|] c1] eqn:E; [|destruct e; unfold cbind, cret in Hh|done].
  1: { injection Hh as <- <-. unfold clientHandshake in E. rewrite Ht in E. unfold cbind at 1, tlsClient in E.
       destruct (ts_handshakeErr t); [done|]. destruct (ts_Mutual t); [|done]. cbn [negb orb] in E.
       case_bool_decide; [|done]. by split_and!. }
  all: match type of Hh with (let (_, _) := ?m in _) = _ => destruct m as [[[]|e'|] c2] end; by simplify_eq.
Qed.

(** A handshake that fails as one closes the connection. *)
Lemma handshake_error_closed fuel cfg h (c c' : Conn W) :
  good c -> fr_ok (cn_fr c) -> cs_goAway (cn_remote c) = None ->
  Handshake fuel cfg newHS c = (Ok h, c') -> hs_err h = Some HandshakeError -> cn_closed c' = true.
Proof.
  intros Hg Hr Hga Hh He. unfold Handshake in Hh. cbn [hs_err hs_complete newHS] in Hh.
  assert (Hf : fine False c (if cs_server (cn_local c) then serverHandshake fuel cfg c else clientHandshake fuel cfg c))
    by (destruct (cs_server _); [by apply serverHandshake_fine|by apply clientHandshake_fine]).
  destruct (if cs_server _ then _ else _) as [[frames|e|] c1]; destruct Hf as (_ & Hg1 & _); cbn in Hg1; [by simplify_eq| |done].
  destruct e; try (unfold cbind, cret in Hh; destruct (handleErr _ c1) as [[[]|e'|] c2]; simplify_eq; done).
  pose proof (close_closes c1 Hg1) as Hcl. unfold ignore, ctry, cbind, cret in Hh.
  destruct (Conn_close c1) as [[[]|e'|] c2]; simplify_eq; done.
Qed.

(** A handshake without an error is complete. *)
Lemma handshake_complete fuel cfg h (c c' : Conn W) :
  Handshake fuel cfg newHS c = (Ok h, c') -> hs_err h = None -> hs_complete h = true.
Proof.
  intros E He. unfold Handshake in E. cbn [hs_err hs_complete newHS] in E.
  destruct (if cs_server _ then _ else _) as [[frames|e|] c1]; [by injection E as <- <-|destruct e; unfold cbind, cret in E|done].
  all: match type of E with (let (_, _) := ?m in _) = _ => destruct m as [[[]|e'|] c2] end; by simplify_eq.
Qed.

Definition noDialer : Dialer W := MkDialer None None None None.

(** The handshake of a connection that was just opened: its invariant holds after it. *)
Lemma handshaked_client fuel timer (tr : transport W) tls cfg req k r :
  from_option good True timer -> handshaked fuel timer (ClientConn tr tls cfg req) k = r -> r <> DialPanic ->
  exists x err, r = k x err /\ good (cx_conn x) /\
    (hs_err (cx_hs x) = Some HandshakeError -> cn_closed (cx_conn x) = true) /\
    (err = None -> hs_complete (cx_hs x) = true /\
       match tls with
       | Some t => ts_handshakeErr t = None /\ ts_Mutual t = true /\ ts_Protocol t = ProtocolTLS
       | None => True
       end).
Proof.
  intros Htimer. destruct (open_ok false tr tls cfg req) as (Hg & Hr & Hga & Hs). unfold handshaked, ClientConn.
  set (x := open false tr tls cfg req) in *. change (cx_hs x) with newHS.
  assert (Hrun : forall r, match Handshake fuel (cx_config x) newHS (cx_conn x) with
    | (Ok h, c) => k (MkConnection (cx_config x) c h) (hs_err h)
    | (Err e, c) => k (MkConnection (cx_config x) c newHS) (Some e)
    | (Panic, _) => DialPanic end = r -> r <> DialPanic -> exists x err, r = k x err /\ good (cx_conn x) /\
    (hs_err (cx_hs x) = Some HandshakeError -> cn_closed (cx_conn x) = true) /\
    (err = None -> hs_complete (cx_hs x) = true /\
       match tls with
       | Some t => ts_handshakeErr t = None /\ ts_Mutual t = true /\ ts_Protocol t = ProtocolTLS
       | None => True
       end)).
  { destruct (Handshake_fine fuel (cx_config x) newHS (cx_conn x) Hg Hr (fun _ _ => Hga)) as (_ & Hg' & _).
    destruct (Handshake fuel (cx_config x) newHS (cx_conn x)) as [[h|e|] c] eqn:E; intros r' <- Hn; [| |done]; cbn [snd] in Hg'.
    2: { by exists (MkConnection (cx_config x) c newHS), (Some e). }
    exists (MkConnection (cx_config x) c h), (hs_err h). split_and!; [done|done| |].
    - by apply (handshake_error_closed fuel (cx_config x) h (cx_conn x) c).
    - intros He. split; [by apply (handshake_complete fuel (cx_config x) h (cx_conn x) c)|]. destruct tls as [t|]; [|done].
      destruct (client_handshake_tls fuel (cx_config x) t h (cx_conn x) c) as (? & ? & ? & ?); done. }
  destruct timer as [c|]; [|apply Hrun]. destruct (0 <? _); [|apply Hrun]. cbn in Htimer. clear Hrun.
  pose proof (close_closes c Htimer) as Hcl. destruct (close_fine_conn False c Htimer) as (_ & Hgc & _).
  unfold handshakeTimedOut. cbn [hs_err hs_complete newHS]. unfold ignore, ctry, cbind, cret.
  destruct (Conn_close c) as [[[]|e|] c1]; intros <- Hn; [| |done]; cbn [snd] in *;
    (eexists (MkConnection (cx_config x) c1 _), _; split_and!; [reflexivity|done|done|done]).
Qed.

Lemma addProtocol_in protos : ProtocolTLS ∈ addProtocol protos.
Proof. unfold addProtocol. case_bool_decide; [done|]. apply elem_of_app. right. by left. Qed.

(** The configuration of the client: "h2" is offered, the name is the caller's or the host of
    the address, and whether the name is checked is for the caller to say. *)
Lemma clientTLSConfig_spec cfg address config :
  clientTLSConfig cfg address = inr config ->
  ProtocolTLS ∈ tc_NextProtos config /\
  tc_InsecureSkipVerify config = default false (tc_InsecureSkipVerify <$> cfg) /\
  (if bool_decide (default [] (tc_ServerName <$> cfg) = [])
   then exists port, SplitHostPort address = inr (tc_ServerName config, port)
   else tc_ServerName config = default [] (tc_ServerName <$> cfg)).
Proof.
  unfold clientTLSConfig.
  replace (tc_ServerName (tc_set_NextProtos _ _)) with (default [] (tc_ServerName <$> cfg)) by (by destruct cfg).
  case_bool_decide.
  - destruct (SplitHostPort address) as [e|[host port]]; [done|]. intros [= <-].
    split_and!; [apply addProtocol_in|by destruct cfg|by exists port].
  - intros [= <-]. split_and!; [apply addProtocol_in|by destruct cfg..].
Qed.
End Facts.

(** ** Theorems *)

(** C19: with the library's own TLS dialling, no [DialTLS] callback, a connection that [Dial]
    returns without an error is an HTTP/2 connection to the host that was asked for: "h2" was
    offered and mutually negotiated in a TLS handshake that succeeded, the configuration named
    the host of the address unless the caller named another, the peer's certificate was
    checked against that name unless the caller asked to skip it, the HTTP/2 handshake is
    complete, and the connection satisfies its invariant.  (A [DialTLS] callback is left alone:
    [Dial] configures nothing for it and checks no name.) *)
Theorem dial_tls_secure {W} `{ConnEnv W} `{HttpEnv} `{NetEnv W} fuel timer (d : Dialer W) address req conn :
  from_option good True timer -> d_DialTLS d = None -> Dial fuel timer (Some d) ProtocolTLS address req = Dialed conn None ->
  let addr := joinHostPort address (str "https") in
  exists x config tr, conn = Some x /\ clientTLSConfig (d_TLSClientConfig d) addr = inr config /\ dialTCP d addr = inr tr /\
    ProtocolTLS ∈ tc_NextProtos config /\
    (if bool_decide (default [] (tc_ServerName <$> d_TLSClientConfig d) = [])
     then exists port, SplitHostPort addr = inr (tc_ServerName config, port)
     else tc_ServerName config = default [] (tc_ServerName <$> d_TLSClientConfig d)) /\
    let '(tc, tls) := tls_Client tr config in
    ts_handshakeErr tls = None /\ ts_Mutual tls = true /\ ts_Protocol tls = ProtocolTLS /\
    (default false (tc_InsecureSkipVerify <$> d_TLSClientConfig d) = false ->
       tls_VerifyHostname tc config (tc_ServerName config) = None) /\
    hs_complete (cx_hs x) = true /\ good (cx_conn x).
Proof.
  intros Htimer Hd Hdial addr. unfold Dial in Hdial. cbn [default from_option id] in Hdial. rewrite Hd in Hdial.
  rewrite bool_decide_false, bool_decide_true in Hdial by done. fold addr in Hdial.
  destruct (clientTLSConfig (d_TLSClientConfig d) addr) as [e|config] eqn:Ec; [done|].
  destruct (dialTCP d addr) as [e|tr] eqn:Et; [done|]. destruct (tls_Client tr config) as [tc tls] eqn:Etls.
  destruct (clientTLSConfig_spec _ _ _ Ec) as (Hnp & Hsk & Hsn).
  apply handshaked_client in Hdial as (x & err & Hx & Hg & _ & Hok); [|done..]. unfold verifyPeer in Hx.
  destruct err as [e|]; [done|]. destruct (Hok eq_refl) as (Hcomp & H2 & H3 & H4).
  exists x, config, tr. rewrite Hsk, Etls in *.
  assert (Hv : default false (tc_InsecureSkipVerify <$> d_TLSClientConfig d) = false -> tls_VerifyHostname tc config (tc_ServerName config) = None).
  { intros Hf. rewrite Hf in Hx. by destruct (tls_VerifyHostname _ _ _). }
  split_and!; try done.
  destruct (default false _); [by injection Hx as ->|]. rewrite Hv in Hx by done. by injection Hx as ->.
Qed.

(** C20: a failed [Dial] and the connection it returns.  Whatever the protocol and the callbacks,
    a connection that is returned with an error satisfies its invariant and is closed when the
    handshake failed as such or timed out; with the library's own TLS dialling, no [DialTLS]
    callback, it is closed with any error, a refused host name included.  (With a callback,
    and without TLS, an error that is not the handshake's own leaves it open.) *)
Theorem dial_failure_closes {W} `{ConnEnv W} `{HttpEnv} `{NetEnv W} fuel timer (d : Dialer W) protocol address req x e :
  from_option good True timer -> Dial fuel timer (Some d) protocol address req = Dialed (Some x) (Some e) ->
  good (cx_conn x) /\
  ((protocol = ProtocolTLS /\ d_DialTLS d = None) \/ hs_err (cx_hs x) = Some HandshakeError -> cn_closed (cx_conn x) = true).
Proof.
  intros Htimer. unfold Dial, connect. cbn [default from_option id]. case_bool_decide as Hp; [|case_bool_decide as Hp2; [|done]].
  - subst protocol. destruct (dialTCP d _) as [e1|tr]; [done|]. intros Hd.
    apply handshaked_client in Hd as (x' & err & [= <- <-] & Hg & Hcl & _); [|done..]. split; [done|]. by intros [[? _]|?]; [|apply Hcl].
  - destruct (d_DialTLS d) as [dial|].
    + destruct (dial _) as [e1|[tr tls]]; [done|]. intros Hd.
      apply handshaked_client in Hd as (x' & err & [= <- <-] & Hg & Hcl & _); [|done..]. split; [done|]. by intros [[_ ?]|?]; [|apply Hcl].
    + destruct (clientTLSConfig _ _) as [e1|config]; [done|]. destruct (dialTCP d _) as [e1|tr]; [done|].
      destruct (tls_Client tr config) as [tc tls]. intros Hd. apply handshaked_client in Hd as (x' & err & Hx & Hg & _); [|done..].
      unfold verifyPeer in Hx. destruct (match err with Some _ => _ | None => _ end) as [e'|]; [|done]. injection Hx as -> _.
      split; [|intros _; by apply close_closes]. by apply (close_fine_conn False).
Qed.

(** A handshake that times out is final.  The connection is closed, whatever the handshake
    has got to, [Handshake] returns the timeout, and however the connection develops after
    that, the abandoned handshake included, [WriteFrame] returns [ErrClosed] and [ReadFrame]
    the handshake's error, and neither changes anything. *)
Theorem handshake_timeout_final {W} `{ConnEnv W} `{HttpEnv} server (c : Conn W) :
  reachable server c ->
  exists h c', handshakeTimedOut newHS c = (Ok h, c') /\ hs_err h = Some HandshakeError /\ cn_closed c' = true /\
    forall c2, evolves c' c2 -> forall fuel cfg sel f,
      WriteFrame_public fuel cfg sel f h c2 = (Err ErrClosed, c2) /\ ReadFrame_public fuel cfg h c2 = (Ok (h, None), c2).
Proof.
  intros Hr. destruct (reachable_good server c Hr) as [Hg _].
  pose proof (close_closes c Hg) as Hcl. destruct (close_fine_conn True c Hg) as (Hp & _ & _).
  unfold handshakeTimedOut. cbn [hs_err hs_complete newHS]. unfold ignore, ctry, cbind at 1 2.
  destruct (Conn_close c) as [[[]|e|] c1]; [| |by destruct (Hp I)]; cbn [snd] in Hcl;
    (eexists _, _; split_and!; [reflexivity|done|done|]);
    intros c2 (_ & _ & _ & _ & Hev & _) fuel cfg sel f; unfold WriteFrame_public, ReadFrame_public, Handshake, cbind, cget; cbn [hs_err];
    by rewrite (Hev Hcl).
Qed.

(** ** Examples of dialling *)

(** A net with one host: it answers with an empty SETTINGS frame, and its certificate is for
    its name. *)
#[global] Instance sample_net : NetEnv (list byte).
Proof.
  refine {| net_Dial addr := inr (MkTransport [] (map zb [0; 0; 0; 4; 0; 0; 0; 0; 0]) ErrEOF []);
            net_addrError _ := PlainError "address"; net_Listen _ := inl ErrEOF;
            tls_Client tr cfg := (tr, MkTLSState None ProtocolTLS true 0x0303 0xc02f);
            tls_Server tr cfg := (tr, MkTLSState None ProtocolTLS true 0x0303 0xc02f);
            tls_VerifyHostname _ _ name := if bool_decide (name = str "example.com") then None else Some (PlainError "name");
            tls_LoadX509KeyPair _ _ := inr 1 |}.
Defined.

Definition dialConn {W} (r : dialResult W) : option (connection W) := match r with Dialed c _ => c | DialPanic => None end.
Definition dialErr {W} (r : dialResult W) : option error := match r with Dialed _ e => e | DialPanic => None end.

Definition sampleDial (address : gostring) : dialResult (list byte) :=
  Dial 8 None (Some noDialer) ProtocolTLS address None.

Lemma sampleDial_eq address : sampleDial address <> DialPanic -> sampleDial address = Dialed (dialConn (sampleDial address)) (dialErr (sampleDial address)).
Proof. by destruct (sampleDial address). Qed.

Lemma dial_tls_secure_witness :
  exists x, dialConn (sampleDial (str "example.com")) = Some x /\ hs_complete (cx_hs x) = true /\ good (cx_conn x).
Proof.
  assert (Hr : sampleDial (str "example.com") = Dialed (dialConn (sampleDial (str "example.com"))) None).
  { rewrite (sampleDial_eq (str "example.com")) at 1 by (vm_compute; discriminate). apply (f_equal2 Dialed); [reflexivity|vm_compute; reflexivity]. }
  destruct (dial_tls_secure 8 None noDialer (str "example.com") None _ I eq_refl Hr) as (x & config & tr & Hx & _ & _ & _ & _ & Ht).
  destruct (tls_Client tr config) as [tc tls]. destruct Ht as (_ & _ & _ & _ & Hc & Hg).
  exists x. split; [exact Hx|]. split; [exact Hc|exact Hg].
Defined.

Lemma dial_failure_closes_witness :
  exists x, dialConn (sampleDial (str "example.org:444")) = Some x /\ cn_closed (cx_conn x) = true.
Proof.
  set (r := sampleDial (str "example.org:444")).
  destruct (dialConn r) as [x|] eqn:Ex; [|exfalso; vm_compute in Ex; discriminate Ex].
  assert (Hr : sampleDial (str "example.org:444") = Dialed (Some x) (Some (PlainError "name"))).
  { rewrite (sampleDial_eq (str "example.org:444")) by (vm_compute; discriminate). rewrite <- Ex. apply (f_equal2 Dialed); [reflexivity|vm_compute; reflexivity]. }
  destruct (dial_failure_closes 8 None noDialer ProtocolTLS (str "example.org:444") None x (PlainError "name") I Hr) as [_ Hc].
  exists x. split; [reflexivity|]. apply Hc. left. split; reflexivity.
Defined.

(** ** Host and port *)

(** A name or port without a colon or brackets. *)
Definition plain (s : gostring) : Prop := absent 58 s /\ absent 91 s /\ absent 93 s.

Lemma indexByte_absent s x : absent x s -> indexByte s x = -1.
Proof. induction 1 as [|b s Hb _ IH]; [done|]. cbn [indexByte]. rewrite IH. by destruct (Z.eqb_spec (bz b) x). Qed.

Lemma lastIndexByte_absent s x : absent x s -> lastIndexByte s x = -1.
Proof. induction 1 as [|b s Hb _ IH]; [done|]. cbn [lastIndexByte]. rewrite IH. by destruct (Z.eqb_spec (bz b) x). Qed.

Lemma indexByte_at s b t x : absent x s -> bz b = x -> indexByte (s ++ b :: t) x = zlen s.
Proof.
  intros Hs Hb. induction Hs as [|a s Ha _ IH]; cbn [app indexByte]; [by rewrite (proj2 (Z.eqb_eq _ _) Hb)|].
  rewrite IH, zlen_cons. destruct (Z.eqb_spec (bz a) x); [done|]. pose proof (zlen_nonneg s). zcases; lia.
Qed.

Lemma lastIndexByte_at s b t x : absent x t -> bz b = x -> lastIndexByte (s ++ b :: t) x = zlen s.
Proof.
  intros Ht Hb. induction s as [|a s IH]; cbn [app lastIndexByte].
  - by rewrite lastIndexByte_absent, (proj2 (Z.eqb_eq _ _) Hb) by done.
  - rewrite IH, zlen_cons. pose proof (zlen_nonneg s). zcases; lia.
Qed.

Lemma lastIndexByte_le s x : lastIndexByte s x < zlen s.
Proof. induction s as [|b s IH]; [done|]. cbn [lastIndexByte]. rewrite zlen_cons. pose proof (zlen_nonneg s). zcases; lia. Qed.

Lemma colon : zb 58 :: [] = str ":".
Proof. done. Qed.

(** [name:port], [name] and [port] plain *)
Lemma split_plain name port :
  plain name -> plain port -> SplitHostPort (name ++ str ":" ++ port) = inr (name, port).
Proof.
  intros (Hn1 & Hn2 & Hn3) (Hp1 & Hp2 & Hp3). unfold SplitHostPort. rewrite <- colon. cbn [app].
  rewrite (lastIndexByte_at name (zb 58) port 58) by done. pose proof (zlen_nonneg name).
  destruct (Z.ltb_spec (zlen name) 0); [lia|].
  rewrite bool_decide_false.
  2: { destruct name as [|b name]; [done|]. apply Forall_cons in Hn2 as [Hb _]. cbn. congruence. }
  assert (Hto : Z.to_nat (zlen name) = length name) by (unfold zlen; lia).
  rewrite Hto, take_app_length, (indexByte_absent name) by done. cbn [Z.leb Z.compare drop].
  rewrite !indexByte_absent by (apply absent_app; [done|constructor; done]). cbn [Z.leb Z.compare].
  replace (Z.to_nat (zlen name + 1)) with (length (name ++ [zb 58])) by (rewrite length_app; cbn; unfold zlen; lia).
  change (zb 58 :: port) with ([zb 58] ++ port). by rewrite app_assoc, drop_app_length.
Qed.

(** [[name]:port], where the name may have colons *)
Lemma split_bracket name port :
  absent 91 name -> absent 93 name -> plain port ->
  SplitHostPort (str "[" ++ name ++ str "]:" ++ port) = inr (name, port).
Proof.
  intros Hn2 Hn3 (Hp1 & Hp2 & Hp3). change (str "[" ++ name ++ str "]:" ++ port) with (zb 91 :: name ++ zb 93 :: zb 58 :: port).
  set (s := zb 91 :: name ++ _). unfold SplitHostPort. pose proof (zlen_nonneg name). pose proof (zlen_nonneg port).
  assert (Hi : lastIndexByte s 58 = zlen name + 2).
  { unfold s. change (zb 91 :: name ++ zb 93 :: zb 58 :: port) with ((zb 91 :: name) ++ [zb 93] ++ zb 58 :: port).
    rewrite app_assoc, (lastIndexByte_at _ (zb 58) port 58) by done. rewrite zlen_app, zlen_cons. change (zlen [zb 93]) with 1. lia. }
  assert (He : indexByte s 93 = zlen name + 1).
  { unfold s. change (zb 91 :: name ++ zb 93 :: zb 58 :: port) with ((zb 91 :: name) ++ zb 93 :: zb 58 :: port).
    rewrite (indexByte_at _ (zb 93)), zlen_cons; [lia|by constructor|done]. }
  assert (Hl : zlen s = zlen name + 3 + zlen port) by (unfold s; rewrite zlen_cons, zlen_app, !zlen_cons; lia).
  rewrite Hi, He, Hl. destruct (Z.ltb_spec (zlen name + 2) 0); [lia|]. rewrite bool_decide_true by done.
  destruct (Z.ltb_spec (zlen name + 1) 0); [lia|]. destruct (Z.eqb_spec (zlen name + 1 + 1) (zlen name + 3 + zlen port)); [lia|].
  destruct (Z.eqb_spec (zlen name + 1 + 1) (zlen name + 2)); [|lia].
  assert (T1 : take (Z.to_nat (zlen name + 1)) s = zb 91 :: name).
  { replace (Z.to_nat (zlen name + 1)) with (length (zb 91 :: name)) by (cbn; unfold zlen; lia).
    change s with ((zb 91 :: name) ++ zb 93 :: zb 58 :: port). by rewrite take_app_length. }
  assert (T2 : drop (Z.to_nat (zlen name + 1 + 1)) s = zb 58 :: port).
  { replace (Z.to_nat (zlen name + 1 + 1)) with (length ((zb 91 :: name) ++ [zb 93])) by (rewrite length_app; cbn; unfold zlen; lia).
    change s with ((zb 91 :: name) ++ [zb 93] ++ zb 58 :: port). by rewrite app_assoc, drop_app_length. }
  assert (T3 : drop (Z.to_nat (zlen name + 2 + 1)) s = port).
  { replace (Z.to_nat (zlen name + 2 + 1)) with (length ((zb 91 :: name) ++ [zb 93; zb 58])) by (rewrite length_app; cbn; unfold zlen; lia).
    change s with ((zb 91 :: name) ++ [zb 93; zb 58] ++ port). by rewrite app_assoc, drop_app_length. }
  rewrite T1, T2, T3. cbn [drop]. unfold s.
  rewrite !indexByte_absent; [done|by constructor|]. apply absent_app; [done|by repeat constructor].
Qed.

(** The port that is dialled and the name that is verified.  [joinHostPort] appends the
    default port to a host that has none, plain or in brackets, and keeps one that is there;
    what it gives splits again into the host, without its brackets, and that port; and a
    second [joinHostPort] changes nothing. *)
Theorem joinHostPort_splits name port dflt :
  plain dflt -> plain port ->
  (plain name ->
   SplitHostPort (joinHostPort name dflt) = inr (name, dflt) /\
   SplitHostPort (joinHostPort (name ++ str ":" ++ port) dflt) = inr (name, port)) /\
  (absent 91 name -> absent 93 name ->
   SplitHostPort (joinHostPort (str "[" ++ name ++ str "]") dflt) = inr (name, dflt) /\
   SplitHostPort (joinHostPort (str "[" ++ name ++ str "]:" ++ port) dflt) = inr (name, port)) /\
  forall host other, joinHostPort (joinHostPort host dflt) other = joinHostPort host dflt.
Proof.
  intros Hd Hp. pose proof Hd as (Hd1 & Hd2 & Hd3). pose proof Hp as (Hp1 & Hp2 & Hp3). split_and!.
  - intros Hn. pose proof Hn as (Hn1 & _ & Hn3). unfold joinHostPort. rewrite <- colon. cbn [app].
    rewrite (lastIndexByte_absent name 58) by done. cbn [Z.ltb Z.compare orb].
    rewrite (lastIndexByte_at name (zb 58) port 58), (lastIndexByte_absent _ 93) by (done || (apply absent_app; [done|by constructor])).
    pose proof (zlen_nonneg name). destruct (Z.ltb_spec (zlen name) 0); [lia|]. destruct (Z.ltb_spec (zlen name) (-1)); [lia|].
    cbn [orb]. by split; apply split_plain.
  - intros Hn2 Hn3. pose proof (zlen_nonneg name). unfold joinHostPort.
    assert (Hl1 : lastIndexByte (str "[" ++ name ++ str "]") 93 = zlen name + 1).
    { change (str "[" ++ name ++ str "]") with ((zb 91 :: name) ++ zb 93 :: []). rewrite lastIndexByte_at, zlen_cons by (done || constructor). lia. }
    assert (Hl2 : lastIndexByte (str "[" ++ name ++ str "]") 58 < zlen name + 1).
    { change (str "[" ++ name ++ str "]") with ((zb 91 :: name) ++ [zb 93]).
      assert (Hs : forall s, lastIndexByte (s ++ [zb 93]) 58 = lastIndexByte s 58) by (intros s; induction s as [|b s IH]; [done|cbn; by rewrite IH]).
      rewrite Hs. pose proof (lastIndexByte_le (zb 91 :: name) 58) as Hle. rewrite zlen_cons in Hle. lia. }
    rewrite Hl1. destruct (Z.ltb_spec (lastIndexByte (str "[" ++ name ++ str "]") 58) (zlen name + 1)); [|lia]. rewrite orb_true_r.
    change (str "[" ++ name ++ str "]:" ++ port) with ((zb 91 :: name) ++ zb 93 :: zb 58 :: port).
    assert (Hl3 : lastIndexByte ((zb 91 :: name) ++ zb 93 :: zb 58 :: port) 58 = zlen name + 2).
    { change ((zb 91 :: name) ++ zb 93 :: zb 58 :: port) with ((zb 91 :: name) ++ [zb 93] ++ zb 58 :: port).
      rewrite app_assoc, lastIndexByte_at, zlen_app, zlen_cons by done. change (zlen [zb 93]) with 1. lia. }
    rewrite Hl3, (lastIndexByte_at (zb 91 :: name) (zb 93)), zlen_cons by (done || by constructor).
    destruct (Z.ltb_spec (zlen name + 2) 0); [lia|]. destruct (Z.ltb_spec (zlen name + 2) (1 + zlen name)); [lia|]. cbn [orb].
    split; [|by apply split_bracket]. rewrite <- !app_assoc. by apply split_bracket.
  - intros host other. unfold joinHostPort at 2 3.
    destruct ((lastIndexByte host 58 <? 0) || (lastIndexByte host 58 <? lastIndexByte host 93)) eqn:E.
    + unfold joinHostPort. rewrite <- colon. cbn [app]. rewrite lastIndexByte_at by done.
      assert (Hlt : lastIndexByte (host ++ zb 58 :: dflt) 93 < zlen host).
      { clear E. induction host as [|b host IH]; cbn [app lastIndexByte]; [by rewrite lastIndexByte_absent|]. rewrite zlen_cons.
        pose proof (zlen_nonneg host). zcases; lia. }
      pose proof (zlen_nonneg host). destruct (Z.ltb_spec (zlen host) 0); [lia|].
      destruct (Z.ltb_spec (zlen host) (lastIndexByte (host ++ zb 58 :: dflt) 93)); [lia|done].
    + unfold joinHostPort. by rewrite E.
Qed.

Lemma joinHostPort_splits_witness :
  SplitHostPort (joinHostPort (str "example.com") (str "https")) = inr (str "example.com", str "https") /\
  SplitHostPort (joinHostPort (str "[::1]:8443") (str "https")) = inr (str "::1", str "8443").
Proof.
  assert (Hp : forall s, forallb (fun b => negb ((bz b =? 58) || (bz b =? 91) || (bz b =? 93))) s = true -> plain s).
  { intros s Hs. unfold plain, absent. rewrite forallb_forall in Hs.
    split_and!; apply Forall_forall; intros b Hb%list_elem_of_In%Hs; lia. }
  split.
  - apply (joinHostPort_splits (str "example.com") (str "8443") (str "https")); apply Hp; reflexivity.
  - apply (joinHostPort_splits (str "::1") (str "8443") (str "https")); [apply Hp; reflexivity..| |];
      apply Forall_forall; intros b Hb; repeat (apply elem_of_cons in Hb as [->|Hb]; [discriminate|]); by apply not_elem_of_nil in Hb.
Defined.

(** ** Listening *)

(** [ListenAndServe] hands the handler the connections accepted before the listener's first
    error, in order, and returns that error; without a handler it does not listen. *)
Lemma listen_serves {W} `{ConnEnv W} `{HttpEnv} `{NetEnv W} (s : Server) accepts e rest :
  net_Listen (orAddr (sv_Addr s) (str ":http")) = inr (map inr accepts ++ inl e :: rest) ->
  ListenAndServe (W := W) s =
    if sv_Handler s then (map (fun tr => ServerConn tr None (sv_Config s)) accepts, Some e) else ([], Some errNoHandler).
Proof.
  intros Hl. unfold ListenAndServe. destruct (sv_Handler s); [|done]. cbn [negb]. rewrite Hl. clear Hl.
  induction accepts as [|tr accepts IH]; [done|]. cbn [map app Serve]. by rewrite IH.
Qed.

(** RFC 7540, Appendix A prohibits the cipher suites without ephemeral key exchange or without
    authenticated encryption.  Of the suites of [crypto/tls]: the number, whether the key
    exchange is ephemeral (ECDHE), whether the cipher is authenticated (GCM). *)
Definition suites : list (Z * bool * bool) :=
  [(0x0005, false, false) (* RSA_WITH_RC4_128_SHA *); (0x000a, false, false) (* RSA_WITH_3DES_EDE_CBC_SHA *);
   (0x002f, false, false) (* RSA_WITH_AES_128_CBC_SHA *); (0x0035, false, false) (* RSA_WITH_AES_256_CBC_SHA *);
   (0xc007, true, false) (* ECDHE_ECDSA_WITH_RC4_128_SHA *); (0xc009, true, false) (* ECDHE_ECDSA_WITH_AES_128_CBC_SHA *);
   (0xc00a, true, false) (* ECDHE_ECDSA_WITH_AES_256_CBC_SHA *); (0xc011, true, false) (* ECDHE_RSA_WITH_RC4_128_SHA *);
   (0xc012, true, false) (* ECDHE_RSA_WITH_3DES_EDE_CBC_SHA *); (0xc013, true, false) (* ECDHE_RSA_WITH_AES_128_CBC_SHA *);
   (0xc014, true, false) (* ECDHE_RSA_WITH_AES_256_CBC_SHA *); (0xc02f, true, true) (* ECDHE_RSA_WITH_AES_128_GCM_SHA256 *);
   (0xc02b, true, true) (* ECDHE_ECDSA_WITH_AES_128_GCM_SHA256 *); (0xc030, true, true) (* ECDHE_RSA_WITH_AES_256_GCM_SHA384 *);
   (0xc02c, true, true) (* ECDHE_ECDSA_WITH_AES_256_GCM_SHA384 *)].

Definition prohibited (suite : Z) : bool :=
  existsb (fun '(code, ephemeral, aead) => (suite =? code) && negb (ephemeral && aead)) suites.

Lemma badCipher_prohibited suite : badCipher suite = prohibited suite.
Proof. unfold badCipher, prohibited, badCiphers, suites. cbn [existsb andb negb]. by rewrite !andb_true_r, !andb_false_r, !orb_false_r. Qed.

(** The preference among suites: the one HTTP/2 requires (RFC 7540, section 9.2.2), then those
    that are not prohibited, then the prohibited ones. *)
Definition preference (suite : Z) : Z := if suite =? 0xc02f then 0 else if prohibited suite then 2 else 1.

(** [new] is [old] by preference: the required suite is there once and first, the others are
    those of [old], each class in its order. *)
Definition by_preference (old new : list Z) : Prop :=
  StronglySorted (fun a b => preference a <= preference b) new /\
  filter (fun s => preference s = 0) new = [TLS_ECDHE_RSA_WITH_AES_128_GCM_SHA256] /\
  filter (fun s => preference s = 1) new = filter (fun s => preference s = 1) old /\
  filter (fun s => preference s = 2) new = filter (fun s => preference s = 2) old.

Lemma preference_required s : preference s = 0 <-> s = TLS_ECDHE_RSA_WITH_AES_128_GCM_SHA256.
Proof. unfold preference, TLS_ECDHE_RSA_WITH_AES_128_GCM_SHA256. zcases; [done|]. destruct (prohibited s); split; (discriminate || congruence). Qed.

Lemma preference_others s : s <> TLS_ECDHE_RSA_WITH_AES_128_GCM_SHA256 -> preference s = if badCipher s then 2 else 1.
Proof. rewrite badCipher_prohibited. unfold preference, TLS_ECDHE_RSA_WITH_AES_128_GCM_SHA256. zcases; by destruct (prohibited s). Qed.

(** The two groups of the loop, as classes of preference. *)
Lemma order_group (l : list Z) (b : bool) (k : Z) : k = (if b then 2 else 1) ->
  filter (fun s => badCipher s = b) (filter (fun s => s <> TLS_ECDHE_RSA_WITH_AES_128_GCM_SHA256) l) = filter (fun s => preference s = k) l.
Proof.
  intros ->. induction l as [|s l IH]; [done|]. rewrite !filter_cons, <- IH.
  destruct (decide (s = TLS_ECDHE_RSA_WITH_AES_128_GCM_SHA256)) as [->|Hs].
  - rewrite decide_False by (intros Hn; by apply Hn). by destruct b.
  - rewrite decide_True by done. rewrite filter_cons, preference_others by done. by destruct (badCipher s), b.
Qed.

Lemma filter_class (l : list Z) (k k' : Z) :
  filter (fun s => preference s = k') (filter (fun s => preference s = k) l) = if k' =? k then filter (fun s => preference s = k) l else [].
Proof.
  induction l as [|s l IH]; [by destruct (k' =? k)|]. rewrite !filter_cons. case_decide as Hs; [|done].
  rewrite filter_cons, IH. destruct (Z.eqb_spec k' k) as [Hk|Hk]; [by rewrite decide_True by congruence|by rewrite decide_False by congruence].
Qed.

Lemma class_sorted (l : list Z) (k : Z) (rest : list Z) :
  StronglySorted (fun a b => preference a <= preference b) rest -> Forall (fun s => k <= preference s) rest ->
  StronglySorted (fun a b => preference a <= preference b) (filter (fun s => preference s = k) l ++ rest).
Proof.
  intros Hs Hf. induction l as [|s l IH]; [done|]. rewrite filter_cons. case_decide as Hk; [|done]. cbn [app]. constructor; [done|].
  apply Forall_app; split; [|by rewrite Hk]. apply Forall_forall. intros t Ht. apply list_elem_of_filter in Ht as [Ht _]. lia.
Qed.

Lemma orderCiphers_preference l : by_preference l (orderCiphers l).
Proof.
  unfold by_preference, orderCiphers. cbv zeta. rewrite (order_group l false 1), (order_group l true 2) by done.
  assert (H0 : preference TLS_ECDHE_RSA_WITH_AES_128_GCM_SHA256 = 0) by (by apply preference_required).
  rewrite !filter_cons, H0, decide_True, !decide_False by done. rewrite !filter_app, !filter_class. cbn [Z.eqb]. split_and!.
  - rewrite <- (app_nil_r (filter (fun s => preference s = 2) l)). constructor.
    + apply class_sorted; [apply class_sorted; [constructor|constructor]|].
      rewrite app_nil_r. apply Forall_forall. intros s Hs. apply list_elem_of_filter in Hs as [Hs _]. lia.
    + apply Forall_forall. intros s _. rewrite H0. unfold preference. zcases; [done|]. by destruct (prohibited s).
  - by cbn.
  - cbn. by rewrite app_nil_r.
  - by cbn.
Qed.

(** The configuration a server listens with, of the caller's [old]: the certificate of the
    caller when it gives one and names no file, and else the one of the files; "h2" among the
    protocols, after the caller's; the caller's cipher suites, if any, by preference, and the
    server's preference in force; every other field is the caller's. *)
Definition for_http2 {W} `{NetEnv W} (old : tlsConfig) (certFile keyFile : gostring) (config : tlsConfig) : Prop :=
  config = tc_set_NextProtos (tc_NextProtos config) (tc_set_Certificates (tc_Certificates config)
             (tc_set_CipherSuites (tc_CipherSuites config) true old)) /\
  tc_PreferServerCipherSuites config = true /\
  (if decide (tc_Certificates old <> [] /\ certFile = [] /\ keyFile = []) then tc_Certificates config = tc_Certificates old
   else exists cert, tls_LoadX509KeyPair certFile keyFile = inr cert /\ tc_Certificates config = [cert]) /\
  ProtocolTLS ∈ tc_NextProtos config /\ tc_NextProtos old `prefix_of` tc_NextProtos config /\
  match tc_CipherSuites old, tc_CipherSuites config with
  | Some l, Some l' => by_preference l l'
  | None, None => True
  | _, _ => False
  end.

Lemma serverTLSConfig_spec {W} `{NetEnv W} (s : Server) certFile keyFile :
  match serverTLSConfig (W := W) s certFile keyFile with
  | inl e => tls_LoadX509KeyPair certFile keyFile = inl e
  | inr config => for_http2 (default emptyTLSConfig (sv_TLSConfig s)) certFile keyFile config
  end.
Proof.
  unfold serverTLSConfig. set (old := default emptyTLSConfig (sv_TLSConfig s)).
  assert (Hclone : cloneTLSConfig (sv_TLSConfig s) = old) by (unfold old; by destruct (sv_TLSConfig s) as [[]|]).
  rewrite Hclone. clearbody old. set (ini := initTLSConfig (Some old)). change (tc_Certificates ini) with (tc_Certificates old).
  assert (Hini : forall certs,
    (if decide (tc_Certificates old <> [] /\ certFile = [] /\ keyFile = []) then certs = tc_Certificates old
     else exists cert, tls_LoadX509KeyPair certFile keyFile = inr cert /\ certs = [cert]) ->
    for_http2 old certFile keyFile (tc_set_Certificates certs ini)).
  { intros certs Hcerts. split_and!; [done|done|done|apply addProtocol_in| |].
    - cbn. unfold addProtocol. case_bool_decide; [done|]. by apply prefix_app_r.
    - cbn. destruct (tc_CipherSuites old) as [l|]; [apply orderCiphers_preference|done]. }
  destruct (_ || _) eqn:E.
  - destruct (tls_LoadX509KeyPair certFile keyFile) as [e|cert] eqn:El; [done|]. apply Hini.
    case_decide as Hd; [|by exists cert]. destruct Hd as (Hd & -> & ->). rewrite bool_decide_false, !bool_decide_true in E by done. done.
  - apply orb_false_iff in E as [[E1 E2]%orb_false_iff E3]. apply bool_decide_eq_false in E1.
    apply negb_false_iff, bool_decide_eq_true in E2, E3. specialize (Hini (tc_Certificates old)).
    rewrite decide_True in Hini by done. specialize (Hini eq_refl). by destruct old.
Qed.

(** C36: a TLS listener is configured for HTTP/2.  Without a handler [ListenAndServeTLS] serves
    nothing, and neither without the certificate it has to load or without a listener, whose
    errors it returns.  Otherwise the configuration it listens with is the caller's but for
    the certificate (the caller's when it gives one and names no file, else the loaded one),
    "h2" after the caller's protocols, the caller's cipher suites ordered (the required one
    first, the prohibited ones last, each class complete and in its order) and the server's
    preference in force; and it hands the handler exactly the connections accepted before the
    listener's first error, each a fresh server connection on its negotiated TLS state, and
    returns that error. *)
Theorem listen_tls_configured {W} `{ConnEnv W} `{HttpEnv} `{NetEnv W} (s : Server) certFile keyFile :
  (sv_Handler s = false -> ListenAndServeTLS (W := W) s certFile keyFile = ([], Some errNoHandler)) /\
  (sv_Handler s = true ->
   match serverTLSConfig (W := W) s certFile keyFile with
   | inl e => tls_LoadX509KeyPair certFile keyFile = inl e /\ ListenAndServeTLS (W := W) s certFile keyFile = ([], Some e)
   | inr config =>
     for_http2 (default emptyTLSConfig (sv_TLSConfig s)) certFile keyFile config /\
     match net_Listen (orAddr (sv_Addr s) (str ":https")) with
     | inl e => ListenAndServeTLS (W := W) s certFile keyFile = ([], Some e)
     | inr accepted => forall accepts e rest, accepted = map inr accepts ++ inl e :: rest ->
         ListenAndServeTLS (W := W) s certFile keyFile =
           (map (fun tr => let (tc, tls) := tls_Server tr config in ServerConn tc (Some tls) (sv_Config s)) accepts, Some e)
     end
   end).
Proof.
  unfold ListenAndServeTLS. split; intros ->; cbn [negb]; [done|]. pose proof (serverTLSConfig_spec s certFile keyFile) as Hs.
  destruct (serverTLSConfig s certFile keyFile) as [e|config]; [done|]. split; [done|].
  destruct (net_Listen _) as [e|accepted]; [done|]. intros accepts e rest ->.
  clear. induction accepts as [|tr accepts IH]; [done|]. cbn [map app]. destruct (tls_Server tr _) as [tc tls]. cbn [Serve]. by rewrite IH.
Qed.

(** A listener that accepts one connection and fails, and a server with three suites. *)
#[local] Instance one_client : NetEnv (list byte) :=
  {| net_Dial := net_Dial; net_addrError := net_addrError;
     net_Listen _ := inr [inr (MkTransport [] [] ErrEOF []); inl ErrEOF];
     tls_Client := tls_Client; tls_Server := tls_Server; tls_VerifyHostname := tls_VerifyHostname;
     tls_LoadX509KeyPair := tls_LoadX509KeyPair |}.

Definition tls_server : Server :=
  MkServer [] true None (Some (tc_set_CipherSuites (Some [0x002f; 0xc02b; 0xc02f]) false emptyTLSConfig)).

Lemma listen_tls_configured_witness :
  exists config, serverTLSConfig tls_server (str "c.pem") (str "k.pem") = inr config /\
    tc_Certificates config = [1] /\ tc_CipherSuites config = Some [0xc02f; 0xc02b; 0x002f] /\
    for_http2 (tc_set_CipherSuites (Some [0x002f; 0xc02b; 0xc02f]) false emptyTLSConfig) (str "c.pem") (str "k.pem") config /\
    exists conn, ListenAndServeTLS tls_server (str "c.pem") (str "k.pem") = ([conn], Some ErrEOF).
Proof.
  destruct (listen_tls_configured tls_server (str "c.pem") (str "k.pem")) as [_ Ht]. specialize (Ht eq_refl).
  destruct (serverTLSConfig tls_server (str "c.pem") (str "k.pem")) as [e|config] eqn:E; [destruct Ht as [Ht _]; discriminate Ht|].
  destruct Ht as [Hf Hl]. exists config. split; [reflexivity|].
  split; [injection E as <-; reflexivity|]. split; [injection E as <-; vm_compute; reflexivity|]. split; [exact Hf|].
  eexists. exact (Hl [MkTransport [] [] ErrEOF []] ErrEOF [] eq_refl).
Defined.

(** A server connection on which nothing has happened. *)
Definition idleServer : Conn (list byte) := newConn true (newFrameReader [] ErrEOF [] 4096) [].

Lemma handshake_timeout_final_witness :
  exists h c', handshakeTimedOut newHS idleServer = (Ok h, c') /\ cn_closed c' = true.
Proof.
  destruct (handshake_timeout_final true idleServer) as (h & c' & Hh & _ & Hc & _).
  - exists [], ErrEOF, [], 4096, []. apply rtc_refl.
  - exists h, c'. split; [exact Hh|exact Hc].
Defined.
